(* ===== verification/_CoqProject ===== *)
-Q . S2P
Prelude.v
Text.v
Float.v
Types.v
U256Facts.v
Crypto.v
Transaction.v
Vertex.v
Dag.v
DagFacts.v
DagSearch.v
DagProps.v
DagConverge.v
Quorum.v
Finality.v
FinalityFacts.v
FinalityProps.v
Validator.v
ValidatorFacts.v
Bft.v
BftFacts.v
BftProps.v
Pos.v
PosProps.v
Gas.v
Receipt.v
GasProps.v
EvmState.v
EvmStateProps.v
Executor.v
ExecutorProps.v
TipSelection.v
Proposer.v
ProposerProps.v
Slices.v
Trie.v
TrieFacts.v
TrieCanon.v
TrieProps.v
Storage.v
Checkpoint.v
StorageProps.v
CheckpointProps.v
Iso8583.v
Iso8583Props.v
IsoValidators.v
IsoValidatorsProps.v
Blake2.v
Blake2Props.v
Precompiles.v
PrecompilesProps.v
PrecompileCalls.v
ZkField.v
Poseidon.v
PoseidonProps.v
Commitment.v
CommitmentProps.v
Circuits.v
CircuitsProps.v
Groth16.v
Groth16Props.v
Iso20022.v
MessageRouter.v
MessageRouterProps.v
Peer.v
PeerProps.v
Sync.v
SyncProps.v
Mempool.v
MempoolProps.v
Gossip.v
GossipProps.v
Genesis.v
GenesisProps.v
Rpc.v
RpcProps.v
Node.v
NodeProps.v
IsoLog.v
Metrics.v
