(* ===== verification/Prelude.v ===== *)
(** * NexusChain: verification development

    NexusChain (src/crates) is a ledger in Rust: vertices form a directed
    acyclic graph, validators make it final by votes, a BFT engine with proof of
    stake elects and finalizes proposals, an EVM executes transactions, a trie
    stores accounts, bank messages are parsed and routed, payments can be
    proved in zero knowledge, and a node connects these to a network and to
    clients.  This library translates these crates into Rocq definitions and
    proves what makes them correct.  Definitions keep the names of the source
    where they can; each file says which source file it models.

    ** How the code is modelled

    - Integers are [Z] with the width written out: the release profile leaves
      overflow checks off, so [+!], [-!], [*!] wrap at 2^64, [add128] at 2^128,
      and [sat_...] saturate.  [U256] is the record of four limbs of the source
      with its loops over them.  Floats are binary64 of the Standard Library's
      [SpecFloat], with their text; only [exp] and [ln] are arguments.
    - A [Result] is [outcome]: [Ok] and [Err], and also [Panic] (an [unwrap], an
      [expect], a slice out of range) and [Blocked] (a thread that waits for a
      lock guard it holds itself; also a loop that outruns its fuel).  A method
      that keeps its mutations when it fails is a state monad [M] whose state is
      outside the outcome.
    - [HashMap], [DashMap] and [HashSet] are [gmap] and [gset]; the order in
      which the source enumerates them is a parameter, [HashOrder], and every
      theorem holds for every order.  Two instances evaluate the definitions
      and show where the result depends on the order.
    - Third-party crates are type classes whose instances are arguments, with
      the documented laws a theorem needs as a second class or record: BLAKE3,
      Keccak-256 and ECDSA ([CryptoLib]), RLP headers ([RlpLib]), random draws
      ([RandLib] with [RandLaws], [WeightedLib]), [exp] and [ln] ([FloatLib]),
      REVM ([RevmLib]), SHA-256 and RIPEMD-160 ([DigestLib]), big integers
      ([BigUintLib]), pairings ([Bn254]), the scalar field, curve, constraint
      system and Groth16 of the ark crates ([FieldLib], [CurveLib], [R1csLib],
      [Groth16Lib]), regular expressions ([RegexLib]), serde_json ([ToVec],
      [LogLib], [JsonLib] with [RpcParsers]), XML ([XmlLib]), bincode
      ([BincodeLib]) and hex decoding ([HexLib]).  What is used in one place is
      a variable of its section: the toml crate, the parsers of socket addresses
      and of multiaddresses, the calls of libp2p that fail ([refused]) and the
      file operations that fail ([fault]).  No theorem assumes that a digest has
      no collisions: such theorems conclude with the alternative that data
      collides, and their witnesses evaluate them where none does.  The clocks
      are arguments.
    - [Arc]s that several objects share are one state threaded through them.
      Locks matter in bft.rs, where a method runs with the list of guards its
      thread holds, and in mempool.rs, where threads take two mutexes in steps
      that interleave; elsewhere calls are atomic.

    ** The parts

    - Prelude: outcomes, the state monad, machine integers, byte strings, hash
      table order; Slices: ranges of byte slices; Text: ASCII, decimal and
      hexadecimal text, UTF-8; Float: doubles, their rounding and their text.
      Types: U256, hashes, addresses, versions, chain parameters, errors
      (types.rs, address.rs, error.rs), with its arithmetic in U256Facts.
    - Crypto: signatures, Merkle root, vertex identifiers, contract addresses,
      the text of addresses (crypto.rs, address.rs); Transaction: transactions,
      the signed encoding, the decoder of raw Ethereum transactions, validation
      (transaction.rs).
    - Vertex, Dag: vertices and the store with its orphans, searches and pruning
      (nexus-dag/vertex.rs, dag.rs).  DagFacts has the invariant, DagSearch the
      searches, DagProps the theorems, DagConverge what two replicas agree on.
      TipSelection (tip_selection.rs) chooses parents over the store by five
      strategies that draw from a random generator, and validates them.
      Metrics (metrics.rs): counters and windows.
    - Quorum: weighted quorums as a class, instantiated by both validator sets.
      Finality (finality.rs) is the gadget that finalizes by votes, with
      FinalityFacts and FinalityProps.
    - Validator, Bft, Pos (nexus-consensus): validator sets and epochs, the round
      engine, staking; with ValidatorFacts, BftFacts, BftProps and PosProps.
      Proposer (proposer.rs) drives the store and the round from the pool.
      IsoLog (iso_logger.rs, hybrid_consensus.rs): the audit log and the engine
      that writes to it.
    - EvmState, Gas, Receipt, Executor (nexus-evm): accounts with snapshots and
      journal, the fee market and meter, receipts and blooms, and a transaction
      around REVM; with EvmStateProps, GasProps and ExecutorProps.  Blake2 and
      Precompiles (precompiles.rs): the compression function and the contracts
      with their gas; PrecompileCalls runs them inside the executor.
    - Trie (nexus-state/trie.rs) with TrieFacts, TrieCanon and TrieProps: the
      radix trie; Storage and Checkpoint (storage.rs, checkpoint.rs): the store
      of accounts over it and the chain of checkpoints.
    - Iso8583, IsoValidators, Iso20022, MessageRouter (nexus-iso): card messages,
      check digits and codes, XML payments, and routing with compliance checks.
    - ZkField, Poseidon, Commitment, Circuits, Groth16 (nexus-zkp): the field's
      laws, the hash and its Merkle tree, Pedersen commitments and accumulators,
      the circuits as constraints, and proving, verifying and nullifiers.
    - Peer, Sync, Gossip (nexus-network): the peer table, catching up with
      requests, and the gossip service with its set-up, events and commands.
    - Mempool, Rpc (nexus-rpc): the pool of submitted transactions, and the
      handlers, their table and the server.  Genesis, Node (nexus-node): the
      genesis document and its amounts, and the node that starts all of these
      and runs them, with its configuration and the commands of the command line
      on a disk (config.rs, cli.rs, main.rs).
    Each of these has its theorems in the file named with Props, or in its own
    file when there is none.

    Calls go Node -> Rpc, Proposer, Genesis, Mempool, Peer, Sync; Rpc -> Dag,
    Executor, Pos, Mempool, MessageRouter, IsoValidators; Proposer -> Dag, Bft;
    Sync -> Dag; Finality -> Dag; TipSelection -> Dag; Bft, Pos -> Validator;
    Executor -> EvmState, Gas, Receipt, Transaction; PrecompileCalls -> Executor,
    Precompiles; Storage -> Trie; Checkpoint -> Storage; MessageRouter ->
    Iso20022 -> IsoValidators; Groth16 -> Circuits -> Poseidon -> ZkField.

    ** What the theorems show

    - DAG: after calls of add_vertex that all succeed the state is well formed
      (parents stored, exact heights, acyclic, exact indexes), and after any
      calls it is so but for pending vertices whose parents are all stored,
      unless two vertices collide in BLAKE3 ([prune] breaks the indexes);
      insertion terminates however many orphans it releases; the searches
      decide reachability and count descendants; validation accepts exactly
      the antichains; on a well-formed DAG every selection of a tip passes it,
      whatever is drawn, but for the Markov chain, which may also not return;
      two replicas that receive the same vertices in any order store the same
      ones, when the clock refuses none and none is older than a parent.
    - Finality: the certificate check is exact; two certificates for different
      targets expose a third of the weight as double signers; the finalized
      height only grows; the candidate is the highest common ancestor.
    - BFT: finalized hashes had a commit quorum in every history of calls; what
      is live (a single supermajority) and what is not (a valid proposal from
      another node blocks on its own guard); which votes decide.
    - Staking: rewards are bounded, a leader owns exactly its stake's share of
      the seeds, and what undelegating and claiming really do.
    - Execution: a transfer to a plain account, priced at the base fee or
      above, moves exactly value, fee and tip and cannot be replayed; refusals
      leave the state; reverting and rolling back restore it; the root binds the accounts; fees, gas and blooms stay in bounds;
      modular exponentiation is exact, no other contract exceeds its gas, and
      the rounds of BLAKE2 are the permuted rows.
    - State: the trie refines a finite map, its shape and root depend on that
      map only, and applying and reverting checkpoints that create and delete
      no account restores the store.
    - Messages: serialized card messages of elements 2 to 128 but 65 parse back;
      parsing never panics; check digits detect the errors they are made for; amounts of money below
      2^51 are converted and printed exactly; routing follows the priorities of
      the rules.
    - Zero knowledge: Poseidon permutes, accumulators and Merkle proofs accept
      what was added (and, at full length of the path, nothing else), the
      verifier accepts honest transactions once; but the circuits constrain nothing of the statements they are named after.
    - Network: a message is forwarded once, the peer table follows the last
      event, requests are served in order, and a replica that answers in full
      brings another up to date; lost answers stall it; the service runs or has
      ended, and its caller is not told which.
    - Clients: the mempool refines a queue of distinct transactions and its
      calls are linearizable, with one deadlock; queries change nothing, while
      a simulated call moves balances; what is acknowledged and reported.
    - Node: the composition of all tasks.  From its start on, whatever happens,
      a node makes no block and executes no transaction; the bridge delivers in
      order or drops; a node that is not a validator fills up.  What the
      commands leave on the disk and what a later run makes of it.
    - Primitives: U256 arithmetic against integers and decimal text, the text of
      addresses, the rounding of doubles, encodings, Merkle binding, the metrics' windows and percentiles, the audit log.

    Where the code does not do what it means to, the theorem states what it
    does; the lemmas of the [Sample] modules evaluate such cases.  The witness
    of a theorem with hypotheses is in the [Sample] module of its file.

    ** Fuel

    [insert_vertex] recurses through released orphans and is given one more than
    the number of pending vertices: each level removes one.  The breadth-first
    searches are given the number of edges plus two: a visited hash is expanded
    once.  Merkle levels are given the length of the list.  [insert_vertex_total],
    [is_ancestor_spec], [calculate_weight_spec] and [merkle_root_binding]'s
    lemmas prove these bounds enough.  A walk in the trie has one more than the
    nibbles of the key, the search of a checkpoint chain one more than the
    checkpoints, a 64-bit decimal 20 digits and a U256 79, remainders and chunks
    the length of the text, an update of the Merkle tree the index of the leaf,
    and the search for newer vertices the latest height plus two.  The draws of
    the Markov chain up to its minimum have any fuel: [mcmc_selection_outcome]
    holds for each.  No theorem is conditional on fuel.

    ** Not modelled

    Sockets, timers, the libp2p swarm below the calls it takes and the events it
    reports, HTTP and JSON text: they are events, arguments or parameters.  The
    parsing of arguments by clap, the lines that are logged or printed, and the
    exchange of the status command.  [Node::stop], which reaches no task, and
    accessors that return a field.  Derived serializers, which are parameters.
    Records that nothing builds (the receipts of transaction.rs, blocks, logs and
    filters of types.rs in nexus-rpc) and tables of constants that nothing reads
    (response codes of iso8583.rs).  Permissions and directories of the disk
    beyond [fault].  Benchmarks and tests. *)
From stdpp Require Import base numbers list gmap sets strings.
From Stdlib Require Import ZArith Lia.

#[global] Set Default Goal Selector "!".
#[global] Open Scope Z_scope.

(** ** Outcomes of a call

    [Ok] and [Err] are the two sides of a Rust [Result]; [Panic] is a call
    that unwinds ([unwrap], [expect], an index out of range, a division by
    zero); [Blocked] is a call whose thread waits for a lock guard that it
    holds itself, and so never returns. *)
Inductive outcome (E A : Type) : Type :=
  | Ok (a : A)
  | Err (e : E)
  | Panic
  | Blocked.
Arguments Ok {E A} a.
Arguments Err {E A} e.
Arguments Panic {E A}.
Arguments Blocked {E A}.

#[export] Instance outcome_ret {E} : MRet (outcome E) := fun A a => Ok a.
#[export] Instance outcome_bind {E} : MBind (outcome E) := fun A B f m =>
  match m with
  | Ok a => f a
  | Err e => Err e
  | Panic => Panic
  | Blocked => Blocked
  end.

Definition map_err {E F A} (f : E -> F) (m : outcome E A) : outcome F A :=
  match m with
  | Ok a => Ok a
  | Err e => Err (f e)
  | Panic => Panic
  | Blocked => Blocked
  end.

(** [Option::ok_or] and [Option::unwrap]. *)
Definition ok_or {E A} (e : E) (o : option A) : outcome E A :=
  match o with Some a => Ok a | None => Err e end.
Definition unwrap {E A} (o : option A) : outcome E A :=
  match o with Some a => Ok a | None => Panic end.

(** A [for] loop whose body may leave early. *)
Fixpoint for_each {E S X} (body : S -> X -> outcome E S) (xs : list X) (s : S)
    : outcome E S :=
  match xs with
  | [] => Ok s
  | x :: xs => s' ← body s x; for_each body xs s'
  end.

(** ** State passing with errors

    A method on [&self] that mutates through a lock keeps its mutations when
    it returns [Err]: the state is outside the outcome. *)
Definition M (S E A : Type) : Type := S -> S * outcome E A.

#[export] Instance M_ret {S E} : MRet (M S E) := fun A a s => (s, Ok a).
#[export] Instance M_bind {S E} : MBind (M S E) := fun A B f m s =>
  match m s with
  | (s', Ok a) => f a s'
  | (s', Err e) => (s', Err e)
  | (s', Panic) => (s', Panic)
  | (s', Blocked) => (s', Blocked)
  end.

Definition get_state {S E} : M S E S := fun s => (s, Ok s).
Definition put_state {S E} (s : S) : M S E () := fun _ => (s, Ok ()).
Definition modify {S E} (f : S -> S) : M S E () := fun s => (f s, Ok ()).
Definition lift {S E A} (o : outcome E A) : M S E A := fun s => (s, o).
Definition fail {S E A} (e : E) : M S E A := lift (Err e).

(** ** Machine integers

    The release profile of the workspace leaves overflow checks off, so
    [+], [-] and [*] on [u64] and [u128] wrap. *)
Abbreviation B64 := 18446744073709551616 (only parsing).
Abbreviation B128 := 340282366920938463463374607431768211456 (only parsing).

Definition is_u64 (x : Z) : Prop := 0 <= x < B64.
Definition is_u128 (x : Z) : Prop := 0 <= x < B128.

Definition add64 (a b : Z) : Z := (a + b) mod B64.
Definition sub64 (a b : Z) : Z := (a - b) mod B64.
Definition mul64 (a b : Z) : Z := (a * b) mod B64.
Definition sat_add64 (a b : Z) : Z := Z.min (a + b) (B64 - 1).
Definition sat_sub64 (a b : Z) : Z := Z.max (a - b) 0.
Definition sat_mul64 (a b : Z) : Z := Z.min (a * b) (B64 - 1).
Definition add128 (a b : Z) : Z := (a + b) mod B128.
Definition mul128 (a b : Z) : Z := (a * b) mod B128.
(** [x as u64]. *)
Definition as_u64 (x : Z) : Z := x mod B64.
(** [a / b] and [a % b] on unsigned integers panic when [b] is zero. *)
Definition div_u {E} (a b : Z) : outcome E Z := if b =? 0 then Panic else Ok (a / b).
Definition mod_u {E} (a b : Z) : outcome E Z := if b =? 0 then Panic else Ok (a mod b).

(** [Iterator::sum] over [u64] and [u128]. *)
Definition sum64 (l : list Z) : Z := foldl add64 0 l.
Definition sum128 (l : list Z) : Z := foldl add128 0 l.
(** The sum without a width, which the theorems compare them with. *)
Definition sumZ (l : list Z) : Z := foldr Z.add 0 l.

Declare Scope rust_scope.
Delimit Scope rust_scope with rust.
Infix "+!" := add64 (at level 50, left associativity) : rust_scope.
Infix "-!" := sub64 (at level 50, left associativity) : rust_scope.
Infix "*!" := mul64 (at level 40, left associativity) : rust_scope.
#[global] Open Scope rust_scope.

(** Big-endian and little-endian byte strings of an unsigned integer. *)
Fixpoint to_le_bytes (n : nat) (x : Z) : list Z :=
  match n with
  | O => []
  | S n => x mod 256 :: to_le_bytes n (x / 256)
  end.
Definition to_be_bytes (n : nat) (x : Z) : list Z := rev (to_le_bytes n x).
Fixpoint from_le_bytes (l : list Z) : Z :=
  match l with
  | [] => 0
  | b :: l => b + 256 * from_le_bytes l
  end.
Definition from_be_bytes (l : list Z) : Z := from_le_bytes (rev l).

Definition is_byte (b : Z) : Prop := 0 <= b < 256.
Definition is_bytes (n : nat) (l : list Z) : Prop := length l = n /\ Forall is_byte l.

(** ** Iteration order of hash tables

    [HashMap], [HashSet] and [DashMap] promise no order: an execution sees
    some enumeration of the entries, and the theorems hold for all of them. *)
Class HashOrder := {
  entries : forall {K} `{Countable K} {A}, gmap K A -> list (K * A);
  entries_perm : forall {K} `{Countable K} {A} (m : gmap K A),
    entries m ≡ₚ map_to_list m;
  members : forall {K} `{Countable K}, gset K -> list K;
  members_perm : forall {K} `{Countable K} (s : gset K), members s ≡ₚ elements s
}.

Definition values `{HashOrder} `{Countable K} {A} (m : gmap K A) : list A :=
  (entries m).*2.
Definition keys `{HashOrder} `{Countable K} {A} (m : gmap K A) : list K :=
  (entries m).*1.

(** Two orders, to evaluate definitions with. *)
Program Definition canonical_order : HashOrder := {|
  entries := fun K _ _ A m => map_to_list m;
  members := fun K _ _ s => elements s
|}.
Solve Obligations with reflexivity.
Program Definition reversed_order : HashOrder := {|
  entries := fun K _ _ A m => reverse (map_to_list m);
  members := fun K _ _ s => reverse (elements s)
|}.
Solve Obligations with (intros; apply reverse_Permutation).

(** ** Generic lemmas *)
Create HintDb nexus.

Lemma add64_small a b : 0 <= a + b < B64 -> add64 a b = a + b.
Proof. apply Z.mod_small. Qed.
Lemma sub64_small a b : 0 <= a - b < B64 -> sub64 a b = a - b.
Proof. apply Z.mod_small. Qed.
Lemma mul64_small a b : 0 <= a * b < B64 -> mul64 a b = a * b.
Proof. apply Z.mod_small. Qed.
Lemma add128_small a b : 0 <= a + b < B128 -> add128 a b = a + b.
Proof. apply Z.mod_small. Qed.
Lemma mul128_small a b : 0 <= a * b < B128 -> mul128 a b = a * b.
Proof. apply Z.mod_small. Qed.
Lemma add64_range a b : is_u64 (add64 a b).
Proof. apply Z.mod_pos_bound. lia. Qed.
Lemma sub64_range a b : is_u64 (sub64 a b).
Proof. apply Z.mod_pos_bound. lia. Qed.
Lemma mul64_range a b : is_u64 (mul64 a b).
Proof. apply Z.mod_pos_bound. lia. Qed.
#[export] Hint Resolve add64_range sub64_range mul64_range : nexus.

Lemma sumZ_cons x l : sumZ (x :: l) = x + sumZ l.
Proof. done. Qed.
Lemma sumZ_app l1 l2 : sumZ (l1 ++ l2) = sumZ l1 + sumZ l2.
Proof. induction l1 as [|x l1 IH]; simpl; lia. Qed.
Lemma sumZ_perm l1 l2 : l1 ≡ₚ l2 -> sumZ l1 = sumZ l2.
Proof. induction 1; simpl; lia. Qed.
Lemma sumZ_nonneg l : Forall (fun x => 0 <= x) l -> 0 <= sumZ l.
Proof. induction 1; simpl; lia. Qed.
#[export] Hint Resolve sumZ_nonneg : nexus.
#[export] Instance sumZ_proper : Proper ((≡ₚ) ==> (=)) sumZ.
Proof. intros l1 l2. apply sumZ_perm. Qed.

Lemma list_filter_all {A} (P : A -> Prop) `{forall x, Decision (P x)} (l : list A) :
  (forall x, x ∈ l -> P x) -> filter P l = l.
Proof.
  induction l as [|x l IH]; intros Hl; [done|].
  rewrite filter_cons_True by (apply Hl, list_elem_of_here). f_equal. apply IH.
  intros y Hy. by apply Hl, list_elem_of_further.
Qed.
Lemma list_filter_none {A} (P : A -> Prop) `{forall x, Decision (P x)} (l : list A) :
  (forall x, x ∈ l -> ~ P x) -> filter P l = [].
Proof.
  induction l as [|x l IH]; intros Hl; [done|].
  rewrite filter_cons_False by (apply Hl, list_elem_of_here). apply IH.
  intros y Hy. by apply Hl, list_elem_of_further.
Qed.
Lemma foldl_add_mod m l a : 0 < m ->
  foldl (fun x y => (x + y) mod m) a l mod m = (a + sumZ l) mod m.
Proof.
  intros Hm. revert a. induction l as [|x l IH]; intros a; simpl.
  - f_equal. lia.
  - rewrite IH, Zplus_mod_idemp_l. f_equal. lia.
Qed.
Lemma foldl_add_mod_range m l a : 0 < m -> 0 <= a < m ->
  0 <= foldl (fun x y => (x + y) mod m) a l < m.
Proof.
  intros Hm. revert a. induction l as [|x l IH]; intros a Ha; simpl; [done|].
  apply IH. apply Z.mod_pos_bound. lia.
Qed.
Lemma sum64_spec l : sum64 l = sumZ l mod B64.
Proof.
  unfold sum64, add64. rewrite <- (Z.mod_small (foldl _ 0 l) B64).
  - rewrite foldl_add_mod by lia. f_equal.
  - apply foldl_add_mod_range; lia.
Qed.
Lemma sum128_spec l : sum128 l = sumZ l mod B128.
Proof.
  unfold sum128, add128. rewrite <- (Z.mod_small (foldl _ 0 l) B128).
  - rewrite foldl_add_mod by lia. f_equal.
  - apply foldl_add_mod_range; lia.
Qed.
Lemma sum64_small l : 0 <= sumZ l < B64 -> sum64 l = sumZ l.
Proof. intros. rewrite sum64_spec. apply Z.mod_small. lia. Qed.
Lemma sum128_small l : 0 <= sumZ l < B128 -> sum128 l = sumZ l.
Proof. intros. rewrite sum128_spec. apply Z.mod_small. lia. Qed.

Lemma to_le_bytes_length n x : length (to_le_bytes n x) = n.
Proof. revert x. induction n; simpl; auto. Qed.
Lemma to_be_bytes_length n x : length (to_be_bytes n x) = n.
Proof. unfold to_be_bytes. rewrite length_rev. apply to_le_bytes_length. Qed.
Lemma to_le_bytes_byte n x : Forall is_byte (to_le_bytes n x).
Proof.
  revert x. induction n; intros x; simpl; constructor; auto.
  apply Z.mod_pos_bound. lia.
Qed.
Lemma from_to_le_bytes n x : 0 <= x < 256 ^ Z.of_nat n ->
  from_le_bytes (to_le_bytes n x) = x.
Proof.
  revert x. induction n as [|n IH]; intros x Hx; simpl.
  - simpl in Hx. lia.
  - rewrite IH; [pose proof (Z.div_mod x 256); lia|].
    rewrite Nat2Z.inj_succ, Z.pow_succ_r in Hx by lia.
    split; [apply Z.div_pos; lia|]. apply Z.div_lt_upper_bound; lia.
Qed.
Lemma to_from_le_bytes l : Forall is_byte l ->
  to_le_bytes (length l) (from_le_bytes l) = l.
Proof.
  unfold is_byte.
  induction 1 as [|b l Hb Hl IH]; [done|].
  cbn [length to_le_bytes from_le_bytes].
  rewrite Z.mul_comm, Z_mod_plus_full, Z.mod_small by lia.
  rewrite Z.div_add by lia. rewrite Z.div_small, Z.add_0_l, IH by lia. done.
Qed.
Lemma from_to_be_bytes n x : 0 <= x < 256 ^ Z.of_nat n ->
  from_be_bytes (to_be_bytes n x) = x.
Proof. intros. unfold from_be_bytes, to_be_bytes. rewrite rev_involutive. by apply from_to_le_bytes. Qed.
Lemma to_from_be_bytes l : Forall is_byte l ->
  to_be_bytes (length l) (from_be_bytes l) = l.
Proof.
  intros Hl. unfold from_be_bytes, to_be_bytes. rewrite <- (length_rev l).
  rewrite to_from_le_bytes, rev_involutive; [done|]. by apply Forall_rev.
Qed.
Lemma from_le_bytes_range l : Forall is_byte l ->
  0 <= from_le_bytes l < 256 ^ Z.of_nat (length l).
Proof.
  unfold is_byte. induction 1 as [|b l Hb Hl IH]; [simpl; lia|].
  cbn [length from_le_bytes]. rewrite Nat2Z.inj_succ, Z.pow_succ_r by lia. lia.
Qed.

(** The body of a successful bind succeeded. *)
Lemma bind_Ok {E A B} (m : outcome E A) (f : A -> outcome E B) b :
  m ≫= f = Ok b -> exists a, m = Ok a /\ f a = Ok b.
Proof. destruct m; intros H; try discriminate. eauto. Qed.

Lemma bind_Ok_iff {E A B} (m : outcome E A) (f : A -> outcome E B) b :
  m ≫= f = Ok b <-> exists a, m = Ok a /\ f a = Ok b.
Proof. split; [apply bind_Ok|]. by intros (a & -> & ?). Qed.

Section hash_order.
Context `{HashOrder}.
Context `{Countable K} {A : Type}.
Implicit Types m : gmap K A.

Lemma elem_of_entries m k a : (k, a) ∈ entries m <-> m !! k = Some a.
Proof. rewrite entries_perm. apply elem_of_map_to_list. Qed.
Lemma elem_of_members (s : gset K) k : k ∈ members s <-> k ∈ s.
Proof. rewrite members_perm. apply elem_of_elements. Qed.
Lemma members_nodup (s : gset K) : NoDup (members s).
Proof. rewrite members_perm. apply NoDup_elements. Qed.
Lemma elem_of_values m a : a ∈ values m <-> exists k, m !! k = Some a.
Proof.
  unfold values. rewrite list_elem_of_fmap. split.
  - intros [[k x] [-> Hx]]. apply elem_of_entries in Hx. eauto.
  - intros [k Hk]. exists (k, a). split; [done|]. by apply elem_of_entries.
Qed.
Lemma entries_nodup m : NoDup (keys m).
Proof. unfold keys. rewrite entries_perm. apply NoDup_fst_map_to_list. Qed.
Lemma values_perm m : values m ≡ₚ (map_to_list m).*2.
Proof. unfold values. by rewrite entries_perm. Qed.
End hash_order.

(** Case analysis on the first [match] of a hypothesis or of the goal. *)
Ltac case_on H :=
  match type of H with
  | context [match ?x with _ => _ end] => let E := fresh "E" in destruct x eqn:E
  end.
Ltac unbind H :=
  let a := fresh "a" in let Ha := fresh "Ha" in
  apply bind_Ok in H as (a & Ha & H).
