(* ===== verification/Text.v ===== *)
(** * Text as bytes

    A [str] is the list of its UTF-8 bytes.  What the message formats use of
    the standard library: decimal and hexadecimal printing with padding,
    [str::parse] and [from_str_radix] on unsigned integers, [str::from_utf8],
    ASCII classes and upper case. *)
From stdpp Require Import base numbers list strings.
From Stdlib Require Import ZArith Lia Ascii.
From S2P Require Import Prelude.
#[local] Open Scope Z_scope.

(** [b"..."] and [str::as_bytes] of a literal; messages are [string]s. *)
Definition bytes_of (s : string) : list Z :=
  (fun c => Z.of_nat (nat_of_ascii c)) <$> String.list_ascii_of_string s.
Definition string_of (l : list Z) : string :=
  String.string_of_list_ascii ((fun b => ascii_of_nat (Z.to_nat b)) <$> l).

(** ** ASCII classes *)
Definition is_ascii_digit (b : Z) : bool := (48 <=? b) && (b <=? 57).
Definition is_ascii_upper (b : Z) : bool := (65 <=? b) && (b <=? 90).
Definition is_ascii_lower (b : Z) : bool := (97 <=? b) && (b <=? 122).
(** [to_uppercase] on ASCII *)
Definition ascii_upper (b : Z) : Z := if is_ascii_lower b then b - 32 else b.

(** ** Printing *)

(** The digits of [n] in base [b], most significant first *)
Fixpoint digits (fuel : nat) (b n : Z) : list Z :=
  match fuel with
  | O => []
  | S fuel => if n <? b then [n] else (digits fuel b (n / b) ++ [n mod b])%list
  end.
(** A [u64] has at most 20 decimal digits, a [u16] 4 hexadecimal ones. *)
Definition decimal (n : Z) : list Z := (fun d => 48 + d) <$> digits 20 10 n.
Definition hex_upper (n : Z) : list Z :=
  (fun d => if d <? 10 then 48 + d else 55 + d) <$> digits 16 16 n.
(** [{:x}] of a [u64] *)
Definition hex_lower (n : Z) : list Z :=
  (fun d => if d <? 10 then 48 + d else 87 + d) <$> digits 16 16 n.
(** [{:0w}] *)
Definition pad0 (w : nat) (l : list Z) : list Z := (replicate (w - length l) 48 ++ l)%list.
(** [{}] in a message *)
Definition show (n : Z) : string := string_of (decimal n).

(** ** Parsing *)
Definition digit_of (radix b : Z) : option Z :=
  let d :=
    if is_ascii_digit b then Some (b - 48)
    else if is_ascii_upper b then Some (b - 55)
    else if is_ascii_lower b then Some (b - 87)
    else None in
  match d with Some d => if d <? radix then Some d else None | None => None end.
(** [checked_mul] and [checked_add] along the digits *)
Fixpoint parse_digits (radix max acc : Z) (l : list Z) : option Z :=
  match l with
  | [] => Some acc
  | b :: l =>
      d ← digit_of radix b;
      if acc * radix + d <=? max then parse_digits radix max (acc * radix + d) l else None
  end.
(** [from_str_radix] of an unsigned type: one [+] may come first. *)
Definition parse_uint (radix max : Z) (l : list Z) : option Z :=
  match l with
  | [] => None
  | b :: rest =>
      if b =? 43
      then match rest with [] => None | _ => parse_digits radix max 0 rest end
      else parse_digits radix max 0 l
  end.

(** [s.strip_prefix("0x").unwrap_or(s)] *)
Definition strip_0x_bytes (l : list Z) : list Z :=
  match l with
  | c :: d :: rest => if (c =? 48) && (d =? 120) then rest else c :: d :: rest
  | l => l
  end.

(** [hex::decode] of the hex crate; [hex::encode] is with the digests. *)
Class HexLib := { hex_decode : list Z -> option (list Z) }.

(** ** [str::from_utf8] *)
Definition is_cont (b : Z) : bool := (128 <=? b) && (b <=? 191).
Definition in_range (lo b hi : Z) : bool := (lo <=? b) && (b <=? hi).
Fixpoint is_utf8 (l : list Z) : bool :=
  match l with
  | [] => true
  | a :: l1 =>
      if a <? 128 then is_utf8 l1
      else
        match l1 with
        | [] => false
        | b :: l2 =>
            if in_range 194 a 223 then is_cont b && is_utf8 l2
            else
              match l2 with
              | [] => false
              | c :: l3 =>
                  if in_range 224 a 239 then
                    in_range (if a =? 224 then 160 else 128) b (if a =? 237 then 159 else 191)
                    && is_cont c && is_utf8 l3
                  else
                    match l3 with
                    | [] => false
                    | d :: l4 =>
                        in_range 240 a 244
                        && in_range (if a =? 240 then 144 else 128) b (if a =? 244 then 143 else 191)
                        && is_cont c && is_cont d && is_utf8 l4
                    end
              end
        end
  end.
Definition from_utf8 (l : list Z) : option (list Z) := if is_utf8 l then Some l else None.

(** ** Lemmas *)
Definition is_digit_value (b d : Z) : Prop := 0 <= d < b.
(** The number that digits denote *)
Definition number (b : Z) (l : list Z) (acc : Z) : Z := foldl (fun acc d => acc * b + d) acc l.

Lemma digits_range fuel b n : 2 <= b -> 0 <= n -> Forall (is_digit_value b) (digits fuel b n).
Proof.
  intros Hb. revert n. induction fuel as [|fuel IH]; intros n Hn; [constructor|].
  cbn [digits]. case Z.ltb_spec; intros Hlt; [by repeat constructor|].
  apply Forall_app. split; [apply IH, Z.div_pos; lia|]. repeat constructor; apply Z.mod_pos_bound; lia.
Qed.
Lemma number_app b l1 l2 acc : number b (l1 ++ l2) acc = number b l2 (number b l1 acc).
Proof. apply foldl_app. Qed.
Lemma digits_number fuel b n : 2 <= b -> 0 <= n < b ^ Z.of_nat fuel -> number b (digits fuel b n) 0 = n.
Proof.
  intros Hb. revert n. induction fuel as [|fuel IH]; intros n Hn; [simpl in *; lia|].
  cbn [digits]. case Z.ltb_spec; intros Hlt; [unfold number; simpl; lia|].
  rewrite number_app, IH.
  - unfold number. simpl. pose proof (Z.div_mod n b). lia.
  - rewrite Nat2Z.inj_succ, Z.pow_succ_r in Hn by lia.
    split; [apply Z.div_pos; lia|]. apply Z.div_lt_upper_bound; lia.
Qed.
Lemma digits_length fuel b n w : 2 <= b -> (0 < w)%nat -> 0 <= n < b ^ Z.of_nat w ->
  (length (digits fuel b n) <= w)%nat.
Proof.
  intros Hb. revert n w. induction fuel as [|fuel IH]; intros n w Hw Hn; [simpl; lia|].
  cbn [digits]. case Z.ltb_spec; intros Hlt; [simpl; lia|].
  destruct w as [|[|w]]; [lia|simpl in Hn; lia|].
  rewrite length_app. simpl.
  enough (length (digits fuel b (n / b)) <= S w)%nat by lia. apply IH; [lia|].
  rewrite (Nat2Z.inj_succ (S w)), Z.pow_succ_r in Hn by lia.
  split; [apply Z.div_pos; lia|]. apply Z.div_lt_upper_bound; lia.
Qed.
Lemma number_lower b l acc : 2 <= b -> 0 <= acc -> Forall (is_digit_value b) l -> acc <= number b l acc.
Proof.
  intros Hb Ha Hl. revert acc Ha. induction Hl as [|d l [? ?] _ IH]; intros acc Ha; [done|].
  unfold number in *. simpl. etrans; [|apply IH; nia]. nia.
Qed.

Lemma parse_digits_number max l acc :
  Forall (is_digit_value 10) l -> 0 <= acc -> number 10 l acc <= max ->
  parse_digits 10 max acc ((fun d => 48 + d) <$> l) = Some (number 10 l acc).
Proof.
  intros Hl. revert acc. induction Hl as [|d l [Hd Hd'] Hl IH]; intros acc Ha Hm; [done|].
  cbn [fmap list_fmap parse_digits]. unfold digit_of, is_ascii_digit.
  rewrite (proj2 (Z.leb_le 48 (48 + d))), (proj2 (Z.leb_le (48 + d) 57)) by lia. cbn [andb].
  replace (48 + d - 48) with d by lia. rewrite (proj2 (Z.ltb_lt d 10)) by lia. simpl.
  pose proof (number_lower 10 l (acc * 10 + d)).
  change (number 10 (d :: l) acc) with (number 10 l (acc * 10 + d)) in *.
  rewrite (proj2 (Z.leb_le _ _)) by (etrans; [apply H; [lia|lia|done]|done]).
  apply IH; [lia|done].
Qed.
Lemma number_zeros b n l : number b (replicate n 0 ++ l) 0 = number b l 0.
Proof. induction n as [|n IH]; [done|]. exact IH. Qed.
Lemma pad0_digits w l : pad0 w ((fun d => 48 + d) <$> l) =
  (fun d => 48 + d) <$> (replicate (w - length l) 0 ++ l).
Proof. unfold pad0. by rewrite fmap_app, fmap_replicate, length_fmap. Qed.

Lemma pad0_length w l : (length l <= w)%nat -> length (pad0 w l) = w.
Proof. intros. unfold pad0. rewrite length_app, length_replicate. lia. Qed.
Lemma decimal_length w n : (0 < w)%nat -> 0 <= n < 10 ^ Z.of_nat w -> (length (decimal n) <= w)%nat.
Proof. intros. unfold decimal. rewrite length_fmap. by apply digits_length. Qed.
Lemma pad0_decimal_length w n : (0 < w)%nat -> 0 <= n < 10 ^ Z.of_nat w -> length (pad0 w (decimal n)) = w.
Proof. intros. by apply pad0_length, decimal_length. Qed.

(** A padded number is not empty and its first byte is a digit. *)
Lemma parse_uint_digits max l : l <> [] -> Forall (is_digit_value 10) l ->
  parse_uint 10 max ((fun d => 48 + d) <$> l) = parse_digits 10 max 0 ((fun d => 48 + d) <$> l).
Proof.
  intros Hne Hl. destruct Hl as [|d l [? ?] Hl]; [done|]. unfold parse_uint. cbn [fmap list_fmap].
  by rewrite (proj2 (Z.eqb_neq (48 + d) 43)) by lia.
Qed.
Lemma digits_nonempty fuel b n : (0 < fuel)%nat -> digits fuel b n <> [].
Proof.
  destruct fuel; [lia|]. intros _. cbn [digits]. case (n <? b); [done|].
  intros H. apply app_nil in H as [_ ?]. done.
Qed.

(** [str::parse] reads back what [{:0w}] prints. *)
Lemma parse_pad0_decimal w max n : 0 <= n <= max -> n < 10 ^ 20 ->
  parse_uint 10 max (pad0 w (decimal n)) = Some n.
Proof.
  intros Hn Hb. unfold decimal. rewrite pad0_digits.
  assert (Hd : Forall (is_digit_value 10) (replicate (w - length (digits 20 10 n)) 0 ++ digits 20 10 n)).
  { apply Forall_app. split; [|apply digits_range; lia].
    apply Forall_replicate. unfold is_digit_value. lia. }
  assert (Hv : number 10 (replicate (w - length (digits 20 10 n)) 0 ++ digits 20 10 n) 0 = n).
  { rewrite number_zeros. apply digits_number; [lia|]. change (Z.of_nat 20) with 20. lia. }
  rewrite parse_uint_digits; [..|done].
  - rewrite parse_digits_number; [by rewrite Hv|done|lia|lia].
  - intros E. apply app_nil in E as [_ E]. by apply digits_nonempty in E; [|lia].
Qed.

Definition is_ascii (b : Z) : Prop := 0 <= b < 128.
Lemma ascii_is_utf8 l : Forall is_ascii l -> is_utf8 l = true.
Proof.
  induction 1 as [|b l [? ?] _ IH]; [done|]. cbn [is_utf8]. by rewrite (proj2 (Z.ltb_lt b 128)).
Qed.
Lemma decimal_ascii w n : 0 <= n -> Forall is_ascii (pad0 w (decimal n)).
Proof.
  intros Hn. unfold decimal. rewrite pad0_digits. apply Forall_fmap, Forall_app. split.
  - apply Forall_replicate. unfold is_ascii. simpl. lia.
  - eapply Forall_impl; [apply digits_range; lia|]. intros d [? ?]. unfold is_ascii. simpl. lia.
Qed.

(** ** Hexadecimal text read back *)
Definition hex_digit (d : Z) : Z := if d <? 10 then 48 + d else 87 + d.
Lemma digit_of_hex d : is_digit_value 16 d -> digit_of 16 (hex_digit d) = Some d.
Proof.
  intros [H0 H1]. unfold hex_digit, digit_of, is_ascii_digit, is_ascii_upper, is_ascii_lower.
  destruct (Z.ltb_spec d 10).
  - rewrite (proj2 (Z.leb_le 48 (48 + d))), (proj2 (Z.leb_le (48 + d) 57)) by lia. cbn [andb].
    rewrite (proj2 (Z.ltb_lt _ _)) by lia. f_equal. lia.
  - rewrite (proj2 (Z.leb_le 48 (87 + d))), (proj2 (Z.leb_gt (87 + d) 57)) by lia. cbn [andb].
    rewrite (proj2 (Z.leb_le 65 (87 + d))), (proj2 (Z.leb_gt (87 + d) 90)) by lia. cbn [andb].
    rewrite (proj2 (Z.leb_le 97 (87 + d))), (proj2 (Z.leb_le (87 + d) 122)) by lia. cbn [andb].
    rewrite (proj2 (Z.ltb_lt _ _)) by lia. f_equal. lia.
Qed.
Lemma parse_hex_digits max l acc : Forall (is_digit_value 16) l -> 0 <= acc -> number 16 l acc <= max ->
  parse_digits 16 max acc (hex_digit <$> l) = Some (number 16 l acc).
Proof.
  intros Hl. revert acc. induction Hl as [|d l Hd Hl IH]; intros acc Ha Hm; [done|].
  cbn [fmap list_fmap parse_digits]. rewrite digit_of_hex by done. cbn [mbind option_bind].
  destruct Hd as [? ?]. pose proof (number_lower 16 l (acc * 16 + d)) as Hlow.
  change (number 16 (d :: l) acc) with (number 16 l (acc * 16 + d)) in *.
  rewrite (proj2 (Z.leb_le _ _)) by (etrans; [apply Hlow; [lia|lia|done]|done]).
  apply IH; [lia|done].
Qed.
Lemma parse_hex_lower max n : 0 <= n <= max -> n < B64 -> parse_uint 16 max (hex_lower n) = Some n.
Proof.
  intros Hn Hb. unfold hex_lower. change (fun d => if d <? 10 then 48 + d else 87 + d) with hex_digit.
  assert (Hd : Forall (is_digit_value 16) (digits 16 16 n)) by (apply digits_range; lia).
  assert (Hv : number 16 (digits 16 16 n) 0 = n) by (apply digits_number; [lia|]; simpl; lia).
  rewrite <- Hv at 2. rewrite <- parse_hex_digits with (max := max); [|done|lia|lia].
  assert (Hne : digits 16 16 n <> []) by (apply digits_nonempty; lia).
  destruct (digits 16 16 n) as [|d l]; [done|]. apply Forall_cons in Hd as [[? ?] _].
  unfold parse_uint. cbn [fmap list_fmap].
  assert (hex_digit d <> 43) by (unfold hex_digit; case Z.ltb_spec; lia).
  by rewrite (proj2 (Z.eqb_neq _ 43)).
Qed.
Lemma bytes_of_string_of l : Forall is_byte l -> bytes_of (string_of l) = l.
Proof.
  intros Hl. unfold bytes_of, string_of. rewrite String.list_ascii_of_string_of_list_ascii.
  rewrite <- list_fmap_compose. rewrite <- (list_fmap_id l) at 2. apply list_fmap_ext.
  intros i c Hc. rewrite Forall_lookup in Hl. destruct (Hl i c Hc). unfold compose, Datatypes.id.
  rewrite Ascii.nat_ascii_embedding by lia. lia.
Qed.
Lemma hex_lower_bytes n : 0 <= n -> Forall is_byte (hex_lower n).
Proof.
  intros Hn. unfold hex_lower. apply Forall_fmap.
  eapply Forall_impl; [by apply (digits_range 16 16 n); lia|]. intros d [? ?].
  unfold is_byte, compose. simpl. case Z.ltb_spec; lia.
Qed.
