(* ===== verification/Float.v ===== *)
(** * Floating-point numbers

    [f64] is the IEEE 754 binary64 of the Standard Library's [SpecFloat],
    rounding to nearest even: the operations of Rust's [f64] that the crates
    use, its conversions from and to integers, and its decimal text.  Then what
    the rounding does, over the integers: a quotient or a product of numbers in
    the normal range is within half a unit in the last place of the exact one. *)
From stdpp Require Import base numbers list strings.
From Stdlib Require Import ZArith Lia.
From Stdlib Require Import Floats.SpecFloat.
From S2P Require Import Prelude Text.
#[local] Open Scope Z_scope.

Definition f64 : Type := spec_float.
#[export] Instance f64_eq_dec : EqDecision f64.
Proof. solve_decision. Defined.
Definition f_zero : f64 := S754_zero false.
Definition f_neg_infinity : f64 := S754_infinity true.
(** [as f64] of an integer *)
Definition f_of (n : Z) : f64 := binary_normalize 53 1024 n 0 false.
Definition f_add : f64 -> f64 -> f64 := SFadd 53 1024.
Definition f_sub : f64 -> f64 -> f64 := SFsub 53 1024.
Definition f_mul : f64 -> f64 -> f64 := SFmul 53 1024.
Definition f_div : f64 -> f64 -> f64 := SFdiv 53 1024.
Definition f_eqb : f64 -> f64 -> bool := SFeqb.
Definition f_geb (x y : f64) : bool := SFleb y x.
Definition f_gt0 (x : f64) : bool := match SFcompare x f_zero with Some Gt => true | _ => false end.
Definition is_nan (x : f64) : bool := match x with S754_nan => true | _ => false end.
(** [f64::max] passes over a NaN. *)
Definition f_max (x y : f64) : f64 :=
  match SFcompare x y with
  | Some Lt => y
  | Some _ => x
  | None => if is_nan x then y else x
  end.
(** [iter().sum()] *)
Definition f_sum (l : list f64) : f64 := foldl f_add f_zero l.
(** [Duration::as_secs_f64] *)
Definition as_secs (nanos : Z) : f64 :=
  f_add (f_of (nanos / 1000000000)) (f_div (f_of (nanos mod 1000000000)) (f_of 1000000000)).

(** [powi] with an exponent that is not negative: by squaring *)
Fixpoint powi_loop (a : f64) (b : positive) (r : f64) : f64 :=
  match b with
  | xH => f_mul r a
  | xO b => powi_loop (f_mul a a) b r
  | xI b => powi_loop (f_mul a a) b (f_mul r a)
  end.
Definition f_powi (a : f64) (n : Z) : f64 :=
  match n with Zpos b => powi_loop a b (f_of 1) | _ => f_of 1 end.

(** [m * 2^e * k] as an integer, halves away from zero or to the even one *)
Definition scaled_away (m : positive) (e : Z) : Z :=
  if 0 <=? e then Zpos m * 2 ^ e else (Zpos m + 2 ^ (- e - 1)) / 2 ^ (- e).
Definition scaled_even (m : positive) (e k : Z) : Z :=
  if 0 <=? e then Zpos m * 2 ^ e * k
  else
    let q := Zpos m * k / 2 ^ (- e) in
    let r := Zpos m * k mod 2 ^ (- e) in
    match 2 * r ?= 2 ^ (- e) with
    | Lt => q
    | Gt => q + 1
    | Eq => if Z.even q then q else q + 1
    end.
(** [f64::round]; the sign of a zero is kept *)
Definition f_round (x : f64) : f64 :=
  match x with
  | S754_finite s m e =>
      let n := scaled_away m e in
      binary_normalize 53 1024 (cond_Zopp s n) 0 s
  | x => x
  end.
(** [as i64] saturates, and sends a NaN to zero. *)
Definition f_to_i64 (x : f64) : Z :=
  match x with
  | S754_zero _ | S754_nan => 0
  | S754_infinity s => if s then - 2 ^ 63 else 2 ^ 63 - 1
  | S754_finite s m e =>
      let n := if 0 <=? e then Zpos m * 2 ^ e else Zpos m / 2 ^ (- e) in
      Z.max (- 2 ^ 63) (Z.min (2 ^ 63 - 1) (cond_Zopp s n))
  end.
(** The decimal digits of an integer of any size *)
Definition decimal_big (n : Z) : list Z := (fun d => 48 + d) <$> digits (S (Z.to_nat (Z.log2 n))) 10 n.
(** [{:.prec$}]: the exact value, rounded to the nearest, halves to even *)
Definition fixed (prec : nat) (n : Z) : list Z :=
  let k := 10 ^ Z.of_nat prec in
  (decimal_big (n / k) ++ if (prec =? 0)%nat then [] else 46 :: pad0 prec (decimal_big (n mod k)))%list.
Definition signed (s : bool) (l : list Z) : list Z := if s then 45 :: l else l.
Definition f_display (prec : nat) (x : f64) : list Z :=
  match x with
  | S754_nan => bytes_of "NaN"
  | S754_infinity s => signed s (bytes_of "inf")
  | S754_zero s => signed s (fixed prec 0)
  | S754_finite s m e => signed s (fixed prec (scaled_even m e (10 ^ Z.of_nat prec)))
  end.

(** ** Rounding

    [a / b] lies in the interval of the integer [m] that the location tells. *)
Definition between (a b m : Z) (l : location) : Prop :=
  match l with
  | loc_Exact => a = m * b
  | loc_Inexact c => m * b < a < (m + 1) * b /\ (2 * a ?= (2 * m + 1) * b) = c
  end.
Lemma between_lower a b m l : 0 < b -> between a b m l -> m * b <= a.
Proof. destruct l; cbn; lia. Qed.

Lemma shr_1_between a b r : 0 < b -> 0 <= shr_m r -> between a b (shr_m r) (loc_of_shr_record r) ->
  shr_m (shr_1 r) = shr_m r / 2 /\
  between a (2 * b) (shr_m (shr_1 r)) (loc_of_shr_record (shr_1 r)).
Proof.
  intros Hb Hm. assert (E : shr_m (shr_1 r) = shr_m r / 2).
  { destruct r as [[|[p|p|]|[p|p|]] [] []]; cbn in *; try lia;
      (reflexivity || (apply (Z.div_unique _ _ _ 1); lia) || (apply (Z.div_unique _ _ _ 0); lia)). }
  intros Hl. split; [done|]. clear E.
  destruct r as [[|[p|p|]|p] [] []]; cbn [shr_m shr_1 loc_of_shr_record orb between] in *; try lia;
    try match type of Hl with _ /\ _ => destruct Hl as [Hl Hc] end;
    rewrite ?Z.compare_lt_iff, ?Z.compare_gt_iff, ?Z.compare_eq_iff in *;
    try (split; [nia|]); nia.
Qed.

Lemma iter_pos_nat {A} (f : A -> A) p x : iter_pos f p x = Nat.iter (Pos.to_nat p) f x.
Proof.
  assert (Hc : forall n y, Nat.iter n f (f y) = f (Nat.iter n f y)).
  { induction n as [|n IH]; intros y; [done|]. cbn [Nat.iter nat_rect]. f_equal. apply IH. }
  revert x. induction p as [p IH|p IH|]; intros x; cbn [iter_pos]; [| |done].
  - rewrite !IH, Pos2Nat.inj_xI, !Hc, <- Nat.iter_add.
    by replace (2 * Pos.to_nat p)%nat with (Pos.to_nat p + Pos.to_nat p)%nat by lia.
  - rewrite !IH, Pos2Nat.inj_xO, <- Nat.iter_add.
    by replace (2 * Pos.to_nat p)%nat with (Pos.to_nat p + Pos.to_nat p)%nat by lia.
Qed.
Lemma shr_between a b r e n : 0 < b -> 0 <= shr_m r -> 0 <= n ->
  between a b (shr_m r) (loc_of_shr_record r) ->
  let r' := (shr r e n).1 in (shr r e n).2 = e + n /\ shr_m r' = shr_m r / 2 ^ n /\
  between a (b * 2 ^ n) (shr_m r') (loc_of_shr_record r').
Proof.
  intros Hb Hm Hn Hl. cbv zeta. destruct n as [|p|p]; [|cbn [shr fst snd]|lia].
  { cbn [shr fst snd]. rewrite Z.pow_0_r, Z.div_1_r, Z.mul_1_r. split; [lia|done]. }
  split; [done|]. rewrite iter_pos_nat. rewrite <- (positive_nat_Z p).
  induction (Pos.to_nat p) as [|k [IH1 IH2]].
  - cbn [Nat.iter]. by rewrite Z.pow_0_r, Z.div_1_r, Z.mul_1_r.
  - assert (H2 : 0 < 2 ^ Z.of_nat k) by lia. cbn [Nat.iter]. rewrite Nat2Z.inj_succ, Z.pow_succ_r by lia.
    destruct (shr_1_between a (b * 2 ^ Z.of_nat k) (Nat.iter k shr_1 r)) as [E1 E2]; [lia| |done|].
    + rewrite IH1. by apply Z.div_pos.
    + replace (b * (2 * 2 ^ Z.of_nat k)) with (2 * (b * 2 ^ Z.of_nat k)) by lia. split; [|exact E2].
      rewrite (Z.mul_comm 2), <- Z.div_div, <- IH1 by lia. exact E1.
Qed.

Lemma digits2_log2 p : Zpos (digits2_pos p) = Z.log2 (Zpos p) + 1.
Proof.
  induction p as [p IH|p IH|]; cbn [digits2_pos]; [| |done]; rewrite Pos2Z.inj_succ, IH.
  - rewrite (Pos2Z.inj_xI p), Z.log2_succ_double by lia. lia.
  - rewrite (Pos2Z.inj_xO p), Z.log2_double by lia. lia.
Qed.
Lemma Zdigits2_log2 m : 0 < m -> Zdigits2 m = Z.log2 m + 1.
Proof. destruct m; cbn [Zdigits2]; [lia|intros _; apply digits2_log2|lia]. Qed.

Lemma nearest_even a b m l : 0 < b -> between a b m l ->
  Z.abs (2 * (round_nearest_even m l * b - a)) <= b /\ m <= round_nearest_even m l <= m + 1.
Proof.
  intros Hb Hl. destruct l as [|[]]; cbn in *; [lia| | |];
    destruct Hl as [Hl Hc]; rewrite ?Z.compare_lt_iff, ?Z.compare_gt_iff, ?Z.compare_eq_iff in Hc;
    try destruct (Z.even m); lia.
Qed.
Lemma loc_of_shr m l : shr_m (shr_record_of_loc m l) = m /\ loc_of_shr_record (shr_record_of_loc m l) = l.
Proof. by destruct l as [|[]]. Qed.

(** In the normal range the result has a full mantissa and is within half a
    unit of its last place, which is at most the [2^53]rd part. *)
Lemma round_normal s a b m e l : 0 < b -> between a b m l -> 2 ^ 52 <= m -> -1074 <= e ->
  e + Z.log2 m < 1022 ->
  exists M E, binary_round_aux 53 1024 s m e l = S754_finite s M E /\
    2 ^ 52 <= Zpos M < 2 ^ 53 /\ e <= E /\ Z.abs (Zpos M * 2 ^ (E - e) * b - a) * 2 ^ 53 <= a.
Proof.
  intros Hb Hl Hm He Ho. assert (Hlog : 52 <= Z.log2 m) by (apply Z.log2_le_pow2; lia).
  unfold binary_round_aux, shr_fexp. rewrite Zdigits2_log2 by lia.
  set (n := Z.log2 m - 52). assert (Hn : fexp 53 1024 (Z.log2 m + 1 + e) - e = n).
  { unfold fexp, emin, n. lia. }
  rewrite Hn. destruct (loc_of_shr m l) as [E1 E2].
  destruct (shr_between a b (shr_record_of_loc m l) e n) as (H1 & H2 & H3); rewrite ?E1, ?E2; [done|lia|lia|done|].
  rewrite E1 in H2. destruct (shr _ e n) as [r e1]. cbn [fst snd] in *. subst e1.
  assert (Hr : 2 ^ 52 <= shr_m r < 2 ^ 53).
  { destruct (Z.log2_spec m) as [L1 L2]; [lia|]. rewrite H2.
    replace (Z.log2 m) with (52 + n) in L1 by lia. replace (Z.succ (Z.log2 m)) with (53 + n) in L2 by lia.
    rewrite Z.pow_add_r in L1, L2 by lia. split; [apply Z.div_le_lower_bound; lia|apply Z.div_lt_upper_bound; lia]. }
  set (B := b * 2 ^ n) in *. assert (HB : 0 < B) by (unfold B; lia).
  destruct (nearest_even _ _ _ _ HB H3) as [Hnear Hm2]. pose proof (between_lower _ _ _ _ HB H3) as Hlow.
  set (m2 := round_nearest_even _ _) in *.
  assert (Hfinal : Z.abs (m2 * B - a) * 2 ^ 53 <= a) by nia.
  clear Hnear H3 H2. destruct (decide (m2 = 2 ^ 53)) as [E|E].
  - rewrite E. change (Zdigits2 (2 ^ 53)) with 54.
    replace (fexp 53 1024 (54 + (e + n)) - (e + n)) with 1 by (unfold fexp, emin; lia).
    change (shr (shr_record_of_loc (2 ^ 53) loc_Exact) (e + n) 1)
      with (Build_shr_record (2 ^ 52) false false, e + n + 1).
    cbn [shr_m]. change (2 ^ 52) with (Zpos (2 ^ 52)%positive) at 1. cbn match.
    rewrite (proj2 (Z.leb_le _ _)) by lia. eexists _, _. split; [reflexivity|].
    split; [done|]. split; [lia|]. replace (e + n + 1 - e) with (n + 1) by lia.
    rewrite Z.pow_add_r by lia. unfold B in Hfinal. rewrite E in Hfinal.
    replace (Z.pos (2 ^ 52) * (2 ^ n * 2 ^ 1) * b) with (2 ^ 53 * (b * 2 ^ n)) by lia. done.
  - rewrite Zdigits2_log2 by lia. rewrite (Z.log2_unique m2 52) by lia.
    replace (fexp 53 1024 (52 + 1 + (e + n)) - (e + n)) with 0 by (unfold fexp, emin; lia).
    cbn [shr shr_record_of_loc shr_m]. destruct m2 as [|M|M] eqn:EM; [lia| |lia].
    rewrite (proj2 (Z.leb_le _ _)) by lia. eexists _, _. split; [reflexivity|]. split; [lia|]. split; [lia|].
    replace (e + n - e) with n by lia. unfold B in Hfinal. by replace (Z.pos M * 2 ^ n * b) with (Z.pos M * (b * 2 ^ n)) by lia.
Qed.

Lemma iter_xO p d : Zpos (Pos.iter xO p d) = Zpos p * 2 ^ Zpos d.
Proof.
  induction d as [|d IH] using Pos.peano_ind; [cbn [Pos.iter]; lia|].
  rewrite Pos.iter_succ, (Pos2Z.inj_xO (Pos.iter xO p d)), IH, Pos2Z.inj_succ, Z.pow_succ_r by lia. lia.
Qed.
(** Integers below [2^53] are represented exactly. *)
Lemma f_of_exact s a : 0 < a < 2 ^ 53 -> exists M E, f_of (cond_Zopp s a) = S754_finite s M E /\
  2 ^ 52 <= Zpos M < 2 ^ 53 /\ -52 <= E <= 0 /\ Zpos M = a * 2 ^ (- E).
Proof.
  intros Ha. destruct a as [|p|p]; [lia| |lia].
  assert (Hf : f_of (cond_Zopp s (Zpos p)) = binary_round 53 1024 s p 0) by by destruct s.
  rewrite Hf. clear Hf. unfold binary_round. rewrite digits2_log2.
  assert (Hlog : 0 <= Z.log2 (Zpos p) < 53) by (split; [apply Z.log2_nonneg|apply Z.log2_lt_pow2; lia]).
  set (k := 52 - Z.log2 (Zpos p)).
  replace (fexp 53 1024 (Z.log2 (Zpos p) + 1 + 0)) with (- k) by (unfold fexp, emin; lia).
  assert (Hal : exists q, shl_align p 0 (- k) = (q, - k) /\ Zpos q = Zpos p * 2 ^ k).
  { unfold shl_align. destruct k as [|d|d] eqn:Ek; [|cbn; eexists; split; [done|apply iter_xO]|lia].
    exists p. cbn. split; [done|lia]. }
  destruct Hal as (q & -> & Hq). destruct (Z.log2_spec (Zpos p)) as [L1 L2]; [lia|].
  assert (Hq2 : 2 ^ 52 <= Zpos q < 2 ^ 53).
  { rewrite Hq. replace 52 with (Z.log2 (Zpos p) + k) by lia.
    replace 53 with (Z.succ (Z.log2 (Zpos p)) + k) by lia. rewrite !Z.pow_add_r by lia. nia. }
  destruct (round_normal s (Zpos q) 1 (Zpos q) (- k) loc_Exact) as (M & E & -> & HM & HE & Herr); [lia|cbn; lia|lia|lia| |].
  { rewrite (Z.log2_unique (Zpos q) 52); lia. }
  assert (Heq : Zpos M * 2 ^ (E - - k) = Zpos q).
  { rewrite Z.mul_1_r in Herr. set (x := Zpos M * _) in *. clearbody x. lia. }
  assert (E = - k) as ->.
  { destruct (decide (E - - k = 0)) as [|Hne]; [lia|].
    assert (2 <= 2 ^ (E - - k)) by (change 2 with (2 ^ 1) at 1; apply Z.pow_le_mono_r; lia). nia. }
  replace (- k - - k) with 0 in Heq by lia. exists M, (- k). split; [done|]. split; [done|].
  split; [lia|]. rewrite Z.opp_involutive. lia.
Qed.

(** The relative error of a quotient and of a product *)
Lemma f_div_error s M1 E1 M2 E2 : 2 ^ 52 <= Zpos M1 < 2 ^ 53 -> 2 ^ 52 <= Zpos M2 < 2 ^ 53 ->
  -900 <= E1 <= 900 -> -100 <= E2 <= 100 ->
  exists M E, f_div (S754_finite s M1 E1) (S754_finite false M2 E2) = S754_finite s M E /\
    2 ^ 52 <= Zpos M < 2 ^ 53 /\ 0 <= E - (E1 - E2 - 53) <= 60 /\
    Z.abs (Zpos M * 2 ^ (E - (E1 - E2 - 53)) * Zpos M2 - Zpos M1 * 2 ^ 53) * 2 ^ 53 <= Zpos M1 * 2 ^ 53.
Proof.
  intros H1 H2 R1 R2. unfold f_div, SFdiv, SFdiv_core_binary.
  rewrite !Zdigits2_log2, (Z.log2_unique (Zpos M1) 52), (Z.log2_unique (Zpos M2) 52) by lia.
  replace (Z.min (fexp 53 1024 (52 + 1 + E1 - (52 + 1 + E2))) (E1 - E2)) with (E1 - E2 - 53)
    by (unfold fexp, emin; lia).
  replace (E1 - E2 - (E1 - E2 - 53)) with 53 by lia. cbn match. rewrite Z.shiftl_mul_pow2 by lia.
  pose proof (Z_div_mod (Zpos M1 * 2 ^ 53) (Zpos M2)) as Hdm.
  destruct (Z.div_eucl _ _) as [q r]. destruct Hdm as [Hq Hr]; [lia|].
  rewrite xorb_false_r.
  assert (Hl : between (Zpos M1 * 2 ^ 53) (Zpos M2) q (new_location (Zpos M2) r)).
  { unfold new_location, new_location_even, new_location_odd.
    destruct (Z.even (Zpos M2)) eqn:Ev; destruct (Z.eqb_spec r 0); cbn; try lia; (split; [lia|]);
      rewrite Hq; [destruct (Z.compare_spec (2 * r) (Zpos M2))|];
      rewrite ?Z.compare_lt_iff, ?Z.compare_gt_iff, ?Z.compare_eq_iff; try lia.
    assert (Z.odd (Zpos M2) = true) as [k Hk]%Z.odd_spec by by rewrite <- Z.negb_even, Ev.
    destruct (Z.compare_spec (2 * r + 1) (Zpos M2));
      rewrite ?Z.compare_lt_iff, ?Z.compare_gt_iff, ?Z.compare_eq_iff; lia. }
  assert (Hq52 : 2 ^ 52 <= q < 2 ^ 54) by nia.
  assert (Hlog : Z.log2 q < 54) by (apply Z.log2_lt_pow2; lia).
  destruct (round_normal s _ _ _ (E1 - E2 - 53) _ (Pos2Z.is_pos M2) Hl) as (M & E & -> & HM & HE & Herr); [lia|lia|lia|].
  exists M, E. split; [done|]. split; [done|]. split; [|done].
  split; [lia|]. destruct (decide (E - (E1 - E2 - 53) <= 60)) as [|Hbig]; [done|].
  assert (2 ^ 60 <= 2 ^ (E - (E1 - E2 - 53))) by (apply Z.pow_le_mono_r; lia). nia.
Qed.
Lemma f_mul_error s M1 E1 M2 E2 : 2 ^ 52 <= Zpos M1 < 2 ^ 53 -> 2 ^ 52 <= Zpos M2 < 2 ^ 53 ->
  -900 <= E1 <= 500 -> -100 <= E2 <= 100 ->
  exists M E, f_mul (S754_finite s M1 E1) (S754_finite false M2 E2) = S754_finite s M E /\
    2 ^ 52 <= Zpos M < 2 ^ 53 /\ 0 <= E - (E1 + E2) /\
    Z.abs (Zpos M * 2 ^ (E - (E1 + E2)) - Zpos M1 * Zpos M2) * 2 ^ 53 <= Zpos M1 * Zpos M2.
Proof.
  intros H1 H2 R1 R2. unfold f_mul, SFmul. rewrite xorb_false_r.
  assert (Hlog : Z.log2 (Zpos (M1 * M2)) < 106) by (apply Z.log2_lt_pow2; rewrite Pos2Z.inj_mul; nia).
  destruct (round_normal s (Zpos (M1 * M2)) 1 (Zpos (M1 * M2)) (E1 + E2) loc_Exact)
    as (M & E & -> & HM & HE & Herr); [lia|symmetry; apply Z.mul_1_r|rewrite Pos2Z.inj_mul; nia|lia|lia|].
  exists M, E. split; [done|]. split; [done|]. split; [lia|]. rewrite Z.mul_1_r in Herr. exact Herr.
Qed.

(** ** Dividing by a power of ten and multiplying back *)
Lemma scaled_away_near m e a : e < 0 -> Z.abs (Zpos m - a * 2 ^ (- e)) < 2 ^ (- e - 1) -> scaled_away m e = a.
Proof.
  intros He Hn. unfold scaled_away. destruct (Z.leb_spec 0 e); [lia|].
  assert (H2 : 2 ^ (- e) = 2 * 2 ^ (- e - 1)) by (rewrite <- Z.pow_succ_r by lia; f_equal; lia).
  symmetry. apply Z.div_unique with (Zpos m + 2 ^ (- e - 1) - a * 2 ^ (- e)); lia.
Qed.
Lemma scaled_even_near m e k a : e < 0 -> Z.abs (Zpos m * k - a * 2 ^ (- e)) < 2 ^ (- e - 1) -> scaled_even m e k = a.
Proof.
  intros He Hn. unfold scaled_even. destruct (Z.leb_spec 0 e); [lia|].
  assert (H2 : 2 ^ (- e) = 2 * 2 ^ (- e - 1)) by (rewrite <- Z.pow_succ_r by lia; f_equal; lia).
  set (D := 2 ^ (- e)) in *. set (n := Zpos m * k) in *. destruct (decide (a * D <= n)) as [Hle|Hlt].
  - rewrite <- (Z.div_unique n D a (n - a * D)), <- (Z.mod_unique n D a (n - a * D)) by lia.
    destruct (Z.compare_spec (2 * (n - a * D)) D); lia.
  - rewrite <- (Z.div_unique n D (a - 1) (n - (a - 1) * D)), <- (Z.mod_unique n D (a - 1) (n - (a - 1) * D)) by lia.
    destruct (Z.compare_spec (2 * (n - (a - 1) * D)) D); lia.
Qed.
Lemma descale n g a c : 0 <= g -> 0 <= c -> 0 < a < 2 ^ 51 -> 2 ^ 52 <= n ->
  2 * Z.abs (n * 2 ^ g - a * 2 ^ c) < 2 ^ c -> g < c /\ Z.abs (n - a * 2 ^ (c - g)) < 2 ^ (c - g - 1).
Proof.
  intros Hg Hc Ha Hn Hd. assert (Hlt : g < c).
  { destruct (decide (g < c)) as [|Hge]; [done|]. exfalso.
    assert (2 ^ c <= 2 ^ g) by (apply Z.pow_le_mono_r; lia). assert (0 < 2 ^ c) by lia. nia. }
  split; [done|]. assert (E : 2 ^ c = 2 ^ g * (2 * 2 ^ (c - g - 1))).
  { rewrite <- Z.pow_succ_r, <- Z.pow_add_r by lia. f_equal. lia. }
  replace (2 ^ (c - g)) with (2 * 2 ^ (c - g - 1)) by (rewrite <- Z.pow_succ_r by lia; f_equal; lia).
  rewrite E in Hd. assert (0 < 2 ^ g) by lia. set (G := 2 ^ g) in *. set (K := 2 ^ (c - g - 1)) in *.
  replace (n * G - a * (G * (2 * K))) with (G * (n - a * (2 * K))) in Hd by lia.
  rewrite Z.abs_mul in Hd. rewrite (Z.abs_eq G) in Hd by lia. nia.
Qed.

(** A positive number held exactly *)
Definition exactly (x : f64) (p : Z) : Prop := exists M E, x = S754_finite false M E /\
  2 ^ 52 <= Zpos M < 2 ^ 53 /\ -60 <= E <= 60 /\ p * 2 ^ 60 = Zpos M * 2 ^ (E + 60).
Definition nearly (x : f64) (s : bool) (k a : Z) : Prop := exists M E, x = S754_finite s M E /\
  E < 0 /\ Z.abs (Zpos M * k - a * 2 ^ (- E)) < 2 ^ (- E - 1).

Lemma quotient_near s a p x : 0 < a < 2 ^ 51 -> 0 < p -> exactly x p ->
  nearly (f_div (f_of (cond_Zopp s a)) x) s p a /\
  nearly (f_mul (f_div (f_of (cond_Zopp s a)) x) x) s 1 a.
Proof.
  intros Ha Hp (Mp & Ep & -> & Hmp & Rp & Hpe).
  destruct (f_of_exact s a) as (Ma & Ea & -> & Hma & Ra & Hae); [lia|].
  destruct (f_div_error s Ma Ea Mp Ep) as (M & E & -> & HM & Ht & Herr); [done|done|lia|lia|].
  set (t := E - (Ea - Ep - 53)) in *.
  assert (Herr' : Z.abs (Zpos M * 2 ^ t * Zpos Mp - Zpos Ma * 2 ^ 53) <= Zpos Ma) by lia. clear Herr.
  assert (Hea : 0 < 2 ^ (- Ea)) by lia. split.
  - exists M, E. split; [done|].
    destruct (descale (Zpos M * p) (t + 60) a (113 + Ep - Ea)) as [H1 H2]; [lia|lia|lia|nia| |].
    + replace (Zpos M * p * 2 ^ (t + 60)) with (Zpos M * 2 ^ t * (p * 2 ^ 60)) by (rewrite Z.pow_add_r by lia; lia).
      rewrite Hpe. replace (113 + Ep - Ea) with (Ep + 60 + (53 + - Ea)) by lia.
      rewrite !(Z.pow_add_r 2 (Ep + 60)), (Z.pow_add_r 2 53) by lia. assert (HG : 0 < 2 ^ (Ep + 60)) by lia.
      set (G := 2 ^ (Ep + 60)) in *.
      replace (Zpos M * 2 ^ t * (Zpos Mp * G) - a * (G * (2 ^ 53 * 2 ^ (- Ea))))
        with (G * (Zpos M * 2 ^ t * Zpos Mp - a * 2 ^ (- Ea) * 2 ^ 53)) by lia.
      rewrite <- Hae, Z.abs_mul, (Z.abs_eq G) by lia. rewrite Hae in Herr' |- *. nia.
    + replace (113 + Ep - Ea - (t + 60)) with (- E) in H2 by lia. split; [lia|exact H2].
  - destruct (f_mul_error s M E Mp Ep) as (N & F & -> & HN & Ht2 & Herr2); [done|done|lia|lia|].
    exists N, F. split; [done|]. rewrite Z.mul_1_r. set (t2 := F - (E + Ep)) in *.
    destruct (descale (Zpos N) (t2 + t) a (53 + - Ea)) as [H1 H2]; [lia|lia|lia|lia| |].
    + rewrite !Z.pow_add_r by lia. replace (a * (2 ^ 53 * 2 ^ (- Ea))) with (Zpos Ma * 2 ^ 53) by lia.
      rewrite Z.mul_assoc. set (X := Zpos M * 2 ^ t * Zpos Mp) in *. set (Y := Zpos N * 2 ^ t2) in *. assert (HT : 0 < 2 ^ t) by lia.
      assert (Hy : Z.abs (Y * 2 ^ t - X) * 2 ^ 53 <= X).
      { replace (Y * 2 ^ t - X) with ((Y - Zpos M * Zpos Mp) * 2 ^ t) by (unfold X; lia).
        rewrite Z.abs_mul, (Z.abs_eq (2 ^ t)) by lia. unfold X. nia. }
      set (W := Y * 2 ^ t) in *. clearbody W X. rewrite Hae in *. nia.
    + replace (53 + - Ea - (t2 + t)) with (- F) in H2 by lia. split; [lia|exact H2].
Qed.
