(* ===== verification/Types.v ===== *)
(** * Core types (crates/nexus-primitives: types.rs, address.rs, error.rs)

    Hashes, addresses and validator identifiers as byte strings; [U256] as the
    four [u64] limbs of the code, with its arithmetic loop by loop;
    errors with their conversions; the protocol version and the chain's
    parameters.  The arithmetic is proved in U256Facts. *)
From S2P Require Import Prelude.
From stdpp Require Import base numbers list gmap strings.
From Stdlib Require Import ZArith Lia.
#[local] Open Scope Z_scope.

(** ** Fixed-size byte strings *)
Record Hash := mkHash { hash_bytes : list Z }.
Record Address := mkAddress { addr_bytes : list Z }.
Record ValidatorId := mkValidatorId { vid_bytes : list Z }.

#[export] Instance Hash_eq_dec : EqDecision Hash.
Proof. solve_decision. Defined.
#[export] Instance Address_eq_dec : EqDecision Address.
Proof. solve_decision. Defined.
#[export] Instance ValidatorId_eq_dec : EqDecision ValidatorId.
Proof. solve_decision. Defined.
#[export] Instance Hash_countable : Countable Hash.
Proof. by refine (inj_countable' hash_bytes mkHash _); intros []. Defined.
#[export] Instance Address_countable : Countable Address.
Proof. by refine (inj_countable' addr_bytes mkAddress _); intros []. Defined.
#[export] Instance ValidatorId_countable : Countable ValidatorId.
Proof. by refine (inj_countable' vid_bytes mkValidatorId _); intros []. Defined.

Definition wf_hash (h : Hash) : Prop := is_bytes 32 (hash_bytes h).
Definition wf_addr (a : Address) : Prop := is_bytes 20 (addr_bytes a).

(** [Hash::ZERO], [Address::ZERO] *)
Definition HASH_ZERO : Hash := mkHash (replicate 32 0).
Definition ADDRESS_ZERO : Address := mkAddress (replicate 20 0).

(** [Hash::from_slice], [Address::from_slice] *)
Definition hash_from_slice (s : list Z) : option Hash :=
  if decide (length s = 32%nat) then Some (mkHash s) else None.
Definition address_from_slice (s : list Z) : option Address :=
  if decide (length s = 20%nat) then Some (mkAddress s) else None.

(** [NexusError]; [N] marks the names that other error types use too. *)
Inductive NexusError :=
  | CryptoError (msg : string)
  | ValidationError (msg : string)
  | ConsensusErrorN (msg : string)
  | StateError (msg : string)
  | EvmErrorN (msg : string)
  | ZkpError (msg : string)
  | IsoErrorN (msg : string)
  | NetworkError (msg : string)
  | StorageError (msg : string)
  | SerializationError (msg : string)
  | ConfigError (msg : string)
  | InsufficientFundsN (required available : string)
  | NonceMismatchN (expected got : Z)
  | GasLimitExceeded (limit used : Z)
  | InvalidSignatureN
  | DagError (msg : string)
  | VertexNotFound (msg : string)
  | TransactionNotFound (msg : string)
  | InvalidProof
  | DuplicateNullifier
  | UnknownError (msg : string).

(** The conversions of foreign errors, from their texts, and
    [into_nexus_error] *)
Definition error_from_io (text : string) : NexusError := StorageError text.
Definition error_from_serde (text : string) : NexusError := SerializationError text.
Definition error_from_bincode (text : string) : NexusError := SerializationError text.
Definition error_from_hex (text : string) : NexusError := ValidationError ("Invalid hex: " +:+ text).
Definition into_nexus_error {E A} (display : E -> string) (context : string) (r : outcome E A)
    : outcome NexusError A :=
  map_err (fun e => UnknownError (context +:+ ": " +:+ display e)) r.

(** [From<&[u8]>] panics on a slice of less than 32 bytes and drops what
    follows them. *)
Definition hash_from {E} (slice : list Z) : outcome E Hash :=
  if (length slice <? 32)%nat then Panic else Ok (mkHash (take 32 slice)).

(** ** [U256]: four little-endian limbs *)
Record U256 := mkU256 { u0 : Z; u1 : Z; u2 : Z; u3 : Z }.
#[export] Instance U256_eq_dec : EqDecision U256.
Proof. solve_decision. Defined.
#[export] Instance U256_countable : Countable U256.
Proof.
  by refine (inj_countable' (fun x => (u0 x, u1 x, u2 x, u3 x))
    (fun '(a, b, c, d) => mkU256 a b c d) _); intros [].
Defined.

Module U256.

Definition ZERO : U256 := mkU256 0 0 0 0.
Definition ONE : U256 := mkU256 1 0 0 0.
Definition from_u64 (val : Z) : U256 := mkU256 val 0 0 0.
Definition as_u64 (x : U256) : Z := u0 x.

(** [self.0[i]] and [self.0[i] = v] *)
Definition limb (x : U256) (i : nat) : Z :=
  match i with 0%nat => u0 x | 1%nat => u1 x | 2%nat => u2 x | _ => u3 x end.
Definition set_limb (x : U256) (i : nat) (v : Z) : U256 :=
  match i with
  | 0%nat => mkU256 v (u1 x) (u2 x) (u3 x)
  | 1%nat => mkU256 (u0 x) v (u2 x) (u3 x)
  | 2%nat => mkU256 (u0 x) (u1 x) v (u3 x)
  | _ => mkU256 (u0 x) (u1 x) (u2 x) v
  end.

(** [u64::overflowing_add], [u64::overflowing_sub] *)
Definition overflowing_add (a b : Z) : Z * bool := (add64 a b, B64 <=? a + b).
Definition overflowing_sub (a b : Z) : Z * bool := (sub64 a b, a <? b).

Definition from_be_bytes (bytes : list Z) : U256 :=
  foldl (fun r i =>
    let offset := ((3 - i) * 8)%nat in
    set_limb r i (Prelude.from_be_bytes (take 8 (drop offset bytes))))
    ZERO (seq 0 4).

Definition to_be_bytes (x : U256) : list Z :=
  foldl (fun bytes i =>
    let offset := ((3 - i) * 8)%nat in
    take offset bytes ++ Prelude.to_be_bytes 8 (limb x i) ++ drop (offset + 8) bytes)
    (replicate 32 0) (seq 0 4).

Definition checked_add (a b : U256) : option U256 :=
  let '(result, carry) :=
    foldl (fun '(result, carry) i =>
      let '(sum1, overflow1) := overflowing_add (limb a i) (limb b i) in
      let '(sum2, overflow2) := overflowing_add sum1 carry in
      (set_limb result i sum2, Z.b2z overflow1 + Z.b2z overflow2))
      (ZERO, 0) (seq 0 4) in
  if 0 <? carry then None else Some result.

Definition checked_sub (a b : U256) : option U256 :=
  let '(result, borrow) :=
    foldl (fun '(result, borrow) i =>
      let '(diff1, overflow1) := overflowing_sub (limb a i) (limb b i) in
      let '(diff2, overflow2) := overflowing_sub diff1 borrow in
      (set_limb result i diff2, Z.b2z overflow1 + Z.b2z overflow2))
      (ZERO, 0) (seq 0 4) in
  if 0 <? borrow then None else Some result.

(** [impl Add], [impl Sub]: [expect] on the checked operation. *)
Definition add {E} (a b : U256) : outcome E U256 := unwrap (checked_add a b).
Definition sub {E} (a b : U256) : outcome E U256 := unwrap (checked_sub a b).

(** [impl Mul]: the inner loop over [j], then the outer loop over [i]. *)
Definition mul_row (a b : U256) (i : nat) (result : U256) : U256 :=
  fst (foldl (fun '(result, carry) j =>
    let pos := (i + j)%nat in
    let product := limb a i * limb b j + limb result pos + carry in
    (set_limb result pos (product mod B64), product / B64))
    (result, 0) (seq 0 (4 - i))).
Definition mul (a b : U256) : U256 :=
  foldl (fun result i => mul_row a b i result) ZERO (seq 0 4).

(** [Ord::cmp]: the most significant limb that differs decides. *)
Fixpoint cmp_limbs (a b : U256) (idx : list nat) : comparison :=
  match idx with
  | [] => Eq
  | i :: idx =>
      match limb a i ?= limb b i with
      | Eq => cmp_limbs a b idx
      | non_eq => non_eq
      end
  end.
Definition cmp (a b : U256) : comparison := cmp_limbs a b (rev (seq 0 4)).
Definition ltb (a b : U256) : bool := match cmp a b with Lt => true | _ => false end.
Definition leb (a b : U256) : bool := match cmp a b with Gt => false | _ => true end.
(** [Ord::max] and [Ord::min] of the standard library. *)
Definition max (a b : U256) : U256 := if ltb b a then a else b.
Definition min (a b : U256) : U256 := if ltb b a then b else a.

Definition bit (x : U256) (pos : nat) : bool :=
  Z.land (Z.shiftr (limb x (pos / 64)) (Z.of_nat (pos mod 64))) 1 =? 1.

Definition shl1 (x : U256) : U256 :=
  fst (foldl (fun '(r, carry) i =>
    (set_limb r i (Z.lor (Z.shiftl (limb x i) 1 mod B64) carry),
     Z.shiftr (limb x i) 63))
    (ZERO, 0) (seq 0 4)).

Definition set_bit (x : U256) (pos : nat) : U256 :=
  set_limb x (pos / 64)
    (Z.lor (limb x (pos / 64)) (Z.shiftl 1 (Z.of_nat (pos mod 64)) mod B64)).

(** One iteration of the loop of [checked_div]. *)
Definition div_step {E} (self other : U256) (qr : U256 * U256) (i : nat)
    : outcome E (U256 * U256) :=
  let '(quotient, remainder) := qr in
  let remainder := shl1 remainder in
  let remainder :=
    if bit self i then set_limb remainder 0 (Z.lor (limb remainder 0) 1) else remainder in
  if leb other remainder then
    remainder' ← unwrap (checked_sub remainder other);
    Ok (set_bit quotient i, remainder')
  else Ok (quotient, remainder).

Definition checked_div {E} (self other : U256) : outcome E (option U256) :=
  if decide (other = ZERO) then Ok None
  else if ltb self other then Ok (Some ZERO)
  else
    qr ← for_each (div_step self other) (rev (seq 0 256)) (ZERO, ZERO);
    Ok (Some (fst qr)).

(** [impl Div] *)
Definition div {E} (a b : U256) : outcome E U256 :=
  o ← checked_div a b; unwrap o.

End U256.

(** ** Versions and chain parameters *)
Record ProtocolVersion := mkVersion { version_major : Z; version_minor : Z; version_patch : Z }.
Definition CURRENT_VERSION : ProtocolVersion := mkVersion 0 1 0.
Definition is_compatible (self other : ProtocolVersion) : bool := version_major self =? version_major other.

Record UpgradeHeights := mkUpgrades {
  zk_evm : option Z; iso_v2 : option Z; privacy_v2 : option Z; sharding : option Z }.
Definition default_upgrades : UpgradeHeights := mkUpgrades None None None None.
Record ChainConfig := mkChainConfig {
  cc_chain_id : Z;
  min_gas_price : U256;
  max_gas_per_tx : Z;
  vertex_gas_limit : Z;
  min_validator_stake : U256;
  cc_max_validators : Z;
  finality_threshold : Z;
  upgrade_heights : UpgradeHeights
}.
Definition default_chain_config : ChainConfig :=
  mkChainConfig 1337 (U256.from_u64 1000000000) 30000000 100000000 (U256.from_u64 10000) 100 67 default_upgrades.
