(* ===== verification/U256Facts.v ===== *)
(** * The integers denoted by [U256]

    [to_Z] reads the four limbs as an integer; each loop of Types.v is shown
    to compute the corresponding operation on integers, with its overflow.
    The properties at the end are the statements a client relies on. *)
From S2P Require Import Prelude Types.
From stdpp Require Import base numbers list gmap.
From Stdlib Require Import ZArith Lia.
#[local] Open Scope Z_scope.

Abbreviation B256 :=
  115792089237316195423570985008687907853269984665640564039457584007913129639936
  (only parsing).

Module U256Facts.
Import U256.

Definition to_Z (x : U256) : Z :=
  u0 x + B64 * u1 x + B128 * u2 x + B64 * B128 * u3 x.
Definition wf (x : U256) : Prop :=
  is_u64 (u0 x) /\ is_u64 (u1 x) /\ is_u64 (u2 x) /\ is_u64 (u3 x).

Lemma to_Z_range x : wf x -> 0 <= to_Z x < B256.
Proof. unfold wf, is_u64, to_Z. lia. Qed.
Lemma to_Z_inj x y : wf x -> wf y -> to_Z x = to_Z y -> x = y.
Proof.
  destruct x, y. unfold wf, is_u64, to_Z; simpl. intros. f_equal; lia.
Qed.

(** One limb of an addition and of a subtraction. *)
Definition adc (a b c : Z) : Z * Z :=
  (add64 (add64 a b) c, Z.b2z (B64 <=? a + b) + Z.b2z (B64 <=? add64 a b + c)).
Definition sbb (a b c : Z) : Z * Z :=
  (sub64 (sub64 a b) c, Z.b2z (a <? b) + Z.b2z (sub64 a b <? c)).

Lemma add64_cases a b : is_u64 a -> is_u64 b ->
  (a + b < B64 /\ add64 a b = a + b) \/ (B64 <= a + b /\ add64 a b = a + b - B64).
Proof.
  unfold is_u64. intros. destruct (decide (a + b < B64)); [left|right]; (split; [lia|]).
  - apply Z.mod_small. lia.
  - symmetry. apply Z.mod_unique with 1; lia.
Qed.
Lemma sub64_cases a b : is_u64 a -> is_u64 b ->
  (b <= a /\ sub64 a b = a - b) \/ (a < b /\ sub64 a b = a - b + B64).
Proof.
  unfold is_u64. intros. destruct (decide (b <= a)); [left|right]; (split; [lia|]).
  - apply Z.mod_small. lia.
  - symmetry. apply Z.mod_unique with (-1); lia.
Qed.

Lemma adc_spec a b c : is_u64 a -> is_u64 b -> 0 <= c <= 1 ->
  fst (adc a b c) + B64 * snd (adc a b c) = a + b + c /\
  is_u64 (fst (adc a b c)) /\ 0 <= snd (adc a b c) <= 1.
Proof.
  intros Ha Hb Hc. unfold adc; cbn [fst snd].
  assert (is_u64 c) by (unfold is_u64; lia).
  destruct (add64_cases a b) as [[H1 E1]|[H1 E1]]; auto;
  destruct (add64_cases (add64 a b) c) as [[H2 E2]|[H2 E2]]; auto with nexus;
  rewrite E2; rewrite !E1 in *; unfold is_u64 in *;
  repeat match goal with |- context [Z.b2z (?x <=? ?y)] => destruct (Z.leb_spec x y); simpl Z.b2z end; lia.
Qed.
Lemma sbb_spec a b c : is_u64 a -> is_u64 b -> 0 <= c <= 1 ->
  fst (sbb a b c) - B64 * snd (sbb a b c) = a - b - c /\
  is_u64 (fst (sbb a b c)) /\ 0 <= snd (sbb a b c) <= 1.
Proof.
  intros Ha Hb Hc. unfold sbb; cbn [fst snd].
  assert (is_u64 c) by (unfold is_u64; lia).
  destruct (sub64_cases a b) as [[H1 E1]|[H1 E1]]; auto;
  destruct (sub64_cases (sub64 a b) c) as [[H2 E2]|[H2 E2]]; auto with nexus;
  rewrite E2; rewrite !E1 in *; unfold is_u64 in *;
  repeat match goal with |- context [Z.b2z (?x <? ?y)] => destruct (Z.ltb_spec x y); simpl Z.b2z end; lia.
Qed.

Lemma checked_add_unfold a b :
  checked_add a b =
    let '(r0, c0) := adc (u0 a) (u0 b) 0 in
    let '(r1, c1) := adc (u1 a) (u1 b) c0 in
    let '(r2, c2) := adc (u2 a) (u2 b) c1 in
    let '(r3, c3) := adc (u3 a) (u3 b) c2 in
    if 0 <? c3 then None else Some (mkU256 r0 r1 r2 r3).
Proof. reflexivity. Qed.
Lemma checked_sub_unfold a b :
  checked_sub a b =
    let '(r0, c0) := sbb (u0 a) (u0 b) 0 in
    let '(r1, c1) := sbb (u1 a) (u1 b) c0 in
    let '(r2, c2) := sbb (u2 a) (u2 b) c1 in
    let '(r3, c3) := sbb (u3 a) (u3 b) c2 in
    if 0 <? c3 then None else Some (mkU256 r0 r1 r2 r3).
Proof. reflexivity. Qed.

Ltac limb_step spec f :=
  match goal with
  | |- context [f ?a ?b ?c] =>
      let H := fresh "H" in
      pose proof (spec a b c) as H; destruct (f a b c); cbn [fst snd] in H;
      destruct H as (? & ? & ?); [assumption || lia ..|]
  end.

Lemma checked_add_spec a b : wf a -> wf b ->
  match checked_add a b with
  | Some r => wf r /\ to_Z r = to_Z a + to_Z b
  | None => B256 <= to_Z a + to_Z b
  end.
Proof.
  intros (?&?&?&?) (?&?&?&?). rewrite checked_add_unfold.
  do 4 limb_step adc_spec adc.
  match goal with |- context [0 <? ?c] => destruct (Z.ltb_spec 0 c) end;
    unfold wf, to_Z; cbn [u0 u1 u2 u3]; [|split; [auto|]]; unfold is_u64 in *; lia.
Qed.
Lemma checked_sub_spec a b : wf a -> wf b ->
  match checked_sub a b with
  | Some r => wf r /\ to_Z r = to_Z a - to_Z b
  | None => to_Z a < to_Z b
  end.
Proof.
  intros (?&?&?&?) (?&?&?&?). rewrite checked_sub_unfold.
  do 4 limb_step sbb_spec sbb.
  match goal with |- context [0 <? ?c] => destruct (Z.ltb_spec 0 c) end;
    unfold wf, to_Z; cbn [u0 u1 u2 u3]; [|split; [auto|]]; unfold is_u64 in *; lia.
Qed.

Lemma cmp_spec a b : wf a -> wf b -> cmp a b = (to_Z a ?= to_Z b).
Proof.
  unfold wf, is_u64. intros. unfold cmp, to_Z. cbn [rev seq app cmp_limbs limb].
  repeat match goal with |- context [match ?x ?= ?y with _ => _ end] =>
    destruct (Z.compare_spec x y) end;
  symmetry; rewrite ?Z.compare_eq_iff, ?Z.compare_lt_iff, ?Z.compare_gt_iff; lia.
Qed.
Lemma ltb_spec a b : wf a -> wf b -> ltb a b = (to_Z a <? to_Z b).
Proof. intros. unfold ltb. rewrite cmp_spec by done. done. Qed.
Lemma leb_spec a b : wf a -> wf b -> leb a b = (to_Z a <=? to_Z b).
Proof. intros. unfold leb. rewrite cmp_spec by done. done. Qed.

(** One cell of the multiplication. *)
Definition mac (r x y c : Z) : Z * Z :=
  let product := x * y + r + c in (product mod B64, product / B64).
Lemma mac_spec r x y c : is_u64 r -> is_u64 x -> is_u64 y -> is_u64 c ->
  fst (mac r x y c) + B64 * snd (mac r x y c) = x * y + r + c /\
  is_u64 (fst (mac r x y c)) /\ is_u64 (snd (mac r x y c)).
Proof.
  unfold mac, is_u64; cbn [fst snd]. intros.
  pose proof (Z.div_mod (x * y + r + c) B64 ltac:(lia)).
  pose proof (Z.mod_pos_bound (x * y + r + c) B64 ltac:(lia)).
  assert (0 <= x * y <= (B64 - 1) * (B64 - 1)) by nia.
  split; [lia|split; [lia|]].
  split; [apply Z.div_pos; lia|apply Z.div_lt_upper_bound; lia].
Qed.
Lemma mul_unfold a b :
  mul a b =
    let '(x0, c) := mac 0 (u0 a) (u0 b) 0 in
    let '(x1, c) := mac 0 (u0 a) (u1 b) c in
    let '(x2, c) := mac 0 (u0 a) (u2 b) c in
    let '(x3, c) := mac 0 (u0 a) (u3 b) c in
    let '(x1, c) := mac x1 (u1 a) (u0 b) 0 in
    let '(x2, c) := mac x2 (u1 a) (u1 b) c in
    let '(x3, c) := mac x3 (u1 a) (u2 b) c in
    let '(x2, c) := mac x2 (u2 a) (u0 b) 0 in
    let '(x3, c) := mac x3 (u2 a) (u1 b) c in
    let '(x3, c) := mac x3 (u3 a) (u0 b) 0 in
    mkU256 x0 x1 x2 x3.
Proof. reflexivity. Qed.
Ltac mac_step k :=
  match goal with
  | |- context [mac ?r ?x ?y ?c] =>
      let H := fresh "H" in
      pose proof (mac_spec r x y c) as H; destruct (mac r x y c) as [? k]; cbn [fst snd] in H;
      destruct H as (? & ? & ?); [assumption || (unfold is_u64; lia) ..|]
  end.
Lemma mul_spec a b : wf a -> wf b ->
  wf (mul a b) /\ to_Z (mul a b) = (to_Z a * to_Z b) mod B256.
Proof.
  intros Ha Hb. rewrite mul_unfold.
  destruct a as [a0 a1 a2 a3], b as [b0 b1 b2 b3].
  destruct Ha as (?&?&?&?), Hb as (?&?&?&?). cbn [u0 u1 u2 u3] in *.
  mac_step k00. mac_step k01. mac_step k02. mac_step k0.
  mac_step k10. mac_step k11. mac_step k1.
  mac_step k20. mac_step k2. mac_step k3.
  split; [done|].
  apply Z.mod_unique_pos with
    (k0 + k1 + k2 + k3 + a1 * b3 + a2 * b2 + a3 * b1
     + B64 * (a2 * b3 + a3 * b2) + B128 * (a3 * b3));
    unfold to_Z, is_u64 in *; cbn [u0 u1 u2 u3]; lia.
Qed.

Lemma land_1_odd x : (Z.land x 1 =? 1) = Z.odd x.
Proof.
  change 1 with (Z.ones 1) at 1. rewrite Z.land_ones by lia.
  rewrite Zmod_odd. by destruct (Z.odd x).
Qed.
Lemma u64_testbit_high x i : is_u64 x -> 64 <= i -> Z.testbit x i = false.
Proof.
  intros Hx Hi. unfold is_u64 in Hx.
  apply Z.testbit_false; [lia|].
  rewrite Z.div_small; [done|]. split; [lia|].
  apply Z.lt_le_trans with (2 ^ 64); [lia|]. apply Z.pow_le_mono_r; lia.
Qed.
Lemma limb_wf x i : wf x -> is_u64 (limb x i).
Proof. intros (?&?&?&?). destruct i as [|[|[|]]]; done. Qed.

Lemma to_Z_div x i : wf x -> (i < 4)%nat ->
  (to_Z x / 2 ^ (64 * Z.of_nat i)) mod B64 = limb x i.
Proof.
  unfold wf, is_u64, to_Z. intros (?&?&?&?) Hi. 
  destruct i as [|[|[|[|]]]]; [| | | |lia]; cbn [limb].
  all: match goal with |- context [2 ^ ?e] => let v := eval vm_compute in (2 ^ e) in change (2 ^ e) with v end.
  - rewrite Z.div_1_r. symmetry.
    apply Z.mod_unique_pos with (u1 x + B64 * u2 x + B128 * u3 x); lia.
  - symmetry. apply Z.mod_unique_pos with (u2 x + B64 * u3 x); [lia|].
    symmetry. apply Z.div_unique_pos with (u0 x); lia.
  - symmetry. apply Z.mod_unique_pos with (u3 x); [lia|].
    symmetry. apply Z.div_unique_pos with (u0 x + B64 * u1 x); lia.
  - symmetry. apply Z.mod_unique_pos with 0; [lia|].
    symmetry. apply Z.div_unique_pos with (u0 x + B64 * u1 x + B128 * u2 x); lia.
Qed.
Lemma bit_spec x pos : wf x -> (pos < 256)%nat ->
  bit x pos = Z.testbit (to_Z x) (Z.of_nat pos).
Proof.
  intros Hx Hp. unfold bit. rewrite land_1_odd, <- Z.bit0_odd, Z.shiftr_spec by lia.
  rewrite <- (to_Z_div x (pos / 64)) by (done || (apply Nat.Div0.div_lt_upper_bound; lia)).
  pose proof (Nat.mod_upper_bound pos 64 ltac:(lia)).
  pose proof (Nat.div_mod_eq pos 64).
  change B64 with (2 ^ 64).
  rewrite Z.mod_pow2_bits_low by lia. rewrite Z.div_pow2_bits by lia.
  f_equal. lia.
Qed.

Lemma shl1_unfold x :
  shl1 x = mkU256
    (Z.lor (Z.shiftl (u0 x) 1 mod B64) 0)
    (Z.lor (Z.shiftl (u1 x) 1 mod B64) (Z.shiftr (u0 x) 63))
    (Z.lor (Z.shiftl (u2 x) 1 mod B64) (Z.shiftr (u1 x) 63))
    (Z.lor (Z.shiftl (u3 x) 1 mod B64) (Z.shiftr (u2 x) 63)).
Proof. reflexivity. Qed.
Lemma shl1_cell x c : is_u64 x -> 0 <= c <= 1 ->
  Z.lor (Z.shiftl x 1 mod B64) c + B64 * Z.shiftr x 63 = 2 * x + c /\
  is_u64 (Z.lor (Z.shiftl x 1 mod B64) c) /\ 0 <= Z.shiftr x 63 <= 1.
Proof.
  intros Hx Hc. rewrite Z.shiftl_mul_pow2, Z.shiftr_div_pow2 by lia.
  change (2 ^ 1) with 2. change (2 ^ 63) with 9223372036854775808.
  unfold is_u64 in *.
  assert (Hl : Z.lor ((x * 2) mod B64) c = (x * 2) mod B64 + c).
  { assert (E : (x * 2) mod B64 = ((x * 2) mod B64 / 2) * 2).
    { pose proof (Z.div_mod ((x * 2) mod B64) 2). 
      assert (((x * 2) mod B64) mod 2 = 0); [|lia].
      rewrite (Z.mod_eq (x * 2) B64) by lia.
      replace (x * 2 - B64 * (x * 2 / B64)) with
        ((x - 9223372036854775808 * (x * 2 / B64)) * 2) by lia.
      apply Z_mod_mult. }
    rewrite E. symmetry. rewrite Z.add_nocarry_lxor, Z.lxor_lor; [done|..];
    change 2 with (2 ^ 1); rewrite <- Z.shiftl_mul_pow2 by lia;
    apply Z.bits_inj'; intros n Hn; rewrite Z.land_spec, Z.bits_0;
    (destruct (decide (n = 0)) as [->|];
     [by rewrite Z.shiftl_spec_low by lia
     | apply andb_false_intro2; destruct (decide (c = 0)) as [->|];
       [apply Z.bits_0|assert (c = 1) as -> by lia; apply Z.bits_above_log2; simpl; lia]]). }
  rewrite Hl.
  pose proof (Z.div_mod (x * 2) B64 ltac:(lia)).
  pose proof (Z.mod_pos_bound (x * 2) B64 ltac:(lia)).
  assert (x / 9223372036854775808 = x * 2 / B64) as ->.
  { change B64 with (9223372036854775808 * 2). rewrite Z.div_mul_cancel_r; lia. }
  assert (0 <= x * 2 / B64 <= 1).
  { split; [apply Z.div_pos; lia|]. apply Z.lt_succ_r, Z.div_lt_upper_bound; lia. }
  assert (Hev : (x * 2) mod B64 <= B64 - 2) by lia.
  lia.
Qed.
Lemma shl1_spec x : wf x -> wf (shl1 x) /\ to_Z (shl1 x) = (2 * to_Z x) mod B256.
Proof.
  intros (H0&H1&H2&H3). rewrite shl1_unfold.
  destruct (shl1_cell (u0 x) 0) as (E0&?&?); [done|lia|].
  destruct (shl1_cell (u1 x) (Z.shiftr (u0 x) 63)) as (E1&?&?); [done..|].
  destruct (shl1_cell (u2 x) (Z.shiftr (u1 x) 63)) as (E2&?&?); [done..|].
  destruct (shl1_cell (u3 x) (Z.shiftr (u2 x) 63)) as (E3&?&?); [done..|].
  split; [done|].
  apply Z.mod_unique_pos with (Z.shiftr (u3 x) 63);
    unfold to_Z, is_u64 in *; cbn [u0 u1 u2 u3]; lia.
Qed.

Lemma u64_lor x y : is_u64 x -> is_u64 y -> is_u64 (Z.lor x y).
Proof.
  intros Hx Hy. assert (0 <= Z.lor x y) by (apply Z.lor_nonneg; unfold is_u64 in *; lia).
  split; [done|]. change B64 with (2 ^ 64).
  destruct (decide (Z.lor x y = 0)) as [->|]; [lia|].
  apply Z.log2_lt_pow2; [lia|]. rewrite Z.log2_lor by (unfold is_u64 in *; lia).
  assert (Hlog : forall z, is_u64 z -> Z.log2 z < 64).
  { intros z [Hz1 Hz2]. destruct (decide (z = 0)) as [->|]; [simpl; lia|].
    apply Z.log2_lt_pow2; [lia|]. exact Hz2. }
  pose proof (Hlog x Hx). pose proof (Hlog y Hy). lia.
Qed.
Lemma lor_pow2_add x k : 0 <= k -> Z.testbit x k = false -> Z.lor x (2 ^ k) = x + 2 ^ k.
Proof.
  intros Hk Hb. rewrite Z.add_nocarry_lxor, Z.lxor_lor; [done|..];
  apply Z.bits_inj'; intros n Hn; rewrite Z.land_spec, Z.bits_0, Z.pow2_bits_eqb by lia;
  (destruct (Z.eqb_spec k n) as [->|]; [by rewrite Hb|apply andb_false_r]).
Qed.
Lemma to_Z_set_limb x i v : (i < 4)%nat ->
  to_Z (set_limb x i v) = to_Z x + (v - limb x i) * 2 ^ (64 * Z.of_nat i).
Proof.
  intros Hi. destruct i as [|[|[|[|]]]]; [| | | |lia]; unfold to_Z; cbn [set_limb limb u0 u1 u2 u3];
  match goal with |- context [2 ^ ?e] => let v := eval vm_compute in (2 ^ e) in change (2 ^ e) with v end; lia.
Qed.
Lemma wf_set_limb x i v : wf x -> is_u64 v -> wf (set_limb x i v).
Proof. intros (?&?&?&?) ?. destruct i as [|[|[|]]]; done. Qed.
Lemma set_bit_spec x pos : wf x -> (pos < 256)%nat ->
  Z.testbit (to_Z x) (Z.of_nat pos) = false ->
  wf (set_bit x pos) /\ to_Z (set_bit x pos) = to_Z x + 2 ^ Z.of_nat pos.
Proof.
  intros Hx Hp Hb. unfold set_bit.
  pose proof (Nat.mod_upper_bound pos 64 ltac:(lia)).
  pose proof (Nat.div_mod_eq pos 64).
  assert (Hi : (pos / 64 < 4)%nat) by (apply Nat.Div0.div_lt_upper_bound; lia).
  assert (Hpow : 0 < 2 ^ Z.of_nat (pos mod 64) < B64).
  { split; [apply Z.pow_pos_nonneg; lia|]. change B64 with (2 ^ 64).
    apply Z.pow_lt_mono_r; lia. }
  rewrite Z.shiftl_1_l, Z.mod_small by lia.
  assert (Hl : Z.testbit (limb x (pos / 64)) (Z.of_nat (pos mod 64)) = false).
  { rewrite <- (to_Z_div x (pos / 64)) by done. change B64 with (2 ^ 64).
    rewrite Z.mod_pow2_bits_low, Z.div_pow2_bits by lia. rewrite <- Hb. f_equal. lia. }
  split.
  - apply wf_set_limb; [done|]. apply u64_lor; [by apply limb_wf|unfold is_u64; lia].
  - rewrite to_Z_set_limb by done. rewrite lor_pow2_add by (done || lia).
    rewrite Z.add_simpl_l, <- Z.pow_add_r by lia. f_equal. f_equal. lia.
Qed.

Section division.
Context (a d : U256) (Ha : wf a) (Hd : wf d) (Hd0 : to_Z d <> 0).

(** What the pair of [checked_div] holds before the low [n] bits. *)
Definition div_inv (n : nat) (qr : U256 * U256) : Prop :=
  wf (fst qr) /\ wf (snd qr) /\
  to_Z (fst qr) = (to_Z a / 2 ^ Z.of_nat n / to_Z d) * 2 ^ Z.of_nat n /\
  to_Z (snd qr) = (to_Z a / 2 ^ Z.of_nat n) mod to_Z d.

Lemma half_step i : to_Z a / 2 ^ Z.of_nat i =
  2 * (to_Z a / 2 ^ Z.of_nat (S i)) + Z.b2z (Z.testbit (to_Z a) (Z.of_nat i)).
Proof.
  rewrite Nat2Z.inj_succ, Z.pow_succ_r, (Z.mul_comm 2 (2 ^ _)), <- Z.div_div by lia.
  rewrite Z.testbit_spec' by lia. apply Z.div_mod. lia.
Qed.

Lemma testbit_mul_pow2_below q i : Z.testbit (q * 2 ^ Z.of_nat (S i)) (Z.of_nat i) = false.
Proof. rewrite Z.mul_pow2_bits_low by lia. done. Qed.

(** Doubling the remainder and adding the next bit does not overflow. *)
Lemma div_shift r i : (i < 256)%nat -> wf r ->
  to_Z r = (to_Z a / 2 ^ Z.of_nat (S i)) mod to_Z d ->
  let r' := shl1 r in
  let r' := if bit a i then set_limb r' 0 (Z.lor (limb r' 0) 1) else r' in
  wf r' /\ to_Z r' = 2 * to_Z r + Z.b2z (Z.testbit (to_Z a) (Z.of_nat i)).
Proof.
  intros Hi Hr Er. cbv zeta.
  pose proof (to_Z_range a Ha). pose proof (to_Z_range d Hd).
  assert (Hle : to_Z r <= to_Z a / 2 ^ Z.of_nat (S i)).
  { rewrite Er. apply Z.mod_le; [|lia]. apply Z.div_pos; [lia|]. apply Z.pow_pos_nonneg; lia. }
  assert (Hrange : 2 * to_Z r + Z.b2z (Z.testbit (to_Z a) (Z.of_nat i)) < B256).
  { pose proof (half_step i).
    assert (to_Z a / 2 ^ Z.of_nat i <= to_Z a).
    { apply Z.div_le_upper_bound; [apply Z.pow_pos_nonneg; lia|].
      assert (0 < 2 ^ Z.of_nat i) by (apply Z.pow_pos_nonneg; lia). nia. }
    lia. }
  pose proof (to_Z_range r Hr).
  destruct (shl1_spec r Hr) as [Hwf Hs]. rewrite bit_spec by done.
  destruct (Z.testbit (to_Z a) (Z.of_nat i)); simpl Z.b2z in *;
    (rewrite Z.mod_small in Hs by lia); [|split; [done|lia]].
  destruct (set_bit_spec (shl1 r) 0) as [Hw Ht]; [done|lia| |].
  { rewrite Hs. rewrite Z.bit0_odd, Z.odd_mul. done. }
  split; [exact Hw|]. etransitivity; [exact Ht|]. rewrite Hs. simpl. lia.
Qed.

Lemma div_step_inv {E} i qr : (i < 256)%nat -> div_inv (S i) qr ->
  exists qr', @div_step E a d qr i = Ok qr' /\ div_inv i qr'.
Proof.
  destruct qr as [q r]. intros Hi (Hq & Hr & Eq & Er). cbn [fst snd] in *.
  destruct (div_shift r i Hi Hr Er) as [Hw Ew].
  unfold div_step. cbv zeta in *.
  set (r' := if bit a i then _ else _) in *. clearbody r'.
  rewrite leb_spec by done.
  pose proof (to_Z_range a Ha). pose proof (to_Z_range d Hd).
  set (bi := Z.b2z _) in *.
  assert (0 <= bi <= 1) by (unfold bi; destruct (Z.testbit _ _); simpl; lia).
  pose proof (half_step i) as Hh. fold bi in Hh.
  set (A1 := to_Z a / 2 ^ Z.of_nat (S i)) in *.
  pose proof (Z.div_mod A1 (to_Z d) Hd0).
  pose proof (Z.mod_pos_bound A1 (to_Z d) ltac:(lia)).
  assert (Hpow : 2 ^ Z.of_nat (S i) = 2 * 2 ^ Z.of_nat i)
    by (rewrite Nat2Z.inj_succ, Z.pow_succ_r; lia).
  destruct (Z.leb_spec (to_Z d) (to_Z r')) as [Hge|Hlt].
  - pose proof (checked_sub_spec r' d Hw Hd) as Hs.
    destruct (checked_sub r' d) as [r''|]; [|lia]. destruct Hs as [Hw'' Es].
    destruct (set_bit_spec q i) as [Hwq Eq']; [done|done| |].
    { rewrite Eq. apply testbit_mul_pow2_below. }
    eexists. split; [reflexivity|].
    unfold div_inv; cbn [fst snd]. split; [done|]. split; [done|].
    rewrite Hh, Eq', Eq, Hpow, Es, Ew, Er.
    assert (Hq1 : (2 * A1 + bi) / to_Z d = 2 * (A1 / to_Z d) + 1).
    { symmetry. apply Z.div_unique_pos with (2 * (A1 mod to_Z d) + bi - to_Z d); lia. }
    split; [rewrite Hq1; lia|].
    apply Z.mod_unique_pos with (2 * (A1 / to_Z d) + 1); lia.
  - eexists. split; [reflexivity|].
    unfold div_inv; cbn [fst snd]. split; [done|]. split; [done|].
    rewrite Hh, Eq, Hpow, Ew, Er.
    assert (Hq1 : (2 * A1 + bi) / to_Z d = 2 * (A1 / to_Z d)).
    { symmetry. apply Z.div_unique_pos with (2 * (A1 mod to_Z d) + bi); lia. }
    split; [rewrite Hq1; lia|].
    apply Z.mod_unique_pos with (2 * (A1 / to_Z d)); lia.
Qed.

Lemma div_loop_inv {E} n qr : (n <= 256)%nat -> div_inv n qr ->
  exists qr', for_each (@div_step E a d) (rev (seq 0 n)) qr = Ok qr' /\ div_inv 0 qr'.
Proof.
  revert qr. induction n as [|n IH]; intros qr Hn Hinv; [by exists qr|].
  rewrite seq_S, rev_app_distr. cbn [rev app for_each Nat.add].
  destruct (@div_step_inv E n qr) as (qr' & E1 & Hinv'); [lia|done|].
  rewrite E1. simpl. apply IH; [lia|done].
Qed.
End division.

Lemma checked_div_spec {E} a b : wf a -> wf b -> b <> ZERO ->
  exists q, @checked_div E a b = Ok (Some q) /\ wf q /\ to_Z q = to_Z a / to_Z b.
Proof.
  intros Ha Hb Hb0. unfold checked_div. rewrite decide_False by done.
  pose proof (to_Z_range a Ha). pose proof (to_Z_range b Hb).
  assert (to_Z b <> 0).
  { intros ?. apply Hb0. apply to_Z_inj; [done|done|]. done. }
  rewrite ltb_spec by done. destruct (Z.ltb_spec (to_Z a) (to_Z b)).
  - exists ZERO. split; [done|]. split; [done|]. by rewrite Z.div_small by lia.
  - destruct (@div_loop_inv a b Ha Hb ltac:(done) E 256 (ZERO, ZERO)) as (qr & E1 & Hq & Hr & Eq & _).
    + lia.
    + assert (Hs : to_Z a / 2 ^ Z.of_nat 256 = 0) by (apply Z.div_small; exact (to_Z_range a Ha)).
      unfold div_inv. rewrite Hs. done.
    + rewrite E1. exists (fst qr). split; [done|]. split; [done|].
      rewrite Eq. simpl. rewrite Z.div_1_r. lia.
Qed.

(** ** Comparison, bounds and the panicking operators *)
Lemma wf_from_u64 v : is_u64 v -> wf (from_u64 v).
Proof. intros. unfold wf, is_u64 in *; cbn; lia. Qed.
Lemma to_Z_from_u64 v : to_Z (from_u64 v) = v.
Proof. unfold to_Z; cbn [from_u64 u0 u1 u2 u3]. lia. Qed.
Lemma wf_zero : wf ZERO.
Proof. done. Qed.
Lemma to_Z_zero : to_Z ZERO = 0.
Proof. done. Qed.
Lemma to_Z_eq_zero x : wf x -> to_Z x = 0 -> x = ZERO.
Proof. intros Hx H0. by apply to_Z_inj. Qed.
Lemma max_spec a b : wf a -> wf b -> wf (max a b) /\ to_Z (max a b) = Z.max (to_Z a) (to_Z b).
Proof. intros Ha Hb. unfold max. rewrite ltb_spec by done. case (Z.ltb_spec (to_Z b) (to_Z a)); split; (done || lia). Qed.
Lemma min_spec a b : wf a -> wf b -> wf (min a b) /\ to_Z (min a b) = Z.min (to_Z a) (to_Z b).
Proof. intros Ha Hb. unfold min. rewrite ltb_spec by done. case (Z.ltb_spec (to_Z b) (to_Z a)); split; (done || lia). Qed.

Lemma checked_add_Some a b : wf a -> wf b -> to_Z a + to_Z b < B256 ->
  exists r, checked_add a b = Some r /\ wf r /\ to_Z r = to_Z a + to_Z b.
Proof.
  intros Ha Hb Hlt. pose proof (checked_add_spec a b Ha Hb) as H.
  destruct (checked_add a b) as [r|]; [by exists r|lia].
Qed.
Lemma checked_sub_Some a b : wf a -> wf b -> to_Z b <= to_Z a ->
  exists r, checked_sub a b = Some r /\ wf r /\ to_Z r = to_Z a - to_Z b.
Proof.
  intros Ha Hb Hle. pose proof (checked_sub_spec a b Ha Hb) as H.
  destruct (checked_sub a b) as [r|]; [by exists r|lia].
Qed.
Lemma checked_sub_None a b : wf a -> wf b -> to_Z a < to_Z b -> checked_sub a b = None.
Proof.
  intros Ha Hb Hlt. pose proof (checked_sub_spec a b Ha Hb) as H.
  destruct (checked_sub a b) as [r|]; [|done].
  destruct H as [Hr ?]. pose proof (to_Z_range r Hr). lia.
Qed.
Lemma div_Ok {E} a b : wf a -> wf b -> 0 < to_Z b ->
  exists q, @div E a b = Ok q /\ wf q /\ to_Z q = to_Z a / to_Z b.
Proof.
  intros Ha Hb Hpos.
  destruct (@checked_div_spec E a b Ha Hb) as (q & Eq & Hq); [by intros ->|].
  exists q. unfold div. by rewrite Eq.
Qed.

(** ** Bytes *)
Lemma to_be_bytes_unfold x : to_be_bytes x =
  Prelude.to_be_bytes 8 (u3 x) ++ Prelude.to_be_bytes 8 (u2 x) ++
  Prelude.to_be_bytes 8 (u1 x) ++ Prelude.to_be_bytes 8 (u0 x).
Proof. reflexivity. Qed.
Lemma from_be_bytes_app l3 l2 l1 l0 :
  length l3 = 8%nat -> length l2 = 8%nat -> length l1 = 8%nat -> length l0 = 8%nat ->
  from_be_bytes (l3 ++ l2 ++ l1 ++ l0) =
  mkU256 (Prelude.from_be_bytes l0) (Prelude.from_be_bytes l1)
         (Prelude.from_be_bytes l2) (Prelude.from_be_bytes l3).
Proof.
  intros. 
  repeat match goal with H : length ?l = _%nat |- _ =>
    do 9 (destruct l as [|? l]; try discriminate H); clear H end.
  reflexivity.
Qed.
Lemma is_bytes_split l : is_bytes 32 l -> exists l3 l2 l1 l0,
  l = l3 ++ l2 ++ l1 ++ l0 /\
  is_bytes 8 l3 /\ is_bytes 8 l2 /\ is_bytes 8 l1 /\ is_bytes 8 l0.
Proof.
  intros [Hl Hb].
  exists (take 8 l), (take 8 (drop 8 l)), (take 8 (drop 16 l)), (drop 24 l).
  unfold is_bytes. rewrite !length_take, !length_drop.
  split; [|repeat split; try lia; auto using Forall_take, Forall_drop].
  change 24%nat with (8 + 16)%nat. change 16%nat with (8 + 8)%nat.
  by rewrite <- !drop_drop, !take_drop.
Qed.

(** ** Properties *)

(** [checked_add] and [checked_sub] return the exact sum or difference
    of the two 256-bit integers, and [None] exactly when it does not fit;
    [cmp] is the order of the integers. *)
Theorem checked_add_sub_exact a b (Ha : wf a) (Hb : wf b) :
  (forall r, checked_add a b = Some r <-> wf r /\ to_Z r = to_Z a + to_Z b) /\
  (forall r, checked_sub a b = Some r <-> wf r /\ to_Z r = to_Z a - to_Z b) /\
  cmp a b = (to_Z a ?= to_Z b).
Proof.
  pose proof (checked_add_spec a b Ha Hb). pose proof (checked_sub_spec a b Ha Hb).
  split; [|split; [|by apply cmp_spec]]; intros r.
  - destruct (checked_add a b); (split; [intros; simplify_eq; done|intros [Hr Er]]);
      pose proof (to_Z_range r Hr); [|lia].
    f_equal. apply to_Z_inj; [tauto|done|lia].
  - destruct (checked_sub a b); (split; [intros; simplify_eq; done|intros [Hr Er]]);
      pose proof (to_Z_range r Hr); [|lia].
    f_equal. apply to_Z_inj; [tauto|done|lia].
Qed.
Lemma checked_add_sub_exact_witness :
  wf (mkU256 (B64 - 1) (B64 - 1) 0 0) /\
  checked_add (mkU256 (B64 - 1) (B64 - 1) 0 0) ONE = Some (mkU256 0 0 1 0).
Proof.
  split; [done|].
  apply (proj1 (checked_add_sub_exact (mkU256 (B64 - 1) (B64 - 1) 0 0) ONE
    ltac:(done) ltac:(done))). done.
Defined.

(** The schoolbook multiplication computes the product modulo 2^256. *)
Theorem mul_wraps a b (Ha : wf a) (Hb : wf b) :
  wf (mul a b) /\ to_Z (mul a b) = (to_Z a * to_Z b) mod B256.
Proof. by apply mul_spec. Qed.
Lemma mul_wraps_witness : to_Z (mul (mkU256 0 0 0 2) (mkU256 0 0 3 0)) = 0.
Proof.
  rewrite (proj2 (mul_wraps (mkU256 0 0 0 2) (mkU256 0 0 3 0) ltac:(done) ltac:(done))).
  reflexivity.
Defined.

(** The bitwise long division never panics, returns [None] exactly on a
    zero divisor, and otherwise the floor of the quotient, for divisors up to
    2^256 - 1 although the shifted remainder is kept in 256 bits. *)
Theorem checked_div_floor {E} a b (Ha : wf a) (Hb : wf b) :
  (b = ZERO /\ @checked_div E a b = Ok None) \/
  (b <> ZERO /\ exists q, @checked_div E a b = Ok (Some q) /\
                         wf q /\ to_Z q = to_Z a / to_Z b).
Proof.
  destruct (decide (b = ZERO)) as [->|Hb0]; [left|right; split; [done|]].
  - split; [done|]. unfold checked_div. by rewrite decide_True by done.
  - by apply checked_div_spec.
Qed.
Lemma checked_div_floor_witness :
  exists q, @checked_div () (mkU256 5 0 0 (B64 - 1)) (mkU256 0 0 0 (B64 - 2)) = Ok (Some q)
            /\ to_Z q = 1.
Proof.
  destruct (@checked_div_floor () (mkU256 5 0 0 (B64 - 1)) (mkU256 0 0 0 (B64 - 2))
    ltac:(done) ltac:(done)) as [[H _]|(_ & q & Hq & _ & Ez)]; [discriminate H|].
  exists q. split; [exact Hq|]. rewrite Ez. reflexivity.
Defined.

(** [to_be_bytes] and [from_be_bytes] are inverse on 256-bit integers and
    on 32-byte strings. *)
Theorem be_bytes_roundtrip :
  (forall x, wf x -> is_bytes 32 (to_be_bytes x) /\ from_be_bytes (to_be_bytes x) = x) /\
  (forall l, is_bytes 32 l -> wf (from_be_bytes l) /\ to_be_bytes (from_be_bytes l) = l).
Proof.
  split.
  - intros [x0 x1 x2 x3] (?&?&?&?). unfold is_u64 in *; cbn [u0 u1 u2 u3] in *.
    rewrite to_be_bytes_unfold. cbn [u0 u1 u2 u3].
    split.
    + split; [rewrite !length_app, !to_be_bytes_length; done|].
      rewrite !Forall_app. unfold Prelude.to_be_bytes.
      auto 10 using Forall_rev, to_le_bytes_byte.
    + rewrite from_be_bytes_app by apply to_be_bytes_length.
      by rewrite !from_to_be_bytes by (simpl; lia).
  - intros l (l3 & l2 & l1 & l0 & -> & [] & [] & [] & [])%is_bytes_split.
    rewrite from_be_bytes_app by done. rewrite to_be_bytes_unfold. cbn [u0 u1 u2 u3].
    split.
    + assert (Hr : forall k, length k = 8%nat -> Forall is_byte k ->
        is_u64 (Prelude.from_be_bytes k)).
      { intros k Hk Hb. unfold is_u64, Prelude.from_be_bytes.
        pose proof (from_le_bytes_range (rev k) (Forall_rev Hb)) as Hr.
        rewrite length_rev, Hk in Hr. exact Hr. }
      unfold wf. cbn [u0 u1 u2 u3]. auto.
    + assert (Hr : forall k, length k = 8%nat -> Forall is_byte k ->
        Prelude.to_be_bytes 8 (Prelude.from_be_bytes k) = k).
      { intros k Hk Hb. rewrite <- Hk. by apply to_from_be_bytes. }
      by rewrite !Hr.
Qed.
End U256Facts.
