(* ===== verification/Crypto.v ===== *)
(** * Cryptographic primitives (crates/nexus-primitives: crypto.rs, address.rs)

    BLAKE3, Keccak-256 and the k256 ECDSA operations are third-party crates:
    they are the fields of [CryptoLib], and every definition that uses them
    takes an instance.  What the repository builds from them (Merkle root,
    vertex identifier, contract addresses, signature checks, the checksum text
    of addresses) is defined as in the source. *)
From S2P Require Import Prelude Text Types.
From stdpp Require Import base numbers list gmap strings.
From Stdlib Require Import ZArith Lia.
#[local] Open Scope Z_scope.

(** Byte strings in, byte strings out. *)
Class CryptoLib := {
  (** [blake3::hash], also of an incremental hasher: the digest of the
      concatenated updates *)
  blake3 : list Z -> list Z;
  (** [sha3::Keccak256::digest] *)
  keccak : list Z -> list Z;
  (** [VerifyingKey::from_sec1_bytes] accepts the encoded point *)
  key_ok : list Z -> bool;
  (** [ecdsa::Signature::from_bytes] / [try_from] accepts the 64 bytes *)
  sig_ok : list Z -> bool;
  (** [verify_prehash key digest sig] *)
  verify_prehash : list Z -> list Z -> list Z -> bool;
  (** [Verifier::verify key message sig] *)
  verify_msg : list Z -> list Z -> list Z -> bool;
  (** [VerifyingKey::recover_from_prehash digest sig recovery_id], as the
      uncompressed point *)
  recover_prehash : list Z -> list Z -> Z -> option (list Z);
  (** [SigningKey::sign_prehash_recoverable key digest] *)
  sign_prehash : list Z -> list Z -> option (list Z * Z);
  (** [Signer::sign key message] *)
  sign_msg : list Z -> list Z -> list Z;
  (** [SigningKey::from_bytes] accepts the 32 bytes *)
  secret_ok : list Z -> bool;
  (** [VerifyingKey::to_encoded_point] of a signing key, uncompressed and
      compressed *)
  public_point : list Z -> list Z;
  public_compressed : list Z -> list Z;
  (** [hex::encode] *)
  hex_encode : list Z -> string
}.

(** [Display] of [Hash] and [Debug] of [Address] *)
Definition hash_display `{CryptoLib} (h : Hash) : string := "0x" +:+ hex_encode (hash_bytes h).
Definition address_debug `{CryptoLib} (a : Address) : string := "0x" +:+ hex_encode (addr_bytes a).
(** [Debug] of [Hash], [U256] and [ValidatorId] *)
Definition hash_debug `{CryptoLib} (h : Hash) : string := "0x" +:+ hex_encode (take 8 (hash_bytes h)).
Definition u256_debug `{CryptoLib} (x : U256) : string := "0x" +:+ hex_encode (U256.to_be_bytes x).
Definition validator_id_debug `{CryptoLib} (v : ValidatorId) : string :=
  "Validator(" +:+ hex_encode (take 8 (vid_bytes v)) +:+ ")".

(** ** ECDSA signatures and keys *)
Record EcdsaSignature := mkSig { sig_r : list Z; sig_s : list Z; sig_v : Z }.
#[export] Instance EcdsaSignature_eq_dec : EqDecision EcdsaSignature.
Proof. solve_decision. Defined.
Definition empty_signature : EcdsaSignature := mkSig (replicate 32 0) (replicate 32 0) 0.

Definition sig_to_bytes (s : EcdsaSignature) : list Z := sig_r s ++ sig_s s ++ [sig_v s].
Definition sig_from_bytes (bytes : list Z) : EcdsaSignature :=
  mkSig (take 32 bytes) (take 32 (drop 32 bytes)) (default 0 (bytes !! 64%nat)).

Section crypto.
Context `{CryptoLib}.

Definition keccak256 (data : list Z) : list Z := keccak data.
Definition blake3_hash (data : list Z) : Hash := mkHash (blake3 data).

(** [Debug] of [EcdsaSignature] and [PublicKey] *)
Definition signature_debug (s : EcdsaSignature) : string :=
  "Sig(r=" +:+ hex_encode (take 4 (sig_r s)) +:+ ", v=" +:+ show (sig_v s) +:+ ")".
Definition public_key_debug (public_key : list Z) : string :=
  "PubKey(" +:+ hex_encode (take 8 public_key) +:+ "...)".

(** [PublicKey::from_secret]: the 0x04 prefix is dropped. *)
Definition public_from_secret (secret : list Z) : outcome NexusError (list Z) :=
  let bytes := public_point secret in
  if decide (length bytes = 65%nat) then Ok (drop 1 bytes)
  else Err (CryptoError "Invalid public key length").
(** [SecretKey::from_bytes]; the key is its bytes, and [error] is the text of
    the refusal. *)
Definition secret_from_bytes (error : string) (bytes : list Z) : outcome NexusError (list Z) :=
  if secret_ok bytes then Ok bytes else Err (CryptoError ("Invalid secret key: " +:+ error)).

(** [PublicKey::to_address]: the last 20 bytes of the digest *)
Definition to_address (public_key : list Z) : Address :=
  mkAddress (take 20 (drop 12 (keccak256 public_key))).

(** [PublicKey::to_verifying_key]: the 0x04 prefix is added back *)
Definition to_verifying_key (public_key : list Z) : outcome NexusError (list Z) :=
  let bytes := 4 :: public_key in
  if key_ok bytes then Ok bytes else Err (CryptoError "Invalid public key").

(** [RecoveryId::try_from] accepts 0 to 3. *)
Definition recovery_id (v : Z) : option Z :=
  let id := sat_sub64 v 27 in
  if id <=? 3 then Some id else None.

(** [SecretKey::sign] *)
Definition secret_sign (secret : list Z) (message_hash : Hash)
    : outcome NexusError EcdsaSignature :=
  '(sig_bytes, id) ← ok_or (CryptoError "Signing failed")
                       (sign_prehash secret (hash_bytes message_hash));
  Ok (mkSig (take 32 sig_bytes) (take 32 (drop 32 sig_bytes)) (id + 27)).

Definition verify_signature (message_hash : Hash) (signature : EcdsaSignature)
    (public_key : list Z) : outcome NexusError bool :=
  verifying_key ← to_verifying_key public_key;
  let sig_bytes := (sig_r signature ++ sig_s signature)%list in
  if negb (sig_ok sig_bytes) then Err (CryptoError "Invalid signature format") else
  _ ← ok_or (CryptoError "Invalid recovery id") (recovery_id (sig_v signature));
  Ok (verify_prehash verifying_key (hash_bytes message_hash) sig_bytes).

Definition recover_public_key (message_hash : Hash) (signature : EcdsaSignature)
    : outcome NexusError (list Z) :=
  let sig_bytes := (sig_r signature ++ sig_s signature)%list in
  if negb (sig_ok sig_bytes) then Err (CryptoError "Invalid signature") else
  id ← ok_or (CryptoError "Invalid recovery id") (recovery_id (sig_v signature));
  bytes ← ok_or (CryptoError "Recovery failed")
            (recover_prehash (hash_bytes message_hash) sig_bytes id);
  if decide (length bytes = 65%nat) then Ok (drop 1 bytes)
  else Err (CryptoError "Invalid recovered key length").

(** ** Vertex identifier *)
Definition vertex_hash_input (parents transactions : list Hash) (timestamp : Z)
    (validator : ValidatorId) : list Z :=
  (to_le_bytes 4 (Z.of_nat (length parents) mod 2 ^ 32)
   ++ concat (hash_bytes <$> parents)
   ++ to_le_bytes 4 (Z.of_nat (length transactions) mod 2 ^ 32)
   ++ concat (hash_bytes <$> transactions)
   ++ to_le_bytes 8 timestamp
   ++ vid_bytes validator)%list.
Definition vertex_hash (parents transactions : list Hash) (timestamp : Z)
    (validator : ValidatorId) : Hash :=
  mkHash (blake3 (vertex_hash_input parents transactions timestamp validator)).

(** ** Merkle root *)

(** One pass of the [while]: [chunks(2)], an odd last hash paired with itself. *)
Fixpoint next_level (level : list Hash) : list Hash :=
  match level with
  | [] => []
  | [h] => [blake3_hash (hash_bytes h ++ hash_bytes h)]
  | h1 :: h2 :: level => blake3_hash (hash_bytes h1 ++ hash_bytes h2) :: next_level level
  end.
(** [while current_level.len() > 1] *)
Fixpoint merkle_loop (fuel : nat) (current_level : list Hash) : list Hash :=
  match fuel with
  | O => current_level
  | S fuel =>
      if (1 <? length current_level)%nat
      then merkle_loop fuel (next_level current_level)
      else current_level
  end.
Definition compute_merkle_root (hashes : list Hash) : Hash :=
  match hashes with
  | [] => HASH_ZERO
  | [h] => h
  | _ => default HASH_ZERO (head (merkle_loop (length hashes) hashes))
  end.

(** ** Contract addresses (address.rs) *)
Definition leading_zeros64 (n : Z) : Z := if n =? 0 then 64 else 63 - Z.log2 n.
(** [iter().position(|&b| b != 0)] *)
Fixpoint first_nonzero (l : list Z) : option nat :=
  match l with
  | [] => None
  | b :: l => if b =? 0 then S <$> first_nonzero l else Some 0%nat
  end.

(** The byte string that [Address::create_contract_address] hashes. *)
Definition create_rlp (deployer : Address) (nonce : Z) : list Z :=
  let deployer_len := 21 in
  let nonce_len :=
    if nonce =? 0 then 1
    else if nonce <? 128 then 1
    else 1 + (64 - leading_zeros64 nonce) / 8
           + (if (64 - leading_zeros64 nonce) mod 8 =? 0 then 0 else 1) in
  let total_len := deployer_len + nonce_len in
  let header :=
    if total_len <? 56 then [(192 + total_len) mod 256]
    else
      let len_bytes := to_be_bytes 8 total_len in
      let len_start := default 7%nat (first_nonzero len_bytes) in
      (247 + (8 - Z.of_nat len_start)) mod 256 :: drop len_start len_bytes in
  let nonce_enc :=
    if nonce =? 0 then [128]
    else if nonce <? 128 then [nonce]
    else
      let nonce_bytes := to_be_bytes 8 nonce in
      let start := default 7%nat (first_nonzero nonce_bytes) in
      (128 + (8 - Z.of_nat start)) mod 256 :: drop start nonce_bytes in
  (header ++ [148] ++ addr_bytes deployer ++ nonce_enc)%list.
Definition create_contract_address (deployer : Address) (nonce : Z) : Address :=
  mkAddress (drop 12 (keccak256 (create_rlp deployer nonce))).

Definition create2_contract_address (deployer : Address) (salt : list Z)
    (init_code_hash : Hash) : Address :=
  mkAddress (drop 12 (keccak256
    (255 :: addr_bytes deployer ++ salt ++ hash_bytes init_code_hash)%list)).
End crypto.

(** [Address::is_precompile] *)
Definition is_precompile (a : Address) : bool :=
  let last_byte := default 0 (addr_bytes a !! 19%nat) in
  let is_prefix_zero := forallb (fun b => b =? 0) (take 19 (addr_bytes a)) in
  is_prefix_zero &&
    (((1 <=? last_byte) && (last_byte <=? 10))
     || ((32 <=? last_byte) && (last_byte <=? 47))
     || ((48 <=? last_byte) && (last_byte <=? 63))).

(** The system addresses *)
Definition SYSTEM_ZKP : Address := mkAddress (replicate 19 0 ++ [32]).
Definition SYSTEM_ISO : Address := mkAddress (replicate 19 0 ++ [48]).
Definition SYSTEM_GOVERNANCE : Address := mkAddress (replicate 19 0 ++ [1]).
Definition SYSTEM_STAKING : Address := mkAddress (replicate 19 0 ++ [2]).

(** ** The text of addresses; an error of the hex crate is not told apart. *)
Inductive FromHexError := HexDecodeError | InvalidStringLength.
Definition address_from_hex `{HexLib} (s : list Z) : outcome FromHexError Address :=
  bytes ← ok_or HexDecodeError (hex_decode (strip_0x_bytes s));
  if negb (length bytes =? 20)%nat then Err InvalidStringLength else Ok (mkAddress bytes).
(** [to_checksum_string]: a character is raised when its nibble of the digest
    of the text is at least eight. *)
Definition checksum_char (hash : list Z) (i : nat) (c : Z) : Z :=
  let byte := default 0 (hash !! (i / 2)%nat) in
  let hash_nibble := if Nat.even i then Z.land (Z.shiftr byte 4) 15 else Z.land byte 15 in
  if 8 <=? hash_nibble then ascii_upper c else c.
Definition to_checksum_string `{CryptoLib} (a : Address) : list Z :=
  let hex_addr := bytes_of (hex_encode (addr_bytes a)) in
  let hash := keccak256 hex_addr in
  (bytes_of "0x" ++ imap (checksum_char hash) hex_addr)%list.

Inductive AccountId :=
  | AcctAddress (a : Address)
  | AcctSystem (id : Z)
  | AcctValidator (hash : list Z).
Definition account_to_address (x : AccountId) : Address :=
  match x with
  | AcctAddress addr => addr
  | AcctSystem id => mkAddress (replicate 19 0 ++ [id])
  | AcctValidator hash => mkAddress (take 20 (drop 12 hash))
  end.

(** ** Merkle root: termination, binding, and the odd-tail collision *)
Section merkle.
Context `{CryptoLib}.

Lemma next_level_length level : length (next_level level) = Nat.div2 (S (length level)).
Proof.
  remember (length level) as n eqn:Hn. revert level Hn.
  induction n as [n IH] using lt_wf_ind; intros [|h1 [|h2 level]] ->; [done..|].
  cbn [next_level length Nat.div2]. f_equal. apply (IH (length level)); simpl; auto.
Qed.
Lemma next_level_shrinks level : (1 < length level)%nat ->
  (0 < length (next_level level) < length level)%nat.
Proof.
  rewrite next_level_length, Nat.div2_div. intros.
  pose proof (Nat.div_mod_eq (S (length level)) 2).
  pose proof (Nat.mod_upper_bound (S (length level)) 2). lia.
Qed.
Lemma merkle_loop_end fuel level : (0 < length level <= S fuel)%nat ->
  exists h, merkle_loop fuel level = [h].
Proof.
  revert level. induction fuel as [|fuel IH]; intros level Hl; simpl.
  - destruct level as [|h []]; simpl in Hl; [lia|eauto|lia].
  - case Nat.ltb_spec; intros.
    + apply IH. pose proof (next_level_shrinks level). lia.
    + destruct level as [|h []]; simpl in *; [lia|eauto|lia].
Qed.
(** More fuel than the length of the level changes nothing. *)
Lemma merkle_loop_fuel fuel fuel' level :
  (length level <= S fuel)%nat -> (length level <= S fuel')%nat ->
  merkle_loop fuel level = merkle_loop fuel' level.
Proof.
  revert fuel' level. induction fuel as [|fuel IH]; intros fuel' level H1 H2.
  - destruct fuel'; simpl; [done|]. case Nat.ltb_spec; [lia|done].
  - destruct fuel' as [|fuel']; simpl; [case Nat.ltb_spec; [lia|done]|].
    case Nat.ltb_spec; [|done]. intros.
    pose proof (next_level_shrinks level). apply IH; lia.
Qed.
Lemma compute_merkle_root_loop hashes : hashes <> [] ->
  compute_merkle_root hashes = default HASH_ZERO (head (merkle_loop (length hashes) hashes)).
Proof. destruct hashes as [|h []]; done. Qed.

(** Two distinct 64-byte strings with one digest. *)
Definition blake3_collision : Prop :=
  exists x y, length x = 64%nat /\ length y = 64%nat /\ x <> y /\ blake3 x = blake3 y.

Lemma pair_inj (h1 h2 k1 k2 : Hash) :
  length (hash_bytes h1) = 32%nat -> length (hash_bytes h2) = 32%nat ->
  length (hash_bytes k1) = 32%nat -> length (hash_bytes k2) = 32%nat ->
  blake3_hash (hash_bytes h1 ++ hash_bytes h2) =
    blake3_hash (hash_bytes k1 ++ hash_bytes k2) ->
  blake3_collision \/ (h1 = k1 /\ h2 = k2).
Proof.
  intros L1 L2 L3 L4 E. apply (f_equal hash_bytes) in E. cbn [blake3_hash hash_bytes] in E.
  destruct (decide (hash_bytes h1 ++ hash_bytes h2 = hash_bytes k1 ++ hash_bytes k2))
    as [Eq|Ne]; [right|left].
  - apply app_inj_1 in Eq; [|lia]. destruct h1, h2, k1, k2, Eq; simpl in *; by subst.
  - exists (hash_bytes h1 ++ hash_bytes h2), (hash_bytes k1 ++ hash_bytes k2).
    rewrite !length_app, L1, L2, L3, L4. done.
Qed.

Definition len32 (h : Hash) : Prop := length (hash_bytes h) = 32%nat.

Section binding.
Context (blake3_length : forall x, length (blake3 x) = 32%nat).

Lemma next_level_len32 level : Forall len32 (next_level level).
Proof.
  remember (length level) as n eqn:Hn. revert level Hn.
  induction n as [n IH] using lt_wf_ind; intros [|h1 [|h2 level]] ->; simpl;
    repeat constructor; try apply blake3_length.
  apply (IH (length level)); simpl; auto.
Qed.
Lemma next_level_inj l k : length l = length k ->
  Forall len32 l -> Forall len32 k -> next_level l = next_level k ->
  blake3_collision \/ l = k.
Proof.
  remember (length l) as n eqn:Hn. revert l k Hn.
  induction n as [n IH] using lt_wf_ind.
  intros [|h1 [|h2 l]] k -> Hlen Hl Hk E; destruct k as [|k1 [|k2 k]];
    try discriminate Hlen; [by right| |].
  - inversion Hl; inversion Hk; subst.
    destruct (pair_inj h1 h1 k1 k1) as [?|[-> _]]; auto.
    cbn [next_level] in E. congruence.
  - apply Forall_cons in Hl as [? [? ?]%Forall_cons].
    apply Forall_cons in Hk as [? [? ?]%Forall_cons].
    cbn [next_level] in E.
    assert (E2 : next_level l = next_level k) by congruence.
    assert (E1 : blake3_hash (hash_bytes h1 ++ hash_bytes h2) =
                 blake3_hash (hash_bytes k1 ++ hash_bytes k2)) by congruence.
    destruct (pair_inj h1 h2 k1 k2) as [?|[-> ->]]; auto.
    cbn [length] in *.
    destruct (IH (length l) ltac:(lia) l k) as [? | ->]; auto with lia.
Qed.
Lemma merkle_loop_inj fuel l k : length l = length k -> (0 < length l <= S fuel)%nat ->
  Forall len32 l -> Forall len32 k ->
  head (merkle_loop fuel l) = head (merkle_loop fuel k) -> blake3_collision \/ l = k.
Proof.
  revert l k. induction fuel as [|fuel IH]; intros l k Hlen Hf Hl Hk; cbn [merkle_loop].
  - destruct l as [|h []], k as [|h' []]; simpl in *; try lia. intros. right. congruence.
  - rewrite <- Hlen. case Nat.ltb_spec; intros Hlt E.
    + pose proof (next_level_shrinks l Hlt).
      assert (Hn : length (next_level l) = length (next_level k))
        by (rewrite !next_level_length; congruence).
      destruct (IH _ _ Hn) as [|E']; auto using next_level_len32; [lia|].
      by apply next_level_inj.
    + destruct l as [|h []], k as [|h' []]; simpl in *; try lia. right. congruence.
Qed.

(** The Merkle root binds the list of hashes: two lists of one length
    with the same root are equal, or exhibit a BLAKE3 collision. *)
Theorem merkle_root_binding l k (Hlen : length l = length k)
    (Hl : Forall len32 l) (Hk : Forall len32 k)
    (E : compute_merkle_root l = compute_merkle_root k) :
  blake3_collision \/ l = k.
Proof.
  destruct (decide (l = [])) as [->|Hne].
  { destruct k; [by right|discriminate Hlen]. }
  assert (Hne' : k <> []) by (intros ->; by destruct l).
  rewrite !compute_merkle_root_loop in E by done.
  apply (merkle_loop_inj (length l)); auto; [destruct l; simpl in *; [done|lia]|].
  rewrite Hlen in E at 1. rewrite Hlen.
  destruct (merkle_loop_end (length k) l) as [h Eh]; [destruct l; simpl in *; [done|lia]|].
  destruct (merkle_loop_end (length k) k) as [h' Eh']; [destruct k; simpl in *; [done|lia]|].
  rewrite Eh, Eh' in *. simpl in *. congruence.
Qed.
End binding.

Lemma next_level_app l k : Nat.even (length l) = true ->
  next_level (l ++ k) = next_level l ++ next_level k.
Proof.
  remember (length l) as n eqn:Hn. revert l Hn.
  induction n as [n IH] using lt_wf_ind; intros [|h1 [|h2 l]] -> He; [done|done|].
  simpl. f_equal. apply (IH (length l)); simpl; auto.
Qed.
(** The root does not bind the number of hashes: an odd list and the list
    with its last hash repeated have the same root. *)
Theorem merkle_odd_tail_collides l x : l <> [] -> Nat.even (length l) = true ->
  compute_merkle_root (l ++ [x]) = compute_merkle_root (l ++ [x; x]).
Proof.
  intros Hne He.
  rewrite !compute_merkle_root_loop by by destruct l.
  assert (2 <= length l)%nat by (destruct l as [|? []]; [done|done|simpl; lia]).
  assert (Hx : next_level (l ++ [x]) = next_level (l ++ [x; x]))
    by by rewrite !next_level_app.
  rewrite !length_app. cbn [length].
  rewrite (Nat.add_comm (length l) 1), (Nat.add_comm (length l) 2). cbn [Nat.add merkle_loop].
  rewrite !length_app. cbn [length].
  do 2 (case Nat.ltb_spec; [intros _|lia]). rewrite <- Hx.
  rewrite (merkle_loop_fuel (length l) (S (length l))); [done|..];
    rewrite next_level_app, length_app, next_level_length, Nat.div2_div by done;
    pose proof (Nat.div_mod_eq (S (length l)) 2); pose proof (Nat.mod_upper_bound (S (length l)) 2);
    cbn [length next_level]; lia.
Qed.
End merkle.

(** A toy instance, to evaluate the definitions: digests keep the last 32
    bytes, every key, signature and recovery is accepted. *)
Definition pad32 (l : list Z) : list Z := rev (take 32 (rev l ++ replicate 32 0)).
Definition toy_crypto : CryptoLib := {|
  blake3 := pad32;
  keccak := pad32;
  key_ok := fun _ => true;
  sig_ok := fun _ => true;
  verify_prehash := fun key digest sig => bool_decide (sig = take 64 (drop 1 key));
  verify_msg := fun key _ sig => bool_decide (sig = key);
  recover_prehash := fun _ sig _ => Some (4 :: sig);
  sign_prehash := fun key _ => Some (key, 0);
  sign_msg := fun key _ => key;
  secret_ok := fun _ => true;
  public_point := fun key => 4 :: key;
  public_compressed := fun key => key;
  hex_encode := fun _ => ""
|}.
Lemma pad32_length l : length (pad32 l) = 32%nat.
Proof. unfold pad32. rewrite length_rev, length_take, length_app, length_replicate. lia. Qed.

Lemma merkle_root_binding_witness :
  let h n := mkHash (replicate 32 n) in
  @blake3_collision toy_crypto \/ [h 1; h 2; h 3] = [h 1; h 2; h 3].
Proof.
  intros h.
  apply (@merkle_root_binding toy_crypto pad32_length [h 1; h 2; h 3] [h 1; h 2; h 3]);
    [reflexivity| | |reflexivity]; repeat constructor.
Defined.
