(* ===== verification/Transaction.v ===== *)
(** * Transactions (crates/nexus-primitives: transaction.rs)

    The transaction record with its constructors, the byte encoding that is
    signed and hashed, intrinsic gas, validation, sender recovery, and the
    decoder of raw Ethereum transactions.  The RLP header decoder is the
    [alloy_rlp] crate: a parameter, [rlp_header]. *)
From S2P Require Import Prelude Types U256Facts Crypto.
From stdpp Require Import base numbers list gmap strings.
From Stdlib Require Import ZArith Lia.
#[local] Open Scope Z_scope.

Inductive TxType := Legacy | AccessList | DynamicFee | Private | IsoPayment | System.
#[export] Instance TxType_eq_dec : EqDecision TxType.
Proof. solve_decision. Defined.
(** [tx_type as u8] *)
Definition tx_type_byte (t : TxType) : Z :=
  match t with
  | Legacy => 0 | AccessList => 1 | DynamicFee => 2
  | Private => 128 | IsoPayment => 129 | System => 255
  end.

Record AccessListEntry := { ale_address : Address; ale_storage_keys : list Hash }.
Inductive ZkpProofType := Groth16 | Plonk | Stark.
Record ZkpProofData := {
  zkp_proof_type : ZkpProofType;
  zkp_bytes : list Z;
  zkp_public_inputs : list (list Z);
  zkp_nullifiers : list Hash;
  zkp_commitments : list Hash
}.
Inductive IsoMessageType :=
  | CreditTransfer | PaymentStatus | AccountStatement | DirectDebit | IsoReturn.
Record PostalAddress := {
  street_name : option string; building_number : option string;
  postal_code : option string; town_name : option string; country : string
}.
Record PartyInfo := {
  party_name : string; party_account : string; party_bic : option string;
  party_lei : option string; party_address : option PostalAddress
}.
Record IsoAmount := { iso_value : Z; iso_currency : string }.
Record IsoMessageData := {
  message_type : IsoMessageType;
  msg_id : string;
  creation_timestamp : string;
  instructing_agent : option string;
  instructed_agent : option string;
  debtor : option PartyInfo;
  creditor : option PartyInfo;
  iso_amount : option IsoAmount;
  raw_xml : option string
}.

Record Transaction := {
  tx_type : TxType;
  chain_id : Z;
  nonce : Z;
  tx_to : option Address;
  value : U256;
  data : list Z;
  gas_limit : Z;
  gas_price : U256;
  max_priority_fee : option U256;
  access_list : list AccessListEntry;
  zkp_proof : option ZkpProofData;
  iso_data : option IsoMessageData;
  signature : option EcdsaSignature
}.

(** [MAX_TX_SIZE] (lib.rs) and [Address::SYSTEM_ISO] *)
Definition MAX_TX_SIZE : nat := (128 * 1024)%nat.
Definition SYSTEM_ISO : Address := mkAddress (replicate 19 0 ++ [48]).

(** ** Constructors *)
Definition new_legacy chain_id nonce to value data gas_limit gas_price : Transaction := {|
  tx_type := Legacy; chain_id := chain_id; nonce := nonce; tx_to := to;
  value := value; data := data; gas_limit := gas_limit; gas_price := gas_price;
  max_priority_fee := None; access_list := []; zkp_proof := None;
  iso_data := None; signature := None |}.
Definition new_dynamic_fee chain_id nonce to value data gas_limit
    max_fee_per_gas max_priority_fee : Transaction := {|
  tx_type := DynamicFee; chain_id := chain_id; nonce := nonce; tx_to := to;
  value := value; data := data; gas_limit := gas_limit; gas_price := max_fee_per_gas;
  max_priority_fee := Some max_priority_fee; access_list := []; zkp_proof := None;
  iso_data := None; signature := None |}.
Definition new_private chain_id nonce zkp_proof : Transaction := {|
  tx_type := Private; chain_id := chain_id; nonce := nonce; tx_to := None;
  value := U256.ZERO; data := []; gas_limit := 500000;
  gas_price := U256.from_u64 1000000000;
  max_priority_fee := None; access_list := []; zkp_proof := Some zkp_proof;
  iso_data := None; signature := None |}.
Definition new_iso_payment chain_id nonce iso_data gas_limit gas_price : Transaction := {|
  tx_type := IsoPayment; chain_id := chain_id; nonce := nonce; tx_to := Some SYSTEM_ISO;
  value := U256.ZERO; data := []; gas_limit := gas_limit; gas_price := gas_price;
  max_priority_fee := None; access_list := []; zkp_proof := None;
  iso_data := Some iso_data; signature := None |}.

(** ** Encoding, hashing and sender recovery *)
Definition encode_for_signing (tx : Transaction) : list Z :=
  [tx_type_byte (tx_type tx)]
  ++ to_be_bytes 8 (chain_id tx)
  ++ to_be_bytes 8 (nonce tx)
  ++ to_be_bytes 8 (gas_limit tx)
  ++ U256.to_be_bytes (gas_price tx)
  ++ match tx_to tx with
     | Some to => 1 :: addr_bytes to
     | None => [0]
     end
  ++ U256.to_be_bytes (value tx)
  ++ to_be_bytes 4 (Z.of_nat (length (data tx)) mod 2 ^ 32)
  ++ data tx.

Definition encode (tx : Transaction) : list Z :=
  encode_for_signing tx ++
  match signature tx with
  | Some sig => sig_to_bytes sig
  | None => []
  end.

Section hashing.
Context `{CryptoLib}.
Definition signing_hash (tx : Transaction) : Hash :=
  mkHash (keccak256 (encode_for_signing tx)).
Definition tx_hash (tx : Transaction) : Hash := blake3_hash (encode tx).

Definition recover_sender (tx : Transaction) : outcome NexusError Address :=
  signature ← ok_or (ValidationError "Missing signature") (signature tx);
  public_key ← recover_public_key (signing_hash tx) signature;
  Ok (to_address public_key).

Record SignedTransaction := {
  st_transaction : Transaction; st_hash : Hash; st_sender : Address
}.
(** [SignedTransaction::new] *)
Definition new_signed (tx : Transaction) : outcome NexusError SignedTransaction :=
  sender ← recover_sender tx;
  Ok {| st_transaction := tx; st_hash := tx_hash tx; st_sender := sender |}.
End hashing.

(** ** Gas and validation *)
Definition tx_data_gas (data : list Z) : Z :=
  sum64 ((fun b => if b =? 0 then 4 else 16) <$> data).
Definition tx_intrinsic_gas (tx : Transaction) : Z :=
  let base_gas :=
    match tx_type tx with
    | Legacy | AccessList | DynamicFee => 21000
    | Private => 100000
    | IsoPayment => 50000
    | System => 0
    end in
  let create_gas := match tx_to tx with None => 32000 | Some _ => 0 end in
  base_gas +! tx_data_gas (data tx) +! create_gas.

Definition validate (tx : Transaction) : outcome NexusError () :=
  if gas_limit tx <? tx_intrinsic_gas tx
  then Err (ValidationError "Gas limit below intrinsic gas")
  else if (MAX_TX_SIZE <? length (data tx))%nat
  then Err (ValidationError "Transaction too large")
  else match tx_type tx with
  | Private =>
      match zkp_proof tx with
      | None => Err (ValidationError "Private tx missing ZKP proof")
      | Some _ => Ok ()
      end
  | IsoPayment =>
      match iso_data tx with
      | None => Err (ValidationError "ISO tx missing message data")
      | Some _ => Ok ()
      end
  | _ => Ok ()
  end.

(** ** Decoding raw Ethereum transactions *)

(** [alloy_rlp::Header::decode]: whether the item is a list, the length of
    its payload, and the rest of the buffer. *)
Class RlpLib := rlp_header : list Z -> option (bool * nat * list Z).

Module rlp_decode.
Section decode.
Context `{RlpLib}.

Definition next_bytes (buf : list Z) : option (list Z * list Z) :=
  match buf with
  | [] => None
  | first :: rest =>
      if first <? 128 then Some ([first], rest)
      else
        '(is_list, payload_length, buf) ← rlp_header buf;
        if (is_list : bool) then None
        else if (length buf <? payload_length)%nat then None
        else Some (take payload_length buf, drop payload_length buf)
  end.

Definition next_uint (buf : list Z) : option (Z * list Z) :=
  '(bytes, buf) ← next_bytes buf;
  if (8 <? length bytes)%nat then None
  else Some (foldl (fun v b => Z.lor (Z.shiftl v 8 mod B64) b) 0 bytes, buf).

(** [arr[32 - bytes.len()..]] *)
Definition left_pad32 (bytes : list Z) : list Z :=
  replicate (32 - length bytes) 0 ++ bytes.

Definition next_u256 (buf : list Z) : option (U256 * list Z) :=
  '(bytes, buf) ← next_bytes buf;
  if (32 <? length bytes)%nat then None
  else Some (U256.from_be_bytes (left_pad32 bytes), buf).

Definition next_address (buf : list Z) : option (option Address * list Z) :=
  '(bytes, buf) ← next_bytes buf;
  match length bytes with
  | 0%nat => Some (None, buf)
  | 20%nat => Some (Some (mkAddress bytes), buf)
  | _ => None
  end.

Definition next_sig_scalar (buf : list Z) : option (list Z * list Z) :=
  '(bytes, buf) ← next_bytes buf;
  if (32 <? length bytes)%nat then None else Some (left_pad32 bytes, buf).

Definition skip_list (buf : list Z) : option (list Z) :=
  '(is_list, payload_length, buf) ← rlp_header buf;
  if negb is_list then None
  else if (length buf <? payload_length)%nat then None
  else Some (drop payload_length buf).

(** The guard on the outer header shared by the three decoders. *)
Definition open_list (payload : list Z) : option (list Z) :=
  '(is_list, _, buf) ← rlp_header payload;
  if (is_list : bool) then Some buf else None.

Definition eip1559 (payload : list Z) : option Transaction :=
  buf ← open_list payload;
  '(chain_id, buf) ← next_uint buf;
  '(nonce, buf) ← next_uint buf;
  '(max_priority_fee, buf) ← next_u256 buf;
  '(max_fee_per_gas, buf) ← next_u256 buf;
  '(gas_limit, buf) ← next_uint buf;
  '(to, buf) ← next_address buf;
  '(value, buf) ← next_u256 buf;
  '(data, buf) ← next_bytes buf;
  buf ← skip_list buf;
  '(y_parity, buf) ← next_uint buf;
  '(r, buf) ← next_sig_scalar buf;
  '(s, buf) ← next_sig_scalar buf;
  Some {| tx_type := DynamicFee; chain_id := chain_id; nonce := nonce; tx_to := to;
          value := value; data := data; gas_limit := gas_limit;
          gas_price := max_fee_per_gas; max_priority_fee := Some max_priority_fee;
          access_list := []; zkp_proof := None; iso_data := None;
          signature := Some (mkSig r s ((y_parity mod 256 + 27) mod 256)) |}.

Definition eip2930 (payload : list Z) : option Transaction :=
  buf ← open_list payload;
  '(chain_id, buf) ← next_uint buf;
  '(nonce, buf) ← next_uint buf;
  '(gas_price, buf) ← next_u256 buf;
  '(gas_limit, buf) ← next_uint buf;
  '(to, buf) ← next_address buf;
  '(value, buf) ← next_u256 buf;
  '(data, buf) ← next_bytes buf;
  buf ← skip_list buf;
  '(y_parity, buf) ← next_uint buf;
  '(r, buf) ← next_sig_scalar buf;
  '(s, buf) ← next_sig_scalar buf;
  Some {| tx_type := AccessList; chain_id := chain_id; nonce := nonce; tx_to := to;
          value := value; data := data; gas_limit := gas_limit;
          gas_price := gas_price; max_priority_fee := None;
          access_list := []; zkp_proof := None; iso_data := None;
          signature := Some (mkSig r s ((y_parity mod 256 + 27) mod 256)) |}.

(** EIP-155: the chain identifier and the parity in [v] *)
Definition split_v (v_raw : Z) : option (Z * Z) :=
  if (v_raw =? 27) || (v_raw =? 28) then Some (0, v_raw - 27)
  else if 35 <=? v_raw then
    let cid := (v_raw - 35) / 2 in
    let yp := (v_raw -! (cid *! 2) -! 35) mod 256 in
    Some (cid, yp)
  else None.

Definition legacy (payload : list Z) : option Transaction :=
  buf ← open_list payload;
  '(nonce, buf) ← next_uint buf;
  '(gas_price, buf) ← next_u256 buf;
  '(gas_limit, buf) ← next_uint buf;
  '(to, buf) ← next_address buf;
  '(value, buf) ← next_u256 buf;
  '(data, buf) ← next_bytes buf;
  '(v_raw, buf) ← next_uint buf;
  '(r, buf) ← next_sig_scalar buf;
  '(s, buf) ← next_sig_scalar buf;
  '(chain_id, y_parity) ← split_v v_raw;
  Some {| tx_type := Legacy; chain_id := chain_id; nonce := nonce; tx_to := to;
          value := value; data := data; gas_limit := gas_limit;
          gas_price := gas_price; max_priority_fee := None;
          access_list := []; zkp_proof := None; iso_data := None;
          signature := Some (mkSig r s ((y_parity + 27) mod 256)) |}.
End decode.
End rlp_decode.

Definition from_rlp_bytes `{RlpLib} (raw : list Z) : option Transaction :=
  match raw with
  | [] => None
  | b :: rest =>
      if b =? 2 then rlp_decode.eip1559 rest
      else if b =? 1 then rlp_decode.eip2930 rest
      else if 192 <=? b then rlp_decode.legacy raw
      else None
  end.

(** ** What a signature covers *)

(** The ranges the field types of the source impose. *)
Definition wf_tx (tx : Transaction) : Prop :=
  is_u64 (chain_id tx) /\ is_u64 (nonce tx) /\ is_u64 (gas_limit tx) /\
  U256Facts.wf (gas_price tx) /\ U256Facts.wf (value tx) /\
  from_option wf_addr True (tx_to tx) /\ Z.of_nat (length (data tx)) < 2 ^ 32.

(** The fields [encode_for_signing] writes. *)
Definition same_signed_fields (t1 t2 : Transaction) : Prop :=
  tx_type t1 = tx_type t2 /\ chain_id t1 = chain_id t2 /\ nonce t1 = nonce t2 /\
  gas_limit t1 = gas_limit t2 /\ gas_price t1 = gas_price t2 /\ tx_to t1 = tx_to t2 /\
  value t1 = value t2 /\ data t1 = data t2.

Lemma to_be_bytes_inj n x y : 0 <= x < 256 ^ Z.of_nat n -> 0 <= y < 256 ^ Z.of_nat n ->
  to_be_bytes n x = to_be_bytes n y -> x = y.
Proof. intros Hx Hy E. by rewrite <- (from_to_be_bytes n x), E, from_to_be_bytes. Qed.
Lemma u256_to_be_bytes_length x : length (U256.to_be_bytes x) = 32%nat.
Proof. rewrite U256Facts.to_be_bytes_unfold, !length_app, !to_be_bytes_length. done. Qed.
Lemma u256_to_be_bytes_inj x y : U256Facts.wf x -> U256Facts.wf y ->
  U256.to_be_bytes x = U256.to_be_bytes y -> x = y.
Proof.
  intros (?&?&?&?) (?&?&?&?). rewrite !U256Facts.to_be_bytes_unfold. intros E.
  destruct x as [x0 x1 x2 x3], y as [y0 y1 y2 y3].
  unfold is_u64 in *; cbn [u0 u1 u2 u3] in *.
  do 3 (apply app_inj_1 in E as [? E]; [|by rewrite !to_be_bytes_length]).
  f_equal; (eapply to_be_bytes_inj; [| |eassumption]; simpl; lia).
Qed.
Lemma tx_type_byte_inj t1 t2 : tx_type_byte t1 = tx_type_byte t2 -> t1 = t2.
Proof. by destruct t1, t2. Qed.
Lemma app_inj_len {A} (l1 l2 k1 k2 : list A) :
  length l1 = length k1 -> l1 ++ l2 = k1 ++ k2 -> l1 = k1 /\ l2 = k2.
Proof. intros. by apply app_inj_1. Qed.

Lemma recipient_inj to1 to2 (l1 l2 : list Z) :
  from_option wf_addr True to1 -> from_option wf_addr True to2 ->
  match to1 with Some to => 1 :: addr_bytes to | None => [0] end ++ l1 =
  match to2 with Some to => 1 :: addr_bytes to | None => [0] end ++ l2 ->
  to1 = to2 /\ l1 = l2.
Proof.
  destruct to1 as [[a1]|], to2 as [[a2]|]; cbn [from_option app addr_bytes];
    intros H1 H2 E; try (split; congruence).
  destruct H1 as [L1 _], H2 as [L2 _]. cbn [addr_bytes] in *.
  assert (E' : a1 ++ l1 = a2 ++ l2) by congruence.
  apply app_inj_len in E' as [-> ->]; [done|congruence].
Qed.

(** The signed encoding determines, and is determined by, the type, chain
    id, nonce, gas limit, gas price, recipient, value and data: nothing else
    of a transaction (priority fee, access list, ZK proof, ISO data) is
    covered by its signature. *)
Theorem encode_for_signing_covers t1 t2 (H1 : wf_tx t1) (H2 : wf_tx t2) :
  encode_for_signing t1 = encode_for_signing t2 <-> same_signed_fields t1 t2.
Proof.
  split; [|intros (E1&E2&E3&E4&E5&E6&E7&E8); unfold encode_for_signing;
    by rewrite E1, E2, E3, E4, E5, E6, E7, E8].
  destruct H1 as (Hc1&Hn1&Hg1&Hp1&Hv1&Ht1&Hd1), H2 as (Hc2&Hn2&Hg2&Hp2&Hv2&Ht2&Hd2).
  unfold encode_for_signing, is_u64 in *. intros E.
  apply app_inj_len in E as [Ety E]; [|done].
  apply app_inj_len in E as [Ec E]; [|by rewrite !to_be_bytes_length].
  apply app_inj_len in E as [En E]; [|by rewrite !to_be_bytes_length].
  apply app_inj_len in E as [Eg E]; [|by rewrite !to_be_bytes_length].
  apply app_inj_len in E as [Ep E]; [|by rewrite !u256_to_be_bytes_length].
  apply recipient_inj in E as [Eto E]; [|done..].
  apply app_inj_len in E as [Ev E]; [|by rewrite !u256_to_be_bytes_length].
  apply app_inj_len in E as [_ Ed]; [|by rewrite !to_be_bytes_length].
  apply to_be_bytes_inj in Ec, En, Eg; try (simpl; lia).
  unfold same_signed_fields. repeat split; auto using u256_to_be_bytes_inj.
  apply tx_type_byte_inj. congruence.
Qed.
Lemma encode_for_signing_covers_witness :
  let proof b := {| zkp_proof_type := Groth16; zkp_bytes := [b]; zkp_public_inputs := [];
                    zkp_nullifiers := []; zkp_commitments := [] |} in
  let t1 := new_private 1337 0 (proof 1) in
  let t2 := new_private 1337 0 (proof 2) in
  t1 <> t2 /\ encode_for_signing t1 = encode_for_signing t2.
Proof.
  intros proof t1 t2. split; [intros [=]|].
  apply (encode_for_signing_covers t1 t2); [done..|].
  repeat split.
Defined.

(** A legacy [v] built as EIP-155 prescribes is split back into the chain
    id and the parity, and a pre-EIP-155 [v] into chain id 0. *)
Theorem split_v_roundtrip cid yp (Hc : 0 <= cid) (Hp : 0 <= yp <= 1)
    (Hv : 2 * cid + 35 + yp < B64) :
  rlp_decode.split_v (2 * cid + 35 + yp) = Some (cid, yp) /\
  rlp_decode.split_v (27 + yp) = Some (0, yp).
Proof.
  unfold rlp_decode.split_v.
  assert (Ed : (2 * cid + 35 + yp - 35) / 2 = cid)
    by (symmetry; apply Z.div_unique_pos with yp; lia).
  split.
  - do 2 (case Z.eqb_spec; [lia|intros _]). cbn [orb].
    case Z.leb_spec; [intros _|lia]. cbv zeta. rewrite Ed.
    rewrite mul64_small, (sub64_small _ (cid * 2)), sub64_small by lia.
    rewrite Z.mod_small by lia. do 2 f_equal. lia.
  - assert (yp = 0 \/ yp = 1) as [-> | ->] by lia; done.
Qed.
Lemma split_v_roundtrip_witness : rlp_decode.split_v 2710 = Some (1337, 1).
Proof. apply (split_v_roundtrip 1337 1); lia. Defined.

(** ** Intrinsic gas *)
Lemma tx_data_gas_spec data : Z.of_nat (length data) * 16 < B64 ->
  tx_data_gas data = sumZ ((fun b => if b =? 0 then 4 else 16) <$> data) /\
  0 <= tx_data_gas data <= Z.of_nat (length data) * 16.
Proof.
  intros Hlen. unfold tx_data_gas.
  assert (H : 0 <= sumZ ((fun b => if b =? 0 then 4 else 16) <$> data)
              <= Z.of_nat (length data) * 16).
  { clear Hlen. induction data as [|b l IH]; [done|].
    rewrite fmap_cons, sumZ_cons. cbn [length]. destruct (b =? 0); lia. }
  rewrite sum64_small by lia. lia.
Qed.
