(* ===== verification/Vertex.v ===== *)
(** * Vertices (crates/nexus-dag: vertex.rs)

    The vertex record, its constructors, and the structural check that every
    vertex passes before it enters the DAG. *)
From S2P Require Import Prelude Types Crypto Transaction.
From stdpp Require Import base numbers list gmap strings pretty.
From Stdlib Require Import ZArith Lia.
#[local] Open Scope Z_scope.

Definition MAX_TRANSACTIONS_PER_VERTEX : nat := 1000.
(** [nexus_primitives::{MAX_PARENTS, PROTOCOL_VERSION}] (lib.rs) *)
Definition MAX_PARENTS : nat := 8.
Definition PROTOCOL_VERSION : Z := 1.

Record Vertex := {
  v_hash : Hash;
  v_parents : list Hash;
  v_height : Z;
  v_timestamp : Z;
  v_validator : ValidatorId;
  v_transactions : list Transaction;
  v_tx_root : Hash;
  v_state_root : Hash;
  v_receipts_root : Hash;
  v_weight : Z;
  v_signature : EcdsaSignature;
  v_version : Z;
  v_extra_data : list Z
}.

Inductive VertexError :=
  | NoParents
  | TooManyParents (n : nat)
  | TooManyTransactions (n : nat)
  | InvalidMerkleRoot
  | InvalidHash
  | InvalidSignature
  | ParentNotFound (h : Hash)
  | TimestampTooOld
  | TimestampInFuture
  | InvalidHeight (expected got : Z).

(** [Display] of [VertexError] *)
Definition vertex_error_display `{CryptoLib} (e : VertexError) : string :=
  match e with
  | NoParents => "Vertex has no parents (non-genesis)"
  | TooManyParents n => "Too many parents: " +:+ pretty n +:+ " (max " +:+ pretty MAX_PARENTS +:+ ")"
  | TooManyTransactions n =>
      "Too many transactions: " +:+ pretty n +:+ " (max " +:+ pretty MAX_TRANSACTIONS_PER_VERTEX +:+ ")"
  | InvalidMerkleRoot => "Invalid merkle root"
  | InvalidHash => "Invalid vertex hash"
  | InvalidSignature => "Invalid signature"
  | ParentNotFound h => "Parent not found: " +:+ hash_display h
  | TimestampTooOld => "Timestamp too old"
  | TimestampInFuture => "Timestamp in future"
  | InvalidHeight expected got =>
      "Invalid height: expected " +:+ pretty expected +:+ ", got " +:+ pretty got
  end.

Inductive VertexStatus :=
  | Pending | AwaitingParents | Confirmed | Finalized | Rejected | Orphaned.
#[export] Instance VertexStatus_eq_dec : EqDecision VertexStatus.
Proof. solve_decision. Defined.

Record VertexHeader := {
  h_hash : Hash; h_parents : list Hash; h_height : Z; h_timestamp : Z;
  h_validator : ValidatorId; h_tx_root : Hash; h_state_root : Hash;
  h_receipts_root : Hash; h_weight : Z; h_tx_count : Z
}.

Section vertex.
Context `{CryptoLib}.

(** [Vertex::new]; [now] is the clock in milliseconds.  The transactions are
    not stored: only their hashes enter the root and the identifier. *)
Definition new (now : Z) (validator : Address) (parents tx_hashes : list Hash)
    (epoch height : Z) : Vertex :=
  let validator_id :=
    mkValidatorId (addr_bytes validator ++ replicate (32 - length (addr_bytes validator)) 0) in
  let tx_root := compute_merkle_root tx_hashes in
  let hash := vertex_hash parents tx_hashes now validator_id in
  {| v_hash := hash;
     v_parents := parents;
     v_height := height;
     v_timestamp := now;
     v_validator := validator_id;
     v_transactions := [];
     v_tx_root := tx_root;
     v_state_root := HASH_ZERO;
     v_receipts_root := HASH_ZERO;
     v_weight := 1;
     v_signature := empty_signature;
     v_version := PROTOCOL_VERSION;
     v_extra_data := [] |}.

(** [Vertex::genesis] *)
Definition genesis (chain_id timestamp : Z) : Vertex :=
  {| v_hash := HASH_ZERO;
     v_parents := [];
     v_height := 0;
     v_timestamp := timestamp;
     v_validator := mkValidatorId (replicate 32 0);
     v_transactions := [];
     v_tx_root := HASH_ZERO;
     v_state_root := HASH_ZERO;
     v_receipts_root := HASH_ZERO;
     v_weight := B128 - 1;
     v_signature := empty_signature;
     v_version := 1;
     v_extra_data := to_be_bytes 8 chain_id |}.

Definition is_genesis (v : Vertex) : bool :=
  match v_parents v with [] => v_height v =? 0 | _ => false end.

Definition verify_structure (v : Vertex) : outcome VertexError () :=
  if negb (is_genesis v) && bool_decide (v_parents v = []) then Err NoParents
  else if (MAX_PARENTS <? length (v_parents v))%nat
  then Err (TooManyParents (length (v_parents v)))
  else if (MAX_TRANSACTIONS_PER_VERTEX <? length (v_transactions v))%nat
  then Err (TooManyTransactions (length (v_transactions v)))
  else
    let tx_hashes := tx_hash <$> v_transactions v in
    let computed_root := compute_merkle_root tx_hashes in
    if negb (bool_decide (computed_root = v_tx_root v)) then Err InvalidMerkleRoot
    else
      let computed_hash :=
        vertex_hash (v_parents v) tx_hashes (v_timestamp v) (v_validator v) in
      if negb (bool_decide (computed_hash = v_hash v)) then Err InvalidHash
      else Ok ().

(** [Vertex::size]: an estimate of the encoded size *)
Definition size (v : Vertex) : Z :=
  let base_size :=
    32 +! (Z.of_nat (length (v_parents v)) *! 32) +! 8 +! 8 +! 32 +! 32 +! 32 +! 32
    +! 16 +! 65 +! 4 +! Z.of_nat (length (v_extra_data v)) in
  let tx_size := sum64 ((fun tx => Z.of_nat (length (data tx)) +! 200) <$> v_transactions v) in
  base_size +! tx_size.

(** [VertexHeader::from] *)
Definition header_of (v : Vertex) : VertexHeader :=
  {| h_hash := v_hash v; h_parents := v_parents v; h_height := v_height v;
     h_timestamp := v_timestamp v; h_validator := v_validator v;
     h_tx_root := v_tx_root v; h_state_root := v_state_root v;
     h_receipts_root := v_receipts_root v; h_weight := v_weight v;
     h_tx_count := Z.of_nat (length (v_transactions v)) mod 2 ^ 32 |}.

(** [verify_structure] accepts exactly the vertices with a parent (or at
    height 0), at most 8 parents and 1000 transactions, whose root and
    identifier are those of the contents. *)
Theorem verify_structure_accepts v :
  verify_structure v = Ok () <->
    (v_parents v <> [] \/ v_height v = 0) /\
    (length (v_parents v) <= 8)%nat /\ (length (v_transactions v) <= 1000)%nat /\
    v_tx_root v = compute_merkle_root (tx_hash <$> v_transactions v) /\
    v_hash v = vertex_hash (v_parents v) (tx_hash <$> v_transactions v)
                 (v_timestamp v) (v_validator v).
Proof.
  unfold verify_structure, is_genesis, MAX_PARENTS, MAX_TRANSACTIONS_PER_VERTEX.
  assert (Hg : negb (match v_parents v with [] => v_height v =? 0 | _ => false end)
               && bool_decide (v_parents v = []) = false <->
               (v_parents v <> [] \/ v_height v = 0)).
  { destruct (v_parents v); simpl; [|naive_solver].
    destruct (Z.eqb_spec (v_height v) 0); naive_solver. }
  rewrite <- Hg. destruct (negb _ && _); [split; [done|naive_solver]|].
  do 2 (case Nat.ltb_spec; intros; [split; [done|intros (?&?&?&?); lia]|]).
  do 2 (case bool_decide_reflect; intros; simpl; [|split; [done|naive_solver]]).
  naive_solver.
Qed.

Lemma verify_structure_bounds v : verify_structure v = Ok () ->
  (length (v_parents v) <= 8)%nat /\
  v_hash v = vertex_hash (v_parents v) (tx_hash <$> v_transactions v)
               (v_timestamp v) (v_validator v).
Proof.
  unfold verify_structure, MAX_PARENTS. destruct (negb _ && _); [done|].
  case Nat.ltb_spec; [done|]. intros Hp. case Nat.ltb_spec; [done|]. intros _.
  case bool_decide_reflect; [intros _|done]. cbn [negb].
  case bool_decide_reflect; [intros <-|done]. done.
Qed.

(** A vertex made by [new] for a nonempty block of transactions fails the
    structural check unless the Merkle root of the block is zero. *)
Lemma new_nonempty_rejected now validator parents tx_hashes epoch height :
  parents <> [] -> (length parents <= 8)%nat ->
  compute_merkle_root tx_hashes <> HASH_ZERO ->
  verify_structure (new now validator parents tx_hashes epoch height) = Err InvalidMerkleRoot.
Proof.
  intros Hp Hl Hr. unfold verify_structure, MAX_PARENTS. cbn [new v_parents v_transactions v_tx_root].
  rewrite (bool_decide_false (parents = [])) by done. rewrite andb_false_r.
  case Nat.ltb_spec; [lia|]. intros _. cbn [length]. simpl.
  by rewrite bool_decide_false by done.
Qed.
End vertex.
