(* ===== verification/Dag.v ===== *)
(** * The DAG (crates/nexus-dag: dag.rs)

    The state of [Dag] as a record of finite maps and sets, one definition per
    method.  [insert_vertex] and [process_orphans] call each other; the
    recursion is bounded by the number of pending vertices, which is the fuel
    (DagFacts.v proves it enough).  The breadth-first searches are bounded by
    the number of edges.  The clock is an argument. *)
From S2P Require Import Prelude Types Crypto Transaction Vertex.
From stdpp Require Import base numbers list gmap sets strings pretty.
From Stdlib Require Import ZArith Lia.
#[local] Open Scope Z_scope.

Record DagConfig := {
  max_tip_depth : Z;
  confirmation_threshold : Z;
  max_vertices_in_memory : Z;
  pruning_depth : Z;
  max_time_drift : Z
}.
Definition default_config : DagConfig := {|
  max_tip_depth := 100; confirmation_threshold := 1000;
  max_vertices_in_memory := 100000; pruning_depth := 10000; max_time_drift := 30 |}.

Record Dag := mkDag {
  config : DagConfig;
  vertices : gmap Hash Vertex;
  status : gmap Hash VertexStatus;
  children : gmap Hash (gset Hash);
  tips : gset Hash;
  by_height : gmap Z (gset Hash);
  finalized_height : Z;
  genesis_hash : option Hash;
  pending : gmap Hash Vertex;
  orphan_deps : gmap Hash (gset Hash)
}.

(** Field updates. *)
Definition set_vertices f d := mkDag (config d) (f (vertices d)) (status d) (children d)
  (tips d) (by_height d) (finalized_height d) (genesis_hash d) (pending d) (orphan_deps d).
Definition set_status f d := mkDag (config d) (vertices d) (f (status d)) (children d)
  (tips d) (by_height d) (finalized_height d) (genesis_hash d) (pending d) (orphan_deps d).
Definition set_children f d := mkDag (config d) (vertices d) (status d) (f (children d))
  (tips d) (by_height d) (finalized_height d) (genesis_hash d) (pending d) (orphan_deps d).
Definition set_tips f d := mkDag (config d) (vertices d) (status d) (children d)
  (f (tips d)) (by_height d) (finalized_height d) (genesis_hash d) (pending d) (orphan_deps d).
Definition set_by_height f d := mkDag (config d) (vertices d) (status d) (children d)
  (tips d) (f (by_height d)) (finalized_height d) (genesis_hash d) (pending d) (orphan_deps d).
Definition set_finalized h d := mkDag (config d) (vertices d) (status d) (children d)
  (tips d) (by_height d) h (genesis_hash d) (pending d) (orphan_deps d).
Definition set_genesis g d := mkDag (config d) (vertices d) (status d) (children d)
  (tips d) (by_height d) (finalized_height d) g (pending d) (orphan_deps d).
Definition set_pending f d := mkDag (config d) (vertices d) (status d) (children d)
  (tips d) (by_height d) (finalized_height d) (genesis_hash d) (f (pending d)) (orphan_deps d).
Definition set_orphan_deps f d := mkDag (config d) (vertices d) (status d) (children d)
  (tips d) (by_height d) (finalized_height d) (genesis_hash d) (pending d) (f (orphan_deps d)).

(** [map.entry(k).or_default().insert(x)] on a map of sets, and the set at a
    key ([get(k)] with an empty default). *)
Definition entry_insert `{Countable K} (k : K) (x : Hash) (m : gmap K (gset Hash))
    : gmap K (gset Hash) :=
  <[k := {[x]} ∪ default ∅ (m !! k)]> m.
Definition set_at `{Countable K} (m : gmap K (gset Hash)) (k : K) : gset Hash :=
  default ∅ (m !! k).

(** [Iterator::max] *)
Fixpoint max_opt (l : list Z) : option Z :=
  match l with
  | [] => None
  | x :: l => Some (match max_opt l with Some y => Z.max x y | None => x end)
  end.

(** [Dag::new] *)
Definition empty_dag (config : DagConfig) : Dag :=
  mkDag config ∅ ∅ ∅ ∅ ∅ 0 None ∅ ∅.

Definition init_genesis (d : Dag) (genesis : Vertex) : Dag * outcome NexusError () :=
  match genesis_hash d with
  | Some _ => (d, Err (DagError "Genesis already set"))
  | None =>
      let hash := v_hash genesis in
      let d := set_vertices <[hash := genesis]> d in
      let d := set_status <[hash := Finalized]> d in
      let d := set_by_height (entry_insert 0 hash) d in
      let d := set_tips (fun tips => {[hash]} ∪ tips) d in
      (set_genesis (Some hash) d, Ok ())
  end.

(** The heights of the parents that are stored. *)
Definition parent_heights (vs : gmap Hash Vertex) (parents : list Hash) : list Z :=
  omap (fun p => v_height <$> vs !! p) parents.
Definition expected_height (vs : gmap Hash Vertex) (parents : list Hash) : Z :=
  default 0 ((fun h => h +! 1) <$> max_opt (parent_heights vs parents)).
Definition height_error (d : Dag) (vertex : Vertex) : NexusError :=
  DagError ("Invalid height: expected " +:+ pretty (expected_height (vertices d) (v_parents vertex))
    +:+ ", got " +:+ pretty (v_height vertex)).
(** [parents.iter().filter(|p| !vertices.contains_key(p))] *)
Definition missing (vs : gmap Hash Vertex) (parents : list Hash) : list Hash :=
  filter (fun p => vs !! p = None) parents.

(** What [insert_vertex] does to the maps before it looks at the orphans. *)
Definition store_vertex (d : Dag) (vertex : Vertex) : Dag :=
  let hash := v_hash vertex in
  let d := set_vertices <[hash := vertex]> d in
  let d := set_status <[hash := Confirmed]> d in
  let d := foldl (fun d parent =>
    let d := set_children (entry_insert parent hash) d in
    set_tips (fun tips => tips ∖ {[parent]}) d) d (v_parents vertex) in
  let d := set_tips (fun tips => {[hash]} ∪ tips) d in
  set_by_height (entry_insert (v_height vertex) hash) d.

(** Registers [hash] as waiting for each missing parent. *)
Definition register_missing (hash : Hash) (ps : list Hash) (d : Dag) : Dag :=
  foldl (fun d p => set_orphan_deps (entry_insert p hash) d) d ps.

Section dag.
Context `{HashOrder}.

(** The loop of [process_orphans]; [insert] is the call to [insert_vertex]. *)
Fixpoint orphan_loop (insert : Dag -> Vertex -> option (Dag * outcome NexusError ()))
    (waiting : list Hash) (d : Dag) : option (Dag * outcome NexusError ()) :=
  match waiting with
  | [] => Some (d, Ok ())
  | orphan_hash :: waiting =>
      match pending d !! orphan_hash with
      | None => orphan_loop insert waiting d
      | Some vertex =>
          let d := set_pending (delete orphan_hash) d in
          match missing (vertices d) (v_parents vertex) with
          | [] =>
              match insert d vertex with
              | Some (d, Ok _) => orphan_loop insert waiting d
              | r => r
              end
          | still_missing =>
              let d := register_missing orphan_hash still_missing d in
              orphan_loop insert waiting (set_pending <[orphan_hash := vertex]> d)
          end
      end
  end.

Definition process_orphans (insert : Dag -> Vertex -> option (Dag * outcome NexusError ()))
    (d : Dag) (new_parent : Hash) : option (Dag * outcome NexusError ()) :=
  let waiting := members (set_at (orphan_deps d) new_parent) in
  orphan_loop insert waiting (set_orphan_deps (delete new_parent) d).

Fixpoint insert_vertex (fuel : nat) (d : Dag) (vertex : Vertex)
    : option (Dag * outcome NexusError ()) :=
  match fuel with
  | O => None
  | S fuel =>
      if negb (v_height vertex =? expected_height (vertices d) (v_parents vertex))
      then Some (d, Err (height_error d vertex))
      else process_orphans (insert_vertex fuel) (store_vertex d vertex) (v_hash vertex)
  end.

(** [verify_timestamp]; [now] in milliseconds *)
Definition verify_timestamp (now : Z) (d : Dag) (vertex : Vertex) : outcome NexusError () :=
  let max_future := now +! (max_time_drift (config d) *! 1000) in
  if max_future <? v_timestamp vertex
  then Err (DagError "Vertex timestamp too far in future")
  else
    for_each (fun _ parent_hash =>
      match vertices d !! parent_hash with
      | Some parent =>
          if v_timestamp vertex <? v_timestamp parent
          then Err (DagError "Vertex timestamp before parent")
          else Ok ()
      | None => Ok ()
      end) (v_parents vertex) ().

Context `{CryptoLib}.

Definition add_vertex (now : Z) (d : Dag) (vertex : Vertex)
    : option (Dag * outcome NexusError ()) :=
  let hash := v_hash vertex in
  if decide (is_Some (vertices d !! hash)) then Some (d, Ok ())
  else
    match
      _ ← map_err (fun e => DagError (vertex_error_display e)) (verify_structure vertex);
      verify_timestamp now d vertex
    with
    | Ok _ =>
        match missing (vertices d) (v_parents vertex) with
        | [] => insert_vertex (S (base.size (pending d))) d vertex
        | missing_parents =>
            let d := register_missing hash missing_parents d in
            let d := set_pending <[hash := vertex]> d in
            Some (set_status <[hash := AwaitingParents]> d, Ok ())
        end
    | r => Some (d, r)
    end.

(** ** Queries *)
Definition get_tips (d : Dag) : list Hash := members (tips d).
Definition get_vertex (d : Dag) (hash : Hash) : option Vertex := vertices d !! hash.
Definition get_status (d : Dag) (hash : Hash) : option VertexStatus := status d !! hash.
Definition get_vertices_at_height (d : Dag) (height : Z) : list Hash :=
  members (set_at (by_height d) height).
Definition get_children (d : Dag) (hash : Hash) : list Hash :=
  members (set_at (children d) hash).
Definition latest_height (d : Dag) : Z :=
  default 0 (max_opt (omap (fun h => v_height <$> vertices d !! h) (get_tips d))).

(** [set_finalized_height]: only upward, and the vertices at that height
    become [Finalized]. *)
Definition set_finalized_height (d : Dag) (height : Z) : Dag :=
  if finalized_height d <? height then
    let d := set_finalized height d in
    foldl (fun d hash => set_status <[hash := Finalized]> d) d
      (members (set_at (by_height d) height))
  else d.

(** *** Breadth-first searches: a queue and a set of visited hashes *)

(** The [while let] of [calculate_weight] *)
Fixpoint weight_loop (fuel : nat) (d : Dag) (visited : gset Hash) (queue : list Hash)
    (weight : Z) : option Z :=
  match fuel with
  | O => None
  | S fuel =>
      match queue with
      | [] => Some weight
      | current :: queue =>
          if decide (current ∈ visited) then weight_loop fuel d visited queue weight
          else
            let visited := {[current]} ∪ visited in
            match vertices d !! current with
            | Some _ =>
                weight_loop fuel d visited
                  (queue ++ filter (fun c => c ∉ visited) (get_children d current))
                  (add128 weight 1)
            | None => weight_loop fuel d visited queue weight
            end
      end
  end.
Definition edges_fuel (degree : Hash -> list Hash) (d : Dag) : nat :=
  (2 + sum_list_with (fun h => S (length (degree h))) (keys (vertices d)))%nat.
Definition calculate_weight (d : Dag) (hash : Hash) : option Z :=
  weight_loop (edges_fuel (get_children d) d) d ∅ [hash] 0.

Definition parents_of (d : Dag) (hash : Hash) : list Hash :=
  from_option v_parents [] (vertices d !! hash).

(** The [while let] of [is_ancestor] *)
Fixpoint ancestor_loop (fuel : nat) (d : Dag) (ancestor : Hash) (visited : gset Hash)
    (queue : list Hash) : option bool :=
  match fuel with
  | O => None
  | S fuel =>
      match queue with
      | [] => Some false
      | current :: queue =>
          if decide (current = ancestor) then Some true
          else if decide (current ∈ visited) then ancestor_loop fuel d ancestor visited queue
          else
            let visited := {[current]} ∪ visited in
            ancestor_loop fuel d ancestor visited
              (queue ++ filter (fun p => p ∉ visited) (parents_of d current))
      end
  end.
Definition is_ancestor (d : Dag) (ancestor descendant : Hash) : option bool :=
  ancestor_loop (edges_fuel (parents_of d) d) d ancestor ∅ [descendant].

(** The [while let] of [get_ancestors]: hashes with their depth *)
Fixpoint ancestors_loop (fuel : nat) (d : Dag) (max_depth : Z) (visited : gset Hash)
    (queue : list (Hash * Z)) (ancestors : list Hash) : option (list Hash) :=
  match fuel with
  | O => None
  | S fuel =>
      match queue with
      | [] => Some ancestors
      | (current, depth) :: queue =>
          if bool_decide (current ∈ visited) || (max_depth <? depth)
          then ancestors_loop fuel d max_depth visited queue ancestors
          else
            let visited := {[current]} ∪ visited in
            ancestors_loop fuel d max_depth visited
              (queue ++ ((fun p => (p, depth +! 1)) <$>
                 filter (fun p => p ∉ visited) (parents_of d current)))
              (ancestors ++ [current])
      end
  end.
Definition get_ancestors (d : Dag) (hash : Hash) (max_depth : Z) : option (list Hash) :=
  ancestors_loop (length (parents_of d hash) + edges_fuel (parents_of d) d) d max_depth ∅
    ((fun p => (p, 1)) <$> parents_of d hash) [].

(** [stats] *)
Record DagStats := {
  total_vertices : nat; tips_count : nat; pending_count : nat;
  stat_latest_height : Z; stat_finalized_height : Z
}.
Definition stats (d : Dag) : DagStats := {|
  total_vertices := base.size (vertices d);
  tips_count := base.size (tips d);
  pending_count := base.size (pending d);
  stat_latest_height := latest_height d;
  stat_finalized_height := finalized_height d |}.

(** [prune]: the outer loop runs over the heights below [keep_above_height],
    the inner one over the hashes at a height *)
Definition prune_hash (st : Dag * Z) (hash : Hash) : Dag * Z :=
  let '(d, pruned) := st in
  let d := set_vertices (delete hash) d in
  let d := set_status (delete hash) d in
  let d := set_children (delete hash) d in
  (d, pruned +! 1).
Definition prune_height (st : Dag * Z) (height : Z) : Dag * Z :=
  let '(d, pruned) := st in
  match by_height d !! height with
  | None => (d, pruned)
  | Some hashes =>
      let d := set_by_height (delete height) d in
      foldl prune_hash (d, pruned) (members hashes)
  end.
Definition prune (d : Dag) (keep_above_height : Z) : Dag * Z :=
  if finalized_height d <=? keep_above_height then (d, 0)
  else foldl prune_height (d, 0) (seqZ 0 keep_above_height).
End dag.
