(* ===== verification/DagFacts.v ===== *)
(** * Invariants of the DAG and correctness of its searches

    [dag_inv] is the well-formedness of a [Dag]: parents are stored, heights
    are those the parents give, the parent relation is well founded, the
    children, tip and height indexes are exact, and the pending vertices are
    exactly registered under the parents they miss.  It is proved to hold of
    every state reached from genesis by calls of [add_vertex] that succeed, and
    of the settled part of every state reached by any calls, for every iteration
    order. *)
From S2P Require Import Prelude Types Crypto Transaction Vertex Dag.
From stdpp Require Import base numbers list gmap sets strings relations.
From Stdlib Require Import ZArith Lia.
#[local] Open Scope Z_scope.

(** [p] is a parent of the stored vertex [c]. *)
Definition edge (d : Dag) (p c : Hash) : Prop :=
  exists v, vertices d !! c = Some v /\ p ∈ v_parents v.

Definition stored (d : Dag) (h : Hash) : Prop := is_Some (vertices d !! h).

Section inv.
Context `{CryptoLib}.

(** What a vertex accepted by [add_vertex] satisfies; a [Hash] of the source
    has 32 bytes. *)
Definition vertex_ok (v : Vertex) : Prop :=
  verify_structure v = Ok () /\ Forall len32 (v_parents v).

(** [W] lists the hashes whose pending vertex may have all its parents: the
    orphans a running [process_orphans] has still to look at. *)
Record dag_inv_except (W : list Hash) (d : Dag) : Prop := {
  inv_key : forall h v, vertices d !! h = Some v -> v_hash v = h;
  inv_closed : forall p c, edge d p c -> stored d p;
  inv_height : forall h v, vertices d !! h = Some v ->
    v_height v = expected_height (vertices d) (v_parents v);
  inv_acyclic : forall h, stored d h -> Acc (edge d) h;
  inv_children : forall p c, c ∈ set_at (children d) p <-> edge d p c;
  inv_tips : forall h, h ∈ tips d <-> stored d h /\ forall c, ~ edge d h c;
  inv_by_height : forall k h, h ∈ set_at (by_height d) k <->
    exists v, vertices d !! h = Some v /\ v_height v = k;
  inv_status : forall h,
    status d !! h = Some Confirmed \/ status d !! h = Some Finalized <-> stored d h;
  inv_pending : forall h v, pending d !! h = Some v ->
    v_hash v = h /\ vertices d !! h = None /\ vertex_ok v /\
    forall p, p ∈ missing (vertices d) (v_parents v) -> h ∈ set_at (orphan_deps d) p;
  inv_waits : forall h v, pending d !! h = Some v -> h ∉ W ->
    missing (vertices d) (v_parents v) <> [];
  inv_deps : forall h p, h ∈ set_at (orphan_deps d) p ->
    exists v, pending d !! h = Some v /\ p ∈ missing (vertices d) (v_parents v)
}.
Definition dag_inv : Dag -> Prop := dag_inv_except [].

(** Two of the vertices [vs] pass the structural check, share an identifier
    and have different parents. *)
Definition identifier_clash (vs : list Vertex) : Prop :=
  exists v w, v ∈ vs /\ w ∈ vs /\ vertex_ok v /\ vertex_ok w /\
    v_hash v = v_hash w /\ v_parents v <> v_parents w.
(** What the identifier of a vertex is the digest of *)
Definition hash_input (v : Vertex) : list Z :=
  vertex_hash_input (v_parents v) (tx_hash <$> v_transactions v) (v_timestamp v) (v_validator v).
End inv.

(** ** How the updates act on the fields *)
Section frame.
Lemma set_at_entry_insert `{Countable K} (k j : K) x (m : gmap K (gset Hash)) :
  set_at (entry_insert k x m) j = if decide (k = j) then {[x]} ∪ set_at m j else set_at m j.
Proof.
  unfold set_at, entry_insert. rewrite lookup_insert. case_decide; by subst.
Qed.
Lemma set_at_delete `{Countable K} (k j : K) (m : gmap K (gset Hash)) :
  set_at (delete k m) j = if decide (k = j) then ∅ else set_at m j.
Proof. unfold set_at. rewrite lookup_delete. by case_decide. Qed.

Lemma register_missing_frame h ps d :
  register_missing h ps d = set_orphan_deps (fun _ => orphan_deps (register_missing h ps d)) d.
Proof.
  unfold register_missing. revert d. induction ps as [|p ps IH]; intros d; [by destruct d|].
  cbn [foldl]. rewrite IH. by destruct d.
Qed.
Lemma register_missing_deps h ps d p :
  set_at (orphan_deps (register_missing h ps d)) p =
  if decide (p ∈ ps) then {[h]} ∪ set_at (orphan_deps d) p else set_at (orphan_deps d) p.
Proof.
  unfold register_missing. revert d. induction ps as [|q ps IH]; intros d; [done|].
  cbn [foldl]. rewrite IH. cbn [set_orphan_deps orphan_deps].
  rewrite set_at_entry_insert. repeat case_decide; set_solver.
Qed.

Lemma elem_of_missing vs ps p : p ∈ missing vs ps <-> vs !! p = None /\ p ∈ ps.
Proof. unfold missing. by rewrite list_elem_of_filter. Qed.
Lemma missing_nil vs ps : missing vs ps = [] <-> forall p, p ∈ ps -> is_Some (vs !! p).
Proof.
  split.
  - intros E p Hp. destruct (vs !! p) eqn:Hv; [done|].
    assert (Hm : p ∈ missing vs ps) by by apply elem_of_missing.
    rewrite E in Hm. by apply not_elem_of_nil in Hm.
  - intros Hs. destruct (missing vs ps) as [|p l] eqn:E; [done|].
    assert (Hm : p ∈ missing vs ps) by (rewrite E; apply list_elem_of_here).
    apply elem_of_missing in Hm as [Hn Hp]. destruct (Hs p Hp). congruence.
Qed.

(** The loop over the parents in [store_vertex]. *)
Definition link (hash : Hash) (d : Dag) (parent : Hash) : Dag :=
  set_tips (fun tips => tips ∖ {[parent]}) (set_children (entry_insert parent hash) d).
Lemma link_frame hash ps d : let d' := foldl (link hash) d ps in
  vertices d' = vertices d /\ status d' = status d /\ by_height d' = by_height d /\
  pending d' = pending d /\ orphan_deps d' = orphan_deps d /\
  (forall h, h ∈ tips d' <-> h ∈ tips d /\ h ∉ ps) /\
  (forall p c, c ∈ set_at (children d') p <->
               c ∈ set_at (children d) p \/ (p ∈ ps /\ c = hash)).
Proof.
  cbv zeta. revert d. induction ps as [|q ps IH]; intros d; cbn [foldl].
  - repeat split; set_solver.
  - destruct (IH (link hash d q)) as (-> & -> & -> & -> & -> & Ht & Hc).
    do 5 (split; [done|]). split.
    + intros h. rewrite Ht. cbn [link set_tips tips set_children]. set_solver.
    + intros p c. rewrite Hc. cbn [link set_tips set_children children].
      rewrite set_at_entry_insert. case_decide; set_solver.
Qed.

Lemma store_frame d v : let d' := store_vertex d v in let hash := v_hash v in
  vertices d' = <[hash := v]> (vertices d) /\
  status d' = <[hash := Confirmed]> (status d) /\
  pending d' = pending d /\ orphan_deps d' = orphan_deps d /\
  by_height d' = entry_insert (v_height v) hash (by_height d) /\
  (forall h, h ∈ tips d' <-> h = hash \/ (h ∈ tips d /\ h ∉ v_parents v)) /\
  (forall p c, c ∈ set_at (children d') p <->
               c ∈ set_at (children d) p \/ (p ∈ v_parents v /\ c = hash)).
Proof.
  cbv zeta. unfold store_vertex. cbv zeta.
  change (fun d parent => set_tips (fun tips => tips ∖ {[parent]})
    (set_children (entry_insert parent (v_hash v)) d)) with (link (v_hash v)).
  match goal with |- context [foldl (link ?h) ?d0 ?ps] =>
    destruct (link_frame h ps d0) as (Hv & Hs & Hb & Hp & Ho & Ht & Hc);
    set (d1 := foldl (link h) d0 ps) in *; clearbody d1 end.
  cbn [set_by_height set_tips vertices status pending orphan_deps by_height tips children].
  rewrite Hv, Hs, Hb, Hp, Ho. cbn.
  do 5 (split; [done|]). split; [|exact Hc].
  intros h. rewrite elem_of_union, elem_of_singleton, Ht. done.
Qed.
End frame.

(** ** Inserting one vertex preserves the invariant *)
Section preserve.
Context `{HO : HashOrder} `{CL : CryptoLib}.

Lemma edge_insert d d' v p c :
  vertices d' = <[v_hash v := v]> (vertices d) -> vertices d !! v_hash v = None ->
  edge d' p c <-> edge d p c \/ (p ∈ v_parents v /\ c = v_hash v).
Proof.
  intros Hv Hn. unfold edge. rewrite Hv. split.
  - intros (w & Hw & Hp). destruct (decide (c = v_hash v)) as [->|Hne].
    + rewrite lookup_insert_eq in Hw. simplify_eq. by right.
    + rewrite lookup_insert_ne in Hw by done. left. eauto.
  - intros [(w & Hw & Hp)|[Hp ->]].
    + exists w. rewrite lookup_insert_ne; [done|]. congruence.
    + exists v. by rewrite lookup_insert_eq.
Qed.
Lemma stored_insert d d' v h :
  vertices d' = <[v_hash v := v]> (vertices d) ->
  stored d' h <-> h = v_hash v \/ stored d h.
Proof.
  intros Hv. unfold stored. rewrite Hv. destruct (decide (h = v_hash v)) as [->|Hne].
  - rewrite lookup_insert_eq. split; eauto.
  - rewrite lookup_insert_ne by done. naive_solver.
Qed.
Lemma expected_height_insert vs h v ps :
  (forall p, p ∈ ps -> p <> h) -> expected_height (<[h := v]> vs) ps = expected_height vs ps.
Proof.
  intros Hp. unfold expected_height. do 3 f_equal. unfold parent_heights.
  induction ps as [|p ps IH]; [done|]. cbn [omap list_omap].
  rewrite lookup_insert_ne by (symmetry; apply Hp; set_solver).
  rewrite IH by set_solver. done.
Qed.
Lemma elem_of_missing_insert vs h v ps p :
  p ∈ missing (<[h := v]> vs) ps <-> p ∈ missing vs ps /\ p <> h.
Proof.
  rewrite !elem_of_missing. destruct (decide (p = h)) as [->|Hne].
  - rewrite lookup_insert_eq. naive_solver.
  - rewrite lookup_insert_ne by done. naive_solver.
Qed.

(** The vertex is new and its parents are stored. *)
Definition insertable (d : Dag) (v : Vertex) : Prop :=
  vertices d !! v_hash v = None /\ pending d !! v_hash v = None /\
  missing (vertices d) (v_parents v) = [].

Lemma edge_acyclic_insert d d' v : insertable d v ->
  vertices d' = <[v_hash v := v]> (vertices d) ->
  (forall p c, edge d p c -> stored d p) ->
  (forall h, stored d h -> Acc (edge d) h) -> forall h, stored d' h -> Acc (edge d') h.
Proof.
  intros (Hn & _ & Hm) Hv Hcl Hacc.
  assert (Hold : forall h, stored d h -> Acc (edge d') h).
  { intros h Hh. pose proof (Hacc h Hh) as Ha. induction Ha as [h Ha IH].
    constructor. intros p Hp.
    destruct (proj1 (edge_insert d d' v _ _ Hv Hn) Hp) as [Hp'|[_ E]].
    - apply IH; [exact Hp'|]. by eapply Hcl.
    - destruct Hh as [? Hh]. congruence. }
  intros h Hh. destruct (proj1 (stored_insert d d' v _ Hv) Hh) as [->|Hh'];
    [|by apply Hold].
  constructor. intros p Hp.
  destruct (proj1 (edge_insert d d' v _ _ Hv Hn) Hp) as [Hp'|[Hp' _]].
  - destruct Hp' as (w & Hw & _). congruence.
  - apply Hold. rewrite missing_nil in Hm. by apply Hm.
Qed.

(** What storing a vertex does to the index by height and to the waiting
    vertices. *)
Lemma store_by_height W d d' v : dag_inv_except W d ->
  vertices d' = <[v_hash v := v]> (vertices d) -> vertices d !! v_hash v = None ->
  by_height d' = entry_insert (v_height v) (v_hash v) (by_height d) ->
  forall k h, h ∈ set_at (by_height d') k <-> exists w, vertices d' !! h = Some w /\ v_height w = k.
Proof.
  intros Hi Hv Hn Hb k h. rewrite Hb, Hv, set_at_entry_insert. setoid_rewrite lookup_insert_Some.
  pose proof (inv_by_height _ _ Hi k h) as Hbk.
  case_decide as Hk; [rewrite elem_of_union, elem_of_singleton|]; rewrite Hbk; split.
  - intros [->|(w & Hw & Ew)]; [naive_solver|].
    exists w. split; [|done]. right. split; [|done]. congruence.
  - intros (w & [[<- <-]|[_ Hw]] & Ew); [by left|right; eauto].
  - intros (w & Hw & Ew). exists w. split; [|done]. right. split; [|done]. congruence.
  - intros (w & [[<- <-]|[_ Hw]] & Ew); [congruence|eauto].
Qed.
Lemma store_pending W d d' v h w : dag_inv_except W d ->
  vertices d' = <[v_hash v := v]> (vertices d) -> pending d' = pending d ->
  orphan_deps d' = delete (v_hash v) (orphan_deps d) -> pending d !! v_hash v = None ->
  pending d' !! h = Some w ->
  v_hash w = h /\ vertices d' !! h = None /\ vertex_ok w /\
  forall p, p ∈ missing (vertices d') (v_parents w) -> h ∈ set_at (orphan_deps d') p.
Proof.
  intros Hi Hv Hp Ho Hpn. rewrite Hp. intros Hw.
  destruct (inv_pending _ _ Hi h w Hw) as (Hkey & Hnv & Hokw & Hdeps).
  split; [done|]. split; [rewrite Hv, lookup_insert_ne; [done|congruence]|].
  split; [done|]. intros p. rewrite Hv, elem_of_missing_insert. intros [Hpm Hne].
  rewrite Ho, set_at_delete, decide_False by done. by apply Hdeps.
Qed.
Lemma store_waits W d d' v waiting h w : dag_inv_except W d ->
  vertices d' = <[v_hash v := v]> (vertices d) -> pending d' = pending d ->
  vertices d !! v_hash v = None ->
  (forall h, h ∈ set_at (orphan_deps d) (v_hash v) -> h ∈ waiting) ->
  pending d' !! h = Some w -> h ∉ waiting ++ W -> missing (vertices d') (v_parents w) <> [].
Proof.
  intros Hi Hv Hp Hn Hwait. rewrite Hp. intros Hw HW E.
  destruct (inv_pending _ _ Hi h w Hw) as (_ & _ & _ & Hdeps).
  rewrite not_elem_of_app in HW. destruct HW as [HW1 HW2].
  apply (inv_waits _ _ Hi h w Hw HW2).
  apply missing_nil. intros p Hp'. rewrite Hv, missing_nil in E.
  destruct (decide (p = v_hash v)) as [->|Hne].
  - destruct HW1. apply Hwait, Hdeps. by apply elem_of_missing.
  - specialize (E p Hp'). by rewrite lookup_insert_ne in E.
Qed.
Lemma store_deps W d d' v h p : dag_inv_except W d ->
  vertices d' = <[v_hash v := v]> (vertices d) -> pending d' = pending d ->
  orphan_deps d' = delete (v_hash v) (orphan_deps d) -> h ∈ set_at (orphan_deps d') p ->
  exists w, pending d' !! h = Some w /\ p ∈ missing (vertices d') (v_parents w).
Proof.
  intros Hi Hv Hp Ho. rewrite Ho, set_at_delete. case_decide as Hne; [set_solver|]. intros Hin.
  destruct (inv_deps _ _ Hi h p Hin) as (w & Hw & Hpm).
  exists w. rewrite Hp, Hv. split; [done|]. by apply elem_of_missing_insert.
Qed.

(** Storing a vertex and dropping the orphan entry it answers. *)
Lemma store_inv W d v waiting : dag_inv_except W d -> insertable d v ->
  v_height v = expected_height (vertices d) (v_parents v) ->
  (forall h, h ∈ set_at (orphan_deps d) (v_hash v) -> h ∈ waiting) ->
  dag_inv_except (waiting ++ W)
    (set_orphan_deps (delete (v_hash v)) (store_vertex d v)).
Proof.
  intros Hi Hins Hh Hwait. pose proof Hins as (Hn & Hpn & Hm).
  destruct (store_frame d v) as (Hv & Hs & Hp & Ho & Hb & Ht & Hc).
  set (d1 := store_vertex d v) in *. set (d2 := set_orphan_deps _ d1).
  assert (Hv2 : vertices d2 = <[v_hash v := v]> (vertices d)) by exact Hv.
  assert (Ho2 : orphan_deps d2 = delete (v_hash v) (orphan_deps d)) by (rewrite <- Ho; done).
  assert (Hedge := fun p c => edge_insert d d2 v p c Hv2 Hn).
  assert (Hst := fun h => stored_insert d d2 v h Hv2).
  assert (Hfresh : forall c, ~ edge d (v_hash v) c).
  { intros c He. apply (inv_closed _ _ Hi) in He as [? ?]. congruence. }
  assert (Hself : v_hash v ∉ v_parents v).
  { intros Hin. rewrite missing_nil in Hm. destruct (Hm _ Hin). congruence. }
  split.
  - intros h w. rewrite Hv2, lookup_insert_Some. intros [[<- <-]|[_ ?]]; [done|].
    by eapply inv_key.
  - intros p c. rewrite Hedge, Hst. intros [He|[Hp' _]].
    + right. by eapply inv_closed.
    + right. rewrite missing_nil in Hm. by apply Hm.
  - intros h w. rewrite Hv2, lookup_insert_Some. intros [[<- <-]|[Hne Hw]].
    + rewrite expected_height_insert; [done|]. by intros p Hp' ->.
    + rewrite expected_height_insert; [by eapply inv_height|].
      intros p Hp' ->. apply (Hfresh h). by exists w.
  - apply (edge_acyclic_insert d d2 v Hins Hv2); [apply Hi|apply Hi].
  - intros p c. rewrite Hedge. rewrite <- (inv_children _ _ Hi). apply Hc.
  - intros h. rewrite Hst. change (tips d2) with (tips d1). rewrite Ht.
    rewrite (inv_tips _ _ Hi). setoid_rewrite Hedge.
    split.
    + intros [->|[[Hsh Hnc] Hnp]]; [|naive_solver].
      split; [by left|]. intros c [He|[Hin _]]; [by eapply Hfresh|done].
    + intros [[->|Hsh] Hnc]; [by left|right]. naive_solver.
  - by apply (store_by_height W d d2 v Hi Hv2 Hn Hb).
  - intros h. change (status d2) with (status d1). rewrite Hs, Hst.
    destruct (decide (h = v_hash v)) as [->|Hne].
    + rewrite lookup_insert_eq. naive_solver.
    + rewrite lookup_insert_ne by done. rewrite (inv_status _ _ Hi). naive_solver.
  - intros h w Hw. by apply (store_pending W d d2 v h w Hi Hv2 Hp Ho2 Hpn Hw).
  - intros h w Hw HW. by apply (store_waits W d d2 v waiting h w Hi Hv2 Hp Hn Hwait).
  - intros h p. by apply (store_deps W d d2 v h p Hi Hv2 Hp Ho2).
Qed.

Lemma inv_pop W h v d : dag_inv_except (h :: W) d -> pending d !! h = Some v ->
  missing (vertices d) (v_parents v) = [] ->
  dag_inv_except W (set_pending (delete h) d).
Proof.
  intros Hi Hp Hm. destruct Hi. split; try done.
  - intros k w. cbn [set_pending pending]. rewrite lookup_delete_Some. intros [_ Hw]. eauto.
  - intros k w. cbn [set_pending pending vertices]. rewrite lookup_delete_Some.
    intros [Hne Hw] HW. apply (inv_waits0 k w Hw). set_solver.
  - intros k p Hk. destruct (inv_deps0 k p Hk) as (w & Hw & Hpm).
    exists w. cbn [set_pending pending vertices]. split; [|done].
    apply lookup_delete_Some. split; [|done]. intros <-. simplify_eq.
    rewrite Hm in Hpm. by apply not_elem_of_nil in Hpm.
Qed.
(** Putting an incomplete orphan back changes no lookup. *)
Lemma inv_put_back W h v d : dag_inv_except (h :: W) d -> pending d !! h = Some v ->
  missing (vertices d) (v_parents v) <> [] ->
  dag_inv_except W (set_pending <[h := v]>
    (register_missing h (missing (vertices d) (v_parents v)) (set_pending (delete h) d))).
Proof.
  intros Hi Hp Hm. set (ps := missing _ _) in *.
  rewrite register_missing_frame.
  assert (Hdeps : forall k p,
    k ∈ set_at (orphan_deps (register_missing h ps (set_pending (delete h) d))) p <->
    k ∈ set_at (orphan_deps d) p).
  { intros k p. rewrite register_missing_deps. cbn [set_pending orphan_deps].
    case_decide as Hin; [|done]. rewrite elem_of_union, elem_of_singleton.
    split; [intros [->|]; [|done]|by right].
    destruct (inv_pending _ _ Hi h v Hp) as (_ & _ & _ & Hd). by apply Hd. }
  set (deps := orphan_deps (register_missing _ _ _)) in *. clearbody deps.
  assert (Hpend : <[h := v]> (delete h (pending d)) = pending d)
    by (rewrite insert_delete_eq; by apply insert_id).
  destruct Hi. split; cbn [set_orphan_deps set_pending vertices children tips by_height
    status pending orphan_deps]; rewrite ?Hpend; try done.
  - intros k w Hw. destruct (inv_pending0 k w Hw) as (?&?&?&Hd).
    do 3 (split; [done|]). intros p Hpm. apply Hdeps. by apply Hd.
  - intros k w Hw HW. destruct (decide (k = h)) as [->|Hne].
    + by simplify_eq.
    + apply (inv_waits0 k w Hw). set_solver.
  - intros k p Hk. apply Hdeps in Hk. by apply inv_deps0.
Qed.
Lemma inv_skip W h d : dag_inv_except (h :: W) d -> pending d !! h = None ->
  dag_inv_except W d.
Proof.
  intros Hi Hp. destruct Hi. split; try done.
  intros k w Hw HW. apply (inv_waits0 k w Hw). rewrite not_elem_of_cons. split; [congruence|done].
Qed.

Definition preserves (insert : Dag -> Vertex -> option (Dag * outcome NexusError ())) : Prop :=
  forall W d v d', dag_inv_except W d -> insertable d v ->
    insert d v = Some (d', Ok ()) -> dag_inv_except W d'.

Lemma orphan_loop_inv insert W waiting d d' : preserves insert ->
  dag_inv_except (waiting ++ W) d -> orphan_loop insert waiting d = Some (d', Ok ()) ->
  dag_inv_except W d'.
Proof.
  intros Hpres. revert d. induction waiting as [|h waiting IH]; intros d Hi; cbn [orphan_loop].
  { intros. by simplify_eq. }
  destruct (pending d !! h) as [v|] eqn:Hp; [|apply IH; by apply (inv_skip _ h)].
  cbv zeta. change (vertices (set_pending _ d)) with (vertices d).
  destruct (inv_pending _ _ Hi h v Hp) as (Hk & Hn & _).
  destruct (missing (vertices d) (v_parents v)) as [|p ps] eqn:Hm.
  - destruct (insert _ v) as [[d1 [[]| | |]]|] eqn:Hins; try discriminate.
    apply IH. eapply Hpres; [by eapply inv_pop| |exact Hins].
    split; [by rewrite Hk|]. cbn [set_pending pending vertices].
    split; [by rewrite Hk, lookup_delete_eq|done].
  - apply IH. rewrite <- Hm. apply inv_put_back; [done|done|by rewrite Hm].
Qed.

Lemma insert_vertex_inv fuel : preserves (insert_vertex fuel).
Proof.
  induction fuel as [|fuel IH]; intros W d v d' Hi Hins; [done|].
  cbn [insert_vertex]. case Z.eqb_spec; [|done]. intros Hh. cbn [negb].
  unfold process_orphans. apply orphan_loop_inv; [done|].
  apply store_inv; try done.
  intros h. destruct (store_frame d v) as (_ & _ & _ & -> & _). by rewrite elem_of_members.
Qed.

(** ** Enough fuel *)
Lemma orphan_loop_total (insert : Dag -> Vertex -> option (Dag * outcome NexusError ()))
    n waiting d :
  (forall d v, (base.size (pending d) < n)%nat -> exists r, insert d v = Some r /\
     (base.size (pending (fst r)) <= base.size (pending d))%nat) ->
  (base.size (pending d) <= n)%nat ->
  exists r, orphan_loop insert waiting d = Some r /\
    (base.size (pending (fst r)) <= base.size (pending d))%nat.
Proof.
  intros Hins. revert d. induction waiting as [|h waiting IH]; intros d Hd; cbn [orphan_loop].
  { eauto. }
  destruct (pending d !! h) as [v|] eqn:Hp; [|by apply IH]. cbv zeta.
  set (d1 := set_pending (delete h) d).
  assert (Hsz : base.size (pending d) = S (base.size (pending d1))).
  { cbn. rewrite <- (insert_delete_id (pending d) h v Hp) at 1.
    by rewrite map_size_insert_None by apply lookup_delete_eq. }
  destruct (missing _ _) as [|p ps] eqn:Hm.
  - destruct (Hins d1 v) as ([d2 r] & -> & Hle); [lia|]. cbn [fst] in Hle.
    destruct r; try (eexists; split; [done|cbn; lia]).
    destruct (IH d2) as (r & -> & ?); [lia|]. exists r. split; [done|lia].
  - match goal with |- context [orphan_loop insert waiting ?d2] =>
      assert (Hp2 : pending d2 = pending d); [|destruct (IH d2) as (r & -> & ?)] end.
    + rewrite register_missing_frame. cbn. rewrite insert_delete_eq. by apply insert_id.
    + by rewrite Hp2.
    + rewrite Hp2 in *. eauto.
Qed.
Lemma insert_vertex_total fuel d v : (base.size (pending d) < fuel)%nat ->
  exists r, insert_vertex fuel d v = Some r /\
    (base.size (pending (fst r)) <= base.size (pending d))%nat.
Proof.
  revert d v. induction fuel as [|fuel IH]; intros d v Hd; [lia|].
  cbn [insert_vertex]. destruct (negb _); [eauto|].
  destruct (store_frame d v) as (_ & _ & Hp & _).
  unfold process_orphans.
  match goal with |- context [orphan_loop ?i ?w ?d1] =>
    destruct (orphan_loop_total i fuel w d1) as (r & -> & Hr) end.
  - exact IH.
  - cbn [set_orphan_deps pending]. rewrite Hp. lia.
  - exists r. split; [done|]. cbn [set_orphan_deps pending] in Hr. by rewrite Hp in Hr.
Qed.

(** ** [add_vertex] *)
Lemma register_missing_vertices h ps d :
  vertices (register_missing h ps d) = vertices d /\
  pending (register_missing h ps d) = pending d.
Proof. rewrite register_missing_frame. done. Qed.

Lemma pend_inv d v : dag_inv d -> vertices d !! v_hash v = None -> vertex_ok v ->
  (forall w, pending d !! v_hash v = Some w -> v_parents w = v_parents v) ->
  missing (vertices d) (v_parents v) <> [] ->
  dag_inv (set_status <[v_hash v := AwaitingParents]> (set_pending <[v_hash v := v]>
    (register_missing (v_hash v) (missing (vertices d) (v_parents v)) d))).
Proof.
  intros Hi Hn Hok Hsame Hm. set (ps := missing _ _) in *. rewrite register_missing_frame.
  pose proof (register_missing_deps (v_hash v) ps d) as Hdeps.
  set (deps := orphan_deps (register_missing _ _ _)) in *. clearbody deps.
  destruct Hi. split; cbn [set_status set_orphan_deps set_pending vertices children tips
    by_height status pending orphan_deps]; try done.
  - intros h. destruct (decide (h = v_hash v)) as [->|Hne].
    + rewrite lookup_insert_eq. unfold stored. cbn. rewrite Hn.
      split; [intros [?|?]; done|intros [? ?]; done].
    + rewrite lookup_insert_ne by done. apply inv_status0.
  - intros h w. rewrite lookup_insert_Some. intros [[<- <-]|[Hne Hw]].
    + do 3 (split; [done|]). intros p Hp. rewrite Hdeps, decide_True by done. set_solver.
    + destruct (inv_pending0 h w Hw) as (?&?&?&Hd). do 3 (split; [done|]).
      intros p Hp. rewrite Hdeps. case_decide; [|by apply Hd]. apply elem_of_union. right. by apply Hd.
  - intros h w. rewrite lookup_insert_Some. intros [[<- <-]|[Hne Hw]] HW; [done|]. by eapply inv_waits0.
  - intros h p. rewrite Hdeps. intros Hin.
    assert (Hc : (h = v_hash v /\ p ∈ ps) \/ h ∈ set_at (orphan_deps d) p)
      by (case_decide; set_solver). clear Hin.
    destruct (decide (h = v_hash v)) as [->|Hne].
    + exists v. rewrite lookup_insert_eq. split; [done|].
      destruct Hc as [[_ Hp]|Hin]; [done|].
      destruct (inv_deps0 _ _ Hin) as (w & Hw & Hpm). unfold ps. by rewrite <- (Hsame w Hw).
    + destruct Hc as [[? _]|Hin]; [done|]. destruct (inv_deps0 _ _ Hin) as (w & Hw & Hpm).
      exists w. by rewrite lookup_insert_ne.
Qed.

Lemma add_vertex_keeps now d v d' : dag_inv d -> Forall len32 (v_parents v) ->
  (forall w, pending d !! v_hash v = Some w -> v_parents w = v_parents v) ->
  add_vertex now d v = Some (d', Ok ()) -> dag_inv d'.
Proof.
  intros Hi Hlen Hsame. unfold add_vertex. case_decide as Hst.
  { intros. by simplify_eq. }
  apply eq_None_not_Some in Hst.
  destruct (verify_structure v) as [[]| | |] eqn:Hok; try discriminate. cbn [map_err mbind outcome_bind].
  destruct (verify_timestamp now d v); try discriminate.
  assert (Hvok : vertex_ok v) by done.
  destruct (missing (vertices d) (v_parents v)) as [|p ps] eqn:Hm.
  - eapply insert_vertex_inv; [done|]. split; [done|]. split; [|done].
    destruct (pending d !! v_hash v) as [w|] eqn:Hw; [|done].
    destruct (inv_waits _ _ Hi _ w Hw); [apply not_elem_of_nil|].
    by rewrite (Hsame w eq_refl).
  - intros. simplify_eq. rewrite <- Hm. apply pend_inv; try done. by rewrite Hm.
Qed.

(** No vertex is pending that was not handed to [add_vertex]. *)
Definition shrinks (insert : Dag -> Vertex -> option (Dag * outcome NexusError ())) : Prop :=
  forall d v d' r, insert d v = Some (d', r) -> pending d' ⊆ pending d.
Lemma orphan_loop_shrinks insert waiting d d' r : shrinks insert ->
  orphan_loop insert waiting d = Some (d', r) -> pending d' ⊆ pending d.
Proof.
  intros Hins. revert d. induction waiting as [|h waiting IH]; intros d; cbn [orphan_loop]; [by intros [= <- _]|].
  destruct (pending d !! h) as [v|] eqn:Hp; [|apply IH]. cbv zeta.
  assert (Hd : delete h (pending d) ⊆ pending d) by apply delete_subseteq.
  destruct (missing _ _) as [|p ps] eqn:Hm.
  - destruct (insert _ v) as [[d1 r1]|] eqn:E; [|done]. apply Hins in E. cbn [set_pending pending] in E.
    destruct r1; [intros Hl%IH|intros [= <- _]..]; by repeat (etrans; [eassumption|]).
  - intros Hl%IH. etrans; [exact Hl|]. rewrite register_missing_frame.
    cbn [set_pending set_orphan_deps pending]. by rewrite insert_delete_eq, insert_id.
Qed.
Lemma insert_vertex_shrinks fuel : shrinks (insert_vertex fuel).
Proof.
  induction fuel as [|fuel IH]; intros d v d' r; [done|]. cbn [insert_vertex].
  destruct (negb _); [by intros [= <- _]|]. unfold process_orphans. intros Hl%orphan_loop_shrinks; [|done].
  destruct (store_frame d v) as (_ & _ & Hp & _). cbn [set_orphan_deps pending] in Hl. by rewrite Hp in Hl.
Qed.
Lemma add_vertex_pending now d v d' r h w : Forall len32 (v_parents v) ->
  add_vertex now d v = Some (d', r) -> pending d' !! h = Some w ->
  (w = v /\ h = v_hash v /\ vertex_ok v) \/ pending d !! h = Some w.
Proof.
  intros Hlen. unfold add_vertex. case_decide; [intros [= <- _]; by right|].
  destruct (verify_structure v) as [[]|e| |] eqn:Hok; [|intros [= <- _]; by right..]. cbn [map_err mbind outcome_bind].
  destruct (verify_timestamp now d v) as [[]|e| |]; [|intros [= <- _]; by right..].
  destruct (missing _ _) as [|p ps].
  - intros Hs%insert_vertex_shrinks Hw. right. by eapply lookup_weaken.
  - intros [= <- _]. rewrite register_missing_frame. cbn [set_status set_pending set_orphan_deps pending].
    intros [[<- <-]|[_ Hw]]%lookup_insert_Some; [by left|by right].
Qed.

(** ** Calls that fail

    An orphan that turns out invalid ends the call in the middle of
    [process_orphans]: what has been stored is stored, and some pending vertices
    are left whose parents are all there and for which nothing waits. *)
Definition keeps_stored (insert : Dag -> Vertex -> option (Dag * outcome NexusError ())) : Prop :=
  forall d v d' r h, insert d v = Some (d', r) -> stored d h -> stored d' h.
Lemma orphan_loop_stored insert waiting d d' r h : keeps_stored insert ->
  orphan_loop insert waiting d = Some (d', r) -> stored d h -> stored d' h.
Proof.
  intros Hins. revert d. induction waiting as [|k waiting IH]; intros d; cbn [orphan_loop]; [by intros [= <- _]|].
  destruct (pending d !! k) as [v|]; [|apply IH]. cbv zeta. destruct (missing _ _) as [|p ps].
  - destruct (insert _ v) as [[d1 r1]|] eqn:E; [|done]. intros Hl Hs.
    assert (Hs1 : stored d1 h) by by eapply Hins.
    destruct r1; [by eapply IH|by injection Hl as <- _..].
  - intros Hl Hs. apply (IH _ Hl). rewrite register_missing_frame. exact Hs.
Qed.
Lemma insert_vertex_stored fuel : keeps_stored (insert_vertex fuel).
Proof.
  induction fuel as [|fuel IH]; intros d v d' r h; [done|]. cbn [insert_vertex].
  destruct (negb _); [by intros [= <- _]|]. unfold process_orphans. intros Hl Hs.
  eapply orphan_loop_stored; [exact IH|exact Hl|]. unfold stored. cbn [set_orphan_deps vertices].
  destruct (store_frame d v) as (-> & _). destruct (decide (h = v_hash v)) as [->|Hne].
  - rewrite lookup_insert_eq. by eexists.
  - by rewrite lookup_insert_ne.
Qed.
Lemma missing_nil_grows d d' ps : (forall h, stored d h -> stored d' h) ->
  missing (vertices d) ps = [] -> missing (vertices d') ps = [].
Proof. intros Hs. rewrite !missing_nil. intros Hp p Hin. by apply Hs, Hp. Qed.

Definition outlives (insert : Dag -> Vertex -> option (Dag * outcome NexusError ())) : Prop :=
  forall W d v d' r, dag_inv_except W d -> insertable d v ->
    insert d v = Some (d', r) -> exists W', dag_inv_except W' d'.
Lemma orphan_loop_outlives insert W waiting d d' r : preserves insert -> outlives insert ->
  dag_inv_except (waiting ++ W) d -> orphan_loop insert waiting d = Some (d', r) ->
  exists W', dag_inv_except W' d'.
Proof.
  intros Hpres Hout. revert d. induction waiting as [|h waiting IH]; intros d Hi; cbn [orphan_loop].
  { intros [= <- _]. by exists W. }
  destruct (pending d !! h) as [v|] eqn:Hp; [|apply IH; by apply (inv_skip _ h)].
  cbv zeta. change (vertices (set_pending _ d)) with (vertices d).
  destruct (inv_pending _ _ Hi h v Hp) as (Hk & Hn & _).
  destruct (missing (vertices d) (v_parents v)) as [|p ps] eqn:Hm.
  - assert (Hi1 : dag_inv_except (waiting ++ W) (set_pending (delete h) d)) by by eapply inv_pop.
    assert (Hv : insertable (set_pending (delete h) d) v).
    { split; [by rewrite Hk|]. cbn [set_pending pending vertices]. split; [by rewrite Hk, lookup_delete_eq|done]. }
    destruct (insert _ v) as [[d1 r1]|] eqn:Hins; [|done].
    destruct r1 as [[]|e| |]; [|intros [= <- _]; by eapply Hout..].
    apply IH. by eapply Hpres.
  - apply IH. rewrite <- Hm. apply inv_put_back; [done|done|by rewrite Hm].
Qed.
Lemma insert_vertex_outlives fuel : outlives (insert_vertex fuel).
Proof.
  induction fuel as [|fuel IH]; intros W d v d' r Hi Hins; [done|].
  cbn [insert_vertex]. case Z.eqb_spec; [|intros _ [= <- _]; by exists W]. intros Hh. cbn [negb].
  unfold process_orphans. apply (orphan_loop_outlives _ W); [apply insert_vertex_inv|exact IH|].
  apply store_inv; try done.
  intros h. destruct (store_frame d v) as (_ & _ & _ & -> & _). by rewrite elem_of_members.
Qed.

(** Pending vertices [S] for which nothing waits take no part in a call. *)
Definition strip (S : gset Hash) (d : Dag) : Dag := set_pending (filter (fun e => e.1 ∉ S)) d.
Definition clean (S : gset Hash) (d : Dag) : Prop := forall h p, h ∈ set_at (orphan_deps d) p -> h ∉ S.
Lemma strip_lookup S d h : pending (strip S d) !! h = if decide (h ∈ S) then None else pending d !! h.
Proof.
  apply option_eq. intros v. cbn [strip set_pending pending]. rewrite map_lookup_filter_Some. cbn.
  case_decide; naive_solver.
Qed.
Lemma set_pending_ext f g d : f (pending d) = g (pending d) -> set_pending f d = set_pending g d.
Proof. unfold set_pending. by intros ->. Qed.
Lemma strip_delete S d h : strip S (set_pending (delete h) d) = set_pending (delete h) (strip S d).
Proof.
  refine (set_pending_ext (fun m => filter (fun e => e.1 ∉ S) (delete h m)) (fun m => delete h (filter (fun e => e.1 ∉ S) m)) d _).
  apply map_filter_delete.
Qed.
Lemma strip_insert S d h v : h ∉ S -> strip S (set_pending <[h := v]> d) = set_pending <[h := v]> (strip S d).
Proof.
  intros Hh. refine (set_pending_ext (fun m => filter (fun e => e.1 ∉ S) (<[h := v]> m))
    (fun m => <[h := v]> (filter (fun e => e.1 ∉ S) m)) d _).
  by apply map_filter_insert_True.
Qed.
Lemma strip_register S h ps d : strip S (register_missing h ps d) = register_missing h ps (strip S d).
Proof. unfold register_missing. revert d. induction ps as [|p ps IH]; intros d; [done|]. apply IH. Qed.
Lemma strip_store S d v : strip S (store_vertex d v) = store_vertex (strip S d) v.
Proof.
  unfold store_vertex. cbv zeta.
  assert (Hl : forall ps d, strip S (foldl (link (v_hash v)) d ps) = foldl (link (v_hash v)) (strip S d) ps).
  { induction ps as [|p ps IH]; intros d1; [done|]. apply IH. }
  change (fun d parent => set_tips (fun tips => tips ∖ {[parent]})
    (set_children (entry_insert parent (v_hash v)) d)) with (link (v_hash v)).
  match goal with |- _ = set_by_height ?f (set_tips ?g (foldl _ ?d1 _)) =>
    change (set_by_height f (set_tips g (strip S (foldl (link (v_hash v))
      (set_status <[v_hash v := Confirmed]> (set_vertices <[v_hash v := v]> d)) (v_parents v))))
    = set_by_height f (set_tips g (foldl (link (v_hash v)) d1 (v_parents v)))) end.
  by rewrite Hl.
Qed.
Lemma clean_register S h ps d : h ∉ S -> clean S d -> clean S (register_missing h ps d).
Proof. intros Hh Hc k p. rewrite register_missing_deps. case_decide; [|apply Hc]. intros [->%elem_of_singleton|Hk]%elem_of_union; [done|by eapply Hc]. Qed.

Definition strips (S : gset Hash) (insert : Dag -> Vertex -> option (Dag * outcome NexusError ())) : Prop :=
  forall d v d' r, clean S d -> insert d v = Some (d', r) -> insert (strip S d) v = Some (strip S d', r) /\ clean S d'.
Lemma orphan_loop_strips S insert waiting d d' r : strips S insert -> clean S d ->
  (forall h, h ∈ waiting -> h ∉ S) -> orphan_loop insert waiting d = Some (d', r) ->
  orphan_loop insert waiting (strip S d) = Some (strip S d', r) /\ clean S d'.
Proof.
  intros Hins. revert d. induction waiting as [|h waiting IH]; intros d Hc Hw; cbn [orphan_loop].
  { by intros [= <- <-]. }
  assert (Hh : h ∉ S) by (apply Hw; left). assert (Hw' : forall k, k ∈ waiting -> k ∉ S) by (intros; apply Hw; by right).
  rewrite strip_lookup, decide_False by done. destruct (pending d !! h) as [v|]; [|by apply IH]. cbv zeta.
  rewrite <- strip_delete. change (vertices (strip S ?x)) with (vertices x).
  destruct (missing _ _) as [|p ps].
  - destruct (insert _ v) as [[d1 r1]|] eqn:E; [|done].
    destruct (Hins (set_pending (delete h) d) v d1 r1 Hc E) as [-> Hc1].
    destruct r1; [by apply IH|by intros [= <- <-]..].
  - rewrite <- strip_register, <- strip_insert by done. apply IH; [|done]. by apply (clean_register S h _ (set_pending (delete h) d)).
Qed.
Lemma insert_vertex_strips S fuel : strips S (insert_vertex fuel).
Proof.
  induction fuel as [|fuel IH]; intros d v d' r Hc; [done|]. cbn [insert_vertex].
  change (vertices (strip S d)) with (vertices d). destruct (negb _).
  { intros [= <- <-]. split; [|done]. done. }
  unfold process_orphans. rewrite <- strip_store.
  change (orphan_deps (strip S (store_vertex d v))) with (orphan_deps (store_vertex d v)).
  destruct (store_frame d v) as (_ & _ & _ & Ho & _). intros Hl.
  refine (orphan_loop_strips S (insert_vertex fuel) _ (set_orphan_deps (delete (v_hash v)) (store_vertex d v)) d' r IH _ _ Hl).
  - intros h p. cbn [set_orphan_deps orphan_deps]. rewrite Ho, set_at_delete. case_decide; [by intros ?%not_elem_of_empty|apply Hc].
  - intros h Hh%elem_of_members. rewrite Ho in Hh. by eapply Hc.
Qed.

(** The DAG without the pending vertices whose parents are all stored *)
Definition settled (d : Dag) : Dag :=
  set_pending (filter (fun e => missing (vertices d) (v_parents e.2) <> [])) d.
Lemma settled_lookup d h v : pending (settled d) !! h = Some v <->
  pending d !! h = Some v /\ missing (vertices d) (v_parents v) <> [].
Proof. apply map_lookup_filter_Some. Qed.
Lemma settled_inv W d : dag_inv_except W d -> dag_inv (settled d).
Proof.
  intros Hi. destruct Hi. split; try done.
  - intros h v [Hv _]%settled_lookup. by apply inv_pending0.
  - intros h v [_ Hm]%settled_lookup _. exact Hm.
  - intros h p Hh. destruct (inv_deps0 h p Hh) as (v & Hv & Hp). exists v. split; [|done].
    apply settled_lookup. split; [done|]. intros E. change (vertices (settled d)) with (vertices d) in E.
    rewrite E in Hp. by apply not_elem_of_nil in Hp.
Qed.
Definition stale (d : Dag) : gset Hash :=
  dom (filter (fun e : Hash * Vertex => missing (vertices d) (v_parents e.2) = []) (pending d)).
Lemma elem_of_stale d h : h ∈ stale d <->
  exists v, pending d !! h = Some v /\ missing (vertices d) (v_parents v) = [].
Proof.
  unfold stale. rewrite elem_of_dom. split.
  - intros [v [? ?]%map_lookup_filter_Some]. by exists v.
  - intros (v & ? & ?). exists v. by apply map_lookup_filter_Some.
Qed.
Lemma strip_stale d : strip (stale d) d = settled d.
Proof.
  apply set_pending_ext, map_eq. intros h. apply option_eq. intros v. rewrite !map_lookup_filter_Some. cbn [fst snd].
  rewrite elem_of_stale. naive_solver.
Qed.
Lemma settled_strip S d : (forall h v, h ∈ S -> pending d !! h = Some v -> missing (vertices d) (v_parents v) = []) ->
  settled (strip S d) = settled d.
Proof.
  intros HS. refine (set_pending_ext (fun m => filter (fun e => missing (vertices d) (v_parents e.2) <> [])
    (filter (fun e => e.1 ∉ S) m)) (filter (fun e => missing (vertices d) (v_parents e.2) <> [])) d _).
  apply map_eq. intros h. apply option_eq. intros v. rewrite !map_lookup_filter_Some. cbn [fst snd]. naive_solver.
Qed.
Lemma stale_clean d : dag_inv (settled d) -> clean (stale d) d.
Proof.
  intros Hi h p Hh. destruct (inv_deps _ _ Hi h p Hh) as (v & [Hv Hm]%settled_lookup & _).
  intros (w & Hw & E)%elem_of_stale. naive_solver.
Qed.

Lemma add_vertex_settled now d v d' r : dag_inv (settled d) -> Forall len32 (v_parents v) ->
  (forall w, pending d !! v_hash v = Some w -> v_parents w = v_parents v) ->
  add_vertex now d v = Some (d', r) -> dag_inv (settled d').
Proof.
  intros Hi Hlen Hsame. unfold add_vertex. case_decide as Hst; [by intros [= <- _]|].
  apply eq_None_not_Some in Hst.
  destruct (verify_structure v) as [[]|e| |] eqn:Hok; [|by intros [= <- _]..]. cbn [map_err mbind outcome_bind].
  destruct (verify_timestamp now d v) as [[]|e| |]; [|by intros [= <- _]..].
  assert (Hvok : vertex_ok v) by done. pose proof (stale_clean d Hi) as Hc. pose proof (strip_stale d) as Es.
  assert (Hold : forall h w, h ∈ stale d -> pending d !! h = Some w -> missing (vertices d) (v_parents w) = []).
  { intros h w (u & Hu & Hm)%elem_of_stale Hw. naive_solver. }
  destruct (missing (vertices d) (v_parents v)) as [|p ps] eqn:Hm.
  - intros Hins. destruct (insert_vertex_strips (stale d) _ d v d' r Hc Hins) as [Hins' _]. rewrite Es in Hins'.
    assert (Hv : insertable (settled d) v).
    { split; [done|]. split; [|done]. destruct (pending (settled d) !! v_hash v) as [w|] eqn:Hw; [|done].
      apply settled_lookup in Hw as [Hw Hne]. by rewrite (Hsame w Hw) in Hne. }
    destruct (insert_vertex_outlives _ [] _ _ _ _ Hi Hv Hins') as [W HW].
    apply settled_inv in HW. rewrite settled_strip in HW; [done|]. intros h w Hh Hw.
    apply (missing_nil_grows d); [intros k; by eapply insert_vertex_stored|]. apply (Hold h); [done|].
    eapply lookup_weaken; [exact Hw|]. by eapply insert_vertex_shrinks.
  - intros [= <- _]. change (register_missing (v_hash v) ps (set_orphan_deps (entry_insert p (v_hash v)) d))
      with (register_missing (v_hash v) (p :: ps) d). rewrite <- Hm.
    assert (Hns : v_hash v ∉ stale d).
    { intros (w & Hw & E)%elem_of_stale. rewrite (Hsame w Hw) in E. congruence. }
    assert (Hp : dag_inv (strip (stale d) (set_status <[v_hash v := AwaitingParents]> (set_pending <[v_hash v := v]>
      (register_missing (v_hash v) (missing (vertices d) (v_parents v)) d))))).
    { change (strip (stale d) (set_status ?f ?x)) with (set_status f (strip (stale d) x)).
      rewrite strip_insert, strip_register, Es by done. apply (pend_inv (settled d)); [done..| |].
      - intros w [Hw _]%settled_lookup. by apply Hsame.
      - change (vertices (settled d)) with (vertices d). by rewrite Hm. }
    apply settled_inv in Hp. rewrite settled_strip in Hp; [done|].
    intros h w Hh. rewrite register_missing_frame. cbn [set_status set_pending set_orphan_deps pending vertices].
    rewrite lookup_insert_ne by congruence. by apply Hold.
Qed.

End preserve.

(** ** Reachable states *)
Section reachable.
Context `{HO : HashOrder} `{CL : CryptoLib}.

(** A node starts from a genesis vertex, is given the vertices [vs] (the last
    one first), whatever [add_vertex] answers, and raises the finalized height;
    [ok] tells whether every call has returned [Ok]. *)
Definition is_ok (r : outcome NexusError ()) : bool := match r with Ok _ => true | _ => false end.
Inductive reachable : bool -> list Vertex -> Dag -> Prop :=
  | reach_genesis cfg chain_id timestamp :
      reachable true [] (fst (init_genesis (empty_dag cfg) (genesis chain_id timestamp)))
  | reach_add ok vs now d v d' r :
      reachable ok vs d -> Forall len32 (v_parents v) ->
      add_vertex now d v = Some (d', r) -> reachable (ok && is_ok r) (v :: vs) d'
  | reach_finalize ok vs d height :
      reachable ok vs d -> reachable ok vs (set_finalized_height d height).

Lemma genesis_inv cfg chain_id timestamp :
  dag_inv (fst (init_genesis (empty_dag cfg) (genesis chain_id timestamp))).
Proof.
  set (g := genesis chain_id timestamp). set (d := fst _).
  assert (Hv : vertices d = {[HASH_ZERO := g]}) by done.
  assert (Hedge : forall p c, ~ edge d p c).
  { intros p c (v & Hc & Hp). rewrite Hv, lookup_singleton_Some in Hc.
    destruct Hc as [_ <-]. by apply not_elem_of_nil in Hp. }
  assert (Hst : forall h, stored d h <-> h = HASH_ZERO).
  { intros h. unfold stored. rewrite Hv. split.
    - by intros [v [-> _]%lookup_singleton_Some].
    - intros ->. rewrite lookup_singleton_eq. eauto. }
  split.
  - intros h v. rewrite Hv, lookup_singleton_Some. by intros [<- <-].
  - intros p c []%Hedge.
  - intros h v. rewrite Hv, lookup_singleton_Some. by intros [<- <-].
  - intros h _. constructor. intros p []%Hedge.
  - intros p c. split; [|intros []%Hedge]. intros Hc. by apply not_elem_of_empty in Hc.
  - intros h. rewrite Hst. cbn [d g fst init_genesis empty_dag genesis_hash set_genesis tips
      set_tips set_by_height set_status set_vertices]. set_solver.
  - intros k h. rewrite Hv. setoid_rewrite lookup_singleton_Some.
    change (by_height d) with (entry_insert 0 HASH_ZERO (∅ : gmap Z (gset Hash))).
    rewrite set_at_entry_insert. case_decide as Hk.
    + split; [|intros (v & [<- <-] & _); set_solver].
      intros Hin. exists g. split; [|done]. split; [|done]. set_solver.
    + split; [intros Hin; by apply not_elem_of_empty in Hin|].
      intros (v & [<- <-] & E). done.
  - intros h. rewrite Hst. change (status d) with ({[HASH_ZERO := Finalized]} : gmap Hash VertexStatus).
    rewrite !lookup_singleton_Some. naive_solver.
  - intros h v. change (pending d) with (∅ : gmap Hash Vertex). by rewrite lookup_empty.
  - intros h v. change (pending d) with (∅ : gmap Hash Vertex). by rewrite lookup_empty.
  - intros h p. change (set_at (orphan_deps d) p) with (∅ : gset Hash). by intros ?%not_elem_of_empty.
Qed.

Lemma finalize_status hs d : let d' := foldl (fun d hash => set_status <[hash := Finalized]> d) d hs in
  d' = set_status (fun _ => status d') d /\
  forall h, status d' !! h = if decide (h ∈ hs) then Some Finalized else status d !! h.
Proof.
  cbv zeta. revert d. induction hs as [|k hs IH]; intros d; cbn [foldl]; [by destruct d|].
  destruct (IH (set_status <[k := Finalized]> d)) as [-> Hs]. split; [by destruct d|].
  intros h. cbn [set_status status] in *. rewrite Hs.
  destruct (decide (h ∈ hs)); [by rewrite decide_True by set_solver|].
  destruct (decide (h = k)) as [->|Hne].
  - by rewrite lookup_insert_eq, decide_True by set_solver.
  - rewrite lookup_insert_ne, decide_False by set_solver. done.
Qed.

Lemma set_finalized_inv d height : dag_inv d -> dag_inv (set_finalized_height d height).
Proof.
  intros Hi. unfold set_finalized_height. destruct (_ <? _); [|done]. cbv zeta.
  match goal with |- context [foldl ?f ?d0 ?hs] =>
    destruct (finalize_status hs d0) as [-> Hs]; set (st := status _) in *; clearbody st end.
  destruct Hi. split; try done.
  intros h. cbn [set_status status]. rewrite Hs. case_decide as Hin.
  - split; [intros _|naive_solver]. apply elem_of_members in Hin.
    cbn [set_finalized by_height] in Hin.
    apply inv_by_height0 in Hin as (v & Hv & _). by exists v.
  - apply inv_status0.
Qed.

Lemma set_finalized_pending d height : pending (set_finalized_height d height) = pending d.
Proof.
  unfold set_finalized_height. destruct (_ <? _); [|done]. cbv zeta.
  match goal with |- context [foldl ?f ?d0 ?hs] => by destruct (finalize_status hs d0) as [-> _] end.
Qed.
Lemma settled_finalized d height : settled (set_finalized_height d height) = set_finalized_height (settled d) height.
Proof.
  unfold set_finalized_height. change (finalized_height (settled d)) with (finalized_height d).
  destruct (_ <? _); [|done]. cbv zeta.
  change (by_height (set_finalized height (settled d))) with (by_height (set_finalized height d)).
  change (set_finalized height (settled d)) with (settled (set_finalized height d)).
  generalize (members (set_at (by_height (set_finalized height d)) height)). intros hs.
  generalize (set_finalized height d). induction hs as [|h hs IH]; intros d1; [done|].
  exact (IH (set_status <[h := Finalized]> d1)).
Qed.

(** Every pending vertex was given to the node and passed the check. *)
Lemma reachable_pending ok vs d h w : reachable ok vs d -> pending d !! h = Some w ->
  w ∈ vs /\ v_hash w = h /\ vertex_ok w.
Proof.
  intros Hr. revert h w. induction Hr as [|ok vs now d v d' r _ IH Hlen Hadd|ok vs d height _ IH]; intros h w.
  - change (pending _) with (∅ : gmap Hash Vertex). by rewrite lookup_empty.
  - intros [(-> & -> & Hok)|Hw]%(add_vertex_pending _ _ _ _ _ _ _ Hlen Hadd); [by split; [left|]|].
    destruct (IH _ _ Hw) as (? & ? & ?). by split; [right|].
  - rewrite set_finalized_pending. apply IH.
Qed.
Lemma clash_or_same ok vs now d v d' r : reachable ok vs d -> Forall len32 (v_parents v) ->
  add_vertex now d v = Some (d', r) ->
  d' = d \/ identifier_clash (v :: vs) \/ forall w, pending d !! v_hash v = Some w -> v_parents w = v_parents v.
Proof.
  intros Hr Hlen Hadd. destruct (pending d !! v_hash v) as [w|] eqn:Hw; [|by right; right].
  destruct (decide (v_parents w = v_parents v)) as [E|Hne]; [by right; right; intros ? [= <-]|].
  revert Hadd. unfold add_vertex. case_decide; [intros [= <- _]; by left|].
  destruct (verify_structure v) as [[]|e| |] eqn:Hok; [|intros [= <- _]; by left..]. intros _. right. left.
  destruct (reachable_pending _ _ _ _ _ Hr Hw) as (Hin & Hk & Hvw).
  exists v, w. split; [left|]. split; [by right|]. split; [done|]. split; [done|]. split; congruence.
Qed.
Lemma reachable_inv ok vs d : reachable ok vs d ->
  (dag_inv (settled d) /\ (ok = true -> dag_inv d)) \/ identifier_clash vs.
Proof.
  induction 1 as [|ok vs now d v d' r Hr [IH|IH] Hlen Hadd|ok vs d height _ [[IH1 IH2]|IH]].
  - left. pose proof (genesis_inv cfg chain_id timestamp) as Hi. split; [by eapply settled_inv|done].
  - destruct (clash_or_same _ _ _ _ _ _ _ Hr Hlen Hadd) as [->|[Hc|Hsame]]; [|by right|].
    + left. destruct IH as [IH1 IH2]. split; [exact IH1|]. intros [Hok _]%andb_prop. exact (IH2 Hok).
    + left. destruct IH as [IH1 IH2]. split; [by eapply add_vertex_settled|].
      intros [Hok Hr']%andb_prop. destruct r as [[]|e| |]; [|done..]. exact (add_vertex_keeps now d v d' (IH2 Hok) Hlen Hsame Hadd).
  - right. destruct IH as (a & b & Ha & Hb & ?). exists a, b. split; [by right|]. by split; [right|].
  - left. rewrite settled_finalized. split; [by apply set_finalized_inv|]. intros. by apply set_finalized_inv, IH2.
  - by right.
Qed.

(** A clash of identifiers is a BLAKE3 collision. *)
Lemma vertex_input_parents ps qs txs uxs t u a b :
  Forall len32 ps -> Forall len32 qs -> (length ps <= 8)%nat -> (length qs <= 8)%nat ->
  vertex_hash_input ps txs t a = vertex_hash_input qs uxs u b -> ps = qs.
Proof.
  intros Hps Hqs Lp Lq E. unfold vertex_hash_input in E.
  apply app_inj_1 in E as [El E]; [|by rewrite !to_le_bytes_length].
  assert (Hlen : length ps = length qs).
  { apply (f_equal from_le_bytes) in El.
    rewrite !Z.mod_small in El by (simpl; lia). rewrite !from_to_le_bytes in El by (simpl; lia). lia. }
  clear El Lp Lq. revert qs Hqs Hlen E.
  induction Hps as [|p ps Hp Hps IH]; intros [|q qs] Hqs Hlen E; try discriminate; [done|].
  apply Forall_cons in Hqs as [Hq Hqs]. cbn [fmap list_fmap concat] in E.
  rewrite <- !app_assoc in E. apply app_inj_1 in E as [Epq E]; [|congruence].
  f_equal; [by destruct p, q; simpl in *; subst|]. apply IH; [done|simpl in *; lia|done].
Qed.
Lemma clash_collides vs : identifier_clash vs -> exists v w, v ∈ vs /\ w ∈ vs /\
  hash_input v <> hash_input w /\ blake3 (hash_input v) = blake3 (hash_input w).
Proof.
  intros (v & w & Iv & Iw & [Hv Lv] & [Hw Lw] & Eh & Ene). exists v, w. do 2 (split; [done|]).
  apply verify_structure_bounds in Hv as [Pv Ev]. apply verify_structure_bounds in Hw as [Pw Ew].
  rewrite Ev, Ew in Eh. unfold vertex_hash in Eh.
  unfold hash_input. split; [|by injection Eh]. intros E. by apply vertex_input_parents in E.
Qed.
End reachable.
