(* ===== verification/DagSearch.v ===== *)
(** * The searches of the DAG terminate and are exact

    [is_ancestor] decides reachability along parents and [calculate_weight]
    counts the stored descendants; the fuel, one unit per edge and vertex, is
    enough. *)
From S2P Require Import Prelude Types Crypto Transaction Vertex Dag DagFacts.
From stdpp Require Import base numbers list gmap sets strings relations.
From Stdlib Require Import ZArith Lia.
#[local] Open Scope Z_scope.

Section search.
Context `{HO : HashOrder} `{CL : CryptoLib}.

(** The work left: the queue, and the out-degree of the unvisited keys. *)
Definition unvisited (degree : Hash -> list Hash) (ks : list Hash) (visited : gset Hash) : nat :=
  sum_list_with (fun h => if decide (h ∈ visited) then 0%nat else S (length (degree h))) ks.

Lemma unvisited_skip degree ks visited c : c ∉ ks ->
  unvisited degree ks ({[c]} ∪ visited) = unvisited degree ks visited.
Proof.
  intros Hc. unfold unvisited. induction ks as [|k ks IH]; [done|]. cbn [sum_list_with].
  apply not_elem_of_cons in Hc as [Hne Hc]. rewrite IH by done. f_equal.
  destruct (decide (k ∈ visited)); [by rewrite decide_True by set_solver|].
  by rewrite decide_False by set_solver.
Qed.
Lemma unvisited_take degree ks visited c : NoDup ks -> c ∈ ks -> c ∉ visited ->
  (S (length (degree c)) + unvisited degree ks ({[c]} ∪ visited) = unvisited degree ks visited)%nat.
Proof.
  intros Hnd Hc Hv. induction Hnd as [|k ks Hk Hnd IH]; [by apply not_elem_of_nil in Hc|].
  cbn [unvisited sum_list_with]. fold (unvisited degree ks ({[c]} ∪ visited)).
  fold (unvisited degree ks visited).
  apply elem_of_cons in Hc as [<-|Hc].
  - rewrite unvisited_skip by done. rewrite decide_True by set_solver.
    rewrite decide_False by done. lia.
  - rewrite <- IH by done. destruct (decide (k ∈ visited)).
    + rewrite decide_True by set_solver. lia.
    + rewrite decide_False; [lia|]. assert (k <> c) by congruence. set_solver.
Qed.
(** One iteration on an unvisited hash makes the work smaller. *)
Lemma unvisited_step degree ks visited c (l : list Hash) : NoDup ks -> c ∉ visited ->
  (c ∉ ks -> l = []) -> (length l <= length (degree c))%nat ->
  (length l + unvisited degree ks ({[c]} ∪ visited) <= unvisited degree ks visited)%nat.
Proof.
  intros Hnd Hv Hl Hlen. destruct (decide (c ∈ ks)) as [Hc|Hc].
  - rewrite <- (unvisited_take degree ks visited c) by done. lia.
  - rewrite Hl, unvisited_skip by done. done.
Qed.
Lemma unvisited_empty degree ks :
  unvisited degree ks ∅ = sum_list_with (fun h => S (length (degree h))) ks.
Proof.
  unfold unvisited. induction ks as [|k ks IH]; [done|]. cbn [sum_list_with].
  rewrite IH, decide_False by set_solver. done.
Qed.
Lemma elem_of_keys `{Countable K} {A} (m : gmap K A) k : k ∈ keys m <-> is_Some (m !! k).
Proof.
  unfold keys. rewrite list_elem_of_fmap. split.
  - intros [[j a] [-> Hin]]. apply elem_of_entries in Hin. by exists a.
  - intros [a Ha]. exists (k, a). split; [done|]. by apply elem_of_entries.
Qed.

(** *** Reachability along parents *)
Definition up (d : Dag) (c p : Hash) : Prop := p ∈ parents_of d c.
Lemma up_edge d c p : up d c p <-> edge d p c.
Proof.
  unfold up, parents_of, edge. destruct (vertices d !! c); simpl; [naive_solver|].
  split; [by intros ?%not_elem_of_nil|naive_solver].
Qed.

(** A set that contains the start and is closed under a step contains
    everything reachable. *)
Lemma closed_reachable {A} (R : A -> A -> Prop) (P : A -> Prop) x y :
  P x -> (forall a b, P a -> R a b -> P b) -> rtc R x y -> P y.
Proof. intros Hx Hc Hr. induction Hr; eauto. Qed.

Lemma ancestor_loop_spec d a start fuel visited queue :
  (length queue + unvisited (parents_of d) (keys (vertices d)) visited < fuel)%nat ->
  (forall x, x ∈ queue -> rtc (up d) start x) ->
  a ∉ visited ->
  (forall x y, x ∈ visited -> up d x y -> y ∈ visited \/ y ∈ queue) ->
  start ∈ visited \/ start ∈ queue ->
  exists b, ancestor_loop fuel d a visited queue = Some b /\ (b = true <-> rtc (up d) start a).
Proof.
  revert visited queue. induction fuel as [|fuel IH]; intros visited queue Hf Hr Ha Hc Hs; [lia|].
  cbn [ancestor_loop]. destruct queue as [|c queue].
  - exists false. split; [done|]. split; [done|]. intros Hsa. destruct Ha.
    destruct Hs as [Hs|Hs]; [|by apply not_elem_of_nil in Hs].
    apply (closed_reachable (up d) (fun x => x ∈ visited) start a); [exact Hs| |exact Hsa].
    intros x y Hx Hxy. destruct (Hc x y Hx Hxy) as [|Hn]; [done|by apply not_elem_of_nil in Hn].
  - cbn [length] in Hf. destruct (decide (c = a)) as [<-|Hne].
    { exists true. split; [done|]. split; [|done]. intros _. apply Hr. set_solver. }
    destruct (decide (c ∈ visited)) as [Hcv|Hcv].
    { apply IH; [lia|set_solver|done| |set_solver].
      intros x y Hx Hxy. destruct (Hc x y Hx Hxy); set_solver. }
    set (ps := filter (fun p => p ∉ {[c]} ∪ visited) (parents_of d c)).
    assert (Hps : forall p, p ∈ ps <-> p ∉ {[c]} ∪ visited /\ up d c p)
      by (intros p; unfold ps; by rewrite list_elem_of_filter).
    apply IH.
    + rewrite length_app.
      pose proof (unvisited_step (parents_of d) (keys (vertices d)) visited c ps
        (entries_nodup _) Hcv) as Hstep.
      assert (c ∉ keys (vertices d) -> ps = []).
      { rewrite elem_of_keys. intros Hn%eq_None_not_Some. unfold ps, parents_of.
        rewrite Hn. done. }
      assert (length ps <= length (parents_of d c))%nat by apply length_filter.
      specialize (Hstep ltac:(done) ltac:(done)). lia.
    + intros x. rewrite elem_of_app, Hps. intros [Hx|[_ Hx]]; [apply Hr; set_solver|].
      eapply rtc_r; [apply Hr, list_elem_of_here|exact Hx].
    + set_solver.
    + intros x y Hx Hxy. rewrite elem_of_app, Hps.
      destruct (decide (y ∈ {[c]} ∪ visited)); [by left|].
      apply elem_of_union in Hx as [->%elem_of_singleton|Hx]; [by right; right|].
      destruct (Hc x y Hx Hxy); set_solver.
    + set_solver.
Qed.

Lemma is_ancestor_spec d a x :
  exists b, is_ancestor d a x = Some b /\ (b = true <-> rtc (up d) x a).
Proof.
  apply ancestor_loop_spec.
  - rewrite unvisited_empty. unfold edges_fuel. cbn [length]. lia.
  - intros y ->%list_elem_of_singleton. done.
  - set_solver.
  - set_solver.
  - right. set_solver.
Qed.

(** *** Counting descendants *)
Lemma visit_size d (visited : gset Hash) c : c ∉ visited -> is_Some (vertices d !! c) ->
  base.size (({[c]} ∪ visited) ∩ dom (vertices d)) = S (base.size (visited ∩ dom (vertices d))) /\
  (base.size (({[c]} ∪ visited) ∩ dom (vertices d)) <= base.size (vertices d))%nat.
Proof.
  intros Hcv Hc. assert (Hcd : c ∈ dom (vertices d)) by by apply elem_of_dom. split.
  - replace (({[c]} ∪ visited) ∩ dom (vertices d)) with ({[c]} ∪ (visited ∩ dom (vertices d))) by set_solver.
    rewrite size_union by set_solver. by rewrite size_singleton.
  - rewrite <- size_dom. apply subseteq_size. set_solver.
Qed.
Lemma weight_loop_spec d start fuel visited queue w : dag_inv d ->
  Z.of_nat (base.size (vertices d)) < B128 ->
  (length queue + unvisited (get_children d) (keys (vertices d)) visited < fuel)%nat ->
  (forall x, x ∈ queue -> rtc (edge d) start x) ->
  (forall x, x ∈ visited -> rtc (edge d) start x) ->
  (forall x y, x ∈ visited -> edge d x y -> y ∈ visited \/ y ∈ queue) ->
  start ∈ visited \/ start ∈ queue ->
  w = Z.of_nat (base.size (visited ∩ dom (vertices d))) ->
  exists S : gset Hash, (forall x, x ∈ S <-> stored d x /\ rtc (edge d) start x) /\
    weight_loop fuel d visited queue w = Some (Z.of_nat (base.size S)).
Proof.
  intros Hi Hb. revert visited queue w.
  induction fuel as [|fuel IH]; intros visited queue w Hf Hq Hv Hc Hs Hw; [lia|].
  cbn [weight_loop]. destruct queue as [|c queue].
  - exists (visited ∩ dom (vertices d)). split; [|by subst w].
    intros x. rewrite elem_of_intersection, elem_of_dom. split; [naive_solver|].
    intros [Hst Hr]. split; [|done].
    destruct Hs as [Hs|Hs]; [|by apply not_elem_of_nil in Hs].
    apply (closed_reachable (edge d) (fun x => x ∈ visited) start x); [exact Hs| |exact Hr].
    intros a b Ha Hab. destruct (Hc a b Ha Hab) as [|Hn]; [done|by apply not_elem_of_nil in Hn].
  - cbn [length] in Hf. destruct (decide (c ∈ visited)) as [Hcv|Hcv].
    { apply IH; [lia|set_solver|done| |set_solver|done].
      intros x y Hx Hxy. destruct (Hc x y Hx Hxy); set_solver. }
    assert (Hrc : rtc (edge d) start c) by (apply Hq, list_elem_of_here).
    destruct (vertices d !! c) as [vc|] eqn:Hvc.
    + set (cs := filter (fun x => x ∉ {[c]} ∪ visited) (get_children d c)).
      assert (Hcs : forall y, y ∈ cs <-> y ∉ {[c]} ∪ visited /\ edge d c y).
      { intros y. unfold cs, get_children. rewrite list_elem_of_filter, elem_of_members.
        by rewrite (inv_children _ _ Hi). }
      apply IH.
      * rewrite length_app.
        pose proof (unvisited_step (get_children d) (keys (vertices d)) visited c cs
          (entries_nodup _) Hcv) as Hstep.
        assert (c ∈ keys (vertices d)) by (apply elem_of_keys; eauto).
        assert (length cs <= length (get_children d c))%nat by apply length_filter.
        specialize (Hstep ltac:(done) ltac:(done)). lia.
      * intros x. rewrite elem_of_app, Hcs. intros [Hx|[_ Hx]]; [apply Hq; set_solver|].
        by eapply rtc_r.
      * set_solver.
      * intros x y Hx Hxy. rewrite elem_of_app, Hcs.
        destruct (decide (y ∈ {[c]} ∪ visited)); [by left|].
        apply elem_of_union in Hx as [->%elem_of_singleton|Hx]; [by right; right|].
        destruct (Hc x y Hx Hxy); set_solver.
      * set_solver.
      * destruct (visit_size d visited c Hcv ltac:(eauto)) as [Hsz Hle].
        rewrite Hw, add128_small; lia.
    + apply IH.
      * assert (c ∉ keys (vertices d)) by (rewrite elem_of_keys; by rewrite Hvc; intros []).
        rewrite unvisited_skip by done. lia.
      * set_solver.
      * set_solver.
      * intros x y Hx Hxy. apply elem_of_union in Hx as [->%elem_of_singleton|Hx].
        { destruct (inv_closed _ _ Hi _ _ Hxy). congruence. }
        destruct (Hc x y Hx Hxy); set_solver.
      * set_solver.
      * rewrite Hw. do 2 f_equal.
        assert (c ∉ dom (vertices d)) by by rewrite not_elem_of_dom. set_solver.
Qed.

Lemma calculate_weight_spec d h : dag_inv d -> Z.of_nat (base.size (vertices d)) < B128 ->
  exists S : gset Hash, (forall x, x ∈ S <-> stored d x /\ rtc (edge d) h x) /\
    calculate_weight d h = Some (Z.of_nat (base.size S)).
Proof.
  intros Hi Hb. apply weight_loop_spec; try done.
  - rewrite unvisited_empty. unfold edges_fuel. cbn [length]. lia.
  - intros x ->%list_elem_of_singleton. done.
  - right. apply list_elem_of_here.
  - by rewrite intersection_empty_l_L, size_empty.
Qed.
End search.
