(* ===== verification/DagProps.v ===== *)
(** * Properties of the DAG

    What the methods of [Dag] guarantee after any calls of [add_vertex]: the
    invariant, termination, the exactness of the searches and of pruning; and
    two behaviours of the orphan loop and of [prune] that their callers have to
    know.  The witnesses run a three-vertex DAG. *)
From S2P Require Import Prelude Types Crypto Transaction Vertex Dag DagFacts DagSearch.
From stdpp Require Import base numbers list gmap sets strings relations.
From Stdlib Require Import ZArith Lia.
#[local] Open Scope Z_scope.

(** ** Heights *)
Lemma max_opt_ge l x : x ∈ l -> exists m, max_opt l = Some m /\ x <= m.
Proof.
  induction l as [|y l IH]; [by intros ?%not_elem_of_nil|].
  intros [->|Hx]%elem_of_cons; cbn [max_opt].
  - destruct (max_opt l); eexists; split; try done; lia.
  - destruct (IH Hx) as (m & -> & Hm). eexists. split; [done|lia].
Qed.
Lemma max_opt_in l m : max_opt l = Some m -> m ∈ l.
Proof.
  revert m. induction l as [|y l IH]; [done|]. intros m. cbn [max_opt]. intros [= <-].
  destruct (max_opt l) as [k|]; [|apply list_elem_of_here].
  apply elem_of_cons. destruct (Z.max_spec y k) as [[_ ->]|[_ ->]]; [right|left]; auto.
Qed.
Lemma elem_of_parent_heights vs ps n :
  n ∈ parent_heights vs ps <-> exists p v, p ∈ ps /\ vs !! p = Some v /\ v_height v = n.
Proof.
  unfold parent_heights. rewrite list_elem_of_omap. split.
  - intros (p & Hp & (v & Hv & ->)%fmap_Some_1). eauto.
  - intros (p & v & Hp & Hv & <-). exists p. split; [done|]. by rewrite Hv.
Qed.

(** Without a wrap of the height counter a parent is strictly below. *)
Lemma edge_height `{CL : CryptoLib} W d p c vp vc : dag_inv_except W d -> edge d p c ->
  vertices d !! p = Some vp -> vertices d !! c = Some vc ->
  (forall h v, vertices d !! h = Some v -> 0 <= v_height v < B64 - 1) ->
  v_height vp < v_height vc.
Proof.
  intros Hi (v & Hv & Hp) Hvp Hvc Hb. assert (v = vc) as -> by congruence. clear Hv.
  rewrite (inv_height _ _ Hi c vc Hvc). unfold expected_height.
  destruct (max_opt_ge (parent_heights (vertices d) (v_parents vc)) (v_height vp)) as (m & Hm & Hle).
  { apply elem_of_parent_heights. eauto. }
  rewrite Hm. cbn. apply max_opt_in, elem_of_parent_heights in Hm as (q & w & _ & Hw & Hq).
  specialize (Hb q w Hw). rewrite add64_small; lia.
Qed.

Lemma tc_height `{CL : CryptoLib} W d p c vp vc : dag_inv_except W d -> tc (edge d) p c ->
  vertices d !! p = Some vp -> vertices d !! c = Some vc ->
  (forall h v, vertices d !! h = Some v -> 0 <= v_height v < B64 - 1) ->
  v_height vp < v_height vc.
Proof.
  intros Hi Htc Hvp Hvc Hb. revert vp Hvp. induction Htc as [p c He|p q c He _ IH]; intros vp Hvp.
  - by apply (edge_height W d p c).
  - pose proof He as (vq & Hvq & _). transitivity (v_height vq); [|by apply IH].
    by apply (edge_height W d p q).
Qed.

(** A point that is accessible is on no cycle. *)
Lemma tc_last {A} (R : A -> A -> Prop) x z : tc R x z -> exists y, rtc R x y /\ R y z.
Proof.
  induction 1 as [x z Hxz|x y z Hxy _ (w & Hw & Hwz)].
  - exists x. split; [apply rtc_refl|done].
  - exists w. split; [by eapply rtc_l|done].
Qed.
Lemma acc_no_cycle {A} (R : A -> A -> Prop) x : Acc R x -> ~ tc R x x.
Proof.
  induction 1 as [x _ IH]. intros Hx. destruct (tc_last R x x Hx) as (y & Hxy & Hyx).
  apply (IH y Hyx). eapply tc_rtc_r; [by apply tc_once|done].
Qed.

(** ** Pruning *)
Section prune.
Context `{HO : HashOrder}.

Lemma prune_hashes_frame hs d n :
  let r := foldl prune_hash (d, n) hs in
  (forall h, vertices (fst r) !! h = if decide (h ∈ hs) then None else vertices d !! h) /\
  by_height (fst r) = by_height d /\ tips (fst r) = tips d /\ pending (fst r) = pending d.
Proof.
  cbv zeta. revert d n. induction hs as [|k hs IH]; intros d n; [done|]. cbn [foldl prune_hash].
  match goal with |- context [foldl _ (?d1, ?n1) hs] => destruct (IH d1 n1) as (Hv & -> & -> & ->) end.
  split; [|done]. intros h. rewrite Hv. cbn [set_vertices set_children set_status vertices].
  destruct (decide (h ∈ hs)); [by rewrite decide_True by set_solver|].
  destruct (decide (h = k)) as [->|Hne].
  - by rewrite lookup_delete_eq, decide_True by set_solver.
  - rewrite lookup_delete_ne, decide_False by set_solver. done.
Qed.
Lemma prune_height_frame d n k :
  let r := prune_height (d, n) k in
  (forall h, vertices (fst r) !! h =
     if decide (h ∈ set_at (by_height d) k) then None else vertices d !! h) /\
  (forall j, set_at (by_height (fst r)) j = if decide (k = j) then ∅ else set_at (by_height d) j) /\
  tips (fst r) = tips d /\ pending (fst r) = pending d.
Proof.
  cbv zeta. unfold prune_height. destruct (by_height d !! k) as [hs|] eqn:Hk.
  - match goal with |- context [foldl ?f (?d1, ?n1) ?l] =>
      destruct (prune_hashes_frame l d1 n1) as (Hv & -> & -> & ->) end.
    split; [|split; [|done]].
    + intros h. rewrite Hv. unfold set_at. rewrite Hk.
      cbn [default set_by_height vertices from_option id].
      destruct (decide (h ∈ hs)); [by rewrite decide_True by by rewrite elem_of_members|].
      by rewrite decide_False by by rewrite elem_of_members.
    + intros j. cbn [set_by_height by_height]. by rewrite set_at_delete.
  - split; [|split; [|done]].
    + intros h. unfold set_at. rewrite Hk. rewrite decide_False; [done|]. apply not_elem_of_empty.
    + intros j. cbn [fst]. case_decide as Hj; [|done]. subst. unfold set_at. by rewrite Hk.
Qed.
Lemma prune_loop_frame ks d n :
  let r := foldl prune_height (d, n) ks in
  (forall h, vertices (fst r) !! h =
     if decide (Exists (fun k => h ∈ set_at (by_height d) k) ks) then None else vertices d !! h) /\
  tips (fst r) = tips d /\ pending (fst r) = pending d.
Proof.
  cbv zeta. revert d n. induction ks as [|k ks IH]; intros d n; cbn [foldl].
  { split; [|done]. intros h. rewrite decide_False; [done|]. by intros ?%Exists_nil. }
  destruct (prune_height_frame d n k) as (Hv & Hb & Ht & Hp).
  destruct (prune_height (d, n) k) as [d1 n1]. cbn [fst] in *.
  destruct (IH d1 n1) as (Hv1 & -> & ->). split; [|done].
  intros h. rewrite Hv1, Hv.
  destruct (decide (h ∈ set_at (by_height d) k)) as [Hin|Hin].
  - rewrite (decide_True (P := Exists (fun j => h ∈ set_at (by_height d) j) (k :: ks))) by by left.
    by destruct (decide (Exists _ _)).
  - assert (E : Exists (fun j => h ∈ set_at (by_height d1) j) ks <->
                Exists (fun j => h ∈ set_at (by_height d) j) (k :: ks)).
    { rewrite Exists_cons, !Exists_exists. setoid_rewrite Hb. split.
      - intros (j & Hj & Hh). right. exists j. split; [done|]. case_decide; [set_solver|done].
      - intros [?|(j & Hj & Hh)]; [done|]. exists j. split; [done|].
        rewrite decide_False; [done|]. by intros ->. }
    by rewrite (decide_ext _ _ _ _ E).
Qed.
End prune.

(** ** The properties *)
Section props.
Context `{HO : HashOrder} `{CL : CryptoLib}.

(** C1: Whatever calls of [add_vertex] follow genesis, with any outcome, and
    whatever heights are finalized in between, the invariant of the DAG holds
    (parents stored, heights exact, acyclic, exact indexes of children, tips,
    heights and waiting orphans) once the pending vertices whose parents are all
    stored are left out; when every call has returned [Ok] there are none of
    these and it holds of the whole state.  The alternative is that two of the
    vertices given hash different inputs to one BLAKE3 digest.  [prune], which
    drops parents on purpose, is not among the calls. *)
Theorem reachable_states_well_formed ok vs d : reachable ok vs d ->
  (dag_inv (settled d) /\ (ok = true -> dag_inv d)) \/ exists v w, v ∈ vs /\ w ∈ vs /\
    hash_input v <> hash_input w /\ blake3 (hash_input v) = blake3 (hash_input w).
Proof. intros [?|?]%reachable_inv; [by left|right; by apply clash_collides]. Qed.

(** C37: [add_vertex] returns on every vertex in every state: the chain of
    orphans that an insertion releases is bounded by the pending vertices. *)
Theorem add_vertex_terminates now d v : exists d' r, add_vertex now d v = Some (d', r).
Proof.
  unfold add_vertex. case_decide; [eauto|].
  destruct (_ ≫= _); eauto. destruct (missing _ _); [|eauto].
  destruct (insert_vertex_total (S (base.size (pending d))) d v) as ([d' r] & -> & _); eauto.
Qed.

(** In a well-formed DAG no vertex is its own ancestor, and a parent is
    strictly lower than its child as long as the height counter does not
    wrap. *)
Theorem ancestry_is_acyclic d : dag_inv d ->
  (forall h, ~ tc (edge d) h h) /\
  ((forall h v, vertices d !! h = Some v -> 0 <= v_height v < B64 - 1) ->
   forall p c vp vc, tc (edge d) p c -> vertices d !! p = Some vp ->
     vertices d !! c = Some vc -> v_height vp < v_height vc).
Proof.
  intros Hi. split.
  - intros h Hh. eapply acc_no_cycle, Hh. apply (inv_acyclic _ _ Hi).
    inversion Hh as [? ? (v & Hv & Hp)|? y ? (v & Hv & Hp) _]; subst;
      eapply (inv_closed _ _ Hi); by exists v.
  - intros Hb p c vp vc Hpc Hp Hc. by eapply tc_height.
Qed.

(** [is_ancestor(a, x)] returns, and answers [true] exactly when [a] is
    [x] or is reached from [x] along parents. *)
Theorem is_ancestor_exact d a x :
  exists b, is_ancestor d a x = Some b /\ (b = true <-> rtc (up d) x a).
Proof. apply is_ancestor_spec. Qed.

(** In a well-formed DAG [calculate_weight(h)] returns the number of
    stored vertices that descend from [h], itself included. *)
Theorem weight_counts_descendants d h : dag_inv d ->
  Z.of_nat (base.size (vertices d)) < B128 ->
  exists S : gset Hash, (forall x, x ∈ S <-> stored d x /\ rtc (edge d) h x) /\
    calculate_weight d h = Some (Z.of_nat (base.size S)).
Proof. apply calculate_weight_spec. Qed.

(** [prune(k)] on a well-formed DAG whose finalized height is above [k]
    removes exactly the vertices below height [k]; it leaves the tips and the
    pending vertices as they were, so a pruned vertex that was a tip stays a
    tip. *)
Theorem prune_removes_low_vertices d k : dag_inv d -> k < finalized_height d ->
  (forall h v, vertices d !! h = Some v -> 0 <= v_height v) ->
  let d' := fst (prune d k) in
  (forall h v, vertices d' !! h = Some v <-> vertices d !! h = Some v /\ k <= v_height v) /\
  tips d' = tips d /\ pending d' = pending d.
Proof.
  intros Hi Hk Hpos. cbv zeta. unfold prune. destruct (Z.leb_spec (finalized_height d) k); [lia|].
  destruct (prune_loop_frame (seqZ 0 k) d 0) as (Hv & -> & ->). split; [|done].
  intros h v. rewrite Hv. case_decide as He.
  - split; [done|]. intros [Hh Hle]. apply Exists_exists in He as (j & Hj & Hin).
    apply elem_of_seqZ in Hj. apply (inv_by_height _ _ Hi) in Hin as (w & Hw & ?).
    simplify_eq. lia.
  - split; [|by intros [? _]]. intros Hh. split; [done|].
    destruct (Z.le_gt_cases k (v_height v)) as [|Hlt]; [done|]. destruct He.
    apply Exists_exists. exists (v_height v). rewrite elem_of_seqZ.
    specialize (Hpos h v Hh). split; [lia|]. apply (inv_by_height _ _ Hi). eauto.
Qed.

(** When the first orphan that an accepted vertex releases claims a wrong
    height, [add_vertex] reports that orphan's error for its own vertex,
    which is nevertheless stored; the other orphans waiting for the vertex
    stay pending with no registration under it left. *)
Theorem bad_orphan_starves_siblings now d v w h rest :
  verify_structure v = Ok () -> verify_timestamp now d v = Ok () ->
  vertices d !! v_hash v = None -> missing (vertices d) (v_parents v) = [] ->
  v_height v = expected_height (vertices d) (v_parents v) ->
  members (set_at (orphan_deps d) (v_hash v)) = h :: rest ->
  pending d !! h = Some w ->
  missing (<[v_hash v := v]> (vertices d)) (v_parents w) = [] ->
  v_height w <> expected_height (<[v_hash v := v]> (vertices d)) (v_parents w) ->
  exists d' msg, add_vertex now d v = Some (d', Err (DagError msg)) /\
    vertices d' !! v_hash v = Some v /\ pending d' = delete h (pending d) /\
    set_at (orphan_deps d') (v_hash v) = ∅.
Proof.
  intros Hok Hts Hn Hm Hh Hw Hp Hmw Hhw.
  destruct (store_frame d v) as (Hsv & _ & Hsp & Hso & _).
  unfold add_vertex. rewrite decide_False by by apply eq_None_not_Some.
  rewrite Hok. cbn [map_err mbind outcome_bind]. rewrite Hts, Hm. cbn [insert_vertex].
  rewrite (proj2 (Z.eqb_eq _ _) Hh). cbn [negb].
  assert (Hfuel : exists n, base.size (pending d) = S n).
  { destruct (base.size (pending d)) eqn:Hs; [|eauto].
    apply map_size_empty_inv in Hs. rewrite Hs in Hp. by rewrite lookup_empty in Hp. }
  destruct Hfuel as [n ->].
  unfold process_orphans. rewrite Hso, Hw. cbn [orphan_loop].
  cbn [set_orphan_deps pending]. rewrite Hsp, Hp.
  cbn [set_pending vertices set_orphan_deps]. rewrite Hsv, Hmw.
  cbn [insert_vertex vertices set_pending set_orphan_deps]. rewrite Hsv.
  rewrite (proj2 (Z.eqb_neq _ _) Hhw). cbn [negb].
  eexists _, _. split; [unfold height_error; reflexivity|]. cbn [vertices pending orphan_deps set_pending set_orphan_deps].
  rewrite Hsv, Hsp. split; [apply lookup_insert_eq|]. split; [done|].
  rewrite set_at_delete. by rewrite decide_True.
Qed.
End props.

(** ** A concrete DAG *)
Module Sample.
#[local] Existing Instance canonical_order.
#[local] Existing Instance toy_crypto.

Definition vx (ps : list Hash) (height timestamp : Z) (validator : Z) : Vertex :=
  let id := mkValidatorId (replicate 32 validator) in
  {| v_hash := vertex_hash ps [] timestamp id; v_parents := ps; v_height := height;
     v_timestamp := timestamp; v_validator := id; v_transactions := [];
     v_tx_root := HASH_ZERO; v_state_root := HASH_ZERO; v_receipts_root := HASH_ZERO;
     v_weight := 1; v_signature := empty_signature; v_version := 1; v_extra_data := [] |}.
Definition d0 : Dag := fst (init_genesis (empty_dag default_config) (genesis 1337 0)).
Definition a : Vertex := vx [HASH_ZERO] 1 1000 1.
Definition b : Vertex := vx [v_hash a] 2 2000 2.
(** A vertex with the wrong height, and one more that waits for [a]. *)
Definition c : Vertex := vx [v_hash a] 7 3000 3.
Definition run (d : Dag) (v : Vertex) : Dag :=
  fst (default (d, Panic) (add_vertex 10000 d v)).
(** [b] arrives before its parent. *)
Definition d1 : Dag := run d0 b.
Definition d2 : Dag := run d1 a.
Definition d3 : Dag := run d0 c.

Lemma d0_inv : dag_inv d0.
Proof. apply genesis_inv. Qed.
Lemma d1_step : add_vertex 10000 d0 b = Some (d1, Ok ()).
Proof. vm_compute. reflexivity. Qed.
Lemma d2_step : add_vertex 10000 d1 a = Some (d2, Ok ()).
Proof. vm_compute. reflexivity. Qed.

Ltac len32 := repeat (constructor; [vm_compute; reflexivity|]); constructor.
Ltac insertable := repeat split; vm_compute; reflexivity.

Lemma d2_reachable : reachable true [a; b] d2.
Proof.
  apply (reach_add true [b] 10000 d1 a d2 (Ok ())); [|len32|exact d2_step].
  apply (reach_add true [] 10000 d0 b d1 (Ok ())); [apply reach_genesis|len32|exact d1_step].
Qed.

(** The same DAG by direct insertions, finalized up to height 2. *)
Definition e1 : Dag := fst (default (d0, Panic) (insert_vertex 1 d0 a)).
Definition e2 : Dag := set_finalized_height (fst (default (e1, Panic) (insert_vertex 1 e1 b))) 2.
Lemma e1_inv : dag_inv e1.
Proof.
  eapply (insert_vertex_inv 1 [] d0 a); [exact d0_inv| |vm_compute; reflexivity].
  insertable.
Qed.
Lemma e2_inv : dag_inv e2.
Proof.
  apply set_finalized_inv.
  eapply (insert_vertex_inv 1 [] e1 b); [exact e1_inv| |vm_compute; reflexivity].
  insertable.
Qed.
Lemma e2_heights : map_Forall (fun _ v => 0 <= v_height v < 3) (vertices e2).
Proof. apply (bool_decide_unpack _). vm_compute. exact I. Qed.

(** [c] is released by [a] and refused: the call fails with [a] stored. *)
Lemma bad_orphan_reachable : reachable false [a; c] (run d3 a).
Proof.
  assert (E : exists e, add_vertex 10000 d3 a = Some (run d3 a, Err e)) by (eexists; vm_compute; reflexivity).
  destruct E as [e E]. apply (reach_add true [c] 10000 d3 a (run d3 a) (Err e)); [|len32|exact E].
  apply (reach_add true [] 10000 d0 c d3 (Ok ())); [apply reach_genesis|len32|vm_compute; reflexivity].
Qed.
Ltac no_collision :=
  intros (v & w & Hv & Hw & Hne & He); revert Hne He;
  rewrite elem_of_cons, list_elem_of_singleton in Hv, Hw;
  destruct Hv as [-> | ->], Hw as [-> | ->]; intros Hne He;
  first [by apply Hne|vm_compute in He; discriminate He].
Lemma reachable_states_well_formed_witness :
  reachable true [a; b] d2 /\ dag_inv d2 /\ reachable false [a; c] (run d3 a) /\ dag_inv (settled (run d3 a)).
Proof.
  split; [exact d2_reachable|]. split; [|split; [exact bad_orphan_reachable|]].
  - destruct (reachable_states_well_formed true [a; b] d2 d2_reachable) as [[_ Hi]|Hc]; [exact (Hi eq_refl)|].
    exfalso. revert Hc. no_collision.
  - destruct (reachable_states_well_formed false [a; c] (run d3 a) bad_orphan_reachable) as [[Hi _]|Hc]; [exact Hi|].
    exfalso. revert Hc. no_collision.
Defined.

Lemma ancestry_is_acyclic_witness :
  dag_inv e2 /\ (forall h, ~ tc (edge e2) h h) /\ v_height a < v_height b.
Proof.
  split; [exact e2_inv|]. destruct (ancestry_is_acyclic e2 e2_inv) as [Hac Hlt].
  split; [exact Hac|].
  apply (Hlt ltac:(intros h v Hv; destruct (e2_heights h v Hv); lia) (v_hash a) (v_hash b));
    [|vm_compute; reflexivity|vm_compute; reflexivity].
  apply tc_once. exists b. split; [vm_compute; reflexivity|apply list_elem_of_here].
Defined.

Lemma weight_counts_descendants_witness :
  calculate_weight e2 (v_hash a) = Some 2 /\
  exists S : gset Hash, (forall x, x ∈ S <-> stored e2 x /\ rtc (edge e2) (v_hash a) x) /\
    calculate_weight e2 (v_hash a) = Some (Z.of_nat (base.size S)).
Proof.
  split; [vm_compute; reflexivity|].
  apply (weight_counts_descendants e2 (v_hash a) e2_inv). vm_compute. reflexivity.
Defined.

(** Pruning below height 3 would empty the store; below 1 it drops genesis. *)
Lemma prune_removes_low_vertices_witness :
  vertices (fst (prune e2 1)) !! HASH_ZERO = None /\
  vertices (fst (prune e2 1)) !! v_hash a = Some a.
Proof.
  destruct (prune_removes_low_vertices e2 1 e2_inv) as [Hv _].
  - vm_compute. reflexivity.
  - intros h v Hv. destruct (e2_heights h v Hv). lia.
  - split.
    + apply eq_None_not_Some. intros [v Hh]. apply Hv in Hh as [Hh Hle].
      vm_compute in Hh. injection Hh as <-. vm_compute in Hle. by apply Hle.
    + apply Hv. split; [vm_compute; reflexivity|vm_compute; discriminate].
Defined.

Lemma bad_orphan_starves_siblings_witness :
  exists d' msg, add_vertex 10000 d3 a = Some (d', Err (DagError msg)) /\
    vertices d' !! v_hash a = Some a /\ pending d' = delete (v_hash c) (pending d3) /\
    set_at (orphan_deps d') (v_hash a) = ∅.
Proof.
  apply (bad_orphan_starves_siblings 10000 d3 a c (v_hash c) []); try (vm_compute; reflexivity).
  vm_compute. discriminate.
Defined.
End Sample.
