(* ===== verification/DagConverge.v ===== *)
(** * Replicas of the DAG converge

    Whatever the order in which the vertices of a DAG reach another node, with
    duplicates and with children before their parents, that node ends up with
    the same DAG: every vertex waits among the orphans at most until its last
    parent arrives.  [target] is what the arriving vertices have to satisfy
    for this; Sample shows that the timestamps matter. *)
From S2P Require Import Prelude Types Crypto Transaction Vertex Dag DagFacts DagSearch DagProps.
From stdpp Require Import base numbers list gmap sets strings relations.
From Stdlib Require Import ZArith Lia.
#[local] Open Scope Z_scope.

Section converge.
Context `{HO : HashOrder} `{CL : CryptoLib}.

(** [add_vertex] for each vertex of a list, errors being logged and dropped;
    [clock n] is the time at which the [n]-th vertex is looked at. *)
Fixpoint add_vertices (clock : nat -> Z) (d : Dag) (vs : list Vertex) : option Dag :=
  match vs with
  | [] => Some d
  | v :: vs =>
      '(d, _) ← add_vertex (clock O) d v;
      add_vertices (fun n => clock (S n)) d vs
  end.

(** The DAG [s] can be transferred to a node whose clock is late enough for
    the time [horizon]: no vertex claims a later time, none an earlier time
    than a parent, and all but the roots pass the structural check. *)
Record target (s : Dag) (horizon : Z) : Prop := {
  t_inv : dag_inv s;
  t_height : forall h v, vertices s !! h = Some v -> 0 <= v_height v < B64 - 1;
  t_ok : forall h v, vertices s !! h = Some v -> 0 < v_height v -> vertex_ok v;
  t_time : forall h v, vertices s !! h = Some v -> v_timestamp v <= horizon;
  t_order : forall h v p w, vertices s !! h = Some v -> p ∈ v_parents v ->
    vertices s !! p = Some w -> v_timestamp w <= v_timestamp v
}.
(** The time up to which [d] accepts timestamps at [now] *)
Definition accepts_until (now : Z) (d : Dag) : Z := now +! (max_time_drift (config d) *! 1000).

(** [d] is a part of [s]: all it holds, stored or waiting, belongs to [s]. *)
Record part_of (s d : Dag) : Prop := {
  p_inv : dag_inv d;
  p_stored : vertices d ⊆ vertices s;
  p_pending : pending d ⊆ vertices s;
  p_roots : forall h v, vertices s !! h = Some v -> v_height v = 0 -> vertices d !! h = Some v
}.

Context (s : Dag) (horizon : Z) (Ht : target s horizon).

(** The store only grows, within [s], and orphans leave for it. *)
Record grows (d d' : Dag) : Prop := {
  g_sub : vertices d ⊆ vertices d';
  g_stored : vertices d' ⊆ vertices s;
  g_pending : pending d' ⊆ pending d;
  g_moved : forall h v, pending d !! h = Some v ->
    pending d' !! h = Some v \/ vertices d' !! h = Some v;
  g_config : config d' = config d
}.
#[local] Instance grows_trans : Transitive grows.
Proof.
  intros d1 d2 d3 [A1 A2 A3 A4 A5] [B1 B2 B3 B4 B5]. split; [by transitivity (vertices d2)|done| |..].
  - by transitivity (pending d2).
  - intros h v Hp. destruct (A4 h v Hp) as [H|H]; [by apply B4|]. right. by eapply lookup_weaken.
  - congruence.
Qed.
Lemma grows_refl d : vertices d ⊆ vertices s -> grows d d.
Proof. intros. split; try done. intros. by left. Qed.

Lemma expected_height_part vs ps : vs ⊆ vertices s -> missing vs ps = [] ->
  expected_height vs ps = expected_height (vertices s) ps.
Proof.
  intros Hsub Hm. unfold expected_height. do 3 f_equal. unfold parent_heights.
  rewrite missing_nil in Hm. induction ps as [|p ps IH]; [done|]. cbn [omap list_omap].
  destruct (Hm p (list_elem_of_here _ _)) as [w Hw].
  rewrite Hw, (lookup_weaken _ _ _ _ Hw Hsub). cbn [fmap option_fmap option_map].
  f_equal. apply IH. intros q Hq. by apply Hm, list_elem_of_further.
Qed.
Lemma target_key h v : vertices s !! h = Some v -> v_hash v = h.
Proof. apply (inv_key _ _ (t_inv _ _ Ht)). Qed.

(** An insertion whose vertex and orphans all belong to [s] succeeds. *)
Definition inserts (n : nat) (insert : Dag -> Vertex -> option (Dag * outcome NexusError ())) : Prop :=
  forall d v, (base.size (pending d) < n)%nat -> vertices d ⊆ vertices s -> pending d ⊆ vertices s ->
    vertices s !! v_hash v = Some v -> missing (vertices d) (v_parents v) = [] ->
    exists d', insert d v = Some (d', Ok ()) /\ grows d d' /\ vertices d' !! v_hash v = Some v.

Lemma orphan_loop_ok n insert waiting d : inserts n insert ->
  (base.size (pending d) <= n)%nat -> vertices d ⊆ vertices s -> pending d ⊆ vertices s ->
  exists d', orphan_loop insert waiting d = Some (d', Ok ()) /\ grows d d'.
Proof.
  intros Hins. revert d. induction waiting as [|h waiting IH]; intros d Hn Hv Hp; cbn [orphan_loop].
  { eexists. split; [done|]. by apply grows_refl. }
  destruct (pending d !! h) as [v|] eqn:Hpend; [|by apply IH]. cbv zeta.
  set (d1 := set_pending (delete h) d).
  assert (Hsv : vertices s !! h = Some v) by by eapply lookup_weaken.
  pose proof (target_key h v Hsv) as Hk.
  assert (Hdel : pending d1 ⊆ pending d) by apply delete_subseteq.
  destruct (missing (vertices d1) (v_parents v)) as [|p ps] eqn:Hm.
  - destruct (Hins d1 v) as (d2 & -> & G & Hst); rewrite ?Hk; try done.
    { assert (Hsz : base.size (pending d) = S (base.size (pending d1))); [|lia].
      cbn. rewrite <- (insert_delete_id (pending d) h v Hpend) at 1.
      by rewrite map_size_insert_None by apply lookup_delete_eq. }
    { by transitivity (pending d). }
    assert (G' : grows d d2).
    { destruct G as [G1 G2 G3 G4 G5]. split; [done|done|by transitivity (pending d1)| |done].
      intros k w Hw. destruct (decide (h = k)) as [<-|Hne].
      - right. rewrite <- Hk. congruence.
      - apply G4. cbn. by rewrite lookup_delete_ne. }
    destruct (IH d2) as (d3 & -> & G3).
    + assert (H := map_subseteq_size _ _ (g_pending _ _ G')). lia.
    + apply G.
    + transitivity (pending d); [apply G'|done].
    + exists d3. split; [done|]. by transitivity d2.
  - match goal with |- context [orphan_loop insert waiting ?d2] =>
      assert (E : vertices d2 = vertices d /\ pending d2 = pending d /\ config d2 = config d) end.
    { rewrite register_missing_frame. cbn. split; [done|]. split; [|done].
      rewrite insert_delete_eq. by apply insert_id. }
    destruct E as (Ev & Ep & Ec). match goal with |- context [orphan_loop insert waiting ?d2] =>
      destruct (IH d2) as (d3 & -> & G) end; rewrite ?Ev, ?Ep; try done.
    exists d3. split; [done|]. destruct G. rewrite ?Ev, ?Ep, ?Ec in *. by split.
Qed.

Lemma store_config d v : config (store_vertex d v) = config d.
Proof.
  unfold store_vertex. cbv zeta. cbn [set_by_height set_tips config].
  change (fun d parent => set_tips (fun tips => tips ∖ {[parent]})
    (set_children (entry_insert parent (v_hash v)) d)) with (link (v_hash v)).
  match goal with |- config (foldl _ ?d0 _) = _ => change (config d) with (config d0); generalize d0 end.
  induction (v_parents v) as [|p ps IH]; intros d0; [done|]. cbn [foldl]. by rewrite IH.
Qed.
Lemma insert_vertex_ok n : inserts n (insert_vertex n).
Proof.
  induction n as [|n IH]; intros d v Hn Hv Hp Hs Hm; [lia|]. cbn [insert_vertex].
  rewrite (expected_height_part _ _ Hv Hm), (inv_height _ _ (t_inv _ _ Ht) _ _ Hs), Z.eqb_refl.
  cbn [negb]. unfold process_orphans. destruct (store_frame d v) as (Ev & _ & Ep & _).
  pose proof (store_config d v) as Ec.
  match goal with |- context [orphan_loop ?i ?w ?d1] =>
    destruct (orphan_loop_ok n i w d1) as (d' & -> & G) end.
  - exact IH.
  - cbn [set_orphan_deps pending]. rewrite Ep. lia.
  - cbn [set_orphan_deps vertices]. rewrite Ev. by apply insert_subseteq_l.
  - cbn [set_orphan_deps pending]. by rewrite Ep.
  - exists d'. destruct G as [G1 G2 G3 G4 G5].
    cbn [set_orphan_deps vertices pending config] in *. rewrite Ev, ?Ep, ?Ec in *.
    split; [done|]. split; [|eapply lookup_weaken; [|exact G1]; apply lookup_insert_eq].
    split; [|done..]. etransitivity; [|exact G1].
    destruct (vertices d !! v_hash v) as [w|] eqn:Hw; [|by apply insert_subseteq].
    assert (w = v) as -> by (eapply lookup_weaken in Hw; [|exact Hv]; congruence).
    by rewrite insert_id.
Qed.

Lemma verify_timestamp_ok now d v : vertices d ⊆ vertices s -> vertices s !! v_hash v = Some v ->
  horizon <= accepts_until now d -> verify_timestamp now d v = Ok ().
Proof.
  intros Hsub Hs Hnow. unfold verify_timestamp. fold (accepts_until now d).
  pose proof (t_time _ _ Ht _ _ Hs). destruct (Z.ltb_spec (accepts_until now d) (v_timestamp v)); [lia|].
  assert (Hp : forall p, p ∈ v_parents v -> p ∈ v_parents v) by done. revert Hp.
  generalize (v_parents v) at 1 3. intros ps Hp. induction ps as [|p ps IH]; [done|]. cbn [for_each].
  destruct (vertices d !! p) as [w|] eqn:Hw.
  - destruct (Z.ltb_spec (v_timestamp v) (v_timestamp w)) as [Hlt|_].
    + pose proof (t_order _ _ Ht _ _ p w Hs (Hp p (list_elem_of_here _ _))
        (lookup_weaken _ _ _ _ Hw Hsub)). lia.
    + apply IH. intros q Hq. by apply Hp, list_elem_of_further.
  - apply IH. intros q Hq. by apply Hp, list_elem_of_further.
Qed.

(** Adding one vertex of [s] to a part of it: accepted, and afterwards stored
    or waiting, like all that was. *)
Lemma add_vertex_part now d v : part_of s d -> vertices s !! v_hash v = Some v ->
  horizon <= accepts_until now d ->
  exists d', add_vertex now d v = Some (d', Ok ()) /\ part_of s d' /\ config d' = config d /\
    forall h w, vertices s !! h = Some w ->
      vertices d !! h = Some w \/ pending d !! h = Some w \/ h = v_hash v ->
      vertices d' !! h = Some w \/ pending d' !! h = Some w.
Proof.
  intros Hd Hs Hnow. pose proof (p_stored _ _ Hd) as Hsub. pose proof (p_pending _ _ Hd) as Hpend.
  assert (Hadd : exists d', add_vertex now d v = Some (d', Ok ()) /\ vertices d ⊆ vertices d' /\
    vertices d' ⊆ vertices s /\ pending d' ⊆ vertices s /\ config d' = config d /\
    forall h w, vertices s !! h = Some w -> pending d !! h = Some w \/ h = v_hash v ->
      vertices d' !! h = Some w \/ pending d' !! h = Some w).
  { unfold add_vertex. case_decide as Hst.
    { exists d. do 5 (split; [done|]). intros h w Hw [H| ->]; [by right|]. left.
      destruct Hst as [w' Hw']. rewrite Hw'. eapply lookup_weaken in Hw'; [|exact Hsub]. congruence. }
    apply eq_None_not_Some in Hst.
    assert (Hh : 0 < v_height v).
    { pose proof (t_height _ _ Ht _ _ Hs). destruct (Z.eq_dec (v_height v) 0) as [E|]; [|lia].
      pose proof (p_roots _ _ Hd _ _ Hs E). congruence. }
    destruct (t_ok _ _ Ht _ _ Hs Hh) as [Hok _]. rewrite Hok. cbn [map_err mbind outcome_bind].
    rewrite (verify_timestamp_ok now d v Hsub Hs Hnow).
    destruct (missing (vertices d) (v_parents v)) as [|p ps] eqn:Hm.
    - destruct (insert_vertex_ok (S (base.size (pending d))) d v) as (d' & -> & [] & Hst'); try done;
        [lia|]. exists d'. split; [done|]. do 2 (split; [done|]).
      split; [by transitivity (pending d)|]. split; [done|].
      intros h w Hw [Hpw| ->]; [|left; congruence]. destruct (g_moved0 h w Hpw); auto.
    - rewrite register_missing_frame. eexists. split; [done|]. cbn. do 2 (split; [done|]).
      split; [by apply insert_subseteq_l|]. split; [done|].
      intros h w Hw Hcase. right. destruct (decide (h = v_hash v)) as [->|Hne].
      + rewrite lookup_insert_eq. congruence.
      + rewrite lookup_insert_ne by done. by destruct Hcase. }
  destruct Hadd as (d' & E & G1 & G2 & G3 & G4 & G5). exists d'. split; [done|]. split; [|split; [done|]].
  - split; [|done|done|].
    + destruct (Z.eq_dec (v_height v) 0) as [Hz|Hnz].
      { pose proof (p_roots _ _ Hd _ _ Hs Hz) as Hst. unfold add_vertex in E.
        rewrite decide_True in E by eauto. injection E as <-. apply Hd. }
      pose proof (t_height _ _ Ht _ _ Hs).
      eapply add_vertex_keeps; [apply Hd| | |exact E].
      * apply (t_ok _ _ Ht _ _ Hs). lia.
      * intros w Hw. eapply lookup_weaken in Hw; [|exact Hpend]. congruence.
    + intros h w Hw Hz. eapply lookup_weaken; [|exact G1]. by eapply (p_roots _ _ Hd).
  - intros h w Hw [H|H]; [|by apply G5]. left. by eapply lookup_weaken.
Qed.

Lemma add_vertices_part clock vs d : part_of s d ->
  (forall v, v ∈ vs -> vertices s !! v_hash v = Some v) ->
  (forall n, horizon <= accepts_until (clock n) d) ->
  exists d', add_vertices clock d vs = Some d' /\ part_of s d' /\
    forall h w, vertices s !! h = Some w ->
      vertices d !! h = Some w \/ pending d !! h = Some w \/ w ∈ vs ->
      vertices d' !! h = Some w \/ pending d' !! h = Some w.
Proof.
  revert clock d. induction vs as [|v vs IH]; intros clock d Hd Hvs Hc; cbn [add_vertices].
  { exists d. do 2 (split; [done|]). intros h w _ [|[|[]%not_elem_of_nil]]; auto. }
  destruct (add_vertex_part (clock O) d v) as (d1 & -> & Hd1 & Ec & H1);
    [done|apply Hvs, list_elem_of_here|done|]. cbn [mbind option_bind].
  destruct (IH (fun n => clock (S n)) d1) as (d2 & -> & Hd2 & H2).
  - done.
  - intros w Hw. by apply Hvs, list_elem_of_further.
  - intros n. unfold accepts_until. rewrite Ec. apply Hc.
  - exists d2. do 2 (split; [done|]). intros h w Hw Hcase. apply H2; [done|].
    destruct Hcase as [H|[H|[->|H]%elem_of_cons]]; [| | |by auto].
    + destruct (H1 h w Hw); auto.
    + destruct (H1 h w Hw); auto.
    + destruct (H1 h v Hw); auto. right. right. by rewrite (target_key h v Hw).
Qed.

(** A part in which every vertex of [s] is stored or waiting has none waiting:
    a lowest one would have its parents. *)
Lemma part_complete d : part_of s d ->
  (forall h v, vertices s !! h = Some v -> vertices d !! h = Some v \/ pending d !! h = Some v) ->
  vertices d = vertices s /\ pending d = ∅.
Proof.
  intros Hd Hall.
  assert (Hst : forall n h v, (Z.to_nat (v_height v) < n)%nat -> vertices s !! h = Some v ->
    vertices d !! h = Some v).
  { induction n as [|n IH]; intros h v Hn Hv; [lia|].
    destruct (Hall h v Hv) as [|Hp]; [done|].
    destruct (inv_waits _ _ (p_inv _ _ Hd) h v Hp); [apply not_elem_of_nil|].
    apply missing_nil. intros p Hpar.
    assert (He : edge s p h) by by exists v.
    destruct (inv_closed _ _ (t_inv _ _ Ht) p h He) as [w Hw].
    exists w. apply IH; [|done].
    pose proof (edge_height _ s p h w v (t_inv _ _ Ht) He Hw Hv (t_height _ _ Ht)).
    pose proof (t_height _ _ Ht p w Hw). lia. }
  assert (E : vertices d = vertices s).
  { apply map_subseteq_po; [apply Hd|]. apply map_subseteq_spec. intros h v Hv. apply (Hst (S (Z.to_nat (v_height v)))); [lia|done]. }
  split; [done|]. apply map_eq. intros h. rewrite lookup_empty.
  destruct (pending d !! h) as [v|] eqn:Hp; [|done].
  pose proof (inv_pending _ _ (p_inv _ _ Hd) h v Hp) as (_ & Hn & _).
  pose proof (lookup_weaken _ _ _ _ Hp (p_pending _ _ Hd)). congruence.
Qed.

(** The indexes of a well-formed DAG are determined by its vertices. *)
Lemma same_vertices_same_tips d d' : dag_inv d -> dag_inv d' -> vertices d = vertices d' ->
  tips d = tips d'.
Proof.
  intros Hi Hi' E. apply set_eq. intros h. rewrite (inv_tips _ _ Hi), (inv_tips _ _ Hi').
  unfold stored, edge. by rewrite E.
Qed.
End converge.

Section props.
Context `{HO : HashOrder} `{CL : CryptoLib}.

End props.

(** ** A concrete replica *)
Module Sample.
#[local] Existing Instance canonical_order.
#[local] Existing Instance toy_crypto.
Import DagProps.Sample.

Definition g : Vertex := genesis 1337 0.
Lemma e2_vertices : vertices e2 = <[v_hash b := b]> (<[v_hash a := a]> {[HASH_ZERO := g]}).
Proof. vm_compute. reflexivity. Qed.
Lemma e2_cases (P : Hash -> Vertex -> Prop) : P HASH_ZERO g -> P (v_hash a) a -> P (v_hash b) b ->
  forall h v, vertices e2 !! h = Some v -> P h v.
Proof.
  intros Hg Ha Hb h v. rewrite e2_vertices.
  intros [[<- <-]|[_ [[<- <-]|[_ [<- <-]%lookup_singleton_Some]]%lookup_insert_Some]]%lookup_insert_Some;
    assumption.
Qed.

Lemma e2_target : target e2 2000.
Proof.
  split.
  - exact e2_inv.
  - refine (e2_cases (fun _ v => 0 <= v_height v < B64 - 1) _ _ _); vm_compute; split; congruence.
  - refine (e2_cases (fun _ v => 0 < v_height v -> vertex_ok v) _ _ _);
      intros H; [by vm_compute in H|..]; (split; [vm_compute; reflexivity|len32]).
  - refine (e2_cases (fun _ v => v_timestamp v <= 2000) _ _ _); vm_compute; congruence.
  - intros h v p w Hv. revert h v Hv p w.
    refine (e2_cases (fun _ v => forall (p : Hash) w, p ∈ v_parents v -> vertices e2 !! p = Some w ->
      v_timestamp w <= v_timestamp v) _ _ _).
    + intros p w []%not_elem_of_nil.
    + intros p w ->%list_elem_of_singleton. vm_compute. intros [= <-]. vm_compute. congruence.
    + intros p w ->%list_elem_of_singleton. intros Hw. vm_compute in Hw. injection Hw as <-.
      vm_compute. congruence.
Qed.
Lemma d0_part : part_of e2 d0.
Proof.
  split.
  - exact d0_inv.
  - rewrite e2_vertices. apply insert_subseteq_r; [vm_compute; reflexivity|].
    apply insert_subseteq_r; [vm_compute; reflexivity|done].
  - apply map_empty_subseteq.
  - refine (e2_cases (fun h v => v_height v = 0 -> vertices d0 !! h = Some v) _ _ _);
      [vm_compute; reflexivity|by vm_compute..].
Qed.


(** Why [t_order] is needed: a vertex whose timestamp is before its parent's is
    refused after the parent, but accepted as an orphan, since the check looks
    only at stored parents and is not repeated.  The same two vertices in two
    orders leave two replicas different. *)
Definition backdated : Vertex := vx [v_hash a] 2 500 4.
Lemma orphans_skip_timestamps :
  (fun d => bool_decide (v_hash backdated ∈ tips d)) <$>
    add_vertices (fun _ => 10000) d0 [a; backdated] = Some false /\
  (fun d => bool_decide (v_hash backdated ∈ tips d)) <$>
    add_vertices (fun _ => 10000) d0 [backdated; a] = Some true.
Proof. split; vm_compute; reflexivity. Qed.
End Sample.
