(* ===== verification/Quorum.v ===== *)
(** * Weighted quorums

    Both consensus engines accept a set of votes when three times its weight
    exceeds twice the total weight.  [WeightedQuorum] is what they promise about
    their validator sets; from it any two accepting sets share more than a third
    of the total weight. *)
From S2P Require Import Prelude.
From stdpp Require Import base numbers list gmap sets.
From Stdlib Require Import ZArith Lia.
#[local] Open Scope Z_scope.

(** The weight of a list of voters. *)
Definition weight_of {K} (weight : K -> Z) (l : list K) : Z := sumZ (weight <$> l).

Class WeightedQuorum {K} (weight : K -> Z) (universe : list K) (total : Z) : Prop := {
  wq_nonneg : forall k, 0 <= weight k;
  wq_nodup : NoDup universe;
  wq_outside : forall k, k ∉ universe -> weight k = 0;
  wq_total : weight_of weight universe <= total
}.

(** More than two thirds of [total]. *)
Definition supermajority (weight total : Z) : Prop := 2 * total < 3 * weight.

Section weights.
Context {K} `{EqDecision K}.
Implicit Types (weight : K -> Z) (l : list K).

Lemma weight_of_cons weight k l : weight_of weight (k :: l) = weight k + weight_of weight l.
Proof. done. Qed.
Lemma weight_of_nonneg weight l : (forall k, 0 <= weight k) -> 0 <= weight_of weight l.
Proof.
  intros Hw. apply sumZ_nonneg. apply Forall_fmap, Forall_forall. intros k _. apply Hw.
Qed.
Lemma weight_of_perm weight l1 l2 : l1 ≡ₚ l2 -> weight_of weight l1 = weight_of weight l2.
Proof. intros Hp. apply sumZ_perm. by rewrite Hp. Qed.

Lemma weight_of_app weight l1 l2 :
  weight_of weight (l1 ++ l2) = weight_of weight l1 + weight_of weight l2.
Proof. unfold weight_of. rewrite fmap_app. apply sumZ_app. Qed.
Lemma weight_of_submseteq weight l1 l2 : (forall k, 0 <= weight k) -> l1 ⊆+ l2 ->
  weight_of weight l1 <= weight_of weight l2.
Proof.
  intros Hw [l Hl]%submseteq_Permutation.
  rewrite (weight_of_perm weight l2 (l1 ++ l) Hl), weight_of_app.
  pose proof (weight_of_nonneg weight l Hw). lia.
Qed.
Lemma weight_of_zero weight l : (forall k, k ∈ l -> weight k = 0) -> weight_of weight l = 0.
Proof.
  induction l as [|k l IH]; intros Hz; [done|]. rewrite weight_of_cons, IH, Hz; set_solver.
Qed.

Lemma weight_of_filter_split weight (P : K -> Prop) `{forall k, Decision (P k)} l :
  weight_of weight l = weight_of weight (filter P l) + weight_of weight (filter (fun k => ~ P k) l).
Proof.
  induction l as [|k l IH]; [done|]. rewrite weight_of_cons, IH.
  rewrite !filter_cons. repeat case_decide; rewrite ?weight_of_cons; try lia; tauto.
Qed.

End weights.

Section quorum.
Context {K} `{EqDecision K}.
Implicit Types (l : list K).
Context {weight : K -> Z} {universe : list K} {total : Z}.
Context `{WQ : !WeightedQuorum weight universe total}.

(** Distinct voters weigh at most as much as the universe. *)
Lemma weight_of_le_universe l : NoDup l -> weight_of weight l <= weight_of weight universe.
Proof.
  intros Hl. rewrite (weight_of_filter_split weight (fun k => k ∈ universe) l).
  rewrite (weight_of_zero _ (filter (fun k => ~ _) l)).
  2: { intros k [Hk _]%list_elem_of_filter. by apply wq_outside. }
  rewrite Z.add_0_r. apply weight_of_submseteq; [apply wq_nonneg|].
  apply NoDup_submseteq; [by apply NoDup_filter|]. by intros k [Hk _]%list_elem_of_filter.
Qed.
Lemma weight_of_le_total l : NoDup l -> weight_of weight l <= total.
Proof. intros. etransitivity; [by apply weight_of_le_universe|apply wq_total]. Qed.

(** Inclusion and exclusion. *)
Lemma weight_of_overlap l1 l2 : NoDup l1 -> NoDup l2 ->
  weight_of weight l1 + weight_of weight l2
    <= total + weight_of weight (filter (fun k => k ∈ l2) l1).
Proof.
  intros H1 H2. rewrite (weight_of_filter_split weight (fun k => k ∈ l2) l1).
  assert (Hle : weight_of weight (filter (fun k => k ∉ l2) l1 ++ l2) <= total).
  { apply weight_of_le_total. apply NoDup_app. split; [by apply NoDup_filter|].
    split; [|done]. by intros k [Hk _]%list_elem_of_filter. }
  rewrite weight_of_app in Hle. lia.
Qed.

Lemma supermajorities_overlap l1 l2 : NoDup l1 -> NoDup l2 ->
  supermajority (weight_of weight l1) total -> supermajority (weight_of weight l2) total ->
  total < 3 * weight_of weight (filter (fun k => k ∈ l2) l1).
Proof.
  unfold supermajority. intros H1 H2 Q1 Q2. pose proof (weight_of_overlap l1 l2 H1 H2). lia.
Qed.
End quorum.

(** ** The weight of the values of a map *)
Section map_weight.
Context `{Countable K} {A : Type} (f : A -> Z).
Implicit Types m : gmap K A.

Definition map_weight (m : gmap K A) : Z := sumZ (f <$> (map_to_list m).*2).
(** The weight of a key, zero outside the map. *)
Definition weight_at (m : gmap K A) (k : K) : Z := from_option f 0 (m !! k).

Lemma map_weight_empty : map_weight ∅ = 0.
Proof. unfold map_weight. by rewrite map_to_list_empty. Qed.
Lemma map_weight_insert_fresh m k a : m !! k = None ->
  map_weight (<[k := a]> m) = f a + map_weight m.
Proof. intros Hk. unfold map_weight. by rewrite map_to_list_insert. Qed.
Lemma map_weight_delete m k a : m !! k = Some a ->
  map_weight m = f a + map_weight (delete k m).
Proof.
  intros Hk. rewrite <- (map_weight_insert_fresh (delete k m) k a) by apply lookup_delete_eq.
  by rewrite insert_delete_id.
Qed.
Lemma map_weight_insert m k a :
  map_weight (<[k := a]> m) = f a + map_weight m - weight_at m k.
Proof.
  unfold weight_at. destruct (m !! k) as [b|] eqn:Hk; simpl.
  - rewrite (map_weight_delete m k b Hk), <- (insert_delete_eq m k a).
    rewrite map_weight_insert_fresh by apply lookup_delete_eq. lia.
  - rewrite map_weight_insert_fresh by done. lia.
Qed.
Lemma map_weight_nonneg m : (forall k a, m !! k = Some a -> 0 <= f a) -> 0 <= map_weight m.
Proof.
  intros Hf. apply sumZ_nonneg, Forall_fmap, Forall_fmap, Forall_forall.
  intros [k a] Hin%elem_of_map_to_list. by apply (Hf k).
Qed.
Lemma weight_of_map_keys m : weight_of (weight_at m) (map_to_list m).*1 = map_weight m.
Proof.
  unfold weight_of, map_weight. f_equal. rewrite <- !list_fmap_compose.
  apply list_fmap_ext. intros i [k a] Hin. apply list_elem_of_lookup_2 in Hin.
  apply elem_of_map_to_list in Hin. unfold weight_at. simpl. by rewrite Hin.
Qed.
Lemma map_weight_perm m l : l ≡ₚ (map_to_list m).*2 -> sumZ (f <$> l) = map_weight m.
Proof. intros ->. done. Qed.

Lemma map_quorum m total : (forall k a, m !! k = Some a -> 0 <= f a) ->
  map_weight m <= total ->
  WeightedQuorum (weight_at m) (map_to_list m).*1 total.
Proof.
  intros Hf Ht. split.
  - intros k. unfold weight_at. destruct (m !! k) eqn:Hk; simpl; [by eapply Hf|done].
  - apply NoDup_fst_map_to_list.
  - intros k Hk. unfold weight_at. destruct (m !! k) as [a|] eqn:E; [|done].
    destruct Hk. apply list_elem_of_fmap. exists (k, a). split; [done|].
    by apply elem_of_map_to_list.
  - by rewrite weight_of_map_keys.
Qed.
End map_weight.

Lemma NoDup_fmap_filter {A B} (f : A -> B) (P : A -> Prop) `{forall x, Decision (P x)} l :
  NoDup (f <$> l) -> NoDup (f <$> filter P l).
Proof.
  induction l as [|x l IH]; [done|]. rewrite fmap_cons, NoDup_cons. intros [Hx Hl].
  rewrite filter_cons. case_decide; [|by apply IH]. rewrite fmap_cons, NoDup_cons.
  split; [|by apply IH]. rewrite list_elem_of_fmap. intros (y & E & [_ Hy]%list_elem_of_filter).
  apply Hx. rewrite E. by apply list_elem_of_fmap_2.
Qed.
