(* ===== verification/Finality.v ===== *)
(** * The finality gadget (crates/nexus-dag: finality.rs)

    Weighted validator set, votes, proofs, and the gadget whose [RwLock] fields
    are the components of its state.  Each call takes its guards once, so a
    call is one step. *)
From S2P Require Import Prelude Types Crypto Vertex Dag.
From stdpp Require Import base numbers list gmap sets strings.
From Stdlib Require Import ZArith Lia.
#[local] Open Scope Z_scope.

Record FinalityConfig := {
  min_validators : Z;
  vote_timeout_ms : Z;
  max_stall_rounds : Z;
  finality_check_interval : Z
}.
Definition default_finality_config : FinalityConfig := {|
  min_validators := 3; vote_timeout_ms := 5000;
  max_stall_rounds := 10; finality_check_interval := 10 |}.

Record ValidatorInfo := {
  vi_id : ValidatorId;
  vi_public_key : list Z;
  vi_stake : Z;
  vi_address : Address
}.

Record ValidatorSet := {
  fs_validators : gmap ValidatorId ValidatorInfo;
  fs_total_weight : Z;
  fs_epoch : Z
}.

(** [ValidatorSet::new]: later entries of the list replace earlier ones *)
Definition new_validator_set (validators : list ValidatorInfo) (epoch : Z) : ValidatorSet := {|
  fs_validators := foldl (fun m v => <[vi_id v := v]> m) ∅ validators;
  fs_total_weight := sum128 (vi_stake <$> validators);
  fs_epoch := epoch
|}.

Definition has_supermajority (vs : ValidatorSet) (weight : Z) : bool :=
  if fs_total_weight vs =? 0 then false
  else mul128 (fs_total_weight vs) 2 <? mul128 weight 3.
Definition get_validator (vs : ValidatorSet) (id : ValidatorId) : option ValidatorInfo :=
  fs_validators vs !! id.

Record FinalityVote := {
  fv_round : Z;
  fv_target_hash : Hash;
  fv_target_height : Z;
  fv_voter : ValidatorId;
  fv_signature : EcdsaSignature
}.

Definition signing_message (round : Z) (target : Hash) (height : Z) : list Z :=
  (to_be_bytes 8 round ++ hash_bytes target ++ to_be_bytes 8 height)%list.

Record FinalityProof := {
  fp_round : Z;
  fp_target_hash : Hash;
  fp_target_height : Z;
  fp_votes : list FinalityVote;
  fp_total_weight : Z;
  fp_epoch : Z
}.

Record FinalityState := mkFinalityState {
  round : Z;
  state_height : Z;
  finalized_hash : Hash;
  votes : gmap ValidatorId FinalityVote;
  best_candidate : option (Hash * Z)
}.

Record FinalityGadget := mkGadget {
  fg_config : FinalityConfig;
  fg_state : FinalityState;
  fg_validator_set : ValidatorSet;
  fg_proofs : list FinalityProof
}.

(** [FinalityGadget::new] *)
Definition new_gadget (config : FinalityConfig) (initial : list ValidatorInfo) : FinalityGadget :=
  mkGadget config (mkFinalityState 0 0 HASH_ZERO ∅ None) (new_validator_set initial 0) [].

Section finality.
Context `{HO : HashOrder} `{CL : CryptoLib}.

Definition message_hash (round : Z) (target : Hash) (height : Z) : Hash :=
  blake3_hash (signing_message round target height).

(** [FinalityVote::new] and [FinalityVote::verify] *)
Definition new_vote (round : Z) (target : Hash) (height : Z) (voter : ValidatorId)
    (secret_key : list Z) : outcome NexusError FinalityVote :=
  signature ← secret_sign secret_key (message_hash round target height);
  Ok {| fv_round := round; fv_target_hash := target; fv_target_height := height;
        fv_voter := voter; fv_signature := signature |}.
Definition verify_vote (vote : FinalityVote) (public_key : list Z) : outcome NexusError bool :=
  verify_signature
    (message_hash (fv_round vote) (fv_target_hash vote) (fv_target_height vote))
    (fv_signature vote) public_key.

(** One iteration of the loop of [FinalityProof::verify]: the weight so far
    and the voters seen. *)
Definition verify_step (proof : FinalityProof) (validator_set : ValidatorSet)
    (st : Z * gset ValidatorId) (vote : FinalityVote)
    : outcome NexusError (Z * gset ValidatorId) :=
  let '(verified_weight, seen_voters) := st in
  if decide (fv_voter vote ∈ seen_voters) then Err (ConsensusErrorN "Duplicate voter")
  else
    let seen_voters := {[fv_voter vote]} ∪ seen_voters in
    if negb (bool_decide (fv_target_hash vote = fp_target_hash proof)
             && (fv_target_height vote =? fp_target_height proof))
    then Err (ConsensusErrorN "Vote target mismatch")
    else
      validator ← ok_or (ConsensusErrorN "Unknown validator")
                    (get_validator validator_set (fv_voter vote));
      good ← verify_vote vote (vi_public_key validator);
      if negb good then Err (ConsensusErrorN "Invalid vote signature")
      else Ok (add128 verified_weight (vi_stake validator), seen_voters).

Definition verify_proof (proof : FinalityProof) (validator_set : ValidatorSet)
    : outcome NexusError bool :=
  if negb (fs_epoch validator_set =? fp_epoch proof) then Err (ConsensusErrorN "Epoch mismatch")
  else
    '(verified_weight, _) ← for_each (verify_step proof validator_set) (fp_votes proof) (0, ∅);
    if negb (has_supermajority validator_set verified_weight)
    then Err (ConsensusErrorN "Insufficient vote weight")
    else Ok true.

(** [try_finalize]: the grouping loop *)
Definition group_step (validator_set : ValidatorSet)
    (target_weights : gmap (Hash * Z) (Z * list FinalityVote)) (vote : FinalityVote)
    : gmap (Hash * Z) (Z * list FinalityVote) :=
  match get_validator validator_set (fv_voter vote) with
  | Some validator =>
      let key := (fv_target_hash vote, fv_target_height vote) in
      let '(weight, group) := default (0, []) (target_weights !! key) in
      <[key := (add128 weight (vi_stake validator), group ++ [vote])]> target_weights
  | None => target_weights
  end.

(** The second loop: the first group that qualifies is finalized. *)
Fixpoint finalize_first (groups : list ((Hash * Z) * (Z * list FinalityVote)))
    (validator_set : ValidatorSet) (state : FinalityState)
    : FinalityState * option FinalityProof :=
  match groups with
  | [] => (state, None)
  | ((hash, height), (weight, group)) :: groups =>
      if has_supermajority validator_set weight && (state_height state <? height) then
        let proof := {|
          fp_round := round state; fp_target_hash := hash; fp_target_height := height;
          fp_votes := group; fp_total_weight := weight; fp_epoch := fs_epoch validator_set |} in
        (mkFinalityState (round state +! 1) height hash ∅ (best_candidate state), Some proof)
      else finalize_first groups validator_set state
  end.

Definition try_finalize (g : FinalityGadget) (state : FinalityState)
    : FinalityGadget * outcome NexusError (option FinalityProof) :=
  let target_weights := foldl (group_step (fg_validator_set g)) ∅ (values (votes state)) in
  match finalize_first (entries target_weights) (fg_validator_set g) state with
  | (state, Some proof) =>
      (mkGadget (fg_config g) state (fg_validator_set g) (fg_proofs g ++ [proof]), Ok (Some proof))
  | (state, None) =>
      (mkGadget (fg_config g) state (fg_validator_set g) (fg_proofs g), Ok None)
  end.

Definition add_vote (g : FinalityGadget) (vote : FinalityVote)
    : FinalityGadget * outcome NexusError (option FinalityProof) :=
  let state := fg_state g in
  match
    (if fv_round vote <? round state then Err (ConsensusErrorN "Vote for past round")
     else
       validator ← ok_or (ConsensusErrorN "Unknown validator")
                     (get_validator (fg_validator_set g) (fv_voter vote));
       good ← verify_vote vote (vi_public_key validator);
       if negb good then Err (ConsensusErrorN "Invalid vote signature") else Ok ())
  with
  | Ok _ =>
      try_finalize g (mkFinalityState (round state) (state_height state) (finalized_hash state)
        (<[fv_voter vote := vote]> (votes state)) (best_candidate state))
  | Err e => (g, Err e)
  | Panic => (g, Panic)
  | Blocked => (g, Blocked)
  end.

Definition finalized_state (g : FinalityGadget) : Z * Hash :=
  (state_height (fg_state g), finalized_hash (fg_state g)).

(** *** Candidates *)

(** [tips.iter().all(|tip| dag.is_ancestor(v, tip) || *tip == v)]; [None] if
    a search runs out of fuel *)
Fixpoint ancestor_of_all (dag : Dag) (v : Hash) (tips : list Hash) : option bool :=
  match tips with
  | [] => Some true
  | tip :: tips =>
      match is_ancestor dag v tip with
      | None => None
      | Some b => if b || bool_decide (tip = v) then ancestor_of_all dag v tips else Some false
      end
  end.
(** The two nested loops: the candidates in the order they are tried *)
Fixpoint first_common (dag : Dag) (tips : list Hash) (candidates : list (Hash * Z))
    : option (option (Hash * Z)) :=
  match candidates with
  | [] => Some None
  | (v, height) :: candidates =>
      match ancestor_of_all dag v tips with
      | None => None
      | Some true => Some (Some (v, height))
      | Some false => first_common dag tips candidates
      end
  end.
(** [(a..=b).rev()] *)
Definition range_rev (a b : Z) : list Z :=
  (fun i => b - Z.of_nat i) <$> seq 0 (Z.to_nat (b - a + 1)).
Definition find_best_candidate (g : FinalityGadget) (dag : Dag) : option (option (Hash * Z)) :=
  let current_height := latest_height dag in
  match get_tips dag with
  | [] => Some None
  | tips =>
      first_common dag tips
        (h ← range_rev (state_height (fg_state g) +! 1) current_height;
         (fun v => (v, h)) <$> get_vertices_at_height dag h)
  end.

Definition create_vote (g : FinalityGadget) (dag : Dag) (voter_id : ValidatorId)
    (secret_key : list Z) : option (outcome NexusError (option FinalityVote)) :=
  match find_best_candidate g dag with
  | None => None
  | Some (Some (hash, height)) =>
      Some (vote ← new_vote (round (fg_state g)) hash height voter_id secret_key; Ok (Some vote))
  | Some None => Some (Ok None)
  end.

Definition update_validator_set (g : FinalityGadget) (validators : list ValidatorInfo)
    (epoch : Z) : FinalityGadget :=
  let state := fg_state g in
  mkGadget (fg_config g)
    (mkFinalityState (round state) (state_height state) (finalized_hash state) ∅
       (best_candidate state))
    (new_validator_set validators epoch) (fg_proofs g).

Definition get_proofs (g : FinalityGadget) (from_height to_height : Z) : list FinalityProof :=
  filter (fun p => from_height <= fp_target_height p /\ fp_target_height p <= to_height)
    (fg_proofs g).

(** [apply_proof] also moves the DAG that it is given. *)
Definition apply_proof (g : FinalityGadget) (proof : FinalityProof) (dag : Dag)
    : FinalityGadget * Dag * outcome NexusError () :=
  match verify_proof proof (fg_validator_set g) with
  | Ok _ =>
      match get_vertex dag (fp_target_hash proof) with
      | None => (g, dag, Err (ConsensusErrorN "Proof target not found in DAG"))
      | Some _ =>
          let state := fg_state g in
          if state_height state <? fp_target_height proof then
            let state := mkFinalityState (round state) (fp_target_height proof)
              (fp_target_hash proof) (votes state) (best_candidate state) in
            (mkGadget (fg_config g) state (fg_validator_set g) (fg_proofs g ++ [proof]),
             set_finalized_height dag (fp_target_height proof), Ok ())
          else (g, dag, Ok ())
      end
  | Err e => (g, dag, Err e)
  | Panic => (g, dag, Panic)
  | Blocked => (g, dag, Blocked)
  end.
End finality.
