(* ===== verification/FinalityFacts.v ===== *)
(** * Correctness of the finality gadget

    A proof is accepted exactly when distinct known validators with more than
    two thirds of the weight signed its target; the proofs the gadget issues
    are of that kind; finalization only moves upward; and the candidate that a
    node votes for is the highest vertex below every tip. *)
From S2P Require Import Prelude Types Crypto Vertex Dag DagFacts DagSearch DagProps Quorum Finality.
From stdpp Require Import base numbers list gmap sets strings relations sorting.
From Stdlib Require Import ZArith Lia.
#[local] Open Scope Z_scope.

(** ** Validator sets *)

(** The weights are unsigned, the total bounds them and is small enough for
    the two products of [has_supermajority]. *)
Record set_ok (vs : ValidatorSet) : Prop := {
  set_stakes : forall k v, fs_validators vs !! k = Some v -> 0 <= vi_stake v;
  set_total : map_weight vi_stake (fs_validators vs) <= fs_total_weight vs;
  set_bound : 3 * fs_total_weight vs < B128
}.
Definition stake_of (vs : ValidatorSet) : ValidatorId -> Z := weight_at vi_stake (fs_validators vs).
Definition known_ids (vs : ValidatorSet) : list ValidatorId := (map_to_list (fs_validators vs)).*1.

Lemma set_quorum vs : set_ok vs ->
  WeightedQuorum (stake_of vs) (known_ids vs) (fs_total_weight vs).
Proof. intros [Hs Ht _]. by apply map_quorum. Qed.

Lemma collect_stakes l m :
  (forall k v, m !! k = Some v -> 0 <= vi_stake v) -> Forall (fun v => 0 <= vi_stake v) l ->
  let m' := foldl (fun m v => <[vi_id v := v]> m) m l in
  (forall k v, m' !! k = Some v -> 0 <= vi_stake v) /\
  map_weight vi_stake m' <= map_weight vi_stake m + sumZ (vi_stake <$> l).
Proof.
  cbv zeta. intros Hm Hl. revert m Hm. induction Hl as [|v l Hv Hl IH]; intros m Hm; cbn [foldl fmap list_fmap].
  { split; [done|]. simpl. lia. }
  destruct (IH (<[vi_id v := v]> m)) as [Hs Ht].
  { intros k w [[_ <-]|[_ Hw]]%lookup_insert_Some; [done|by eapply Hm]. }
  split; [done|]. rewrite map_weight_insert in Ht. rewrite sumZ_cons.
  assert (0 <= weight_at vi_stake m (vi_id v)); [|lia].
  unfold weight_at. destruct (m !! vi_id v) eqn:E; simpl; [by eapply Hm|done].
Qed.
Lemma new_validator_set_ok l e : Forall (fun v => 0 <= vi_stake v) l ->
  3 * sumZ (vi_stake <$> l) < B128 -> set_ok (new_validator_set l e).
Proof.
  intros Hl Hb. destruct (collect_stakes l ∅) as [Hs Ht]; [by intros ? ? ?%lookup_empty_Some|done|].
  rewrite map_weight_empty in Ht.
  assert (0 <= sumZ (vi_stake <$> l)) by by apply sumZ_nonneg, Forall_fmap.
  split; cbn [new_validator_set fs_validators fs_total_weight]; [done| |];
    rewrite sum128_small by lia; lia.
Qed.

Lemma has_supermajority_spec vs w : set_ok vs -> 0 <= w <= fs_total_weight vs ->
  has_supermajority vs w = true <-> supermajority w (fs_total_weight vs).
Proof.
  intros [_ _ Hb] Hw. unfold has_supermajority, supermajority.
  destruct (Z.eqb_spec (fs_total_weight vs) 0); [split; [done|lia]|].
  rewrite !mul128_small by lia. rewrite Z.ltb_lt. lia.
Qed.

Section proofs.
Context `{HO : HashOrder} `{CL : CryptoLib}.

(** A vote for the target, signed by a validator of the set. *)
Definition vote_for (vs : ValidatorSet) (hash : Hash) (height : Z) (vote : FinalityVote) : Prop :=
  fv_target_hash vote = hash /\ fv_target_height vote = height /\
  exists v, get_validator vs (fv_voter vote) = Some v /\
            verify_vote vote (vi_public_key v) = Ok true.
Definition vote_signed (vs : ValidatorSet) (vote : FinalityVote) : Prop :=
  vote_for vs (fv_target_hash vote) (fv_target_height vote) vote.

Lemma verify_step_Ok p vs w seen vote r : verify_step p vs (w, seen) vote = Ok r <->
  fv_voter vote ∉ seen /\ vote_for vs (fp_target_hash p) (fp_target_height p) vote /\
  r = (add128 w (stake_of vs (fv_voter vote)), {[fv_voter vote]} ∪ seen).
Proof.
  unfold verify_step, vote_for, stake_of, weight_at, get_validator. case_decide.
  { split; [done|by intros [? _]]. }
  case bool_decide_reflect; intros; [|split; [done|by intros (_ & [? _] & _)]].
  case Z.eqb_spec; intros; [|split; [done|by intros (_ & (_ & ? & _) & _)]]. cbn [negb andb].
  destruct (fs_validators vs !! fv_voter vote) as [v|]; cbn [ok_or mbind outcome_bind];
    [|split; [done|by intros (_ & (_ & _ & ? & ? & _) & _)]].
  destruct (verify_vote vote (vi_public_key v)) as [[]| | |] eqn:E; cbn [mbind outcome_bind negb].
  { split; [intros [= <-]; split_and!; try done; eauto|by intros (_ & _ & ->)]. }
  all: split; [done|intros (_ & (_ & _ & v0 & [= <-] & ?) & _); congruence].
Qed.

Lemma verify_loop_Ok p vs l w seen w' :
  (exists seen', for_each (verify_step p vs) l (w, seen) = Ok (w', seen')) <->
  Forall (vote_for vs (fp_target_hash p) (fp_target_height p)) l /\
  NoDup (fv_voter <$> l) /\ (forall v, v ∈ fv_voter <$> l -> v ∉ seen) /\
  w' = foldl add128 w (stake_of vs <$> (fv_voter <$> l)).
Proof.
  revert w seen. induction l as [|vote l IH]; intros w seen; cbn [for_each fmap list_fmap foldl].
  { split; [|naive_solver]. intros [? [= -> ->]]. split; [done|]. split; [constructor|].
    split; [by intros ? ?%not_elem_of_nil|done]. }
  setoid_rewrite bind_Ok_iff. rewrite Forall_cons, NoDup_cons. setoid_rewrite elem_of_cons.
  trans (fv_voter vote ∉ seen /\ vote_for vs (fp_target_hash p) (fp_target_height p) vote /\
    exists seen', for_each (verify_step p vs) l
      (add128 w (stake_of vs (fv_voter vote)), {[fv_voter vote]} ∪ seen) = Ok (w', seen')).
  { split.
    - intros (seen' & r & (Hs & Hv & ->)%verify_step_Ok & Hl). eauto.
    - intros (Hs & Hv & seen' & Hl). exists seen'. eexists. split; [|exact Hl].
      by apply verify_step_Ok. }
  rewrite IH. clear IH. split.
  - intros (Hs & Hv & Hl & Hnd & Hd & ->). split_and!; try done; [|set_solver].
    intros Hin. by apply (Hd _ Hin), elem_of_union_l, elem_of_singleton.
  - intros ([Hv Hl] & [Hin Hnd] & Hd & ->). split_and!; try done; [by apply Hd; left|].
    intros v Hvl. rewrite not_elem_of_union, not_elem_of_singleton. split; [congruence|].
    by apply Hd; right.
Qed.

Lemma stakes_sum vs l : set_ok vs -> NoDup l ->
  0 <= weight_of (stake_of vs) l <= fs_total_weight vs /\
  foldl add128 0 (stake_of vs <$> l) = weight_of (stake_of vs) l.
Proof.
  intros Hok Hl. pose proof (set_quorum vs Hok) as WQ.
  pose proof (weight_of_nonneg (stake_of vs) l wq_nonneg) as Hn.
  pose proof (weight_of_le_total l Hl) as Hle. split; [lia|].
  apply (sum128_small (stake_of vs <$> l)). unfold weight_of in *. destruct Hok. lia.
Qed.

Lemma verify_proof_spec vs p : set_ok vs ->
  verify_proof p vs = Ok true <->
  fs_epoch vs = fp_epoch p /\
  Forall (vote_for vs (fp_target_hash p) (fp_target_height p)) (fp_votes p) /\
  NoDup (fv_voter <$> fp_votes p) /\
  supermajority (weight_of (stake_of vs) (fv_voter <$> fp_votes p)) (fs_total_weight vs).
Proof.
  intros Hok. unfold verify_proof. case Z.eqb_spec; intros He; cbn [negb]; [|naive_solver].
  rewrite bind_Ok_iff. trans (exists w, (exists seen, for_each (verify_step p vs)
    (fp_votes p) (0, ∅) = Ok (w, seen)) /\ has_supermajority vs w = true).
  { split.
    - intros ([w seen] & Hl & Hs). exists w. split; [by exists seen|].
      by destruct (has_supermajority vs w).
    - intros (w & [seen Hl] & Hs). exists (w, seen). split; [done|]. by rewrite Hs. }
  setoid_rewrite verify_loop_Ok. split.
  - intros (w & (Hv & Hnd & _ & ->) & Hs). destruct (stakes_sum vs _ Hok Hnd) as [Hr E].
    rewrite E in Hs. apply has_supermajority_spec in Hs; done.
  - intros (_ & Hv & Hnd & Hs). destruct (stakes_sum vs _ Hok Hnd) as [Hr E].
    eexists. split; [split_and!; [done|done| |reflexivity]|].
    + intros v _. apply not_elem_of_empty.
    + rewrite E. by apply has_supermajority_spec.
Qed.
End proofs.

(** ** The gadget *)
Section gadget.
Context `{HO : HashOrder} `{CL : CryptoLib}.

Definition targets (key : Hash * Z) (vote : FinalityVote) : Prop :=
  (fv_target_hash vote, fv_target_height vote) = key.
#[local] Instance targets_dec key vote : Decision (targets key vote).
Proof. unfold targets. solve_decision. Defined.
(** The stored votes for a target. *)
Definition votes_for (key : Hash * Z) (l : list FinalityVote) : list FinalityVote :=
  filter (targets key) l.

(** Grouping collects, for each target, its votes and their weight. *)
Lemma group_spec vs l tw key : Forall (vote_signed vs) l ->
  default (0, []) (foldl (group_step vs) tw l !! key) =
  let '(w, g) := default (0, []) (tw !! key) in
  (foldl add128 w (stake_of vs <$> (fv_voter <$> votes_for key l)), (g ++ votes_for key l)%list).
Proof.
  intros Hl. revert tw. induction Hl as [|v l (_ & _ & info & Hi & _) Hl IH]; intros tw; cbn [foldl].
  { destruct (default _ _). by rewrite app_nil_r. }
  rewrite IH. unfold group_step, votes_for. rewrite Hi, filter_cons.
  set (k := (fv_target_hash v, fv_target_height v)).
  destruct (default (0, []) (tw !! k)) as [w g] eqn:Ek.
  destruct (decide (targets key v)) as [Ht|Hne].
  - replace key with k in * by exact Ht. rewrite lookup_insert_eq, Ek. cbn [default from_option id fmap list_fmap foldl].
    rewrite <- app_assoc. unfold get_validator in Hi. unfold stake_of at 2, weight_at. rewrite Hi. done.
  - rewrite lookup_insert_ne by exact Hne. by destruct (default _ (tw !! key)).
Qed.

Lemma finalize_first_spec groups vs st : match finalize_first groups vs st with
  | (st', Some p) => exists w, ((fp_target_hash p, fp_target_height p), (w, fp_votes p)) ∈ groups /\
      has_supermajority vs w = true /\ state_height st < fp_target_height p /\
      fp_epoch p = fs_epoch vs /\ fp_round p = round st /\ fp_total_weight p = w /\
      st' = mkFinalityState (round st +! 1) (fp_target_height p) (fp_target_hash p) ∅ (best_candidate st)
  | (st', None) => st' = st /\ forall hash height w g, ((hash, height), (w, g)) ∈ groups ->
      has_supermajority vs w = true -> height <= state_height st
  end.
Proof.
  induction groups as [|[[hash height] [w g]] groups IH]; cbn [finalize_first].
  { split; [done|]. by intros ? ? ? ? ?%not_elem_of_nil. }
  destruct (has_supermajority vs w) eqn:Hw; cbn [andb].
  2: { destruct (finalize_first groups vs st) as [st' [p|]].
       - destruct IH as (w' & Hin & ?). exists w'. split; [by right|done].
       - destruct IH as [-> IH]. split; [done|]. intros ? ? ? ? [[= -> -> -> ->]|Hin]%elem_of_cons ?; [congruence|].
         by eapply IH. }
  case Z.ltb_spec; intros Hh.
  - exists w. cbn. split_and!; try done. apply list_elem_of_here.
  - destruct (finalize_first groups vs st) as [st' [p|]].
    + destruct IH as (w' & Hin & ?). exists w'. split; [by right|done].
    + destruct IH as [-> IH]. split; [done|]. intros ? ? ? ? [[= -> -> -> ->]|Hin]%elem_of_cons ?; [done|].
      by eapply IH.
Qed.

(** Every stored vote is filed under its voter and was signed for the
    current validator set. *)
Definition gadget_inv (g : FinalityGadget) : Prop :=
  forall k v, votes (fg_state g) !! k = Some v -> fv_voter v = k /\ vote_signed (fg_validator_set g) v.

Lemma stored_signed g v info : gadget_inv g ->
  get_validator (fg_validator_set g) (fv_voter v) = Some info ->
  verify_vote v (vi_public_key info) = Ok true ->
  forall k w, <[fv_voter v := v]> (votes (fg_state g)) !! k = Some w ->
    fv_voter w = k /\ vote_signed (fg_validator_set g) w.
Proof.
  intros Hinv Hi Hv k w [[<- <-]|[_ Hw]]%lookup_insert_Some; [|by apply Hinv].
  split; [done|]. split; [done|]. split; [done|]. by exists info.
Qed.

Lemma values_voters (m : gmap ValidatorId FinalityVote) :
  (forall k v, m !! k = Some v -> fv_voter v = k) -> NoDup (fv_voter <$> values m).
Proof.
  intros Hm. replace (fv_voter <$> values m) with (keys m); [apply entries_nodup|].
  unfold keys, values. rewrite <- list_fmap_compose. apply list_fmap_ext.
  intros i [k v] Hin. apply list_elem_of_lookup_2, elem_of_entries in Hin.
  symmetry. by apply Hm.
Qed.

(** The weight of the stored votes for a target *)
Definition target_weight (g : FinalityGadget) (m : gmap ValidatorId FinalityVote)
    (key : Hash * Z) : Z :=
  weight_of (stake_of (fg_validator_set g)) (fv_voter <$> votes_for key (values m)).

Lemma try_finalize_spec g st : set_ok (fg_validator_set g) ->
  (forall k v, votes st !! k = Some v -> fv_voter v = k /\ vote_signed (fg_validator_set g) v) ->
  match try_finalize g st with
  | (g', Ok (Some p)) =>
      verify_proof p (fg_validator_set g) = Ok true /\ state_height st < fp_target_height p /\
      fp_round p = round st /\
      fp_total_weight p = target_weight g (votes st) (fp_target_hash p, fp_target_height p) /\
      g' = mkGadget (fg_config g) (mkFinalityState (round st +! 1) (fp_target_height p)
             (fp_target_hash p) ∅ (best_candidate st)) (fg_validator_set g) (fg_proofs g ++ [p])
  | (g', Ok None) =>
      g' = mkGadget (fg_config g) st (fg_validator_set g) (fg_proofs g) /\
      forall hash height, supermajority (target_weight g (votes st) (hash, height))
        (fs_total_weight (fg_validator_set g)) -> height <= state_height st
  | _ => False
  end.
Proof.
  intros Hok Hinv. unfold try_finalize. set (vs := fg_validator_set g) in *.
  assert (Hsigned : Forall (vote_signed vs) (values (votes st))).
  { apply Forall_forall. intros v [k Hk]%elem_of_values. by apply (Hinv k). }
  assert (Hnd : forall key, NoDup (fv_voter <$> votes_for key (values (votes st)))).
  { intros key. apply NoDup_fmap_filter, values_voters. intros k v Hk. by apply Hinv. }
  pose proof (fun key => group_spec vs (values (votes st)) ∅ key Hsigned) as Hgroup.
  setoid_rewrite lookup_empty in Hgroup. cbn [default from_option id] in Hgroup.
  set (tw := foldl (group_step vs) ∅ (values (votes st))) in *.
  pose proof (finalize_first_spec (entries tw) vs st) as Hf.
  destruct (finalize_first (entries tw) vs st) as [st' [p|]].
  - destruct Hf as (w & Hin & Hw & Hh & He & Hr & Hp & ->).
    apply elem_of_entries in Hin. specialize (Hgroup (fp_target_hash p, fp_target_height p)).
    rewrite Hin in Hgroup. cbn [default from_option id app] in Hgroup.
    destruct (stakes_sum vs _ Hok (Hnd (fp_target_hash p, fp_target_height p))) as [Hrange Hsum].
    rewrite Hsum in Hgroup. injection Hgroup as Hwt Hvotes.
    split; [|split_and!; [done|done|by rewrite Hp, Hwt|done]].
    apply verify_proof_spec; [done|]. rewrite Hvotes. split_and!; [done| |apply Hnd|].
    + apply Forall_forall. intros v [[= <- <-] Hv]%list_elem_of_filter.
      by eapply Forall_forall in Hsigned.
    + apply has_supermajority_spec; [done|done|]. by rewrite <- Hwt.
  - destruct Hf as [-> Hno]. split; [done|]. intros hash height Hs.
    specialize (Hgroup (hash, height)). cbn [app] in Hgroup.
    destruct (stakes_sum vs _ Hok (Hnd (hash, height))) as [Hrange Hsum]. rewrite Hsum in Hgroup.
    destruct (tw !! (hash, height)) as [[w gr]|] eqn:Etw; cbn [default from_option id] in Hgroup.
    + apply (Hno hash height w gr); [by apply elem_of_entries|].
      injection Hgroup as -> _. by apply has_supermajority_spec.
    + injection Hgroup as E _. unfold target_weight in Hs. fold vs in Hs. rewrite <- E in Hs.
      unfold supermajority in Hs. lia.
Qed.
End gadget.

(** ** The candidate *)
Lemma elem_of_range_rev a b x : x ∈ range_rev a b <-> a <= x <= b.
Proof.
  unfold range_rev. rewrite list_elem_of_fmap. setoid_rewrite elem_of_seq. split.
  - intros (i & -> & Hi). lia.
  - intros Hx. exists (Z.to_nat (b - x)). lia.
Qed.
Lemma range_rev_sorted a b : StronglySorted (fun x y => y <= x) (range_rev a b).
Proof.
  unfold range_rev. generalize (Z.to_nat (b - a + 1)) as n, 0%nat as j.
  induction n as [|n IH]; intros j; cbn [seq fmap list_fmap]; [constructor|].
  constructor; [apply IH|]. apply Forall_fmap, Forall_forall. intros i Hi%elem_of_seq. simpl. lia.
Qed.

Section candidate.
Context `{HO : HashOrder}.

(** [v] is below every tip (or is the tip). *)
Definition common_ancestor (d : Dag) (v : Hash) : Prop :=
  forall tip, tip ∈ tips d -> rtc (up d) tip v.

Lemma ancestor_of_all_spec d v l : exists b, ancestor_of_all d v l = Some b /\
  (b = true <-> forall tip, tip ∈ l -> rtc (up d) tip v).
Proof.
  induction l as [|tip l IH]; cbn [ancestor_of_all].
  { exists true. split; [done|]. split; [|done]. by intros _ ? ?%not_elem_of_nil. }
  destruct (is_ancestor_spec d v tip) as (b & -> & Hb).
  assert (Hb' : b || bool_decide (tip = v) = true <-> rtc (up d) tip v).
  { rewrite <- Hb. destruct b; [done|]. cbn [orb]. rewrite bool_decide_eq_true.
    split; [|done]. intros ->. apply Hb. apply rtc_refl. }
  setoid_rewrite elem_of_cons. destruct (b || _).
  - destruct IH as (b2 & -> & H2). exists b2. split; [done|]. rewrite H2. naive_solver.
  - exists false. split; [done|]. split; [done|]. intros Hall.
    apply Hb'. apply Hall. by left.
Qed.

Lemma first_common_spec d l cs : exists r, first_common d l cs = Some r /\
  match r with
  | Some c => exists cs1 cs2, cs = cs1 ++ c :: cs2 /\
      (forall tip, tip ∈ l -> rtc (up d) tip (fst c)) /\
      forall c', c' ∈ cs1 -> ~ forall tip, tip ∈ l -> rtc (up d) tip (fst c')
  | None => forall c', c' ∈ cs -> ~ forall tip, tip ∈ l -> rtc (up d) tip (fst c')
  end.
Proof.
  induction cs as [|[v h] cs IH]; cbn [first_common].
  { exists None. split; [done|]. by intros ? ?%not_elem_of_nil. }
  destruct (ancestor_of_all_spec d v l) as (b & -> & Hb). destruct b.
  - eexists. split; [done|]. exists [], cs. split; [done|]. split; [by apply Hb|].
    by intros ? ?%not_elem_of_nil.
  - destruct IH as (r & -> & Hr). exists r. split; [done|].
    assert (Hv : ~ forall tip, tip ∈ l -> rtc (up d) tip v) by (rewrite <- Hb; done).
    destruct r as [c|].
    + destruct Hr as (cs1 & cs2 & -> & Hc & Hn). exists ((v, h) :: cs1), cs2.
      split; [done|]. split; [done|]. intros c' [->|Hc']%elem_of_cons; [done|by apply Hn].
    + intros c' [->|Hc']%elem_of_cons; [done|by apply Hr].
Qed.

(** The candidates come highest first. *)
Lemma candidates_sorted d hs : StronglySorted (fun x y => y <= x) hs ->
  StronglySorted (fun x y : Hash * Z => snd y <= snd x)
    (h ← hs; (fun v => (v, h)) <$> get_vertices_at_height d h).
Proof.
  induction 1 as [|h hs Hs IH Hall]; [constructor|]. cbn [mbind list_bind].
  apply StronglySorted_app. split_and!; [| |done].
  - intros [v k] [w j] (? & [= -> ->] & _)%list_elem_of_fmap Hw.
    apply list_elem_of_bind in Hw as (i & (? & [= -> ->] & _)%list_elem_of_fmap & Hi).
    simpl. by eapply Forall_forall in Hall.
  - induction (get_vertices_at_height d h) as [|v l IHl]; cbn [fmap list_fmap]; constructor; [done|].
    apply Forall_fmap, Forall_forall. simpl. lia.
Qed.

Lemma latest_height_ge d h v : h ∈ tips d -> vertices d !! h = Some v ->
  v_height v <= latest_height d.
Proof.
  intros Ht Hv. unfold latest_height.
  destruct (max_opt_ge (omap (fun h => v_height <$> vertices d !! h) (get_tips d)) (v_height v))
    as (m & -> & ?); [|done].
  apply list_elem_of_omap. exists h. split; [by apply elem_of_members|]. by rewrite Hv.
Qed.

Lemma up_tc d x y : rtc (up d) x y -> x = y \/ tc (edge d) y x.
Proof.
  induction 1 as [x|x y z Hxy%up_edge _ [->|IH]]; [by left|right; by apply tc_once|].
  right. by eapply tc_r.
Qed.

(** The candidates are the stored vertices of the range. *)
Lemma elem_of_candidates `{CL : CryptoLib} d a b v h : dag_inv d ->
  (v, h) ∈ (h ← range_rev a b; (fun v => (v, h)) <$> get_vertices_at_height d h) <->
  (exists w, vertices d !! v = Some w /\ v_height w = h) /\ a <= h <= b.
Proof.
  intros Hi. rewrite list_elem_of_bind. split.
  - intros (k & (u & [= -> ->] & Hu)%list_elem_of_fmap & Hk%elem_of_range_rev).
    apply elem_of_members, (inv_by_height _ _ Hi) in Hu. done.
  - intros [Hw Hh]. exists h. split; [|by apply elem_of_range_rev].
    apply list_elem_of_fmap. exists v. split; [done|].
    by apply elem_of_members, (inv_by_height _ _ Hi).
Qed.
(** A common ancestor is no higher than the highest tip. *)
Lemma common_below_latest `{CL : CryptoLib} d u w : dag_inv d -> tips d <> ∅ ->
  (forall h v, vertices d !! h = Some v -> 0 <= v_height v < B64 - 1) ->
  vertices d !! u = Some w -> common_ancestor d u -> v_height w <= latest_height d.
Proof.
  intros Hi Ht Hb Hu Hc. apply set_choose_L in Ht as [t Hin].
  destruct (proj1 (inv_tips _ _ Hi t) Hin) as [[tv Htv] _].
  pose proof (latest_height_ge d t tv Hin Htv).
  destruct (up_tc d t u (Hc t Hin)) as [->|Htc]; [by simplify_eq|].
  pose proof (tc_height [] d u t w tv Hi Htc Hu Htv Hb). lia.
Qed.
End candidate.

(** ** Histories of a gadget *)
Section history.
Context `{HO : HashOrder} `{CL : CryptoLib}.

(** The states a gadget goes through, with the validator sets installed so
    far. *)
Inductive gadget_reach : list ValidatorSet -> FinalityGadget -> Prop :=
  | gr_new cfg l : gadget_reach [new_validator_set l 0] (new_gadget cfg l)
  | gr_vote sets g v : gadget_reach sets g -> gadget_reach sets (fst (add_vote g v))
  | gr_apply sets g p d : gadget_reach sets g -> gadget_reach sets (fst (fst (apply_proof g p d)))
  | gr_update sets g l e : gadget_reach sets g ->
      gadget_reach (new_validator_set l e :: sets) (update_validator_set g l e).

(** The stored proofs climb to the finalized height, each accepted by an
    installed validator set. *)
Record chain_ok (sets : list ValidatorSet) (ps : list FinalityProof) (h : Z) (hash : Hash) : Prop := {
  chain_sorted : StronglySorted Z.lt (fp_target_height <$> ps);
  chain_last : from_option (fun p => (fp_target_height p, fp_target_hash p)) (0, HASH_ZERO) (last ps)
               = (h, hash);
  chain_each : forall p, p ∈ ps -> 0 < fp_target_height p <= h /\
    exists vs, vs ∈ sets /\ verify_proof p vs = Ok true
}.
Lemma chain_nonneg sets ps h hash : chain_ok sets ps h hash -> 0 <= h.
Proof.
  intros [_ Hl He]. destruct (last ps) as [p|] eqn:E; simpl in Hl; [|injection Hl; lia].
  apply last_Some_elem_of in E. destruct (He p E). lia.
Qed.
Lemma chain_snoc sets ps h hash vs p : chain_ok sets ps h hash -> vs ∈ sets ->
  verify_proof p vs = Ok true -> h < fp_target_height p ->
  chain_ok sets (ps ++ [p]) (fp_target_height p) (fp_target_hash p).
Proof.
  intros Hc Hvs Hv Hh. pose proof (chain_nonneg _ _ _ _ Hc). destruct Hc as [Hs Hl He]. split.
  - rewrite fmap_app. apply StronglySorted_app. split_and!; [|done|repeat constructor].
    intros x1 x2 (q & -> & Hq)%list_elem_of_fmap ->%list_elem_of_singleton.
    destruct (He q Hq). lia.
  - by rewrite last_snoc.
  - intros q [Hq| ->%list_elem_of_singleton]%elem_of_app; [|split; [lia|by exists vs]].
    destruct (He q Hq) as [? ?]. split; [lia|done].
Qed.
Lemma chain_more sets ps h hash vs : chain_ok sets ps h hash -> chain_ok (vs :: sets) ps h hash.
Proof.
  intros [Hs Hl He]. split; [done|done|]. intros p Hp. destruct (He p Hp) as (? & vs' & ? & ?).
  split; [done|]. exists vs'. split; [by right|done].
Qed.

Definition history_inv (sets : list ValidatorSet) (g : FinalityGadget) : Prop :=
  gadget_inv g /\ fg_validator_set g ∈ sets /\
  chain_ok sets (fg_proofs g) (state_height (fg_state g)) (finalized_hash (fg_state g)).

Lemma verify_proof_true p vs b : verify_proof p vs = Ok b -> verify_proof p vs = Ok true.
Proof.
  unfold verify_proof. destruct (negb _); [done|]. intros H. rewrite H.
  apply bind_Ok in H as ([w seen] & _ & H). by destruct (has_supermajority vs w); simplify_eq.
Qed.

Lemma gadget_inv_empty cfg st vs ps : votes st = ∅ -> gadget_inv (mkGadget cfg st vs ps).
Proof. intros E k v. cbn [fg_state]. rewrite E. by intros ?%lookup_empty_Some. Qed.

Lemma gadget_history sets g : gadget_reach sets g -> Forall set_ok sets -> history_inv sets g.
Proof.
  induction 1 as [cfg l|sets g v _ IH|sets g p d _ IH|sets g l e _ IH]; intros Hsets.
  - split; [by apply gadget_inv_empty|]. split; [apply list_elem_of_here|].
    split; [constructor|done|]. by intros p ?%not_elem_of_nil.
  - destruct (IH Hsets) as (Hinv & Hin & Hc).
    assert (Hok : set_ok (fg_validator_set g)) by by eapply Forall_forall in Hsets.
    unfold add_vote. destruct (fv_round v <? round (fg_state g)); [done|].
    destruct (get_validator _ _) as [info|] eqn:Hi; [|done].
    cbn [ok_or mbind outcome_bind].
    destruct (verify_vote v _) as [[]| | |] eqn:Hv; try done. cbn [negb mbind outcome_bind].
    set (st' := mkFinalityState _ _ _ _ _).
    pose proof (stored_signed g v info Hinv Hi Hv) as Hst.
    pose proof (try_finalize_spec g st' Hok Hst) as Hspec.
    destruct (try_finalize g st') as [g' [[p|]|e| |]]; try done.
    + destruct Hspec as (Hp & Hh & _ & _ & ->). split; [by apply gadget_inv_empty|].
      split; [done|]. by eapply chain_snoc.
    + destruct Hspec as [-> _]. split; [exact Hst|done].
  - destruct (IH Hsets) as (Hinv & Hin & Hc). unfold apply_proof.
    destruct (verify_proof p (fg_validator_set g)) as [b| | |] eqn:Hp; try done.
    destruct (get_vertex d (fp_target_hash p)); [|done].
    case Z.ltb_spec; intros Hh; [|done]. split; [exact Hinv|]. split; [done|].
    eapply chain_snoc; [done|done|by eapply verify_proof_true|done].
  - apply Forall_cons in Hsets as [_ Hsets]. destruct (IH Hsets) as (_ & _ & Hc).
    split; [by apply gadget_inv_empty|]. split; [apply list_elem_of_here|]. by apply chain_more.
Qed.
End history.
