(* ===== verification/FinalityProps.v ===== *)
(** * Properties of the finality gadget *)
From S2P Require Import Prelude Types Crypto Vertex Dag DagFacts DagSearch DagProps Quorum Finality FinalityFacts.
From stdpp Require Import base numbers list gmap sets strings relations sorting.
From Stdlib Require Import ZArith Lia.
#[local] Open Scope Z_scope.

Section props.
Context `{HO : HashOrder} `{CL : CryptoLib}.

(** [FinalityProof::verify] accepts exactly the proofs of the set's epoch
    whose votes come from distinct validators of the set, are signed for the
    proof's target, and weigh more than two thirds of the total. *)
Theorem verify_proof_exact vs p : set_ok vs ->
  verify_proof p vs = Ok true <->
  fs_epoch vs = fp_epoch p /\
  Forall (vote_for vs (fp_target_hash p) (fp_target_height p)) (fp_votes p) /\
  NoDup (fv_voter <$> fp_votes p) /\
  supermajority (weight_of (stake_of vs) (fv_voter <$> fp_votes p)) (fs_total_weight vs).
Proof. apply verify_proof_spec. Qed.

(** C3: Accountable safety.  If two proofs for different targets verify
    against one validator set, the validators that signed both targets hold
    more than a third of the weight; the list of them is computed from the
    two proofs. *)
Theorem conflicting_proofs_expose_third vs p q : set_ok vs ->
  verify_proof p vs = Ok true -> verify_proof q vs = Ok true ->
  (fp_target_hash p, fp_target_height p) <> (fp_target_hash q, fp_target_height q) ->
  let guilty := filter (fun k => k ∈ fv_voter <$> fp_votes q) (fv_voter <$> fp_votes p) in
  fs_total_weight vs < 3 * weight_of (stake_of vs) guilty /\ NoDup guilty /\
  forall k, k ∈ guilty -> exists v w, v ∈ fp_votes p /\ w ∈ fp_votes q /\
    fv_voter v = k /\ fv_voter w = k /\ vote_signed vs v /\ vote_signed vs w /\
    (fv_target_hash v, fv_target_height v) <> (fv_target_hash w, fv_target_height w).
Proof.
  intros Hok Hp Hq Hne. apply verify_proof_spec in Hp as (_ & Vp & Np & Sp); [|done].
  apply verify_proof_spec in Hq as (_ & Vq & Nq & Sq); [|done]. cbv zeta.
  pose proof (set_quorum vs Hok) as WQ.
  split; [by apply supermajorities_overlap|]. split; [by apply NoDup_filter|].
  intros k ((w & -> & Hw)%list_elem_of_fmap & (v & Ev & Hv)%list_elem_of_fmap)%list_elem_of_filter.
  exists v, w. rewrite Forall_forall in Vp, Vq.
  destruct (Vp v Hv) as (E1 & E2 & Sv), (Vq w Hw) as (E3 & E4 & Sw).
  split; [done|]. split; [done|]. split; [done|]. split; [done|].
  split; [by split|]. split; [by split|]. by rewrite E1, E2, E3, E4.
Qed.

(** C24: What a vote does.  It is refused, with the state as it was, when its
    round is past, its voter unknown or its signature bad.  Otherwise it
    replaces the voter's earlier vote; if the stored votes for some target
    above the finalized height then weigh more than two thirds, the gadget
    finalizes such a target with a proof that verifies, clears the votes and
    starts the next round; if no target qualifies it only keeps the vote. *)
Theorem add_vote_outcome g v : set_ok (fg_validator_set g) -> gadget_inv g ->
  let st := fg_state g in
  let stored := <[fv_voter v := v]> (votes st) in
  match add_vote g v with
  | (g', Ok (Some p)) =>
      verify_proof p (fg_validator_set g) = Ok true /\
      state_height st < fp_target_height p /\
      fp_total_weight p = target_weight g stored (fp_target_hash p, fp_target_height p) /\
      g' = mkGadget (fg_config g) (mkFinalityState (round st +! 1) (fp_target_height p)
             (fp_target_hash p) ∅ (best_candidate st)) (fg_validator_set g) (fg_proofs g ++ [p])
  | (g', Ok None) =>
      g' = mkGadget (fg_config g) (mkFinalityState (round st) (state_height st)
             (finalized_hash st) stored (best_candidate st)) (fg_validator_set g) (fg_proofs g) /\
      forall hash height, supermajority (target_weight g stored (hash, height))
        (fs_total_weight (fg_validator_set g)) -> height <= state_height st
  | (g', _) => g' = g /\ (fv_round v < round st \/ ~ vote_signed (fg_validator_set g) v)
  end.
Proof.
  intros Hok Hinv. cbv zeta. unfold add_vote.
  case Z.ltb_spec; intros Hr; cbn [mbind outcome_bind]; [split; [done|by left]|].
  destruct (get_validator _ _) as [info|] eqn:Hi; cbn [ok_or mbind outcome_bind].
  2: { split; [done|]. right. intros (_ & _ & w & Hw & _). congruence. }
  assert (Hbad : verify_vote v (vi_public_key info) <> Ok true -> ~ vote_signed (fg_validator_set g) v).
  { intros Hb (_ & _ & w & Hw & Hv). congruence. }
  destruct (verify_vote v (vi_public_key info)) as [[]| | |] eqn:Hv; cbn [mbind outcome_bind negb].
  2-5: split; [done|right; by apply Hbad].
  set (st' := mkFinalityState _ _ _ _ _).
  pose proof (try_finalize_spec g st' Hok (stored_signed g v info Hinv Hi Hv)) as Hspec.
  destruct (try_finalize g st') as [g' [[p|]|e| |]]; try done.
  destruct Hspec as (? & ? & _ & ? & ?). done.
Qed.

(** C7: In every history of a gadget (votes, imported proofs, changes of the
    validator set) the stored proofs have strictly increasing heights above
    0, the finalized state is the target of the last one, and each was
    accepted by a validator set that had been installed: finality never
    moves back. *)
Theorem finality_is_monotone sets g : gadget_reach sets g -> Forall set_ok sets ->
  StronglySorted Z.lt (fp_target_height <$> fg_proofs g) /\
  finalized_state g = from_option (fun p => (fp_target_height p, fp_target_hash p))
    (0, HASH_ZERO) (last (fg_proofs g)) /\
  forall p, p ∈ fg_proofs g -> 0 < fp_target_height p /\
    exists vs, vs ∈ sets /\ verify_proof p vs = Ok true.
Proof.
  intros Hr Hs. destruct (gadget_history sets g Hr Hs) as (_ & _ & [H1 H2 H3]).
  split; [done|]. split; [done|]. intros p Hp. destruct (H3 p Hp) as [[? _] ?]. done.
Qed.

(** [find_best_candidate] returns, on a well-formed DAG, a stored vertex
    above the finalized height that every tip descends from (or is), and no
    such vertex is higher; when it finds none, there is none. *)
Theorem best_candidate_is_highest g d : dag_inv d -> tips d <> ∅ ->
  (forall h v, vertices d !! h = Some v -> 0 <= v_height v < B64 - 1) ->
  0 <= state_height (fg_state g) < B64 - 1 ->
  exists r, find_best_candidate g d = Some r /\
  match r with
  | Some (v, height) =>
      (exists w, vertices d !! v = Some w /\ v_height w = height) /\
      state_height (fg_state g) < height /\ common_ancestor d v /\
      forall u w, vertices d !! u = Some w -> common_ancestor d u -> v_height w <= height
  | None => forall u w, vertices d !! u = Some w -> common_ancestor d u ->
      v_height w <= state_height (fg_state g)
  end.
Proof.
  intros Hi Ht Hb Hf. unfold find_best_candidate.
  assert (Htips : exists t l, get_tips d = t :: l).
  { destruct (get_tips d) as [|t l] eqn:E; [|eauto]. destruct Ht. apply set_eq. intros x.
    rewrite <- elem_of_members. unfold get_tips in E. rewrite E. set_solver. }
  destruct Htips as (t & l & Htl). rewrite Htl, <- Htl. set (fin := state_height (fg_state g)) in *.
  rewrite add64_small by lia. set (cs := mbind _ _).
  pose proof (fun v h => elem_of_candidates d (fin + 1) (latest_height d) v h Hi) as Hcs.
  fold cs in Hcs.
  assert (Hcommon : forall v, (forall tip, tip ∈ get_tips d -> rtc (up d) tip v) <-> common_ancestor d v).
  { intros v. unfold common_ancestor, get_tips. by setoid_rewrite elem_of_members. }
  pose proof (fun u w => common_below_latest d u w Hi Ht Hb) as Hlow.
  destruct (first_common_spec d (get_tips d) cs) as (r & -> & Hr). exists r. split; [done|].
  destruct r as [[v height]|].
  - destruct Hr as (cs1 & cs2 & Ecs & Hv & Hn). simpl in Hv.
    destruct (proj1 (Hcs v height)) as [Hw Hh]; [rewrite Ecs; set_solver|].
    split; [done|]. split; [lia|]. split; [by apply Hcommon|].
    intros u w Hu Hc. destruct (Z.le_gt_cases (v_height w) height) as [|Hgt]; [done|].
    assert (Hin : (u, v_height w) ∈ cs).
    { apply Hcs. split; [eauto|]. split; [lia|by apply (Hlow u)]. }
    rewrite Ecs in Hin. apply elem_of_app in Hin as [Hin|[[= -> ->]|Hin]%elem_of_cons].
    + destruct (Hn _ Hin). by apply Hcommon.
    + lia.
    + assert (Hsort : StronglySorted (fun x y : Hash * Z => snd y <= snd x) cs)
        by apply candidates_sorted, range_rev_sorted.
      rewrite Ecs in Hsort. apply StronglySorted_app_1_r in Hsort.
      apply StronglySorted_inv in Hsort as [_ Hall].
      eapply Forall_forall in Hall; [|exact Hin]. done.
  - intros u w Hu Hc. destruct (Z.le_gt_cases (v_height w) fin) as [|Hgt]; [done|].
    destruct (Hr (u, v_height w)); [|by apply Hcommon].
    apply Hcs. split; [eauto|]. split; [lia|by apply (Hlow u)].
Qed.
End props.

(** ** Three validators, the first two of which sign two targets *)
Module Sample.
#[local] Existing Instance canonical_order.
#[local] Existing Instance toy_crypto.

Definition id (n : Z) : ValidatorId := mkValidatorId (replicate 32 n).
Definition info (n : Z) : ValidatorInfo := {|
  vi_id := id n; vi_public_key := replicate 64 n; vi_stake := 100;
  vi_address := mkAddress (replicate 20 n) |}.
Definition infos : list ValidatorInfo := [info 1; info 2; info 3].
Definition vset : ValidatorSet := new_validator_set infos 0.
Definition vote (n target height : Z) : FinalityVote := {|
  fv_round := 0; fv_target_hash := mkHash (replicate 32 target); fv_target_height := height;
  fv_voter := id n; fv_signature := mkSig (replicate 32 n) (replicate 32 n) 27 |}.
Definition proof_of (target height : Z) : FinalityProof := {|
  fp_round := 0; fp_target_hash := mkHash (replicate 32 target); fp_target_height := height;
  fp_votes := [vote 1 target height; vote 2 target height; vote 3 target height];
  fp_total_weight := 300; fp_epoch := 0 |}.
Definition g0 : FinalityGadget := new_gadget default_finality_config infos.
Definition g2 : FinalityGadget := fst (add_vote (fst (add_vote g0 (vote 1 9 5))) (vote 2 9 5)).

Lemma vset_ok : set_ok vset.
Proof. apply new_validator_set_ok; [repeat constructor; done|vm_compute; reflexivity]. Qed.
Lemma g2_reach : gadget_reach [vset] g2.
Proof. apply gr_vote, gr_vote, gr_new. Qed.
Lemma g2_inv : gadget_inv g2.
Proof. apply (gadget_history [vset] g2 g2_reach). by constructor; [apply vset_ok|constructor]. Qed.

Lemma verify_proof_exact_witness :
  verify_proof (proof_of 7 4) vset = Ok true /\
  supermajority (weight_of (stake_of vset) (fv_voter <$> fp_votes (proof_of 7 4))) (fs_total_weight vset).
Proof.
  assert (H : verify_proof (proof_of 7 4) vset = Ok true) by (vm_compute; reflexivity).
  split; [exact H|]. by apply (verify_proof_exact vset (proof_of 7 4) vset_ok).
Defined.

Lemma conflicting_proofs_expose_third_witness :
  fs_total_weight vset < 3 * weight_of (stake_of vset)
    (filter (fun k => k ∈ fv_voter <$> fp_votes (proof_of 8 4)) (fv_voter <$> fp_votes (proof_of 7 4))).
Proof.
  apply (conflicting_proofs_expose_third vset (proof_of 7 4) (proof_of 8 4) vset_ok);
    [vm_compute; reflexivity|vm_compute; reflexivity|]. intros H. vm_compute in H. discriminate.
Defined.

(** Two votes of three are not enough; the third finalizes height 5. *)
Lemma add_vote_outcome_witness :
  exists g' p, add_vote g2 (vote 3 9 5) = (g', Ok (Some p)) /\
    verify_proof p vset = Ok true /\ 0 < fp_target_height p.
Proof.
  pose proof (add_vote_outcome g2 (vote 3 9 5) vset_ok g2_inv) as H. cbv zeta in H.
  destruct (add_vote g2 (vote 3 9 5)) as [g' r] eqn:E.
  assert (Hr : exists p, r = Ok (Some p)) by (vm_compute in E; injection E as _ <-; eauto).
  destruct Hr as [p ->]. exists g', p. split; [reflexivity|].
  destruct H as (H1 & H2 & _). split; [exact H1|exact H2].
Defined.

Lemma finality_is_monotone_witness :
  finalized_state (fst (add_vote g2 (vote 3 9 5))) = (5, mkHash (replicate 32 9)) /\
  StronglySorted Z.lt (fp_target_height <$> fg_proofs (fst (add_vote g2 (vote 3 9 5)))).
Proof.
  split; [vm_compute; reflexivity|].
  apply (finality_is_monotone [vset] (fst (add_vote g2 (vote 3 9 5)))).
  - apply gr_vote, g2_reach.
  - constructor; [exact vset_ok|constructor].
Defined.

(** In the DAG of two vertices in a line the candidate is the upper one. *)
Lemma best_candidate_is_highest_witness :
  exists r, find_best_candidate g0 DagProps.Sample.e2 = Some r /\
    r = Some (v_hash DagProps.Sample.b, 2).
Proof.
  destruct (best_candidate_is_highest g0 DagProps.Sample.e2) as (r & Hr & _).
  - exact DagProps.Sample.e2_inv.
  - intros H. apply (f_equal base.size) in H. vm_compute in H. discriminate.
  - intros h v Hv. destruct (DagProps.Sample.e2_heights h v Hv). lia.
  - vm_compute. split; [discriminate|reflexivity].
  - exists r. split; [exact Hr|]. vm_compute in Hr. injection Hr as <-. vm_compute. reflexivity.
Defined.
End Sample.
