(* ===== verification/Validator.v ===== *)
(** * Validators of the consensus engine (crates/nexus-consensus: validator.rs)

    The validator set with its stake counters, the keys, and the registry that
    queues changes for the next epoch. *)
From S2P Require Import Prelude Types Crypto Quorum.
From stdpp Require Import base numbers list gmap sets strings.
From Stdlib Require Import ZArith Lia.
#[local] Open Scope Z_scope.

(** [ConsensusError] (lib.rs) *)
Inductive ConsensusError :=
  | InvalidSignature
  | UnknownValidator (msg : string)
  | InsufficientStake (required available : Z)
  | InvalidProposal (msg : string)
  | DuplicateVote
  | InvalidVote (msg : string)
  | NotReached
  | SlashingCondition (msg : string)
  | EpochMismatch (expected got : Z)
  | NotLeader.

Record Validator := mkValidator {
  address : Address;
  pubkey : list Z;
  stake : Z;
  commission : Z;
  active : bool;
  jailed_until : Z;
  slash_count : Z;
  uptime : Z;
  last_active_epoch : Z
}.

(** [Validator::new] *)
Definition new_validator (address : Address) (pubkey : list Z) (stake : Z) : Validator :=
  mkValidator address pubkey stake 500 true 0 0 10000 0.

Definition is_eligible (v : Validator) (current_epoch : Z) : bool :=
  active v && (jailed_until v <=? current_epoch) && (0 <? stake v).
Definition voting_power (v : Validator) : Z := stake v.

Definition set_stake (s : Z) (v : Validator) : Validator :=
  mkValidator (address v) (pubkey v) s (commission v) (active v) (jailed_until v)
    (slash_count v) (uptime v) (last_active_epoch v).
Definition set_commission (c : Z) (v : Validator) : Validator :=
  mkValidator (address v) (pubkey v) (stake v) c (active v) (jailed_until v)
    (slash_count v) (uptime v) (last_active_epoch v).
(** The three assignments of [slash] *)
Definition set_slashed (s count until : Z) (v : Validator) : Validator :=
  mkValidator (address v) (pubkey v) s (commission v) (active v) until count
    (uptime v) (last_active_epoch v).

Record ValidatorSet := mkSet {
  epoch : Z;
  validators : gmap Address Validator;
  total_stake : Z;
  min_stake : Z;
  max_validators : Z
}.
Definition empty_set (epoch : Z) : ValidatorSet := mkSet epoch ∅ 0 10000000000 100.

Definition with_validators (f : gmap Address Validator -> gmap Address Validator)
    (s : ValidatorSet) : ValidatorSet :=
  mkSet (epoch s) (f (validators s)) (total_stake s) (min_stake s) (max_validators s).
Definition with_total (total : Z) (s : ValidatorSet) : ValidatorSet :=
  mkSet (epoch s) (validators s) total (min_stake s) (max_validators s).
Definition with_epoch (e : Z) (s : ValidatorSet) : ValidatorSet :=
  mkSet e (validators s) (total_stake s) (min_stake s) (max_validators s).

Definition add_validator (s : ValidatorSet) (v : Validator) : outcome ConsensusError ValidatorSet :=
  if stake v <? min_stake s then Err (InsufficientStake (min_stake s) (stake v))
  else
    let s := with_total (total_stake s +! stake v) s in
    Ok (with_validators <[address v := v]> s).

Definition remove_validator (s : ValidatorSet) (a : Address) : ValidatorSet * option Validator :=
  match validators s !! a with
  | Some v => (with_total (total_stake s -! stake v) (with_validators (delete a) s), Some v)
  | None => (s, None)
  end.

Definition get (s : ValidatorSet) (a : Address) : option Validator := validators s !! a.
Definition set_len (s : ValidatorSet) : nat := base.size (validators s).

Section set.
Context `{HashOrder}.

Definition active_validators (s : ValidatorSet) : list Validator :=
  filter (fun v => is_eligible v (epoch s) = true) (values (validators s)).
Definition active_stake (s : ValidatorSet) : Z := sum64 (stake <$> active_validators s).
Definition has_supermajority (s : ValidatorSet) (stake : Z) : bool :=
  active_stake s *! 2 <? stake *! 3.
Definition has_quorum (s : ValidatorSet) (stake : Z) : bool :=
  active_stake s <? stake *! 3.
End set.

(** ** Keys *)
Record ValidatorKeys := mkKeys { signing_key : list Z; key_address : Address }.

Section keys.
Context `{CryptoLib}.

(** [derive_address]: the point without its prefix is hashed, and the last 20
    bytes are kept. *)
Definition derive_address (key : list Z) : outcome ConsensusError Address :=
  unwrap (address_from_slice (drop 12 (keccak256 (drop 1 (public_point key))))).
(** The slice becomes an array of 32 bytes, which panics on another length. *)
Definition keys_from_bytes (bytes : list Z) : outcome ConsensusError ValidatorKeys :=
  if negb (length bytes =? 32)%nat then Panic
  else if secret_ok bytes then
    address ← derive_address bytes;
    Ok (mkKeys bytes address)
  else Err InvalidSignature.
Definition public_key (keys : ValidatorKeys) : list Z := public_compressed (signing_key keys).
(** [sign] hashes the message first; [sign_hash] does not. *)
Definition sign (keys : ValidatorKeys) (message : list Z) : list Z :=
  sign_msg (signing_key keys) (keccak256 message).
Definition sign_hash (keys : ValidatorKeys) (hash : Hash) : list Z :=
  sign_msg (signing_key keys) (hash_bytes hash).
End keys.

(** ** Registry *)
Inductive ValidatorChange :=
  | Join (v : Validator)
  | Leave (a : Address)
  | StakeIncrease (a : Address) (amount : Z)
  | StakeDecrease (a : Address) (amount : Z)
  | UpdateCommission (a : Address) (commission : Z).

Record ValidatorRegistry := mkRegistry {
  current_set : ValidatorSet;
  pending_changes : list ValidatorChange;
  historical_sets : gmap Z ValidatorSet
}.
Definition new_registry : ValidatorRegistry := mkRegistry (empty_set 0) [] ∅.

Definition queue_change (r : ValidatorRegistry) (change : ValidatorChange) : ValidatorRegistry :=
  mkRegistry (current_set r) (pending_changes r ++ [change]) (historical_sets r).

Definition apply_change (s : ValidatorSet) (change : ValidatorChange)
    : outcome ConsensusError ValidatorSet :=
  match change with
  | Join v => add_validator s v
  | Leave a => Ok (fst (remove_validator s a))
  | StakeIncrease a amount =>
      match validators s !! a with
      | Some v =>
          let s := with_validators <[a := set_stake (stake v +! amount) v]> s in
          Ok (with_total (total_stake s +! amount) s)
      | None => Ok s
      end
  | StakeDecrease a amount =>
      match validators s !! a with
      | Some v =>
          let s := with_validators <[a := set_stake (sat_sub64 (stake v) amount) v]> s in
          Ok (with_total (sat_sub64 (total_stake s) amount) s)
      | None => Ok s
      end
  | UpdateCommission a c =>
      match validators s !! a with
      | Some v => Ok (with_validators <[a := set_commission (c `min` 10000) v]> s)
      | None => Ok s
      end
  end.

(** The loop of [advance_epoch]: the set as far as it got, and the result. *)
Fixpoint apply_changes (s : ValidatorSet) (changes : list ValidatorChange)
    : ValidatorSet * outcome ConsensusError () :=
  match changes with
  | [] => (s, Ok ())
  | change :: changes =>
      match apply_change s change with
      | Ok s => apply_changes s changes
      | Err e => (s, Err e)
      | Panic => (s, Panic)
      | Blocked => (s, Blocked)
      end
  end.

(** [advance_epoch]: the queue is taken before the changes are applied, so the
    changes after a refused one are lost. *)
Definition advance_epoch (r : ValidatorRegistry) : ValidatorRegistry * outcome ConsensusError Z :=
  let current := current_set r in
  let historical := <[epoch current := current]> (historical_sets r) in
  match apply_changes current (pending_changes r) with
  | (s, Ok _) =>
      let s := with_epoch (epoch s +! 1) s in
      (mkRegistry s [] historical, Ok (epoch s))
  | (s, Err e) => (mkRegistry s [] historical, Err e)
  | (s, Panic) => (mkRegistry s [] historical, Panic)
  | (s, Blocked) => (mkRegistry s [] historical, Blocked)
  end.

Definition slash `{CryptoLib} (r : ValidatorRegistry) (a : Address) (percentage jail_epochs : Z)
    : ValidatorRegistry * outcome ConsensusError Z :=
  let current := current_set r in
  match validators current !! a with
  | None => (r, Err (UnknownValidator (address_debug a)))
  | Some v =>
      let slash_amount := (stake v *! percentage) / 10000 in
      let v := set_slashed (stake v -! slash_amount) ((slash_count v + 1) mod 2 ^ 32)
                 (epoch current +! jail_epochs) v in
      let current := with_validators <[a := v]> current in
      let current := with_total (total_stake current -! slash_amount) current in
      (mkRegistry current (pending_changes r) (historical_sets r), Ok slash_amount)
  end.

Definition get_historical_set (r : ValidatorRegistry) (e : Z) : option ValidatorSet :=
  historical_sets r !! e.
