(* ===== verification/ValidatorFacts.v ===== *)
(** * Facts about validator sets

    The stake counters against the sum of the stakes, and the thresholds of the
    engine against exact arithmetic. *)
From stdpp Require Import base numbers list gmap sets strings.
From Stdlib Require Import ZArith Lia.
From S2P Require Import Prelude Types Crypto Quorum Validator.
#[local] Open Scope Z_scope.

(** The stakes are unsigned and three times their sum fits in 64 bits. *)
Record stakes_ok (s : ValidatorSet) : Prop := {
  stakes_nonneg : forall a v, validators s !! a = Some v -> 0 <= stake v;
  stakes_bound : 3 * map_weight stake (validators s) < B64
}.
Definition stake_at (s : ValidatorSet) : Address -> Z := weight_at stake (validators s).
Definition all_eligible (s : ValidatorSet) : Prop :=
  forall a v, validators s !! a = Some v -> is_eligible v (epoch s) = true.

Lemma stakes_quorum s : stakes_ok s ->
  WeightedQuorum (stake_at s) (map_to_list (validators s)).*1 (map_weight stake (validators s)).
Proof. intros [Hs _]. apply map_quorum; [exact Hs|lia]. Qed.

Section thresholds.
Context `{HO : HashOrder}.

Lemma active_stake_spec s : stakes_ok s ->
  active_stake s = map_weight (fun v => if is_eligible v (epoch s) then stake v else 0) (validators s) /\
  0 <= active_stake s <= map_weight stake (validators s).
Proof.
  intros [Hs Hb]. unfold active_stake, active_validators, map_weight in *.
  rewrite <- !values_perm in Hb. rewrite <- !values_perm.
  assert (Hpos : Forall (fun v => 0 <= stake v) (values (validators s))).
  { apply Forall_forall. intros v [a Hv]%elem_of_values. by apply (Hs a). }
  revert Hb Hpos. generalize (values (validators s)) as l. clear Hs. intros l Hb Hpos.
  assert (E : sumZ (stake <$> filter (fun v => is_eligible v (epoch s) = true) l) =
    sumZ ((fun v => if is_eligible v (epoch s) then stake v else 0) <$> l) /\
    0 <= sumZ (stake <$> filter (fun v => is_eligible v (epoch s) = true) l) <= sumZ (stake <$> l)).
  { clear Hb. induction Hpos as [|v l Hv Hpos IH]; [simpl; lia|].
    rewrite filter_cons. destruct (is_eligible v (epoch s)) eqn:Ev; case_decide; try done;
      cbn [fmap list_fmap]; rewrite !sumZ_cons, ?Ev; lia. }
  rewrite sum64_small by lia. lia.
Qed.
Lemma active_stake_all s : stakes_ok s -> all_eligible s ->
  active_stake s = map_weight stake (validators s).
Proof.
  intros Hok He. destruct (active_stake_spec s Hok) as [-> _]. unfold map_weight. f_equal.
  rewrite <- !list_fmap_compose. apply list_fmap_ext. intros i [a v] Hin.
  apply list_elem_of_lookup_2, elem_of_map_to_list in Hin. simpl. by rewrite (He a v Hin).
Qed.

Lemma has_supermajority_exact s w : stakes_ok s -> 0 <= w -> 3 * w < B64 ->
  has_supermajority s w = true <-> supermajority w (active_stake s).
Proof.
  intros Hok Hw Hb. destruct (active_stake_spec s Hok) as [_ Ha]. destruct Hok as [_ Hs].
  unfold has_supermajority, supermajority. rewrite !mul64_small by lia. rewrite Z.ltb_lt. lia.
Qed.
End thresholds.

(** ** The stake counter *)

(** What the counter of the set is off by. *)
Definition drift (s : ValidatorSet) : Z := total_stake s - map_weight stake (validators s).

(** What a change adds to it: registering an address that is already in the set
    counts its old stake twice; a decrease of more than the stake takes the
    difference off the counter only. *)
Definition drift_of (s : ValidatorSet) (change : ValidatorChange) : Z :=
  match change with
  | Join v => stake_at s (address v)
  | StakeDecrease a amount =>
      match validators s !! a with Some v => - Z.max (amount - stake v) 0 | None => 0 end
  | _ => 0
  end.

(** No counter wraps or saturates. *)
Definition change_fits (s : ValidatorSet) (change : ValidatorChange) : Prop :=
  match change with
  | Join v => 0 <= stake v /\ total_stake s + stake v < B64
  | Leave a => stake_at s a <= total_stake s
  | StakeIncrease a amount =>
      0 <= amount /\ total_stake s + amount < B64 /\ stake_at s a + amount < B64
  | StakeDecrease a amount => 0 <= amount <= total_stake s
  | UpdateCommission a c => True
  end.

Lemma stake_at_Some s a v : validators s !! a = Some v -> stake_at s a = stake v.
Proof. intros H. unfold stake_at, weight_at. by rewrite H. Qed.
Lemma drift_apply s change s' : 0 <= total_stake s < B64 ->
  (forall a v, validators s !! a = Some v -> is_u64 (stake v)) ->
  change_fits s change -> apply_change s change = Ok s' ->
  drift s' = drift s + drift_of s change.
Proof.
  intros Ht Hu Hfit Happ. destruct change as [v|a|a x|a x|a c]; cbn [apply_change] in Happ;
    cbn [drift_of change_fits] in *; unfold drift.
  - unfold add_validator in Happ. destruct (_ <? _); [done|]. injection Happ as <-.
    cbn [with_validators with_total total_stake validators]. fold (stake_at s (address v)).
    rewrite map_weight_insert, add64_small by lia. unfold stake_at. lia.
  - unfold remove_validator in Happ. destruct (validators s !! a) as [v|] eqn:Hv;
      injection Happ as <-; [|lia]. cbn [fst with_validators with_total total_stake validators].
    rewrite (map_weight_delete stake _ a v Hv). rewrite (stake_at_Some s a v Hv) in Hfit.
    destruct (Hu a v Hv). rewrite sub64_small; lia.
  - destruct (validators s !! a) as [v|] eqn:Hv; injection Happ as <-; [|lia].
    cbn [with_validators with_total total_stake validators]. rewrite map_weight_insert.
    rewrite (stake_at_Some s a v Hv) in Hfit. fold (stake_at s a). rewrite (stake_at_Some s a v Hv).
    destruct (Hu a v Hv). cbn [set_stake stake]. rewrite !add64_small; lia.
  - destruct (validators s !! a) as [v|] eqn:Hv; injection Happ as <-; [|lia].
    cbn [with_validators with_total total_stake validators]. rewrite map_weight_insert.
    fold (stake_at s a). rewrite (stake_at_Some s a v Hv). destruct (Hu a v Hv).
    cbn [set_stake stake]. unfold sat_sub64. lia.
  - destruct (validators s !! a) as [v|] eqn:Hv; injection Happ as <-; [|lia].
    cbn [with_validators total_stake validators]. rewrite map_weight_insert.
    fold (stake_at s a). rewrite (stake_at_Some s a v Hv). cbn [set_commission stake]. lia.
Qed.
