(* ===== verification/Bft.v ===== *)
(** * The BFT engine (crates/nexus-consensus: bft.rs)

    Each method of [BftConsensus] runs in a state monad over the engine and the
    lock guards that the calling thread holds.  A guard lives as long as the
    Rust binding that holds it: [with_read] and [with_write] are the scopes of
    those bindings, and acquiring a lock that the thread already holds in a
    conflicting mode is [Blocked] (the locks are not reentrant). *)
From S2P Require Import Prelude Types Crypto Quorum Validator.
From stdpp Require Import base numbers list gmap sets strings pretty.
From Stdlib Require Import ZArith Lia.
#[local] Open Scope Z_scope.

Record Proposal := {
  p_proposer : Address;
  p_view : Z;
  p_epoch : Z;
  p_vertex_hash : Hash;
  p_parents : list Hash;
  p_signature : list Z
}.
Record PrepareVote := {
  pv_voter : Address;
  pv_view : Z;
  pv_vertex_hash : Hash;
  pv_signature : list Z
}.
Record CommitVote := {
  cv_voter : Address;
  cv_view : Z;
  cv_vertex_hash : Hash;
  cv_signature : list Z
}.
Record ViewChangeRequest := {
  requester : Address;
  new_view : Z;
  last_prepared : option Hash;
  vc_signature : list Z
}.
Record NewViewMessage := {
  leader : Address;
  nv_view : Z;
  view_changes : list ViewChangeRequest;
  nv_signature : list Z
}.
Inductive BftMessage :=
  | MProposal (p : Proposal)
  | MPrepare (v : PrepareVote)
  | MCommit (v : CommitVote)
  | MViewChange (r : ViewChangeRequest)
  | MNewView (m : NewViewMessage).

Inductive BftPhase := NewRound | Prepare | Commit | PhaseFinalized.
#[export] Instance BftPhase_eq_dec : EqDecision BftPhase.
Proof. solve_decision. Defined.

Record BftRoundState := mkRound {
  view : Z;
  round_epoch : Z;
  phase : BftPhase;
  proposal : option Proposal;
  prepare_votes : gmap Address PrepareVote;
  commit_votes : gmap Address CommitVote;
  locked_vertex : option Hash;
  locked_view : Z
}.
Definition default_round : BftRoundState := mkRound 0 0 NewRound None ∅ ∅ None 0.

Record BftConsensus := mkBft {
  keys : ValidatorKeys;
  validator_set : ValidatorSet;
  state : BftRoundState;
  finalized : gset Hash;
  view_change_votes : gmap Z (list ViewChangeRequest)
}.
(** [BftConsensus::new]; the message channel is only stored *)
Definition new_bft (keys : ValidatorKeys) (vs : ValidatorSet) : BftConsensus :=
  mkBft keys vs default_round ∅ ∅.

Definition set_state (st : BftRoundState) (b : BftConsensus) : BftConsensus :=
  mkBft (keys b) (validator_set b) st (finalized b) (view_change_votes b).
Definition set_finalized (f : gset Hash) (b : BftConsensus) : BftConsensus :=
  mkBft (keys b) (validator_set b) (state b) f (view_change_votes b).
Definition set_view_changes (m : gmap Z (list ViewChangeRequest)) (b : BftConsensus) : BftConsensus :=
  mkBft (keys b) (validator_set b) (state b) (finalized b) m.

(** ** Locks *)
Inductive Lock := LState | LValidators | LFinalized | LViewChanges.
Definition lock_eqb (l k : Lock) : bool :=
  match l, k with
  | LState, LState | LValidators, LValidators | LFinalized, LFinalized
  | LViewChanges, LViewChanges => true
  | _, _ => false
  end.

(** The guards held: the lock, and whether for writing. *)
Definition Guards : Type := list (Lock * bool).
(** A writer excludes every guard of the lock, a reader the write guard. *)
Definition conflicts (l : Lock) (write : bool) (held : Guards) : bool :=
  existsb (fun '(k, w) => lock_eqb l k && (write || w)) held.
Definition Bft (A : Type) : Type := M (Guards * BftConsensus) ConsensusError A.

Definition with_guard {A} (l : Lock) (write : bool) (body : Bft A) : Bft A := fun '(held, b) =>
  if conflicts l write held then ((held, b), Blocked)
  else let '((_, b'), r) := body ((l, write) :: held, b) in ((held, b'), r).
Definition with_read {A} (l : Lock) (body : Bft A) : Bft A := with_guard l false body.
Definition with_write {A} (l : Lock) (body : Bft A) : Bft A := with_guard l true body.

Definition get_bft : Bft BftConsensus := fun s => (s, Ok (snd s)).
Definition get_round : Bft BftRoundState := fun s => (s, Ok (state (snd s))).
Definition update (f : BftConsensus -> BftConsensus) : Bft () := fun '(held, b) => ((held, f b), Ok ()).
(** A call from a thread that holds no guard. *)
Definition run {A} (call : Bft A) (b : BftConsensus) : BftConsensus * outcome ConsensusError A :=
  let '((_, b'), r) := call ([], b) in (b', r).

Section bft.
Context `{HO : HashOrder} `{CL : CryptoLib}.

(** ** Signing hashes *)
Definition proposal_hash (p : Proposal) : Hash :=
  mkHash (keccak (to_le_bytes 8 (p_view p) ++ to_le_bytes 8 (p_epoch p)
    ++ hash_bytes (p_vertex_hash p) ++ concat (hash_bytes <$> p_parents p))).
Definition vote_hash (prefix view : Z) (vertex_hash : Hash) : Hash :=
  mkHash (keccak ([prefix] ++ to_le_bytes 8 view ++ hash_bytes vertex_hash)).
Definition prepare_hash (v : PrepareVote) : Hash := vote_hash 1 (pv_view v) (pv_vertex_hash v).
Definition commit_hash (v : CommitVote) : Hash := vote_hash 2 (cv_view v) (cv_vertex_hash v).

Definition verify_ecdsa (pubkey message sig_bytes : list Z) : bool :=
  key_ok pubkey && sig_ok sig_bytes && verify_msg pubkey message sig_bytes.

(** ** Leaders *)
Definition is_leader : Bft bool :=
  with_read LState (
    st ← get_round;
    with_read LValidators (
      b ← get_bft;
      let active := address <$> active_validators (validator_set b) in
      match active with
      | [] => mret false
      | _ =>
          let leader_idx := Z.to_nat (view st mod Z.of_nat (length active)) in
          mret (bool_decide (active !! leader_idx = Some (key_address (keys b))))
      end)).

(** The loop of [weighted_leader] *)
Fixpoint pick_weighted (target cum : Z) (active : list Validator) : option Address :=
  match active with
  | [] => None
  | v :: active =>
      let cum := add128 cum (stake v) in
      if target <? cum then Some (address v) else pick_weighted target cum active
  end.
Definition weighted_leader : Bft (option Address) :=
  with_read LValidators (
    b ← get_bft;
    let active := active_validators (validator_set b) in
    let total := sum128 (stake <$> active) in
    if total =? 0 then mret None
    else with_read LState (
      st ← get_round;
      let rand := from_be_bytes (take 16 (keccak (to_le_bytes 8 (view st) ++ to_le_bytes 8 (round_epoch st)))) in
      mret (pick_weighted (rand mod total) 0 active))).
Definition is_weighted_leader (my_addr : Address) : Bft bool :=
  leader ← weighted_leader;
  mret (bool_decide (leader = Some my_addr)).

(** ** Votes *)

(** The stake of the voters, as the code adds it up. *)
Definition voters_stake (vs : ValidatorSet) (voters : list Address) : Z :=
  sum64 (omap (fun a => stake <$> get vs a) voters).

(** [advance_view] *)
Definition next_round (view : Z) (st : BftRoundState) : BftRoundState :=
  mkRound view (round_epoch st) NewRound None ∅ ∅ (locked_vertex st) (locked_view st).
Definition advance_view : Bft () :=
  with_write LState (update (fun b => set_state (next_round (view (state b) +! 1) (state b)) b)).

Definition on_commit (vote : CommitVote) : Bft (option Hash) :=
  pk ← with_read LValidators (
    b ← get_bft;
    lift (v ← ok_or (UnknownValidator (address_debug (cv_voter vote))) (get (validator_set b) (cv_voter vote));
          Ok (pubkey v)));
  if negb (verify_ecdsa pk (hash_bytes (commit_hash vote)) (cv_signature vote))
  then fail InvalidSignature
  else
    done ← with_write LState (
      st ← get_round;
      if negb (bool_decide (phase st = Commit)) then mret false
      else if decide (is_Some (commit_votes st !! cv_voter vote)) then fail DuplicateVote
      else
        let votes := <[cv_voter vote := vote]> (commit_votes st) in
        _ ← update (set_state (mkRound (view st) (round_epoch st) (phase st) (proposal st)
              (prepare_votes st) votes (locked_vertex st) (locked_view st)));
        with_read LValidators (
          b ← get_bft;
          let commit_stake := voters_stake (validator_set b) (cv_voter <$> values votes) in
          if has_supermajority (validator_set b) commit_stake then
            _ ← update (set_state (mkRound (view st) (round_epoch st) PhaseFinalized (proposal st)
                  (prepare_votes st) votes (locked_vertex st) (locked_view st)));
            mret true
          else mret false));
    if (done : bool) then
      _ ← with_write LFinalized (update (fun b => set_finalized ({[cv_vertex_hash vote]} ∪ finalized b) b));
      _ ← advance_view;
      mret (Some (cv_vertex_hash vote))
    else mret None.

Definition vote_commit (vertex_hash : Hash) : Bft () :=
  vote ← with_read LState (
    st ← get_round;
    b ← get_bft;
    mret {| cv_voter := key_address (keys b); cv_view := view st; cv_vertex_hash := vertex_hash;
            cv_signature := sign_hash (keys b) (vote_hash 2 (view st) vertex_hash) |});
  _ ← on_commit vote;
  mret ().

Definition on_prepare (vote : PrepareVote) : Bft () :=
  pk ← with_read LValidators (
    b ← get_bft;
    lift (v ← ok_or (UnknownValidator (address_debug (pv_voter vote))) (get (validator_set b) (pv_voter vote));
          Ok (pubkey v)));
  if negb (verify_ecdsa pk (hash_bytes (prepare_hash vote)) (pv_signature vote))
  then fail InvalidSignature
  else
    locked ← with_write LState (
      st ← get_round;
      if negb (bool_decide (phase st = Prepare)) then mret false
      else if decide (is_Some (prepare_votes st !! pv_voter vote)) then fail DuplicateVote
      else
        let votes := <[pv_voter vote := vote]> (prepare_votes st) in
        _ ← update (set_state (mkRound (view st) (round_epoch st) (phase st) (proposal st)
              votes (commit_votes st) (locked_vertex st) (locked_view st)));
        with_read LValidators (
          b ← get_bft;
          let prepare_stake := voters_stake (validator_set b) (pv_voter <$> values votes) in
          if has_supermajority (validator_set b) prepare_stake then
            _ ← update (set_state (mkRound (view st) (round_epoch st) Commit (proposal st)
                  votes (commit_votes st) (Some (pv_vertex_hash vote)) (view st)));
            mret true
          else mret false));
    if (locked : bool) then vote_commit (pv_vertex_hash vote) else mret ().

Definition vote_prepare (vertex_hash : Hash) : Bft () :=
  vote ← with_read LState (
    st ← get_round;
    b ← get_bft;
    mret {| pv_voter := key_address (keys b); pv_view := view st; pv_vertex_hash := vertex_hash;
            pv_signature := sign_hash (keys b) (vote_hash 1 (view st) vertex_hash) |});
  on_prepare vote.

(** ** Proposals *)
Definition set_proposal (p : Proposal) (b : BftConsensus) : BftConsensus :=
  let st := state b in
  set_state (mkRound (view st) (round_epoch st) Prepare (Some p) (prepare_votes st)
    (commit_votes st) (locked_vertex st) (locked_view st)) b.

Definition propose (vertex_hash : Hash) (parents : list Hash) : Bft Proposal :=
  leader ← is_leader;
  if negb leader then fail NotLeader
  else
    proposal ← with_read LState (
      st ← get_round;
      b ← get_bft;
      let unsigned sig := {| p_proposer := key_address (keys b); p_view := view st;
        p_epoch := round_epoch st; p_vertex_hash := vertex_hash; p_parents := parents;
        p_signature := sig |} in
      mret (unsigned (sign_hash (keys b) (proposal_hash (unsigned [])))));
    _ ← with_write LState (update (set_proposal proposal));
    _ ← vote_prepare vertex_hash;
    mret proposal.

(** [on_proposal]: the first binding of [state] is shadowed later but lives to
    the end of the function. *)
Definition on_proposal (p : Proposal) : Bft () :=
  with_read LState (
    st ← get_round;
    if negb (p_view p =? view st)
    then fail (InvalidProposal ("View mismatch: expected " +:+ pretty (view st) +:+ ", got " +:+ pretty (p_view p)))
    else if match locked_vertex st with
            | Some locked => negb (bool_decide (p_vertex_hash p = locked)) && (p_view p <=? locked_view st)
            | None => false
            end
    then fail (InvalidProposal "Proposal conflicts with locked vertex")
    else
      _ ← with_read LValidators (
        b ← get_bft;
        match get (validator_set b) (p_proposer p) with
        | None => fail (UnknownValidator (address_debug (p_proposer p)))
        | Some proposer =>
            if negb (verify_ecdsa (pubkey proposer) (hash_bytes (proposal_hash p)) (p_signature p))
            then fail InvalidSignature
            else mret ()
        end);
      _ ← with_write LState (update (set_proposal p));
      vote_prepare (p_vertex_hash p)).

(** ** View changes *)
Definition on_view_change (request : ViewChangeRequest) : Bft () :=
  quorum ← with_read LValidators (
    b ← get_bft;
    match get (validator_set b) (requester request) with
    | None => fail (UnknownValidator (address_debug (requester request)))
    | Some _ =>
        with_write LViewChanges (
          b ← get_bft;
          let votes := (default [] (view_change_votes b !! new_view request) ++ [request])%list in
          _ ← update (set_view_changes (<[new_view request := votes]> (view_change_votes b)));
          mret (has_supermajority (validator_set b)
                  (voters_stake (validator_set b) (requester <$> votes))))
    end);
  if (quorum : bool)
  then with_write LState (update (fun b => set_state (next_round (new_view request) (state b)) b))
  else mret ().

Definition request_view_change (new_view : Z) : Bft () :=
  request ← with_read LState (
    st ← get_round;
    b ← get_bft;
    mret {| requester := key_address (keys b); new_view := new_view;
            last_prepared := locked_vertex st;
            vc_signature := sign (keys b) (to_le_bytes 8 new_view) |});
  on_view_change request.

(** ** Queries *)
Definition is_finalized (hash : Hash) (b : BftConsensus) : bool := bool_decide (hash ∈ finalized b).
Definition current_view (b : BftConsensus) : Z := view (state b).
Definition current_phase (b : BftConsensus) : BftPhase := phase (state b).

Definition get_finality_certificate (hash : Hash) : Bft (option (list CommitVote)) :=
  with_read LState (
    st ← get_round;
    let commits := filter (fun v => cv_vertex_hash v = hash) (values (commit_votes st)) in
    with_read LValidators (
      b ← get_bft;
      let stake := voters_stake (validator_set b) (cv_voter <$> commits) in
      mret (if has_supermajority (validator_set b) stake then Some commits else None))).
End bft.
