(* ===== verification/BftFacts.v ===== *)
(** * What the calls of the BFT engine do

    The monadic definitions of Bft.v, run by a thread that holds no lock, in
    closed form; the invariant of the votes; and what a finalized hash is
    evidence of. *)
From S2P Require Import Prelude Types Crypto Quorum Validator Bft.
From stdpp Require Import base numbers list gmap sets strings pretty.
From Stdlib Require Import ZArith Lia.
#[local] Open Scope Z_scope.

Ltac run_bft := cbv beta iota zeta delta [run mbind M_bind outcome_bind mret M_ret outcome_ret
  get_bft get_round update lift fail with_read with_write with_guard conflicts existsb lock_eqb
  andb orb negb fst snd keys validator_set state finalized view_change_votes set_state set_finalized
  set_view_changes ok_or].

Section calls.
Context `{HO : HashOrder} `{CL : CryptoLib}.

(** ** Commit votes *)

(** The round with a vote counted. *)
Definition counted_commit (st : BftRoundState) (vote : CommitVote) : BftRoundState :=
  mkRound (view st) (round_epoch st) (phase st) (proposal st) (prepare_votes st)
    (<[cv_voter vote := vote]> (commit_votes st)) (locked_vertex st) (locked_view st).
Definition commit_reaches (b : BftConsensus) (vote : CommitVote) : bool :=
  has_supermajority (validator_set b) (voters_stake (validator_set b)
    (cv_voter <$> values (<[cv_voter vote := vote]> (commit_votes (state b))))).
(** The engine after the vote that finalizes. *)
Definition finalized_by (b : BftConsensus) (vote : CommitVote) : BftConsensus :=
  mkBft (keys b) (validator_set b) (next_round (view (state b) +! 1) (state b))
    ({[cv_vertex_hash vote]} ∪ finalized b) (view_change_votes b).

Lemma run_on_commit vote b : run (on_commit vote) b =
  match get (validator_set b) (cv_voter vote) with
  | None => (b, Err (UnknownValidator (address_debug (cv_voter vote))))
  | Some v =>
      if negb (verify_ecdsa (pubkey v) (hash_bytes (commit_hash vote)) (cv_signature vote))
      then (b, Err InvalidSignature)
      else if negb (bool_decide (phase (state b) = Commit)) then (b, Ok None)
      else if decide (is_Some (commit_votes (state b) !! cv_voter vote)) then (b, Err DuplicateVote)
      else if commit_reaches b vote then (finalized_by b vote, Ok (Some (cv_vertex_hash vote)))
      else (set_state (counted_commit (state b) vote) b, Ok None)
  end.
Proof.
  unfold on_commit, commit_reaches, advance_view, finalized_by. destruct b as [ks vs st fin vcs].
  run_bft. destruct (get vs (cv_voter vote)) as [v|]; [|reflexivity]. run_bft.
  destruct (verify_ecdsa _ _ _); [|reflexivity]. run_bft.
  case bool_decide_reflect; intros Hp; run_bft; [|reflexivity].
  destruct (decide _); [reflexivity|]. run_bft. unfold counted_commit. rewrite Hp.
  destruct (has_supermajority _ _); reflexivity.
Qed.

Definition own_commit (b : BftConsensus) (h : Hash) : CommitVote :=
  {| cv_voter := key_address (keys b); cv_view := view (state b); cv_vertex_hash := h;
     cv_signature := sign_hash (keys b) (vote_hash 2 (view (state b)) h) |}.
Definition own_prepare (b : BftConsensus) (h : Hash) : PrepareVote :=
  {| pv_voter := key_address (keys b); pv_view := view (state b); pv_vertex_hash := h;
     pv_signature := sign_hash (keys b) (vote_hash 1 (view (state b)) h) |}.

Lemma run_vote_commit h b : run (vote_commit h) b =
  let '(b', r) := run (on_commit (own_commit b h)) b in (b', r ≫= fun _ => Ok ()).
Proof.
  unfold vote_commit, own_commit. destruct b as [ks vs st fin vcs]. run_bft.
  destruct (on_commit _ _) as [[held b'] []]; reflexivity.
Qed.

(** ** Prepare votes *)
Definition prepare_reaches (b : BftConsensus) (vote : PrepareVote) : bool :=
  has_supermajority (validator_set b) (voters_stake (validator_set b)
    (pv_voter <$> values (<[pv_voter vote := vote]> (prepare_votes (state b))))).
Definition counted_prepare (b : BftConsensus) (vote : PrepareVote) : BftConsensus :=
  let st := state b in
  set_state (mkRound (view st) (round_epoch st) (phase st) (proposal st)
    (<[pv_voter vote := vote]> (prepare_votes st)) (commit_votes st) (locked_vertex st)
    (locked_view st)) b.
(** The engine locked on the hash of the vote. *)
Definition locked_by (b : BftConsensus) (vote : PrepareVote) : BftConsensus :=
  let st := state b in
  set_state (mkRound (view st) (round_epoch st) Commit (proposal st)
    (<[pv_voter vote := vote]> (prepare_votes st)) (commit_votes st)
    (Some (pv_vertex_hash vote)) (view st)) b.

Lemma run_on_prepare vote b : run (on_prepare vote) b =
  match get (validator_set b) (pv_voter vote) with
  | None => (b, Err (UnknownValidator (address_debug (pv_voter vote))))
  | Some v =>
      if negb (verify_ecdsa (pubkey v) (hash_bytes (prepare_hash vote)) (pv_signature vote))
      then (b, Err InvalidSignature)
      else if negb (bool_decide (phase (state b) = Prepare)) then (b, Ok ())
      else if decide (is_Some (prepare_votes (state b) !! pv_voter vote)) then (b, Err DuplicateVote)
      else if prepare_reaches b vote then run (vote_commit (pv_vertex_hash vote)) (locked_by b vote)
      else (counted_prepare b vote, Ok ())
  end.
Proof.
  unfold on_prepare, prepare_reaches, counted_prepare, locked_by. destruct b as [ks vs st fin vcs].
  run_bft. destruct (get vs (pv_voter vote)) as [v|]; [|reflexivity]. run_bft.
  destruct (verify_ecdsa _ _ _); [|reflexivity]. run_bft.
  case bool_decide_reflect; intros Hp; run_bft; [|reflexivity].
  destruct (decide _); [reflexivity|]. run_bft. destruct (has_supermajority _ _); [|reflexivity].
  destruct (vote_commit _ _) as [[held b'] r]. reflexivity.
Qed.

Lemma run_vote_prepare h b : run (vote_prepare h) b = run (on_prepare (own_prepare b h)) b.
Proof. destruct b as [ks vs st fin vcs]. reflexivity. Qed.

(** ** Proposals *)
Definition proposal_valid (b : BftConsensus) (p : Proposal) : Prop :=
  p_view p = view (state b) /\
  (forall locked, locked_vertex (state b) = Some locked ->
     p_vertex_hash p = locked \/ locked_view (state b) < p_view p) /\
  exists v, get (validator_set b) (p_proposer p) = Some v /\
    verify_ecdsa (pubkey v) (hash_bytes (proposal_hash p)) (p_signature p) = true.

Lemma run_on_proposal p b : exists r, run (on_proposal p) b = (b, r) /\
  (r = Blocked <-> proposal_valid b p) /\ (r <> Blocked -> exists e, r = Err e).
Proof.
  unfold on_proposal, proposal_valid. destruct b as [ks vs st fin vcs]. run_bft.
  case Z.eqb_spec; intros Hv; run_bft.
  2: { eexists. split; [reflexivity|]. split; [split; [done|by intros [? _]]|eauto]. }
  set (conflict := match locked_vertex st with Some _ => _ | None => false end).
  assert (Hlock : conflict = false <-> forall locked, locked_vertex st = Some locked ->
    p_vertex_hash p = locked \/ locked_view st < p_view p).
  { unfold conflict. destruct (locked_vertex st) as [l|]; [|done].
    case bool_decide_reflect; intros Hl; [split; [intros _ ? [= <-]; by left|done]|].
    case Z.leb_spec; intros Hle; split; try done.
    - intros H. destruct (H l eq_refl); [done|lia].
    - intros _ ? [= <-]. by right. }
  destruct conflict; run_bft.
  { eexists. split; [reflexivity|]. split; [|eauto]. split; [done|]. by intros (_ & ?%Hlock & _). }
  destruct (get vs (p_proposer p)) as [v|]; run_bft.
  2: { eexists. split; [reflexivity|]. split; [|eauto]. split; [done|]. by intros (_ & _ & ? & ? & _). }
  destruct (verify_ecdsa _ _ _) eqn:Hs; run_bft; eexists; (split; [reflexivity|]).
  - split; [|done]. split; [|done]. intros _. split; [done|]. split; [by apply Hlock|]. by exists v.
  - split; [|eauto]. split; [done|]. intros (_ & _ & w & [= <-] & ?). congruence.
Qed.

Definition is_leader_of (b : BftConsensus) : bool :=
  let active := address <$> active_validators (validator_set b) in
  match active with
  | [] => false
  | _ => bool_decide (active !! Z.to_nat (view (state b) mod Z.of_nat (length active))
                      = Some (key_address (keys b)))
  end.
Lemma run_is_leader b : run is_leader b = (b, Ok (is_leader_of b)).
Proof.
  unfold is_leader, is_leader_of. destruct b as [ks vs st fin vcs]. run_bft.
  by destruct (active_validators vs).
Qed.

Definition own_proposal (b : BftConsensus) (h : Hash) (parents : list Hash) : Proposal :=
  let unsigned sig := {| p_proposer := key_address (keys b); p_view := view (state b);
    p_epoch := round_epoch (state b); p_vertex_hash := h; p_parents := parents;
    p_signature := sig |} in
  unsigned (sign_hash (keys b) (proposal_hash (unsigned []))).
Lemma run_propose h parents b : run (propose h parents) b =
  if is_leader_of b then
    let p := own_proposal b h parents in
    let '(b', r) := run (vote_prepare h) (set_proposal p b) in (b', r ≫= fun _ => Ok p)
  else (b, Err NotLeader).
Proof.
  pose proof (run_is_leader b) as Hl. unfold propose. destruct b as [ks vs st fin vcs].
  cbv beta iota zeta delta [run] in Hl.
  cbv beta iota zeta delta [run mbind M_bind]. destruct (is_leader _) as [[held b'] r] eqn:E.
  injection Hl as -> ->. assert (held = []) as ->.
  { revert E. unfold is_leader. run_bft. destruct (address <$> _); by intros [= <- _]. }
  destruct (is_leader_of _); [|reflexivity]. run_bft.
  destruct (vote_prepare _ _) as [[held b'] []]; reflexivity.
Qed.

(** ** View changes *)
Definition recorded_request (b : BftConsensus) (r : ViewChangeRequest) : BftConsensus :=
  set_view_changes (<[new_view r := (default [] (view_change_votes b !! new_view r) ++ [r])%list]>
    (view_change_votes b)) b.
Lemma run_on_view_change r b : run (on_view_change r) b =
  match get (validator_set b) (requester r) with
  | None => (b, Err (UnknownValidator (address_debug (requester r))))
  | Some _ =>
      if has_supermajority (validator_set b) (voters_stake (validator_set b)
           (requester <$> (default [] (view_change_votes b !! new_view r) ++ [r])%list))
      then (set_state (next_round (new_view r) (state b)) (recorded_request b r), Ok ())
      else (recorded_request b r, Ok ())
  end.
Proof.
  unfold on_view_change, recorded_request. destruct b as [ks vs st fin vcs]. run_bft.
  destruct (get vs (requester r)); [|reflexivity]. run_bft.
  destruct (has_supermajority _ _); reflexivity.
Qed.

Lemma run_certificate h b : run (get_finality_certificate h) b =
  let commits := filter (fun v => cv_vertex_hash v = h) (values (commit_votes (state b))) in
  (b, Ok (if has_supermajority (validator_set b) (voters_stake (validator_set b) (cv_voter <$> commits))
          then Some commits else None)).
Proof. destruct b as [ks vs st fin vcs]. reflexivity. Qed.
End calls.

(** ** The invariant of a node *)
Section invariant.
Context `{HO : HashOrder} `{CL : CryptoLib}.

Definition commit_signed (vs : ValidatorSet) (vote : CommitVote) : Prop :=
  exists v, get vs (cv_voter vote) = Some v /\
    verify_ecdsa (pubkey v) (hash_bytes (commit_hash vote)) (cv_signature vote) = true.
Definition prepare_signed (vs : ValidatorSet) (vote : PrepareVote) : Prop :=
  exists v, get vs (pv_voter vote) = Some v /\
    verify_ecdsa (pubkey v) (hash_bytes (prepare_hash vote)) (pv_signature vote) = true.

(** Signed commit votes of distinct validators whose stake the engine takes
    for more than two thirds. *)
Definition commit_quorum (vs : ValidatorSet) (votes : list CommitVote) : Prop :=
  NoDup (cv_voter <$> votes) /\ Forall (commit_signed vs) votes /\
  has_supermajority vs (voters_stake vs (cv_voter <$> votes)) = true.
Definition prepare_quorum (vs : ValidatorSet) (votes : list PrepareVote) : Prop :=
  NoDup (pv_voter <$> votes) /\ Forall (prepare_signed vs) votes /\
  has_supermajority vs (voters_stake vs (pv_voter <$> votes)) = true.

Record bft_inv (b : BftConsensus) : Prop := {
  inv_commits : forall a v, commit_votes (state b) !! a = Some v ->
    cv_voter v = a /\ commit_signed (validator_set b) v;
  inv_prepares : forall a v, prepare_votes (state b) !! a = Some v ->
    pv_voter v = a /\ prepare_signed (validator_set b) v;
  inv_locked : phase (state b) = Commit ->
    locked_view (state b) = view (state b) /\ exists votes h,
      prepare_quorum (validator_set b) votes /\ locked_vertex (state b) = Some h /\
      h ∈ pv_vertex_hash <$> votes;
  inv_finalized : forall h, h ∈ finalized b -> exists votes,
    commit_quorum (validator_set b) votes /\ h ∈ cv_vertex_hash <$> votes
}.

(** Votes filed under their voters have distinct voters. *)
Lemma values_keyed {V} (f : V -> Address) (m : gmap Address V) :
  (forall a v, m !! a = Some v -> f v = a) -> NoDup (f <$> values m).
Proof.
  intros Hm. replace (f <$> values m) with (Prelude.keys m); [apply entries_nodup|].
  unfold Prelude.keys, values. rewrite <- list_fmap_compose. apply list_fmap_ext.
  intros i [k v] Hin. apply list_elem_of_lookup_2, elem_of_entries in Hin. symmetry. by apply Hm.
Qed.

Lemma counted_commits b vote : bft_inv b -> commit_signed (validator_set b) vote ->
  forall a v, <[cv_voter vote := vote]> (commit_votes (state b)) !! a = Some v ->
    cv_voter v = a /\ commit_signed (validator_set b) v.
Proof. intros Hi Hs a v [[<- <-]|[_ Hv]]%lookup_insert_Some; [done|by apply (inv_commits _ Hi)]. Qed.
Lemma counted_prepares b vote : bft_inv b -> prepare_signed (validator_set b) vote ->
  forall a v, <[pv_voter vote := vote]> (prepare_votes (state b)) !! a = Some v ->
    pv_voter v = a /\ prepare_signed (validator_set b) v.
Proof. intros Hi Hs a v [[<- <-]|[_ Hv]]%lookup_insert_Some; [done|by apply (inv_prepares _ Hi)]. Qed.

Lemma commit_reaches_quorum b vote : bft_inv b -> commit_signed (validator_set b) vote ->
  commit_reaches b vote = true -> exists votes,
    commit_quorum (validator_set b) votes /\ cv_vertex_hash vote ∈ cv_vertex_hash <$> votes.
Proof.
  intros Hi Hs Hr. pose proof (counted_commits b vote Hi Hs) as Hc.
  exists (values (<[cv_voter vote := vote]> (commit_votes (state b)))). split.
  - split; [apply values_keyed; intros a v Hv; by apply Hc|]. split; [|exact Hr].
    apply Forall_forall. intros v [a Hv]%elem_of_values. by apply (Hc a).
  - apply list_elem_of_fmap. exists vote. split; [done|]. apply elem_of_values.
    exists (cv_voter vote). apply lookup_insert_eq.
Qed.

Lemma on_commit_inv b vote : bft_inv b -> bft_inv (fst (run (on_commit vote) b)).
Proof.
  intros Hi. rewrite run_on_commit. destruct (get _ _) as [v|] eqn:Hv; [|done].
  destruct (verify_ecdsa _ _ _) eqn:Hsig; [|done]. cbn [negb].
  assert (Hs : commit_signed (validator_set b) vote) by by exists v.
  case bool_decide_reflect; intros Hp; [|done]. cbn [negb].
  destruct (decide _); [done|]. destruct (commit_reaches b vote) eqn:Hr; cbn [fst].
  - split; cbn [finalized_by validator_set state finalized next_round commit_votes prepare_votes phase].
    + by intros a w ?%lookup_empty_Some.
    + by intros a w ?%lookup_empty_Some.
    + done.
    + intros h [->%elem_of_singleton|Hh]%elem_of_union; [by apply commit_reaches_quorum|].
      by apply (inv_finalized _ Hi).
  - destruct Hi as [Hc Hpr Hl Hf]. split; cbn; [|done|done|done].
    apply (counted_commits b vote); [by split|done].
Qed.

Lemma vote_commit_inv b h : bft_inv b -> bft_inv (fst (run (vote_commit h) b)).
Proof.
  intros Hi. rewrite run_vote_commit. pose proof (on_commit_inv b (own_commit b h) Hi) as H.
  by destruct (run (on_commit _) b).
Qed.

Lemma on_prepare_inv b vote : bft_inv b -> bft_inv (fst (run (on_prepare vote) b)).
Proof.
  intros Hi. rewrite run_on_prepare. destruct (get _ _) as [v|] eqn:Hv; [|done].
  destruct (verify_ecdsa _ _ _) eqn:Hsig; [|done]. cbn [negb].
  assert (Hs : prepare_signed (validator_set b) vote) by by exists v.
  pose proof (counted_prepares b vote Hi Hs) as Hcp.
  case bool_decide_reflect; intros Hp; [|done]. cbn [negb].
  destruct (decide _); [done|]. destruct (prepare_reaches b vote) eqn:Hr.
  - apply vote_commit_inv. destruct Hi as [Hc Hpr Hl Hf]. split; cbn; [done|done| |done].
    intros _. split; [done|].
    exists (values (<[pv_voter vote := vote]> (prepare_votes (state b)))), (pv_vertex_hash vote).
    split; [|split; [done|]].
    + split; [apply values_keyed; intros a w Hw; by apply Hcp|]. split; [|exact Hr].
      apply Forall_forall. intros w [a Hw]%elem_of_values. by apply (Hcp a).
    + apply list_elem_of_fmap. exists vote. split; [done|]. apply elem_of_values.
      exists (pv_voter vote). apply lookup_insert_eq.
  - destruct Hi as [Hc Hpr Hl Hf]. split; cbn; [done|exact Hcp|congruence|done].
Qed.

Lemma set_proposal_inv b p : bft_inv b -> bft_inv (set_proposal p b).
Proof. intros [Hc Hpr Hl Hf]. by split. Qed.

Lemma on_view_change_inv b r : bft_inv b -> bft_inv (fst (run (on_view_change r) b)).
Proof.
  intros [Hc Hpr Hl Hf]. rewrite run_on_view_change.
  destruct (get _ _); [|by split]. destruct (has_supermajority _ _); split; cbn; try done;
    by intros a v ?%lookup_empty_Some.
Qed.

(** The public calls of an engine, any of which any peer can provoke. *)
Inductive bft_step : BftConsensus -> BftConsensus -> Prop :=
  | step_proposal p b : bft_step b (fst (run (on_proposal p) b))
  | step_propose h ps b : bft_step b (fst (run (propose h ps) b))
  | step_vote_prepare h b : bft_step b (fst (run (vote_prepare h) b))
  | step_vote_commit h b : bft_step b (fst (run (vote_commit h) b))
  | step_prepare v b : bft_step b (fst (run (on_prepare v) b))
  | step_commit v b : bft_step b (fst (run (on_commit v) b))
  | step_view_change r b : bft_step b (fst (run (on_view_change r) b))
  | step_request n b : bft_step b (fst (run (request_view_change n) b))
  | step_advance b : bft_step b (fst (run advance_view b)).

Lemma run_request n b : run (request_view_change n) b =
  run (on_view_change {| requester := key_address (keys b); new_view := n;
    last_prepared := locked_vertex (state b); vc_signature := sign (keys b) (to_le_bytes 8 n) |}) b.
Proof. destruct b as [ks vs st fin vcs]. reflexivity. Qed.

Lemma bft_step_inv b b' : bft_step b b' -> bft_inv b -> bft_inv b'.
Proof.
  intros Hstep Hi. destruct Hstep as [p b|h ps b|h b|h b|v b|v b|r b|n b|b].
  - destruct (run_on_proposal p b) as (r & -> & _). done.
  - rewrite run_propose. destruct (is_leader_of b); [|done]. cbv zeta. rewrite run_vote_prepare.
    pose proof (on_prepare_inv _ (own_prepare (set_proposal (own_proposal b h ps) b) h)
      (set_proposal_inv b (own_proposal b h ps) Hi)) as H.
    by destruct (run (on_prepare _) _).
  - rewrite run_vote_prepare. by apply on_prepare_inv.
  - by apply vote_commit_inv.
  - by apply on_prepare_inv.
  - by apply on_commit_inv.
  - by apply on_view_change_inv.
  - rewrite run_request. by apply on_view_change_inv.
  - destruct Hi as [Hc Hpr Hl Hf]. destruct b as [ks vs st fin vcs].
    split; cbn; try done; by intros a v ?%lookup_empty_Some.
Qed.

Lemma new_bft_inv ks vs : bft_inv (new_bft ks vs).
Proof. split; cbn; try done; try (by intros a v ?%lookup_empty_Some). Qed.
Lemma reach_inv ks vs b : rtc bft_step (new_bft ks vs) b -> bft_inv b.
Proof.
  generalize (new_bft_inv ks vs). generalize (new_bft ks vs) as b0.
  intros b0 H0 Hr. induction Hr; eauto using bft_step_inv.
Qed.

(** No call changes the validator set or the keys. *)
Lemma on_commit_frame b vote : let b' := fst (run (on_commit vote) b) in
  validator_set b' = validator_set b /\ keys b' = keys b /\ finalized b ⊆ finalized b'.
Proof.
  cbv zeta. rewrite run_on_commit. destruct (get _ _); [|done]. repeat case_match; try done.
  split; [done|]. split; [done|]. cbn. set_solver.
Qed.
End invariant.
