(* ===== verification/BftProps.v ===== *)
(** * Properties of the BFT engine and of the validator set *)
From stdpp Require Import base numbers list gmap sets strings.
From Stdlib Require Import ZArith Lia.
From S2P Require Import Prelude Types Crypto Quorum Validator ValidatorFacts Bft BftFacts.
#[local] Open Scope Z_scope.

Section lemmas.
Context `{HO : HashOrder} `{CL : CryptoLib}.

(** The stake of distinct voters, as a weight. *)
Lemma voters_stake_weight vs l : stakes_ok vs -> NoDup l ->
  voters_stake vs l = weight_of (stake_at vs) l /\
  0 <= weight_of (stake_at vs) l <= map_weight stake (validators vs).
Proof.
  intros Hok Hl. pose proof (stakes_quorum vs Hok) as WQ.
  pose proof (weight_of_nonneg (stake_at vs) l wq_nonneg) as Hn.
  pose proof (weight_of_le_total l Hl) as Hle. split; [|lia].
  assert (E : sumZ (omap (fun a => stake <$> get vs a) l) = weight_of (stake_at vs) l).
  { clear Hl Hn Hle. induction l as [|a l IH]; [done|]. rewrite weight_of_cons, <- IH.
    unfold stake_at, weight_at, get. cbn [omap list_omap].
    by destruct (validators vs !! a). }
  unfold voters_stake. rewrite sum64_small; [done|]. destruct Hok. lia.
Qed.

(** A request repeated [i] times. *)
Lemma voters_stake_replicate vs (r : ViewChangeRequest) v i : get vs (requester r) = Some v ->
  0 <= stake v -> Z.of_nat i * stake v < B64 ->
  voters_stake vs (requester <$> replicate i r) = Z.of_nat i * stake v.
Proof.
  intros Hv Hs Hb. unfold voters_stake.
  assert (E : sumZ (omap (fun a => stake <$> get vs a) (requester <$> replicate i r)) = Z.of_nat i * stake v).
  { clear Hb. induction i as [|i IH]; [done|]. cbn [replicate fmap list_fmap omap list_omap].
    rewrite Hv. cbn [fmap option_fmap option_map]. rewrite sumZ_cons, IH. lia. }
  rewrite sum64_small; rewrite E; lia.
Qed.

Lemma repeat_request_below b r v i : get (validator_set b) (requester r) = Some v ->
  stakes_ok (validator_set b) -> view_change_votes b !! new_view r = None ->
  3 * (Z.of_nat i * stake v) <= 2 * active_stake (validator_set b) ->
  Nat.iter i (fun b => fst (run (on_view_change r) b)) b =
  set_view_changes (match i with O => view_change_votes b
    | _ => <[new_view r := replicate i r]> (view_change_votes b) end) b.
Proof.
  intros Hv Hok Hnone. pose proof (stakes_nonneg _ Hok _ _ Hv) as Hs.
  destruct (active_stake_spec _ Hok) as [_ Ha]. pose proof (stakes_bound _ Hok) as Hb.
  induction i as [|i IH]; intros Hi; [by destruct b|].
  rewrite Nat.iter_succ.
  rewrite IH by nia. rewrite run_on_view_change.
  assert (Hvotes : (default [] (match i with O => view_change_votes b
      | _ => <[new_view r := replicate i r]> (view_change_votes b) end !! new_view r) ++ [r])%list
    = replicate (S i) r).
  { destruct i as [|i]; [by rewrite Hnone|]. rewrite lookup_insert_eq. cbn [default from_option id].
    symmetry. apply replicate_S_end. }
  unfold recorded_request. cbn [set_view_changes validator_set view_change_votes]. rewrite Hv, Hvotes.
  rewrite voters_stake_replicate with (v := v) by (done || lia).
  destruct (has_supermajority _ _) eqn:Hq.
  { rewrite has_supermajority_exact in Hq by (done || lia). unfold supermajority in Hq. lia. }
  cbn [fst]. destruct i; [done|]. unfold set_view_changes. by rewrite insert_insert_eq.
Qed.

Lemma values_singleton {V} (a : Address) (v : V) : values (<[a := v]> (∅ : gmap Address V)) = [v].
Proof.
  apply Permutation_singleton_r. rewrite values_perm. by rewrite insert_empty, map_to_list_singleton.
Qed.
Lemma single_voter_reaches vs a v : get vs a = Some v -> stakes_ok vs ->
  supermajority (stake v) (active_stake vs) ->
  has_supermajority vs (voters_stake vs [a]) = true.
Proof.
  intros Hv Hok Hq. pose proof (stakes_bound _ Hok). pose proof (stakes_nonneg _ Hok _ _ Hv).
  assert (Nd : NoDup [a]) by by apply NoDup_singleton.
  destruct (voters_stake_weight vs _ Hok Nd) as [-> Hr].
  assert (E : weight_of (stake_at vs) [a] = stake v).
  { rewrite weight_of_cons, (stake_at_Some _ _ _ Hv). unfold weight_of. simpl. lia. }
  rewrite E in *. by rewrite has_supermajority_exact by (done || lia).
Qed.
End lemmas.

#[local] Opaque vote_hash sign_hash own_proposal address_debug.

Section props.
Context `{HO : HashOrder} `{CL : CryptoLib}.

(** C2: Every hash that a node has finalized, after any sequence of calls from
    a fresh engine, was finalized by a set of validly signed commit votes of
    distinct validators, at least one of them for that hash, with the stake
    the engine requires; and an engine in the commit phase has locked, in the
    current view, a hash voted for in a quorum of prepare votes. *)
Theorem finalized_has_commit_quorum ks vs b : rtc bft_step (new_bft ks vs) b ->
  (forall h, h ∈ finalized b -> exists votes,
     commit_quorum (validator_set b) votes /\ h ∈ cv_vertex_hash <$> votes) /\
  (phase (state b) = Commit -> locked_view (state b) = view (state b) /\ exists votes h,
     prepare_quorum (validator_set b) votes /\ locked_vertex (state b) = Some h /\
     h ∈ pv_vertex_hash <$> votes).
Proof. intros [Hc Hp Hl Hf]%reach_inv. by split. Qed.

(** C33: A call that handles a received proposal never succeeds: an invalid
    proposal is refused, and a valid one (right view, no conflict with the
    lock, signed by a validator) leaves the engine unchanged and the thread
    waiting for the write guard of the round state while it holds the read
    guard of its first statement. *)
Theorem valid_proposal_deadlocks p b : exists r, run (on_proposal p) b = (b, r) /\
  (r = Blocked <-> proposal_valid b p) /\ (r <> Blocked -> exists e, r = Err e).
Proof. apply run_on_proposal. Qed.

(** The commit vote that completes a supermajority of stake finalizes its
    own hash, whatever hash (and view) the votes already counted are for: if
    they are all for other hashes, the engine finalizes a hash that only the
    last voter supports. *)
Theorem last_commit_vote_decides b vote : phase (state b) = Commit ->
  commit_votes (state b) !! cv_voter vote = None -> commit_signed (validator_set b) vote ->
  commit_reaches b vote = true ->
  (forall a w, commit_votes (state b) !! a = Some w -> cv_vertex_hash w <> cv_vertex_hash vote) ->
  exists b', run (on_commit vote) b = (b', Ok (Some (cv_vertex_hash vote))) /\
    finalized b' = {[cv_vertex_hash vote]} ∪ finalized b /\ view (state b') = view (state b) +! 1 /\
    forall w, w ∈ values (commit_votes (counted_commit (state b) vote)) ->
      cv_vertex_hash w = cv_vertex_hash vote -> w = vote.
Proof.
  intros Hp Hn (v & Hv & Hs) Hr Hother. exists (finalized_by b vote). split.
  - rewrite run_on_commit, Hv, Hs, Hr. cbn [negb]. rewrite bool_decide_true by done. cbn [negb].
    rewrite decide_False; [done|]. rewrite Hn. by intros [].
  - split; [done|]. split; [done|]. cbn [counted_commit commit_votes].
    intros w [a Ha]%elem_of_values E. apply lookup_insert_Some in Ha as [[_ <-]|[_ Ha]]; [done|].
    by destruct (Hother a w Ha).
Qed.

(** C32: A leader whose own stake is a supermajority finalizes what it proposes:
    [propose] returns the proposal, its hash is finalized, and the engine is in
    a new round of the next view. *)
Theorem sole_supermajority_finalizes b h parents v : is_leader_of b = true ->
  get (validator_set b) (key_address (keys b)) = Some v ->
  (forall m, verify_ecdsa (pubkey v) (hash_bytes m) (sign_hash (keys b) m) = true) ->
  prepare_votes (state b) = ∅ -> commit_votes (state b) = ∅ ->
  stakes_ok (validator_set b) -> supermajority (stake v) (active_stake (validator_set b)) ->
  exists b', run (propose h parents) b = (b', Ok (own_proposal b h parents)) /\
    finalized b' = {[h]} ∪ finalized b /\ view (state b') = view (state b) +! 1 /\
    phase (state b') = NewRound.
Proof.
  intros Hlead Hv Hsig Hnp Hnc Hok Hq.
  pose proof (single_voter_reaches _ _ _ Hv Hok Hq) as Hreach.
  rewrite run_propose, Hlead. cbv zeta. rewrite run_vote_prepare, run_on_prepare.
  generalize (own_proposal b h parents). intros p.
  destruct b as [ks vs [vw ep ph pr pvs cvs lv lvw] fin vcs]. simpl in *. subst pvs cvs.
  rewrite Hv. unfold prepare_hash. simpl. rewrite Hsig. simpl.
  rewrite lookup_empty, decide_False by by intros [].
  unfold prepare_reaches. simpl. rewrite values_singleton. simpl. rewrite Hreach.
  rewrite run_vote_commit, run_on_commit. simpl. rewrite Hv. unfold commit_hash. simpl.
  rewrite Hsig. simpl. rewrite lookup_empty, decide_False by by intros [].
  unfold commit_reaches. simpl. rewrite values_singleton. simpl. rewrite Hreach. simpl.
  eexists. split; [reflexivity|]. done.
Qed.

(** One validator with any stake changes the view of a node alone: it
    repeats one request, with any signature at all, until the copies add up to
    a supermajority; the node then moves to the requested view (also a lower
    one) and forgets its proposal and its votes. *)
Theorem one_validator_changes_view b r v : get (validator_set b) (requester r) = Some v ->
  stakes_ok (validator_set b) -> 0 < stake v ->
  2 * active_stake (validator_set b) + 3 * stake v < B64 ->
  view_change_votes b !! new_view r = None ->
  exists n b', Nat.iter n (fun b => fst (run (on_view_change r) b)) b = b' /\
    view (state b') = new_view r /\ phase (state b') = NewRound /\
    prepare_votes (state b') = ∅ /\ commit_votes (state b') = ∅.
Proof.
  intros Hv Hok Hs Hb Hnone. destruct (active_stake_spec _ Hok) as [_ Ha].
  set (act := active_stake (validator_set b)) in *. set (k := Z.to_nat (2 * act / (3 * stake v))).
  assert (Hk : 3 * (Z.of_nat k * stake v) <= 2 * act < 3 * (Z.of_nat (S k) * stake v)).
  { unfold k. rewrite Nat2Z.inj_succ, Z2Nat.id by (apply Z.div_pos; lia).
    pose proof (Z.div_mod (2 * act) (3 * stake v)).
    pose proof (Z.mod_pos_bound (2 * act) (3 * stake v)). nia. }
  assert (Hpos : 0 <= Z.of_nat k * stake v) by nia.
  assert (Hstep : Z.of_nat (S k) * stake v = Z.of_nat k * stake v + stake v) by lia.
  exists (S k). eexists. split; [reflexivity|]. rewrite Nat.iter_succ.
  rewrite (repeat_request_below b r v k Hv Hok Hnone) by (fold act; lia).
  rewrite run_on_view_change. cbn [set_view_changes validator_set view_change_votes]. rewrite Hv.
  assert (Hvotes : (default [] (match k with O => view_change_votes b
      | _ => <[new_view r := replicate k r]> (view_change_votes b) end !! new_view r) ++ [r])%list
    = replicate (S k) r).
  { destruct k as [|j]; [by rewrite Hnone|]. rewrite lookup_insert_eq. cbn [default from_option id].
    symmetry. apply replicate_S_end. }
  rewrite Hvotes, voters_stake_replicate with (v := v) by (done || lia).
  assert (Hq : has_supermajority (validator_set b) (Z.of_nat (S k) * stake v) = true).
  { rewrite has_supermajority_exact by (done || lia). unfold supermajority. fold act. lia. }
  by rewrite Hq.
Qed.

(** A finality certificate that a node hands out holds validly signed
    commit votes of distinct validators for the hash asked for; and right after
    the call that finalizes a hash the node has none, for that hash or any
    other. *)
Theorem certificate_lost_on_finalization ks vs b : rtc bft_step (new_bft ks vs) b ->
  (forall h votes, run (get_finality_certificate h) b = (b, Ok (Some votes)) ->
     commit_quorum (validator_set b) votes /\ Forall (fun v => cv_vertex_hash v = h) votes) /\
  (forall vote b' h, run (on_commit vote) b = (b', Ok (Some h)) ->
     stakes_ok (validator_set b) ->
     forall h', run (get_finality_certificate h') b' = (b', Ok None)).
Proof.
  intros Hi%reach_inv. split.
  - intros h votes. rewrite run_certificate. cbv zeta. destruct (has_supermajority _ _) eqn:Hq; [|done].
    intros [= <-]. split; [|by apply Forall_forall; intros v [? _]%list_elem_of_filter].
    split; [|split; [|done]].
    + apply NoDup_fmap_filter, values_keyed. intros a v Hv. by apply (inv_commits _ Hi).
    + apply Forall_forall. intros v [_ [a Hv]%elem_of_values]%list_elem_of_filter.
      by apply (inv_commits _ Hi a).
  - intros vote b' h Hrun Hok h'. rewrite run_on_commit in Hrun.
    assert (Hb' : b' = finalized_by b vote) by (repeat case_match; simplify_eq; done).
    subst b'. rewrite run_certificate. cbn [finalized_by state next_round commit_votes validator_set].
    assert (Hempty : values (∅ : gmap Address CommitVote) = []).
    { apply Permutation_nil. rewrite values_perm. by rewrite map_to_list_empty. }
    rewrite Hempty. destruct (has_supermajority _ _) eqn:Hq; [|done].
    apply has_supermajority_exact in Hq; [|done|done|done].
    destruct (active_stake_spec _ Hok). unfold supermajority in Hq. cbn in Hq. lia.
Qed.

(** C10: If every registered validator is eligible, two certificates for
    different hashes over one validator set expose common signers with more
    than a third of the active stake. *)
Theorem conflicting_certificates_expose_third vs c1 c2 h1 h2 : stakes_ok vs -> all_eligible vs ->
  commit_quorum vs c1 -> commit_quorum vs c2 ->
  Forall (fun v => cv_vertex_hash v = h1) c1 -> Forall (fun v => cv_vertex_hash v = h2) c2 ->
  h1 <> h2 ->
  let guilty := filter (fun a => a ∈ cv_voter <$> c2) (cv_voter <$> c1) in
  active_stake vs < 3 * weight_of (stake_at vs) guilty /\
  forall a, a ∈ guilty -> exists v w, commit_signed vs v /\ commit_signed vs w /\
    cv_voter v = a /\ cv_voter w = a /\ cv_vertex_hash v <> cv_vertex_hash w.
Proof.
  intros Hok Hel (N1 & S1 & Q1) (N2 & S2 & Q2) H1 H2 Hne. cbv zeta.
  pose proof (stakes_quorum vs Hok) as WQ. pose proof (stakes_bound vs Hok).
  destruct (voters_stake_weight vs _ Hok N1) as [E1 R1], (voters_stake_weight vs _ Hok N2) as [E2 R2].
  rewrite E1 in Q1. rewrite E2 in Q2.
  apply has_supermajority_exact in Q1, Q2; [|done|lia|lia|done|lia|lia].
  rewrite (active_stake_all vs Hok Hel) in *.
  split; [by apply supermajorities_overlap|].
  intros a ((w & -> & Hw)%list_elem_of_fmap & (v & Ev & Hv)%list_elem_of_fmap)%list_elem_of_filter.
  exists v, w. rewrite Forall_forall in S1, S2, H1, H2.
  split; [by apply S1|]. split; [by apply S2|]. split; [done|]. split; [done|].
  by rewrite (H1 v Hv), (H2 w Hw).
Qed.

(** A validator that is jailed or inactive still votes with its stake,
    while the threshold counts active stake only: if its stake exceeds two
    thirds of the active stake it finalizes any hash alone. *)
Theorem ineligible_validator_finalizes_alone b vote v : phase (state b) = Commit ->
  commit_votes (state b) = ∅ -> get (validator_set b) (cv_voter vote) = Some v ->
  is_eligible v (epoch (validator_set b)) = false -> commit_signed (validator_set b) vote ->
  stakes_ok (validator_set b) -> supermajority (stake v) (active_stake (validator_set b)) ->
  run (on_commit vote) b = (finalized_by b vote, Ok (Some (cv_vertex_hash vote))).
Proof.
  intros Hp Hn Hv _ (v' & Hv' & Hs) Hok Hq. rewrite run_on_commit, Hv'. rewrite Hs. cbn [negb].
  rewrite bool_decide_true by done. cbn [negb]. rewrite Hn, lookup_empty.
  rewrite decide_False by by intros []. unfold commit_reaches. rewrite Hn, values_singleton.
  cbn [fmap list_fmap]. by rewrite (single_voter_reaches _ _ _ Hv Hok Hq).
Qed.

(** The stake counter of a validator set differs from the sum of the
    stakes exactly by what the changes applied to it have added: nothing for
    most, the old stake when an address joins again, and the excess when a
    decrease is larger than the stake. *)
Theorem total_stake_drift s change s' : 0 <= total_stake s < B64 ->
  (forall a v, validators s !! a = Some v -> is_u64 (stake v)) ->
  change_fits s change -> apply_change s change = Ok s' ->
  total_stake s' - map_weight stake (validators s')
  = total_stake s - map_weight stake (validators s) + drift_of s change.
Proof. apply drift_apply. Qed.
End props.

(** ** Concrete engines *)
Module Sample.
#[local] Existing Instance canonical_order.
#[local] Existing Instance toy_crypto.

Definition addr (n : Z) : Address := mkAddress (replicate 20 n).
Definition val (n s : Z) : Validator := new_validator (addr n) [n] s.
Definition set_of (l : list Validator) : ValidatorSet :=
  mkSet 0 (list_to_map ((fun v => (address v, v)) <$> l)) (sumZ (stake <$> l)) 10000000000 100.
Definition three : ValidatorSet :=
  set_of [val 1 100000000000; val 2 100000000000; val 3 100000000000].
Definition one : ValidatorSet := set_of [val 1 100000000000].
Definition keys1 : ValidatorKeys := mkKeys [1] (addr 1).
Definition hash_x : Hash := mkHash (replicate 32 7).
Definition hash_y : Hash := mkHash (replicate 32 8).
Definition commit (n : Z) (h : Hash) : CommitVote :=
  {| cv_voter := addr n; cv_view := 0; cv_vertex_hash := h; cv_signature := [n] |}.
(** Two validators have committed to [hash_x]. *)
Definition waiting : BftConsensus := set_state
  (mkRound 0 0 Commit None ∅ (<[addr 1 := commit 1 hash_x]> {[addr 2 := commit 2 hash_x]}) (Some hash_x) 0)
  (new_bft keys1 three).
Definition proposed : BftConsensus := fst (run (propose hash_x []) (new_bft keys1 one)).

Lemma stakes_three : stakes_ok three.
Proof.
  split; [|vm_compute; reflexivity]. intros a v Hv.
  refine (bool_decide_unpack (map_Forall (fun _ v => 0 <= stake v) (validators three)) _ a v Hv).
  vm_compute. exact I.
Qed.
Lemma eligible_three : all_eligible three.
Proof.
  intros a v Hv.
  refine (bool_decide_unpack (map_Forall (fun _ v => is_eligible v 0 = true) (validators three)) _ a v Hv).
  vm_compute. exact I.
Qed.
Lemma stakes_one : stakes_ok one.
Proof.
  split; [|vm_compute; reflexivity]. intros a v Hv.
  refine (bool_decide_unpack (map_Forall (fun _ v => 0 <= stake v) (validators one)) _ a v Hv).
  vm_compute. exact I.
Qed.
Lemma proposed_reach : rtc bft_step (new_bft keys1 one) proposed.
Proof. apply rtc_once, step_propose. Qed.
Lemma signed_three n h : n = 1 \/ n = 2 \/ n = 3 -> commit_signed three (commit n h).
Proof.
  intros [->|[->| ->]]; eexists; (split; [vm_compute; reflexivity|vm_compute; reflexivity]).
Qed.

Lemma finalized_has_commit_quorum_witness : hash_x ∈ finalized proposed /\
  exists votes, commit_quorum (validator_set proposed) votes /\ hash_x ∈ cv_vertex_hash <$> votes.
Proof.
  assert (Hx : hash_x ∈ finalized proposed) by (apply (bool_decide_unpack _); vm_compute; exact I).
  split; [exact Hx|]. by apply (finalized_has_commit_quorum keys1 one proposed proposed_reach).
Defined.

Lemma last_commit_vote_decides_witness :
  exists b', run (on_commit (commit 3 hash_y)) waiting = (b', Ok (Some hash_y)) /\
    finalized b' = {[hash_y]}.
Proof.
  destruct (last_commit_vote_decides waiting (commit 3 hash_y)) as (b' & Hr & Hf & _).
  - reflexivity.
  - vm_compute. reflexivity.
  - apply signed_three. auto.
  - vm_compute. reflexivity.
  - intros a w Hw. refine (bool_decide_unpack (map_Forall (fun _ w => cv_vertex_hash w <> hash_y)
      (commit_votes (state waiting))) _ a w Hw). vm_compute. exact I.
  - exists b'. split; [exact Hr|]. rewrite Hf. cbn. by rewrite (right_id_L ∅ (∪)).
Defined.

Lemma one_validator_changes_view_witness : exists n b',
  Nat.iter n (fun b => fst (run (on_view_change
    {| requester := addr 1; new_view := 99; last_prepared := None; vc_signature := [] |}) b)) waiting = b' /\
  view (state b') = 99 /\ commit_votes (state b') = ∅.
Proof.
  destruct (one_validator_changes_view waiting
    {| requester := addr 1; new_view := 99; last_prepared := None; vc_signature := [] |}
    (val 1 100000000000)) as (n & b' & Hi & Hv & _ & _ & Hc).
  - vm_compute. reflexivity.
  - exact stakes_three.
  - vm_compute. reflexivity.
  - vm_compute. reflexivity.
  - reflexivity.
  - exists n, b'. split; [exact Hi|]. split; [exact Hv|exact Hc].
Defined.

Lemma certificate_lost_on_finalization_witness :
  run (get_finality_certificate hash_x) proposed = (proposed, Ok None) /\
  forall h votes, run (get_finality_certificate h) proposed = (proposed, Ok (Some votes)) ->
    commit_quorum (validator_set proposed) votes.
Proof.
  split; [vm_compute; reflexivity|]. intros h votes H.
  by apply (certificate_lost_on_finalization keys1 one proposed proposed_reach) in H as [H _].
Defined.

Lemma conflicting_certificates_expose_third_witness :
  active_stake three < 3 * weight_of (stake_at three)
    (filter (fun a => a ∈ cv_voter <$> [commit 1 hash_y; commit 2 hash_y; commit 3 hash_y])
       (cv_voter <$> [commit 1 hash_x; commit 2 hash_x; commit 3 hash_x])).
Proof.
  apply (conflicting_certificates_expose_third three
    [commit 1 hash_x; commit 2 hash_x; commit 3 hash_x]
    [commit 1 hash_y; commit 2 hash_y; commit 3 hash_y] hash_x hash_y stakes_three eligible_three).
  1, 2: split; [apply (bool_decide_unpack _); vm_compute; exact I|];
    split; [repeat (constructor; [apply signed_three; auto|]); constructor|vm_compute; reflexivity].
  1, 2: repeat constructor.
  intros H. vm_compute in H. discriminate.
Defined.

(** The first validator is jailed and holds ten times the other's stake. *)
Definition jailed : ValidatorSet :=
  set_of [set_slashed 100000000000 1 9 (val 1 100000000000); val 2 10000000000].
Definition committing : BftConsensus :=
  set_state (mkRound 0 0 Commit None ∅ ∅ None 0) (new_bft keys1 jailed).
Lemma stakes_jailed : stakes_ok jailed.
Proof.
  split; [|vm_compute; reflexivity]. intros a v Hv.
  refine (bool_decide_unpack (map_Forall (fun _ v => 0 <= stake v) (validators jailed)) _ a v Hv).
  vm_compute. exact I.
Qed.
Lemma ineligible_validator_finalizes_alone_witness :
  exists b', run (on_commit (commit 1 hash_y)) committing = (b', Ok (Some hash_y)).
Proof.
  eexists. apply (ineligible_validator_finalizes_alone committing (commit 1 hash_y)
    (set_slashed 100000000000 1 9 (val 1 100000000000))).
  - reflexivity.
  - reflexivity.
  - vm_compute. reflexivity.
  - vm_compute. reflexivity.
  - eexists. split; [vm_compute; reflexivity|vm_compute; reflexivity].
  - exact stakes_jailed.
  - vm_compute. reflexivity.
Defined.

Lemma sole_supermajority_finalizes_witness :
  exists b' p, run (propose hash_x []) (new_bft keys1 one) = (b', Ok p) /\ hash_x ∈ finalized b'.
Proof.
  destruct (sole_supermajority_finalizes (new_bft keys1 one) hash_x [] (val 1 100000000000))
    as (b' & Hr & Hf & _).
  - vm_compute. reflexivity.
  - vm_compute. reflexivity.
  - intros m. vm_compute. reflexivity.
  - reflexivity.
  - reflexivity.
  - exact stakes_one.
  - vm_compute. reflexivity.
  - exists b', (own_proposal (new_bft keys1 one) hash_x []). split; [exact Hr|]. rewrite Hf. set_solver.
Defined.

(** Registering the only validator again doubles its stake in the counter. *)
Lemma total_stake_drift_witness : exists s', apply_change one (Join (val 1 100000000000)) = Ok s' /\
  total_stake s' - map_weight stake (validators s') = 100000000000.
Proof.
  eexists. split; [vm_compute; reflexivity|].
  refine (total_stake_drift one (Join (val 1 100000000000)) _ _ _ _ _).
  - vm_compute. split; [discriminate|reflexivity].
  - intros a v Hv. refine (bool_decide_unpack (map_Forall
      (fun _ v => 0 <= stake v /\ stake v < B64) (validators one)) _ a v Hv). vm_compute. exact I.
  - vm_compute. split; [discriminate|reflexivity].
  - vm_compute. reflexivity.
Defined.
End Sample.
