(* ===== verification/Pos.v ===== *)
(** * Proof of stake (crates/nexus-consensus: pos.rs)

    Registration, delegation, unbonding, reward pools and leader selection.  The
    [RwLock] fields are the components of the state; no call holds two guards of
    one lock, so each call is one step. *)
From stdpp Require Import base numbers list gmap sets strings.
From Stdlib Require Import ZArith Lia.
From S2P Require Import Prelude Types Crypto Quorum Validator.
#[local] Open Scope Z_scope.

Record StakingConfig := {
  min_validator_stake : Z;
  min_delegation : Z;
  unbonding_period : Z;
  max_commission : Z;
  max_commission_change : Z;
  slots_per_epoch : Z;
  epoch_duration : Z;
  double_sign_slash : Z;
  downtime_slash : Z;
  jail_duration : Z
}.
Definition default_staking_config : StakingConfig := {|
  min_validator_stake := 10000000000; min_delegation := 1000000; unbonding_period := 14;
  max_commission := 5000; max_commission_change := 100; slots_per_epoch := 32;
  epoch_duration := 86400; double_sign_slash := 500; downtime_slash := 100; jail_duration := 7 |}.

Record Delegation := mkDelegation {
  d_delegator : Address;
  d_validator : Address;
  d_amount : Z;
  d_shares : Z;
  d_last_claim_epoch : Z
}.
Record UnbondingEntry := mkUnbonding {
  u_delegator : Address;
  u_validator : Address;
  u_amount : Z;
  u_completion_epoch : Z
}.
Record RewardPool := mkPool {
  total_rewards : Z;
  reward_per_share : U256;
  pool_epoch : Z
}.
Definition default_pool : RewardPool := mkPool 0 U256.ZERO 0.

Record ProofOfStake := mkPos {
  pos_config : StakingConfig;
  current_epoch : Z;
  pos_validators : ValidatorSet;
  delegations : gmap Address (list Delegation);
  unbonding : list UnbondingEntry;
  reward_pools : gmap Address RewardPool
}.
Definition new_pos (config : StakingConfig) : ProofOfStake :=
  mkPos config 0 (empty_set 0) ∅ [] ∅.

Definition set_epoch e p := mkPos (pos_config p) e (pos_validators p) (delegations p) (unbonding p) (reward_pools p).
Definition set_pos_validators v p := mkPos (pos_config p) (current_epoch p) v (delegations p) (unbonding p) (reward_pools p).
Definition set_delegations d p := mkPos (pos_config p) (current_epoch p) (pos_validators p) d (unbonding p) (reward_pools p).
Definition set_unbonding u p := mkPos (pos_config p) (current_epoch p) (pos_validators p) (delegations p) u (reward_pools p).
Definition set_pools r p := mkPos (pos_config p) (current_epoch p) (pos_validators p) (delegations p) (unbonding p) r.

Definition register_validator (p : ProofOfStake) (address : Address) (pubkey : list Z)
    (stake commission : Z) : ProofOfStake * outcome ConsensusError () :=
  if stake <? min_validator_stake (pos_config p)
  then (p, Err (InsufficientStake (min_validator_stake (pos_config p)) stake))
  else if max_commission (pos_config p) <? commission
  then (p, Err (InvalidProposal "Commission exceeds maximum"))
  else
    let validator := set_commission commission (new_validator address pubkey stake) in
    match add_validator (pos_validators p) validator with
    | Ok vs => (set_pools (<[address := default_pool]> (reward_pools p)) (set_pos_validators vs p), Ok ())
    | Err e => (p, Err e)
    | Panic => (p, Panic)
    | Blocked => (p, Blocked)
    end.

Definition SHARE_PRECISION : Z := 1000000.
Definition REWARD_SCALE : U256 := U256.from_u64 1000000000000000000.

(** [position], then replace: [iter_mut().find(..)] with an update *)
Fixpoint update_first {A} (P : A -> bool) (f : A -> A) (l : list A) : list A :=
  match l with
  | [] => []
  | x :: l => if P x then f x :: l else x :: update_first P f l
  end.

Section pos.
Context `{HO : HashOrder} `{CL : CryptoLib}.

Definition to_validator (a : Address) (d : Delegation) : bool := bool_decide (d_validator d = a).

Definition total_shares (p : ProofOfStake) (validator : Address) : Z :=
  sum64 (d_shares <$> filter (fun d => d_validator d = validator) (concat (values (delegations p)))).

Definition delegate (p : ProofOfStake) (delegator validator : Address) (amount : Z)
    : ProofOfStake * outcome ConsensusError () :=
  if amount <? min_delegation (pos_config p)
  then (p, Err (InsufficientStake (min_delegation (pos_config p)) amount))
  else
    let shares_before := total_shares p validator in
    match validators (pos_validators p) !! validator with
    | None => (p, Err (UnknownValidator (address_debug validator)))
    | Some v =>
        let shares :=
          if (stake v =? 0) || (shares_before =? 0) then sat_mul64 amount SHARE_PRECISION
          else as_u64 (mul128 amount shares_before / stake v) in
        let vs := with_validators <[validator := set_stake (stake v +! amount) v]> (pos_validators p) in
        let vs := with_total (total_stake vs +! amount) vs in
        let delegation := mkDelegation delegator validator amount shares (current_epoch p) in
        let dels := (default [] (delegations p !! delegator) ++ [delegation])%list in
        (set_delegations (<[delegator := dels]> (delegations p)) (set_pos_validators vs p), Ok ())
    end.

Definition undelegate (p : ProofOfStake) (delegator validator : Address) (amount : Z)
    : ProofOfStake * outcome ConsensusError () :=
  match delegations p !! delegator with
  | None => (p, Err (InvalidProposal "No delegation found"))
  | Some dels =>
      match list_find (fun d => d_validator d = validator) dels with
      | None => (p, Err (InvalidProposal "No delegation to validator"))
      | Some (_, del) =>
          if d_amount del <? amount then (p, Err (InsufficientStake amount (d_amount del)))
          else
            let reduce d := mkDelegation (d_delegator d) (d_validator d) (d_amount d -! amount)
              (sat_sub64 (d_shares d) amount) (d_last_claim_epoch d) in
            let dels := update_first (to_validator validator) reduce dels in
            let dels := if d_amount (reduce del) =? 0
                        then filter (fun d => d_validator d <> validator) dels else dels in
            let p := set_delegations (<[delegator := dels]> (delegations p)) p in
            let vs := pos_validators p in
            let vs := match validators vs !! validator with
                      | Some v =>
                          let vs := with_validators <[validator := set_stake (sat_sub64 (stake v) amount) v]> vs in
                          with_total (sat_sub64 (total_stake vs) amount) vs
                      | None => vs
                      end in
            let p := set_pos_validators vs p in
            let completion := current_epoch p +! unbonding_period (pos_config p) in
            (set_unbonding (unbonding p ++ [mkUnbonding delegator validator amount completion]) p, Ok ())
      end
  end.

(** [distribute_rewards]: what a validator's pool gets *)
Definition validator_reward (total total_stake : Z) (v : Validator) : Z :=
  as_u64 (mul128 total (stake v) / total_stake).
Definition commission_of (reward : Z) (v : Validator) : Z :=
  as_u64 (mul128 reward (commission v) / 10000).
Definition delegator_reward (total total_stake : Z) (v : Validator) : Z :=
  let reward := validator_reward total total_stake v in reward -! commission_of reward v.

(** The update of one pool; the additions before a panic stay. *)
Definition reward_pool (epoch reward stake : Z) (pool : RewardPool)
    : RewardPool * outcome ConsensusError () :=
  let pool := mkPool (total_rewards pool +! reward) (reward_per_share pool) (pool_epoch pool) in
  if 0 <? stake then
    match
      delta ← U256.div (U256.mul (U256.from_u64 reward) REWARD_SCALE) (U256.from_u64 stake);
      U256.add (reward_per_share pool) delta
    with
    | Ok share => (mkPool (total_rewards pool) share epoch, Ok ())
    | Err e => (pool, Err e)
    | Panic => (pool, Panic)
    | Blocked => (pool, Blocked)
    end
  else (mkPool (total_rewards pool) (reward_per_share pool) epoch, Ok ()).

Fixpoint reward_loop (epoch total total_stake : Z) (vs : list Validator)
    (pools : gmap Address RewardPool) : gmap Address RewardPool * outcome ConsensusError () :=
  match vs with
  | [] => (pools, Ok ())
  | v :: vs =>
      match pools !! address v with
      | None => reward_loop epoch total total_stake vs pools
      | Some pool =>
          match reward_pool epoch (delegator_reward total total_stake v) (stake v) pool with
          | (pool, Ok _) => reward_loop epoch total total_stake vs (<[address v := pool]> pools)
          | (pool, r) => (<[address v := pool]> pools, r)
          end
      end
  end.

Definition distribute_rewards (p : ProofOfStake) (total : Z) : ProofOfStake * outcome ConsensusError () :=
  let total_stake := active_stake (pos_validators p) in
  if total_stake =? 0 then (p, Ok ())
  else
    let '(pools, r) := reward_loop (current_epoch p) total total_stake
                         (active_validators (pos_validators p)) (reward_pools p) in
    (set_pools pools p, r).

Definition process_unbonding (p : ProofOfStake) (epoch : Z) : ProofOfStake :=
  set_unbonding (filter (fun entry => epoch < u_completion_epoch entry) (unbonding p)) p.

Definition end_epoch (p : ProofOfStake) (rewards : Z) : ProofOfStake * outcome ConsensusError Z :=
  let new_epoch := current_epoch p +! 1 in
  let p := set_epoch new_epoch p in
  match distribute_rewards p rewards with
  | (p, Ok _) =>
      let p := process_unbonding p new_epoch in
      (set_pos_validators (with_epoch new_epoch (pos_validators p)) p, Ok new_epoch)
  | (p, Err e) => (p, Err e)
  | (p, Panic) => (p, Panic)
  | (p, Blocked) => (p, Blocked)
  end.

(** [claim_rewards]: what one delegation is paid *)
Definition pending_reward (pool : RewardPool) (del : Delegation) : outcome ConsensusError Z :=
  q ← U256.div (U256.mul (U256.from_u64 (d_shares del)) (reward_per_share pool)) REWARD_SCALE;
  Ok (U256.as_u64 q).
Definition claim_step (pools : gmap Address RewardPool) (epoch : Z)
    (acc : list Delegation * Z) (del : Delegation) : outcome ConsensusError (list Delegation * Z) :=
  let '(done, claimed) := acc in
  match pools !! d_validator del with
  | None => Ok (done ++ [del], claimed)
  | Some pool =>
      pending ← pending_reward pool del;
      Ok (done ++ [mkDelegation (d_delegator del) (d_validator del) (d_amount del) (d_shares del) epoch],
          claimed +! pending)
  end.
Definition claim_rewards (p : ProofOfStake) (delegator : Address) : ProofOfStake * outcome ConsensusError Z :=
  match delegations p !! delegator with
  | None => (p, Err (InvalidProposal "No delegations"))
  | Some dels =>
      match for_each (claim_step (reward_pools p) (current_epoch p)) dels ([], 0) with
      | Ok (dels, claimed) => (set_delegations (<[delegator := dels]> (delegations p)) p, Ok claimed)
      | Err e => (p, Err e)
      | Panic => (p, Panic)
      | Blocked => (p, Blocked)
      end
  end.

Definition get_delegations (p : ProofOfStake) (a : Address) : list Delegation :=
  default [] (delegations p !! a).
Definition get_unbonding (p : ProofOfStake) (a : Address) : list UnbondingEntry :=
  filter (fun e => u_delegator e = a) (unbonding p).

(** The loop of [select_leader] *)
Fixpoint pick_leader (target cumulative : Z) (active : list Validator) : option Address :=
  match active with
  | [] => None
  | v :: active =>
      let cumulative := cumulative +! stake v in
      if target <? cumulative then Some (address v) else pick_leader target cumulative active
  end.
Definition leader_seed (epoch slot : Z) (randomness : Hash) : Z :=
  from_le_bytes (take 8 (keccak (to_le_bytes 8 epoch ++ to_le_bytes 8 slot ++ hash_bytes randomness))).
Definition select_leader (p : ProofOfStake) (epoch slot : Z) (randomness : Hash)
    : outcome ConsensusError (option Address) :=
  let active := active_validators (pos_validators p) in
  match active with
  | [] => Ok None
  | _ =>
      target ← mod_u (leader_seed epoch slot randomness) (active_stake (pos_validators p));
      Ok (match pick_leader target 0 active with
          | Some a => Some a
          | None => address <$> last active
          end)
  end.
End pos.
