(* ===== verification/PosProps.v ===== *)
(** * Properties of proof of stake *)
From stdpp Require Import base numbers list gmap sets strings.
From Stdlib Require Import ZArith Lia.
From S2P Require Import Prelude Types U256Facts Crypto Quorum Validator ValidatorFacts Pos.
#[local] Open Scope Z_scope.

(** ** Rewards *)

(** Rounding down each share loses nothing but fractions. *)
Lemma sum_shares_le {A} (f : A -> Z) (l : list A) c t : 0 < t -> 0 <= c ->
  Forall (fun x => 0 <= f x) l ->
  sumZ ((fun x => c * f x / t) <$> l) <= c * sumZ (f <$> l) / t.
Proof.
  intros Ht Hc. induction 1 as [|x l Hx Hl IH]; cbn [fmap list_fmap]; [simpl; by rewrite Z.mul_0_r, Z.div_0_l by lia|].
  rewrite !sumZ_cons. etransitivity; [apply Z.add_le_mono_l, IH|].
  rewrite Z.mul_add_distr_l. apply Z.div_le_lower_bound; [done|].
  rewrite Z.mul_add_distr_l. apply Z.add_le_mono; by apply Z.mul_div_le.
Qed.

Section rewards.
Context (total ts : Z) (Ht : 0 <= total < B64) (Hts : 0 < ts).

Lemma validator_reward_small v : 0 <= stake v <= ts -> ts < B64 ->
  validator_reward total ts v = total * stake v / ts /\ 0 <= validator_reward total ts v <= total.
Proof.
  intros Hs Hb. unfold validator_reward, as_u64.
  assert (Hm : 0 <= total * stake v < B128) by nia.
  rewrite mul128_small by lia.
  assert (Hq : 0 <= total * stake v / ts <= total).
  { split; [apply Z.div_pos; lia|]. apply Z.div_le_upper_bound; nia. }
  rewrite Z.mod_small by lia. lia.
Qed.
Lemma delegator_reward_small v : 0 <= stake v <= ts -> ts < B64 -> 0 <= commission v <= 10000 ->
  0 <= delegator_reward total ts v <= total * stake v / ts.
Proof.
  intros Hs Hb Hc. destruct (validator_reward_small v Hs Hb) as [E Hr].
  unfold delegator_reward. cbv zeta. set (r := validator_reward total ts v) in *.
  assert (Hcom : 0 <= commission_of r v <= r).
  { unfold commission_of, as_u64. rewrite mul128_small by nia.
    assert (0 <= r * commission v / 10000 <= r).
    { split; [apply Z.div_pos; nia|]. apply Z.div_le_upper_bound; nia. }
    rewrite Z.mod_small; lia. }
  rewrite sub64_small; lia.
Qed.
End rewards.

Lemma reward_pool_total epoch r s pool : total_rewards (fst (reward_pool epoch r s pool)) = total_rewards pool +! r.
Proof.
  unfold reward_pool. destruct (0 <? s); [|done]. by destruct (_ ≫= _).
Qed.

Section pos.
Context `{HO : HashOrder} `{CL : CryptoLib}.

Lemma reward_loop_total epoch total ts vs pools :
  Forall (fun v => 0 <= delegator_reward total ts v) vs ->
  (forall a q, pools !! a = Some q -> 0 <= total_rewards q) ->
  map_weight total_rewards pools + sumZ (delegator_reward total ts <$> vs) < B64 ->
  map_weight total_rewards pools
    <= map_weight total_rewards (fst (reward_loop epoch total ts vs pools))
    <= map_weight total_rewards pools + sumZ (delegator_reward total ts <$> vs).
Proof.
  intros Hvs. revert pools. induction Hvs as [|v vs Hv Hvs IH]; intros pools Hp Hb.
  { cbn [reward_loop fst fmap list_fmap]. simpl. lia. }
  cbn [reward_loop]. cbn [fmap list_fmap] in *. rewrite sumZ_cons in *.
  assert (Hrest : 0 <= sumZ (delegator_reward total ts <$> vs)) by by apply sumZ_nonneg, Forall_fmap.
  destruct (pools !! address v) as [pool|] eqn:Hpool.
  2: { destruct (IH pools Hp); lia. }
  pose proof (reward_pool_total epoch (delegator_reward total ts v) (stake v) pool) as Hrt.
  pose proof (Hp _ _ Hpool) as Hpos.
  pose proof (map_weight_delete total_rewards pools _ _ Hpool) as Hdel.
  assert (Hothers : 0 <= map_weight total_rewards (delete (address v) pools)).
  { apply map_weight_nonneg. intros a q [_ Hq]%lookup_delete_Some. by apply (Hp a). }
  rewrite add64_small in Hrt by lia.
  destruct (reward_pool _ _ _ _) as [pool' r]. cbn [fst] in Hrt.
  assert (Hw : map_weight total_rewards (<[address v := pool']> pools) =
    map_weight total_rewards pools + delegator_reward total ts v).
  { rewrite map_weight_insert. unfold weight_at. rewrite Hpool. simpl. lia. }
  assert (Hp' : forall a q, <[address v := pool']> pools !! a = Some q -> 0 <= total_rewards q).
  { intros a q [[_ <-]|[_ Hq]]%lookup_insert_Some; [lia|by apply (Hp a)]. }
  destruct r as [[]| | |]; cbn [fst]; try lia.
  destruct (IH _ Hp'); lia.
Qed.

Lemma active_member p v : v ∈ active_validators p -> exists a, validators p !! a = Some v.
Proof. intros [_ Hv%elem_of_values]%list_elem_of_filter. done. Qed.

(** The members of the active list each hold at most the active stake. *)
Lemma active_stakes s : stakes_ok s ->
  Forall (fun v => 0 <= stake v <= active_stake s) (active_validators s) /\
  active_stake s = sumZ (stake <$> active_validators s) /\ 0 <= active_stake s < B64.
Proof.
  intros Hok. destruct (active_stake_spec s Hok) as [_ Ha]. destruct Hok as [Hs Hb].
  assert (Hpos : Forall (fun v => 0 <= stake v) (active_validators s)).
  { apply Forall_forall. intros v [a Hv]%active_member. by apply (Hs a). }
  assert (Hsum : active_stake s = sumZ (stake <$> active_validators s)).
  { assert (Hle : sumZ (stake <$> active_validators s) <= map_weight stake (validators s)).
    { unfold map_weight. rewrite <- (values_perm (validators s)). unfold active_validators.
      assert (Hall : Forall (fun v => 0 <= stake v) (values (validators s))).
      { apply Forall_forall. intros v [a Hv]%elem_of_values. by apply (Hs a). }
      induction Hall as [|v l Hv Hl IH]; [done|]. rewrite filter_cons. cbn [fmap list_fmap].
      rewrite sumZ_cons. case_decide; cbn [fmap list_fmap]; rewrite ?sumZ_cons; lia. }
    assert (0 <= sumZ (stake <$> active_validators s)) by by apply sumZ_nonneg, Forall_fmap.
    unfold active_stake. rewrite sum64_small; lia. }
  split; [|split; [done|lia]]. rewrite Hsum. clear Hsum Ha.
  apply Forall_forall. intros v Hv. rewrite Forall_forall in Hpos. split; [by apply Hpos|].
  apply elem_of_Permutation in Hv as [l Hl].
  assert (Hl' : Forall (fun v => 0 <= stake v) l).
  { apply Forall_forall. intros w Hw. apply Hpos. rewrite Hl. by right. }
  rewrite Hl. cbn [fmap list_fmap]. rewrite sumZ_cons.
  assert (0 <= sumZ (stake <$> l)) by by apply sumZ_nonneg, Forall_fmap. lia.
Qed.

Lemma filter_neq_nil (a : Address) (l : list Delegation) :
  filter (fun d => d_validator d = a) (filter (fun d => d_validator d <> a) l) = [].
Proof.
  induction l as [|d l IH]; [done|]. rewrite filter_cons. case_decide; [|done].
  rewrite filter_cons. by rewrite decide_False.
Qed.

(** Distributing the rewards of an epoch credits the pools with at most
    the rewards: whatever the order of the validators, and even if the call
    panics half-way, the pools' totals grow by no more than the amount, and no
    pool shrinks the sum. *)
Theorem rewards_are_bounded p total : stakes_ok (pos_validators p) ->
  (forall a v, validators (pos_validators p) !! a = Some v -> 0 <= commission v <= 10000) ->
  (forall a q, reward_pools p !! a = Some q -> 0 <= total_rewards q) ->
  0 <= total -> map_weight total_rewards (reward_pools p) + total < B64 ->
  map_weight total_rewards (reward_pools p)
    <= map_weight total_rewards (reward_pools (fst (distribute_rewards p total)))
    <= map_weight total_rewards (reward_pools p) + total.
Proof.
  intros Hok Hcom Hpools Ht Hb. unfold distribute_rewards.
  pose proof (map_weight_nonneg total_rewards _ Hpools) as Hnn.
  destruct (active_stakes _ Hok) as (Hact & Hsum & Hts).
  destruct (Z.eqb_spec (active_stake (pos_validators p)) 0) as [|Hne]; [simpl; lia|].
  set (ts := active_stake (pos_validators p)) in *. set (vs := active_validators (pos_validators p)) in *.
  assert (Hdr : Forall (fun v => 0 <= delegator_reward total ts v <= total * stake v / ts) vs).
  { apply Forall_forall. intros v Hv. apply delegator_reward_small; try lia.
    - by eapply Forall_forall in Hact.
    - destruct (active_member _ _ Hv) as [a Ha]. by apply (Hcom a). }
  assert (Hle : sumZ (delegator_reward total ts <$> vs) <= total).
  { transitivity (sumZ ((fun v => total * stake v / ts) <$> vs)).
    - clear Hsum Hact. induction Hdr as [|v l Hv _ IH]; [done|]. cbn [fmap list_fmap].
      rewrite !sumZ_cons. lia.
    - etransitivity; [apply sum_shares_le; [lia|done|]|].
      + eapply Forall_impl; [exact Hact|]. simpl. lia.
      + rewrite <- Hsum. by rewrite Z.div_mul. }
  pose proof (reward_loop_total (current_epoch p) total ts vs (reward_pools p)) as Hloop.
  destruct (reward_loop _ _ _ _ _) as [pools r]. cbn [fst set_pools reward_pools] in *.
  enough (map_weight total_rewards (reward_pools p) <= map_weight total_rewards pools
    <= map_weight total_rewards (reward_pools p) + sumZ (delegator_reward total ts <$> vs)) by lia.
  apply Hloop; [|exact Hpools|lia]. eapply Forall_impl; [exact Hdr|]. simpl. lia.
Qed.

(** Undelegating exactly the amount of a delegator's first delegation to a
    validator deletes all its delegations to that validator, while the
    validator's stake and the unbonding queue account only for that amount: the
    other delegations can neither be undelegated nor unbond. *)
Theorem undelegate_discards_siblings p delegator validator dels i del v :
  delegations p !! delegator = Some dels ->
  list_find (fun d => d_validator d = validator) dels = Some (i, del) ->
  validators (pos_validators p) !! validator = Some v ->
  0 <= d_amount del <= stake v ->
  exists p', undelegate p delegator validator (d_amount del) = (p', Ok ()) /\
    filter (fun d => d_validator d = validator) (get_delegations p' delegator) = [] /\
    validators (pos_validators p') !! validator = Some (set_stake (stake v - d_amount del) v) /\
    unbonding p' = (unbonding p ++ [mkUnbonding delegator validator (d_amount del)
      (current_epoch p +! unbonding_period (pos_config p))])%list.
Proof.
  intros Hd Hf Hv Ha. unfold undelegate. rewrite Hd, Hf. rewrite Z.ltb_irrefl.
  cbn [d_amount]. assert (Hz : (d_amount del -! d_amount del =? 0) = true).
  { unfold sub64. by rewrite Z.sub_diag. }
  rewrite Hz. eexists. split; [reflexivity|].
  cbn [set_unbonding set_pos_validators set_delegations delegations pos_validators unbonding].
  split; [|split; [|done]].
  - unfold get_delegations. cbn [delegations set_unbonding set_pos_validators set_delegations].
    rewrite lookup_insert_eq. cbn [default from_option id].
    apply filter_neq_nil.
  - rewrite Hv. cbn [with_total with_validators validators]. rewrite lookup_insert_eq.
    do 2 f_equal. unfold sat_sub64. lia.
Qed.

(** ** Claims *)
Definition claimed_at (epoch : Z) (pools : gmap Address RewardPool) (d : Delegation) : Delegation :=
  match pools !! d_validator d with
  | Some _ => mkDelegation (d_delegator d) (d_validator d) (d_amount d) (d_shares d) epoch
  | None => d
  end.
Lemma claim_step_again pools epoch d done c acc :
  claim_step pools epoch (done, c) d = Ok acc ->
  exists c', acc = ((done ++ [claimed_at epoch pools d])%list, c') /\
  forall done2, claim_step pools epoch (done2, c) (claimed_at epoch pools d)
    = Ok ((done2 ++ [claimed_at epoch pools d])%list, c').
Proof.
  unfold claim_step, claimed_at. destruct (pools !! d_validator d) as [pool|] eqn:Hp.
  - intros (x & Hx & [= <-])%bind_Ok. eexists. split; [reflexivity|]. intros done2.
    cbn [d_validator d_delegator d_amount d_shares]. rewrite Hp.
    unfold pending_reward in *. cbn [d_shares]. by rewrite Hx.
  - intros [= <-]. eexists. split; [reflexivity|]. intros done2. by rewrite Hp.
Qed.
Lemma claim_loop pools epoch dels done c dels' c' :
  for_each (claim_step pools epoch) dels (done, c) = Ok (dels', c') ->
  dels' = (done ++ (claimed_at epoch pools <$> dels))%list /\
  forall done2, for_each (claim_step pools epoch) (claimed_at epoch pools <$> dels) (done2, c)
    = Ok ((done2 ++ (claimed_at epoch pools <$> dels))%list, c').
Proof.
  revert done c. induction dels as [|d dels IH]; intros done c; cbn [for_each fmap list_fmap].
  { intros [= <- <-]. split; [by rewrite app_nil_r|]. intros done2. by rewrite app_nil_r. }
  intros (acc & (c1 & -> & Hstep)%claim_step_again & [-> Hagain]%IH)%bind_Ok.
  split; [by rewrite <- app_assoc|]. intros done2. rewrite Hstep. cbn [mbind outcome_bind].
  rewrite Hagain. by rewrite <- app_assoc.
Qed.

(** Claiming is repeatable: a second [claim_rewards] right after a first
    pays the same amount again and changes nothing, because neither the pools
    nor the delegations record what was paid. *)
Theorem claim_pays_again p delegator p' r :
  claim_rewards p delegator = (p', r) -> claim_rewards p' delegator = (p', r).
Proof.
  unfold claim_rewards. destruct (delegations p !! delegator) as [dels|] eqn:Hd.
  2: { intros [= <- <-]. by rewrite Hd. }
  destruct (for_each _ _ _) as [[dels' c]|e| |] eqn:Hl.
  - intros [= <- <-]. cbn [set_delegations delegations reward_pools current_epoch].
    rewrite lookup_insert_eq. apply claim_loop in Hl as [-> Hagain]. rewrite app_nil_l.
    rewrite Hagain. rewrite app_nil_l. unfold set_delegations. cbn.
    by rewrite insert_insert_eq.
  - intros [= <- <-]. by rewrite Hd, Hl.
  - intros [= <- <-]. by rewrite Hd, Hl.
  - intros [= <- <-]. by rewrite Hd, Hl.
Qed.

(** ** Leaders *)
Lemma pick_leader_interval l1 v l2 target c : Forall (fun v => 0 <= stake v) (l1 ++ v :: l2) ->
  0 <= c -> c + sumZ (stake <$> (l1 ++ v :: l2)) < B64 ->
  c + sumZ (stake <$> l1) <= target < c + sumZ (stake <$> l1) + stake v ->
  pick_leader target c (l1 ++ v :: l2) = Some (address v).
Proof.
  revert c. induction l1 as [|w l1 IH]; intros c Hpos Hc Hb Ht; cbn [app pick_leader].
  - cbn [app fmap list_fmap] in *. rewrite sumZ_cons in Hb. apply Forall_cons in Hpos as [Hv Hl].
    assert (0 <= sumZ (stake <$> l2)) by by apply sumZ_nonneg, Forall_fmap.
    cbn [sumZ foldr] in Ht. rewrite add64_small by lia. case Z.ltb_spec; [done|lia].
  - cbn [app fmap list_fmap] in *. rewrite sumZ_cons in *. apply Forall_cons in Hpos as [Hw Hl].
    assert (0 <= sumZ (stake <$> (l1 ++ v :: l2))) by by apply sumZ_nonneg, Forall_fmap.
    apply Forall_app in Hl as Hl'. destruct Hl' as [Hl1 _].
    assert (0 <= sumZ (stake <$> l1)) by by apply sumZ_nonneg, Forall_fmap.
    rewrite add64_small by lia. case Z.ltb_spec; [lia|]. intros _. apply IH; [done|lia|lia|lia].
Qed.

(** [select_leader] gives each active validator exactly the seeds of its
    stake interval: with the active validators in the order of iteration, the
    leader is the one whose interval contains the seed modulo the active
    stake, so it is chosen in proportion to its stake. *)
Theorem leader_owns_stake_interval p epoch slot randomness l1 v l2 :
  stakes_ok (pos_validators p) -> active_validators (pos_validators p) = l1 ++ v :: l2 ->
  sumZ (stake <$> l1)
    <= leader_seed epoch slot randomness mod active_stake (pos_validators p)
    < sumZ (stake <$> l1) + stake v ->
  select_leader p epoch slot randomness = Ok (Some (address v)).
Proof.
  intros Hok Hact Ht. destruct (active_stakes _ Hok) as (Hall & Hsum & Hb).
  unfold select_leader. rewrite Hact in *.
  assert (Hpos : Forall (fun v => 0 <= stake v) (l1 ++ v :: l2)).
  { eapply Forall_impl; [exact Hall|]. simpl. lia. }
  assert (Hv : 0 < stake v) by lia.
  assert (Hne : 0 < active_stake (pos_validators p)).
  { rewrite Forall_forall in Hall. specialize (Hall v ltac:(set_solver)). lia. }
  destruct (l1 ++ v :: l2) as [|w l] eqn:E; [by destruct l1|]. rewrite <- E in *.
  unfold mod_u. destruct (Z.eqb_spec (active_stake (pos_validators p)) 0); [lia|].
  cbn [mbind outcome_bind]. rewrite pick_leader_interval; [done|done|done|lia|lia].
Qed.
End pos.

(** ** A concrete pool *)
Module Sample.

Definition addr (n : Z) : Address := mkAddress (replicate 20 n).
Definition val (n s : Z) : Validator := new_validator (addr n) [n] s.
Definition registered (l : list (Z * Z)) : ProofOfStake :=
  foldl (fun p '(n, s) => fst (register_validator p (addr n) [n] s 500)) (new_pos default_staking_config) l.
Definition p2 : ProofOfStake := registered [(1, 10000000000); (2, 30000000000)].
Definition delegated : ProofOfStake :=
  fst (@delegate canonical_order toy_crypto
    (fst (@delegate canonical_order toy_crypto p2 (addr 9) (addr 1) 5000000)) (addr 9) (addr 1) 3000000).
Definition seed_hash : Hash := mkHash (replicate 32 0).

Lemma all_of {A} (P : A -> Prop) `{forall x, Decision (P x)} (m : gmap Address A) :
  bool_decide (map_Forall (fun _ v => P v) m) = true -> forall a v, m !! a = Some v -> P v.
Proof. intros Hb a v Hv. by apply bool_decide_eq_true in Hb; apply (Hb a v). Qed.

Lemma stakes_p2 : stakes_ok (pos_validators p2).
Proof.
  split; [apply (all_of (fun v => 0 <= stake v)); vm_compute; reflexivity|vm_compute; reflexivity].
Qed.

Lemma rewards_are_bounded_witness :
  map_weight total_rewards (reward_pools (fst (@distribute_rewards canonical_order p2 1000))) <= 1000.
Proof.
  apply (@rewards_are_bounded canonical_order p2 1000).
  - exact stakes_p2.
  - apply (all_of (fun v => 0 <= commission v <= 10000)). vm_compute. reflexivity.
  - apply (all_of (fun q => 0 <= total_rewards q)). vm_compute. reflexivity.
  - discriminate.
  - vm_compute. reflexivity.
Defined.

(** The second delegation, of 3000000, is gone. *)
Lemma undelegate_discards_siblings_witness : exists p',
  undelegate delegated (addr 9) (addr 1) 5000000 = (p', Ok ()) /\
  filter (fun d => d_validator d = addr 1) (get_delegations p' (addr 9)) = [].
Proof.
  destruct (undelegate_discards_siblings delegated (addr 9) (addr 1)
    (get_delegations delegated (addr 9)) 0
    (default (mkDelegation (addr 0) (addr 0) 0 0 0) (get_delegations delegated (addr 9) !! 0%nat))
    (val 1 10008000000)) as (p' & Hp & Hf & _).
  - vm_compute. reflexivity.
  - vm_compute. reflexivity.
  - vm_compute. reflexivity.
  - vm_compute. split; discriminate.
  - exists p'. split; [exact Hp|exact Hf].
Defined.

Definition funded : ProofOfStake := fst (@distribute_rewards canonical_order delegated 1000000000).
Lemma claim_pays_again_witness : exists p', claim_rewards funded (addr 9) = (p', Ok 118761855072) /\
  claim_rewards p' (addr 9) = (p', Ok 118761855072).
Proof.
  eexists. split; [vm_compute; reflexivity|]. apply (claim_pays_again funded). vm_compute. reflexivity.
Defined.

(** A pool's rewards per share are computed per unit of stake, but paid per
    share, of which the first delegations get a million for each unit: a
    delegator of 8000000 claims more than a hundred times what was distributed
    to all validators together. *)
Lemma claim_exceeds_rewards : map_weight total_rewards (reward_pools funded) <= 1000000000 /\
  snd (claim_rewards funded (addr 9)) = Ok 118761855072.
Proof. split; [vm_compute; discriminate|vm_compute; reflexivity]. Qed.

Lemma leader_owns_stake_interval_witness :
  @select_leader canonical_order toy_crypto p2 0 0 seed_hash = Ok (Some (addr 1)).
Proof.
  apply (@leader_owns_stake_interval canonical_order toy_crypto p2 0 0 seed_hash []
    (val 1 10000000000) [val 2 30000000000]).
  - exact stakes_p2.
  - vm_compute. reflexivity.
  - vm_compute. split; [discriminate|reflexivity].
Defined.

(** Two nodes with the same state and seed elect different leaders when their
    hash maps iterate in different orders. *)
Lemma leader_depends_on_iteration_order :
  @select_leader canonical_order toy_crypto p2 0 0 seed_hash = Ok (Some (addr 1)) /\
  @select_leader reversed_order toy_crypto p2 0 0 seed_hash = Ok (Some (addr 2)).
Proof. split; vm_compute; reflexivity. Qed.
End Sample.
