(* ===== verification/Gas.v ===== *)
(** * Gas (crates/nexus-evm: gas.rs)

    The gas schedule, the EIP-1559 fee market and the gas meter. *)
From stdpp Require Import base numbers list strings.
From Stdlib Require Import ZArith Lia.
From S2P Require Import Prelude Types.
#[local] Open Scope Z_scope.

Record GasSchedule := {
  tx_base : Z; tx_data_zero : Z; tx_data_nonzero : Z; tx_create : Z;
  access_list_address : Z; access_list_storage_key : Z;
  op_base : Z; verylow : Z; low : Z; mid : Z; high : Z; jumpdest : Z;
  memory : Z; copy : Z;
  sload_cold : Z; sload_warm : Z; sstore_set : Z; sstore_reset : Z; sstore_clear_refund : Z;
  cold_account_access : Z; warm_account_access : Z; cold_sload : Z;
  call : Z; call_value_transfer : Z; call_new_account : Z; selfdestruct : Z;
  ecrecover : Z; sha256_base : Z; sha256_word : Z; ripemd160_base : Z; ripemd160_word : Z;
  identity_base : Z; identity_word : Z; modexp_gquad_divisor : Z;
  bn_add : Z; bn_mul : Z; bn_pairing_base : Z; bn_pairing_point : Z; blake2f_round : Z;
  zkp_verify_base : Z; zkp_verify_per_input : Z;
  iso20022_parse_base : Z; iso20022_parse_per_byte : Z
}.

Definition berlin : GasSchedule := {|
  tx_base := 21000; tx_data_zero := 4; tx_data_nonzero := 16; tx_create := 32000;
  access_list_address := 2400; access_list_storage_key := 1900;
  op_base := 2; verylow := 3; low := 5; mid := 8; high := 10; jumpdest := 1;
  memory := 3; copy := 3;
  sload_cold := 2100; sload_warm := 100; sstore_set := 20000; sstore_reset := 2900;
  sstore_clear_refund := 15000;
  cold_account_access := 2600; warm_account_access := 100; cold_sload := 2100;
  call := 100; call_value_transfer := 9000; call_new_account := 25000; selfdestruct := 5000;
  ecrecover := 3000; sha256_base := 60; sha256_word := 12; ripemd160_base := 600;
  ripemd160_word := 120; identity_base := 15; identity_word := 3; modexp_gquad_divisor := 3;
  bn_add := 150; bn_mul := 6000; bn_pairing_base := 45000; bn_pairing_point := 34000;
  blake2f_round := 1;
  zkp_verify_base := 100000; zkp_verify_per_input := 5000;
  iso20022_parse_base := 5000; iso20022_parse_per_byte := 10 |}.

Definition intrinsic_gas (s : GasSchedule) (data : list Z) (is_create : bool)
    (access_list_len : Z) : Z :=
  let gas := tx_base s in
  let gas := if is_create then gas +! tx_create s else gas in
  let gas := foldl (fun gas byte =>
    if byte =? 0 then gas +! tx_data_zero s else gas +! tx_data_nonzero s) gas data in
  gas +! (access_list_len *! access_list_address s).

Definition memory_cost (s : GasSchedule) (size : Z) : Z :=
  let words := (size +! 31) / 32 in
  (words *! memory s) +! ((words *! words) / 512).
Definition memory_expansion_cost (s : GasSchedule) (current_size new_size : Z) : Z :=
  if new_size <=? current_size then 0
  else memory_cost s new_size -! memory_cost s current_size.

Record FeeMarket := {
  base_fee_per_gas : U256;
  max_change_denominator : Z;
  target_gas_per_block : Z;
  fm_gas_limit : Z;
  min_base_fee : U256;
  max_base_fee : option U256
}.
Definition default_fee_market : FeeMarket := {|
  base_fee_per_gas := U256.from_u64 1000000000; max_change_denominator := 8;
  target_gas_per_block := 15000000; fm_gas_limit := 30000000;
  min_base_fee := U256.from_u64 1000000; max_base_fee := None |}.

Section fees.
Context {E : Type}.

(** [base_fee * gas_delta / target / max_change_denominator] *)
Definition fee_change (fm : FeeMarket) (gas_delta : Z) : outcome E U256 :=
  q ← U256.div (U256.mul (base_fee_per_gas fm) (U256.from_u64 gas_delta))
        (U256.from_u64 (target_gas_per_block fm));
  U256.div q (U256.from_u64 (max_change_denominator fm)).

Definition clamp_fee (fm : FeeMarket) (fee : U256) : U256 :=
  let result := U256.max fee (min_base_fee fm) in
  match max_base_fee fm with
  | Some max => U256.min result max
  | None => result
  end.

Definition next_base_fee (fm : FeeMarket) (gas_used : Z) : outcome E U256 :=
  let target := target_gas_per_block fm in
  if gas_used =? target then Ok (base_fee_per_gas fm)
  else
    delta ←
      (if target <? gas_used then
         fee_delta ← fee_change fm (gas_used -! target);
         U256.add (base_fee_per_gas fm) (U256.max fee_delta (U256.from_u64 1))
       else
         fee_delta ← fee_change fm (target -! gas_used);
         Ok (default U256.ZERO (U256.checked_sub (base_fee_per_gas fm) fee_delta)));
    Ok (clamp_fee fm delta).

Definition effective_gas_price (fm : FeeMarket) (max_fee_per_gas max_priority_fee : U256)
    : outcome E U256 :=
  room ← U256.sub max_fee_per_gas (base_fee_per_gas fm);
  U256.add (base_fee_per_gas fm) (U256.min max_priority_fee room).
End fees.

Definition validate_fee (fm : FeeMarket) (max_fee_per_gas max_priority_fee : U256) : bool :=
  U256.leb (base_fee_per_gas fm) max_fee_per_gas && U256.leb max_priority_fee max_fee_per_gas.

Record GasMeter := mkMeter {
  m_gas_limit : Z;
  m_gas_used : Z;
  m_gas_refunded : Z;
  m_schedule : GasSchedule
}.
Definition new_meter (gas_limit : Z) (schedule : GasSchedule) : GasMeter :=
  mkMeter gas_limit 0 0 schedule.

Definition consume (m : GasMeter) (amount : Z) : GasMeter * outcome () () :=
  let new_used := sat_add64 (m_gas_used m) amount in
  if m_gas_limit m <? new_used then (m, Err ())
  else (mkMeter (m_gas_limit m) new_used (m_gas_refunded m) (m_schedule m), Ok ()).
Definition refund (m : GasMeter) (amount : Z) : GasMeter :=
  mkMeter (m_gas_limit m) (m_gas_used m) (sat_add64 (m_gas_refunded m) amount) (m_schedule m).
Definition remaining (m : GasMeter) : Z := sat_sub64 (m_gas_limit m) (m_gas_used m).
Definition refunded (m : GasMeter) : Z :=
  let max_refund := m_gas_used m / 5 in Z.min (m_gas_refunded m) max_refund.
Definition final_used (m : GasMeter) : Z := sat_sub64 (m_gas_used m) (refunded m).

(** [x as i64] and the wrapping arithmetic of [i64] *)
Definition as_i64 (x : Z) : Z := (x + 2 ^ 63) mod 2 ^ 64 - 2 ^ 63.

(** [sstore_gas]: the gas and the refund of writing [new] over [current], when
    the slot held [original] at the start of the transaction. *)
Definition sstore_gas (m : GasMeter) (original current new : U256) (is_cold : bool) : Z * Z :=
  let s := m_schedule m in
  let is_zero v := bool_decide (v = U256.ZERO) in
  let gas := if is_cold then cold_sload s else 0 in
  if bool_decide (current = new) then (gas +! sload_warm s, 0)
  else if bool_decide (original = current) then
    if is_zero original then (gas +! sstore_set s, 0)
    else if is_zero new then (gas +! sstore_reset s, as_i64 (sstore_clear_refund s))
    else (gas +! sstore_reset s, 0)
  else
    let gas := gas +! sload_warm s in
    let refund :=
      if negb (is_zero original) then
        if is_zero current then as_i64 (0 - as_i64 (sstore_clear_refund s))
        else if is_zero new then as_i64 (0 + as_i64 (sstore_clear_refund s))
        else 0
      else 0 in
    let refund :=
      if bool_decide (original = new) then
        if is_zero original
        then as_i64 (refund + as_i64 (sstore_set s -! sload_warm s))
        else as_i64 (refund + as_i64 (sstore_reset s -! sload_warm s))
      else refund in
    (gas, refund).
