(* ===== verification/Receipt.v ===== *)
(** * Receipts and bloom filters (crates/nexus-evm: receipt.rs) *)
From stdpp Require Import base numbers list strings.
From Stdlib Require Import ZArith Lia.
From S2P Require Import Prelude Types Crypto.
#[local] Open Scope Z_scope.

Record Log := { log_address : Address; log_topics : list Hash; log_data : list Z }.

Inductive ExecutionStatus := StatusSuccess | StatusRevert | StatusFailure.

Record ExecutionResult := mkResult {
  success : bool;
  gas_used : Z;
  gas_refunded : Z;
  output : list Z;
  logs : list Log;
  created_address : option Address
}.
Definition exec_success (used refunded : Z) (out : list Z) (ls : list Log) : ExecutionResult :=
  mkResult true used refunded out ls None.
Definition exec_revert (used : Z) (out : list Z) : ExecutionResult :=
  mkResult false used 0 out [] None.

(** [String::from_utf8]: well-formed UTF-8 only; a [String] is its bytes. *)
Fixpoint utf8_ok (fuel : nat) (l : list Z) : bool :=
  let cont b := (128 <=? b) && (b <=? 191) in
  match fuel, l with
  | _, [] => true
  | O, _ => false
  | S fuel, b0 :: l1 =>
      if b0 <? 128 then utf8_ok fuel l1
      else match l1 with
      | b1 :: l2 =>
          if (194 <=? b0) && (b0 <=? 223) then cont b1 && utf8_ok fuel l2
          else match l2 with
          | b2 :: l3 =>
              if (224 <=? b0) && (b0 <=? 239) then
                (if b0 =? 224 then 160 <=? b1 else 128 <=? b1)
                && (if b0 =? 237 then b1 <=? 159 else b1 <=? 191)
                && cont b2 && utf8_ok fuel l3
              else match l3 with
              | b3 :: l4 =>
                  (240 <=? b0) && (b0 <=? 244)
                  && (if b0 =? 240 then 144 <=? b1 else 128 <=? b1)
                  && (if b0 =? 244 then b1 <=? 143 else b1 <=? 191)
                  && cont b2 && cont b3 && utf8_ok fuel l4
              | [] => false
              end
          | [] => false
          end
      | [] => false
      end
  end.
Definition string_from_utf8 (l : list Z) : option string :=
  if utf8_ok (length l) l
  then Some (foldr (fun b s => String (Ascii.ascii_of_N (Z.to_N b)) s) EmptyString l)
  else None.

(** [ExecutionResult::revert_reason]; a slice whose end is before its start panics *)
Definition revert_reason {E} (r : ExecutionResult) : outcome E (option string) :=
  let out_len := Z.of_nat (length (output r)) in
  if success r || (out_len <? 4) then Ok None
  else if negb (bool_decide (take 4 (output r) = [8; 195; 121; 160])) then Ok None
  else if out_len <? 68 then Ok None
  else
    let len_offset := 36%nat in
    let len := from_be_bytes (take 8 (drop (len_offset + 24) (output r))) in
    let string_offset := 68 in
    let string_end := string_offset +! len in
    if out_len <? string_end then Ok None
    else if string_end <? string_offset then Panic
    else Ok (string_from_utf8 (take (Z.to_nat len) (drop 68 (output r)))).

(** ** Bloom filter: 256 bytes *)
Abbreviation Bloom := (list Z) (only parsing).
Definition bloom_default : Bloom := replicate 256 0.

(** The three bits of a digest *)
Definition bit_index (hash : list Z) (i : nat) : Z :=
  Z.lor (Z.shiftl (nth (2 * i) hash 0) 8) (nth (2 * i + 1) hash 0) mod 2048.
Definition set_index (bloom : Bloom) (index : Z) : Bloom :=
  alter (fun byte => Z.lor byte (Z.shiftl 1 (index mod 8))) (Z.to_nat (index / 8)) bloom.
Definition test_index (bloom : Bloom) (index : Z) : bool :=
  negb (Z.land (nth (Z.to_nat (index / 8)) bloom 0) (Z.shiftl 1 (index mod 8)) =? 0).

Definition accrue_raw (hash : list Z) (bloom : Bloom) : Bloom :=
  foldl (fun bloom i => set_index bloom (bit_index hash i)) bloom [0; 1; 2]%nat.
Definition contains_raw (bloom : Bloom) (hash : list Z) : bool :=
  forallb (fun i => test_index bloom (bit_index hash i)) [0; 1; 2]%nat.

Section bloom.
Context `{CryptoLib}.

Definition accrue_address (a : Address) (bloom : Bloom) : Bloom := accrue_raw (keccak (addr_bytes a)) bloom.
Definition accrue_hash (h : Hash) (bloom : Bloom) : Bloom := accrue_raw (keccak (hash_bytes h)) bloom.
Definition contains_address (bloom : Bloom) (a : Address) : bool := contains_raw bloom (keccak (addr_bytes a)).
Definition contains_hash (bloom : Bloom) (h : Hash) : bool := contains_raw bloom (keccak (hash_bytes h)).

Definition accrue_log (bloom : Bloom) (log : Log) : Bloom :=
  foldl (fun bloom topic => accrue_hash topic bloom) (accrue_address (log_address log) bloom) (log_topics log).
Definition from_logs (ls : list Log) : Bloom := foldl accrue_log bloom_default ls.
End bloom.

(** [combine]: byte by byte *)
Definition combine (b1 b2 : Bloom) : Bloom := zip_with Z.lor b1 b2.

Record Receipt := {
  r_tx_hash : Hash;
  r_tx_index : Z;
  r_vertex_hash : Hash;
  r_status : ExecutionStatus;
  r_cumulative_gas_used : Z;
  r_gas_used : Z;
  r_effective_gas_price : U256;
  r_contract_address : option Address;
  r_logs : list Log;
  r_logs_bloom : Bloom;
  r_revert_reason : option string
}.
Section receipts.
Context `{CryptoLib}.

Definition receipt_success (tx_hash vertex_hash : Hash) (used : Z) (price : U256) (ls : list Log) : Receipt := {|
  r_tx_hash := tx_hash; r_tx_index := 0; r_vertex_hash := vertex_hash; r_status := StatusSuccess;
  r_cumulative_gas_used := used; r_gas_used := used; r_effective_gas_price := price;
  r_contract_address := None; r_logs := ls; r_logs_bloom := from_logs ls; r_revert_reason := None |}.
Definition receipt_revert (tx_hash vertex_hash : Hash) (used : Z) (price : U256) (reason : string) : Receipt := {|
  r_tx_hash := tx_hash; r_tx_index := 0; r_vertex_hash := vertex_hash; r_status := StatusRevert;
  r_cumulative_gas_used := used; r_gas_used := used; r_effective_gas_price := price;
  r_contract_address := None; r_logs := []; r_logs_bloom := bloom_default; r_revert_reason := Some reason |}.
Definition receipt_failure (tx_hash vertex_hash : Hash) (used : Z) (price : U256) : Receipt := {|
  r_tx_hash := tx_hash; r_tx_index := 0; r_vertex_hash := vertex_hash; r_status := StatusFailure;
  r_cumulative_gas_used := used; r_gas_used := used; r_effective_gas_price := price;
  r_contract_address := None; r_logs := []; r_logs_bloom := bloom_default; r_revert_reason := None |}.
End receipts.

(** ** No false negatives *)

(** Every bit of [b1] is in [b2]. *)
Definition covers (b1 b2 : Bloom) : Prop := forall i, test_index b1 i = true -> test_index b2 i = true.

Lemma test_index_testbit b i : test_index b i = Z.testbit (nth (Z.to_nat (i / 8)) b 0) (i mod 8).
Proof.
  unfold test_index. rewrite Z.shiftl_1_l. pose proof (Z.mod_pos_bound i 8).
  destruct (Z.testbit (nth (Z.to_nat (i / 8)) b 0) (i mod 8)) eqn:E.
  - apply negb_true_iff, Z.eqb_neq. intros H0. apply (f_equal (fun z => Z.testbit z (i mod 8))) in H0.
    rewrite Z.land_spec, Z.pow2_bits_true, E, Z.bits_0 in H0 by lia. done.
  - apply negb_false_iff, Z.eqb_eq. apply Z.bits_inj'. intros n Hn.
    rewrite Z.land_spec, Z.bits_0, Z.pow2_bits_eqb by lia.
    destruct (Z.eqb_spec (i mod 8) n) as [<-|]; [by rewrite E|apply andb_false_r].
Qed.
Lemma nth_alter (f : Z -> Z) (b : Bloom) k j : nth j (alter f k b) 0 =
  if decide (k = j /\ (k < length b)%nat) then f (nth j b 0) else nth j b 0.
Proof.
  rewrite !nth_lookup, list_lookup_alter.
  destruct (decide (k = j /\ (k < length b)%nat)) as [[-> H]|H].
  - rewrite decide_True by done.
    apply lookup_lt_is_Some in H as [x ->]. done.
  - destruct (decide (k = j)) as [->|Hne]; [|done].
    rewrite (lookup_ge_None_2 b j); [done|]. lia.
Qed.
Lemma set_index_test b i j : length b = 256%nat -> 0 <= i < 2048 -> 0 <= j ->
  test_index (set_index b i) j = test_index b j || bool_decide (i = j).
Proof.
  intros Hl Hi Hj. rewrite !test_index_testbit. unfold set_index. rewrite nth_alter, Hl, Z.shiftl_1_l.
  pose proof (Z.mod_pos_bound i 8). pose proof (Z.mod_pos_bound j 8).
  pose proof (Z.div_mod i 8). pose proof (Z.div_mod j 8).
  assert (0 <= i / 8 < 256) by (split; [apply Z.div_pos; lia|apply Z.div_lt_upper_bound; lia]).
  assert (0 <= j / 8) by (apply Z.div_pos; lia).
  case_decide as Hd.
  - destruct Hd as [Hd _]. apply Z2Nat.inj in Hd; [|lia..].
    rewrite Z.lor_spec, Z.pow2_bits_eqb by lia. f_equal.
    case bool_decide_reflect; intros Hij; [subst; apply Z.eqb_refl|]. apply Z.eqb_neq. lia.
  - rewrite bool_decide_false, orb_false_r; [done|]. intros ->. apply Hd. lia.
Qed.
Lemma bit_index_range hash i : 0 <= bit_index hash i < 2048.
Proof. apply Z.mod_pos_bound. lia. Qed.
Lemma set_index_length b i : length (set_index b i) = length b.
Proof. apply length_alter. Qed.
Lemma accrue_raw_length hash b : length (accrue_raw hash b) = length b.
Proof. unfold accrue_raw. cbn [foldl]. by rewrite !set_index_length. Qed.

Lemma accrue_raw_test hash b j : length b = 256%nat -> 0 <= j ->
  test_index (accrue_raw hash b) j = test_index b j || bool_decide (bit_index hash 0 = j)
    || bool_decide (bit_index hash 1 = j) || bool_decide (bit_index hash 2 = j).
Proof.
  intros Hl Hj. unfold accrue_raw. cbn [foldl].
  rewrite !set_index_test; rewrite ?set_index_length; auto using bit_index_range.
Qed.
(** A digest once accrued is contained, and stays so. *)
Lemma contains_accrued hash b : length b = 256%nat -> contains_raw (accrue_raw hash b) hash = true.
Proof.
  intros Hl. unfold contains_raw. cbn [forallb].
  rewrite !accrue_raw_test by (done || apply bit_index_range).
  assert (Hrefl : forall z : Z, bool_decide (z = z) = true) by (intros z; by apply bool_decide_true).
  by rewrite !Hrefl, !orb_true_r.
Qed.
Lemma contains_after hash hash' b : length b = 256%nat -> contains_raw b hash = true ->
  contains_raw (accrue_raw hash' b) hash = true.
Proof.
  intros Hl. unfold contains_raw. rewrite !forallb_forall. intros H i Hi.
  rewrite accrue_raw_test by (done || apply bit_index_range). by rewrite (H i Hi).
Qed.

Section props.
Context `{CL : CryptoLib}.

Lemma accrue_topics_length (ts : list Hash) b :
  length (foldl (fun b t => accrue_hash t b) b ts) = length b.
Proof. revert b. induction ts as [|t ts IH]; intros b; cbn [foldl]; [done|]. rewrite IH. apply accrue_raw_length. Qed.
Lemma accrue_log_length b log : length (accrue_log b log) = length b.
Proof. unfold accrue_log. rewrite accrue_topics_length. apply accrue_raw_length. Qed.
Ltac bloom_length := etransitivity; [first [apply accrue_raw_length|apply accrue_log_length]|done].

Lemma topics_keep hash (ts : list Hash) b : length b = 256%nat -> contains_raw b hash = true ->
  contains_raw (foldl (fun b t => accrue_hash t b) b ts) hash = true.
Proof.
  revert b. induction ts as [|t ts IH]; intros b Hl Hc; cbn [foldl]; [done|].
  apply IH; [bloom_length|by apply contains_after].
Qed.
Lemma logs_keep hash (ls : list Log) b : length b = 256%nat -> contains_raw b hash = true ->
  contains_raw (foldl accrue_log b ls) hash = true.
Proof.
  revert b. induction ls as [|log ls IH]; intros b Hl Hc; cbn [foldl]; [done|].
  apply IH; [bloom_length|]. apply topics_keep; [bloom_length|].
  by apply contains_after.
Qed.
Lemma topics_found (ts : list Hash) t b : length b = 256%nat -> t ∈ ts ->
  contains_raw (foldl (fun b t => accrue_hash t b) b ts) (keccak (hash_bytes t)) = true.
Proof.
  revert b. induction ts as [|t' ts IH]; intros b Hl Ht; [by apply not_elem_of_nil in Ht|].
  cbn [foldl]. apply elem_of_cons in Ht as [<-|Ht]; [|by apply IH; [bloom_length|]].
  apply topics_keep; [bloom_length|by apply contains_accrued].
Qed.

(** The bloom filter of a receipt has no false negatives: the address and
    every topic of every log are reported as contained, so a search that trusts
    the filter misses no log. *)
Theorem bloom_has_no_false_negatives ls log : log ∈ ls ->
  contains_address (from_logs ls) (log_address log) = true /\
  forall t, t ∈ log_topics log -> contains_hash (from_logs ls) t = true.
Proof.
  intros Hin. unfold from_logs.
  assert (Hgen : forall b, length b = 256%nat ->
    contains_raw (foldl accrue_log b ls) (keccak (addr_bytes (log_address log))) = true /\
    forall t, t ∈ log_topics log -> contains_raw (foldl accrue_log b ls) (keccak (hash_bytes t)) = true).
  { induction ls as [|log' ls IH]; intros b Hl; [by apply not_elem_of_nil in Hin|]. cbn [foldl].
    apply elem_of_cons in Hin as [<-|Hin]; [|by apply IH; [|bloom_length]]. split.
    - apply logs_keep; [bloom_length|]. apply topics_keep; [bloom_length|].
      by apply contains_accrued.
    - intros t Ht. apply logs_keep; [bloom_length|]. apply topics_found; [|done].
      bloom_length. }
  by apply Hgen.
Qed.
End props.

Definition sample_log : Log :=
  {| log_address := mkAddress (replicate 20 5); log_topics := [mkHash (replicate 32 7)]; log_data := [] |}.
Lemma bloom_has_no_false_negatives_witness :
  @contains_address toy_crypto (@from_logs toy_crypto [sample_log]) (log_address sample_log) = true.
Proof.
  exact (proj1 (@bloom_has_no_false_negatives toy_crypto [sample_log] sample_log
    (list_elem_of_here _ _))).
Defined.
