(* ===== verification/GasProps.v ===== *)
(** * Properties of the fee market and the gas meter *)
From stdpp Require Import base numbers list strings relations.
From Stdlib Require Import ZArith Lia.
From S2P Require Import Prelude Types U256Facts Crypto Transaction Gas.
Import U256Facts.
#[local] Open Scope Z_scope.

(** ** The base fee *)
Record market_ok (fm : FeeMarket) : Prop := {
  market_base : wf (base_fee_per_gas fm);
  market_min : wf (min_base_fee fm);
  market_max : forall m, max_base_fee fm = Some m -> wf m;
  market_target : 0 < target_gas_per_block fm < B64;
  market_denominator : 0 < max_change_denominator fm < B64
}.

Lemma is_u64_from v : 0 <= v < B64 -> wf (U256.from_u64 v).
Proof. intros. by apply wf_from_u64. Qed.

Lemma fee_change_Ok {E} fm d : market_ok fm -> 0 <= d < B64 ->
  to_Z (base_fee_per_gas fm) * d < B256 ->
  exists q, @fee_change E fm d = Ok q /\ wf q /\
    to_Z q = to_Z (base_fee_per_gas fm) * d / target_gas_per_block fm / max_change_denominator fm.
Proof.
  intros [Hb _ _ Ht Hd] Hdelta Hov. unfold fee_change.
  destruct (mul_spec _ _ Hb (is_u64_from d Hdelta)) as [Wm Em].
  rewrite to_Z_from_u64 in Em. pose proof (to_Z_range _ Hb) as Rb.
  rewrite Z.mod_small in Em by nia.
  destruct (@div_Ok E _ (U256.from_u64 (target_gas_per_block fm)) Wm) as (q & -> & Wq & Eq);
    [apply is_u64_from; lia|rewrite to_Z_from_u64; lia|].
  cbn [mbind outcome_bind].
  destruct (@div_Ok E q (U256.from_u64 (max_change_denominator fm)) Wq) as (q' & -> & Wq' & Eq');
    [apply is_u64_from; lia|rewrite to_Z_from_u64; lia|].
  exists q'. split; [done|]. split; [done|]. by rewrite Eq', Eq, Em, !to_Z_from_u64.
Qed.

Lemma clamp_fee_spec fm x : market_ok fm -> wf x -> to_Z (clamp_fee fm x) =
  match max_base_fee fm with
  | Some m => Z.min (Z.max (to_Z x) (to_Z (min_base_fee fm))) (to_Z m)
  | None => Z.max (to_Z x) (to_Z (min_base_fee fm))
  end.
Proof.
  intros [_ Hmin Hmax _ _] Hx. unfold clamp_fee. destruct (max_spec x _ Hx Hmin) as [Wm Em].
  destruct (max_base_fee fm) as [m|]; [|done].
  destruct (min_spec _ m Wm (Hmax m eq_refl)) as [_ E]. by rewrite E, Em.
Qed.

(** Moving by at most the target moves the fee by at most a [d]-th. *)
Lemma fee_change_bound b d t k : 0 <= b -> 0 <= d <= t -> 0 < t -> 0 < k ->
  0 <= b * d / t / k <= b / k.
Proof.
  intros Hb Hd Ht Hk. assert (0 <= b * d / t <= b).
  { split; [apply Z.div_pos; nia|]. apply Z.div_le_upper_bound; nia. }
  split; [apply Z.div_pos; lia|]. apply Z.div_le_mono; lia.
Qed.

(** When a block uses no more than twice its target, the next base fee
    exists and differs from the current one by at most the configured fraction
    (1/8 by default; upward at least 1), before it is clamped to the minimum
    and the optional maximum; it rises above the target, does not rise below
    it, and stays exactly as it is on the target, even outside the bounds. *)
Theorem base_fee_step_is_bounded {E} fm gas_used : market_ok fm -> 0 <= gas_used ->
  gas_used <= 2 * target_gas_per_block fm -> gas_used < B64 ->
  (to_Z (base_fee_per_gas fm) + 1) * B64 < B256 ->
  let b := to_Z (base_fee_per_gas fm) in
  let d := max_change_denominator fm in
  exists r, @next_base_fee E fm gas_used = Ok r /\
    (gas_used = target_gas_per_block fm -> r = base_fee_per_gas fm) /\
    (gas_used <> target_gas_per_block fm -> exists x,
      to_Z r = match max_base_fee fm with
               | Some m => Z.min (Z.max x (to_Z (min_base_fee fm))) (to_Z m)
               | None => Z.max x (to_Z (min_base_fee fm))
               end /\
      (gas_used < target_gas_per_block fm -> b - b / d <= x <= b) /\
      (target_gas_per_block fm < gas_used -> b < x <= b + Z.max (b / d) 1)).
Proof.
  intros Hok Hg Hg2 Hg64 Hov. cbv zeta. unfold next_base_fee. cbv zeta.
  pose proof (market_target _ Hok) as Ht. pose proof (market_denominator _ Hok) as Hd.
  pose proof (market_base _ Hok) as Wb. pose proof (to_Z_range _ Wb) as Rb.
  set (b := to_Z (base_fee_per_gas fm)) in *.
  destruct (Z.eqb_spec gas_used (target_gas_per_block fm)) as [|Hne]; [eexists; split; [done|]; done|].
  case Z.ltb_spec; intros Hlt.
  - rewrite sub64_small by lia.
    destruct (@fee_change_Ok E fm (gas_used - target_gas_per_block fm) Hok) as (q & -> & Wq & Eq);
      [lia|fold b; nia|]. cbn [mbind outcome_bind]. fold b in Eq.
    destruct (max_spec q (U256.from_u64 1) Wq (is_u64_from 1 ltac:(lia))) as [Wm Em].
    rewrite to_Z_from_u64 in Em.
    pose proof (fee_change_bound b (gas_used - target_gas_per_block fm) (target_gas_per_block fm)
      (max_change_denominator fm) ltac:(lia) ltac:(lia) ltac:(lia) ltac:(lia)) as Hbd.
    assert (b / max_change_denominator fm <= b) by (apply Z.div_le_upper_bound; nia).
    destruct (checked_add_Some (base_fee_per_gas fm) (U256.max q (U256.from_u64 1)) Wb Wm)
      as (r & Hr & Wr & Er); [fold b; nia|].
    unfold U256.add. rewrite Hr. cbn [unwrap mbind outcome_bind].
    eexists. split; [done|]. split; [done|]. intros _. exists (to_Z r).
    split; [by apply clamp_fee_spec|]. split; [lia|]. intros _. fold b in Er. lia.
  - rewrite sub64_small by lia.
    destruct (@fee_change_Ok E fm (target_gas_per_block fm - gas_used) Hok) as (q & -> & Wq & Eq);
      [lia|fold b; nia|]. cbn [mbind outcome_bind]. fold b in Eq.
    pose proof (fee_change_bound b (target_gas_per_block fm - gas_used) (target_gas_per_block fm)
      (max_change_denominator fm) ltac:(lia) ltac:(lia) ltac:(lia) ltac:(lia)) as Hbd.
    assert (b / max_change_denominator fm <= b) by (apply Z.div_le_upper_bound; nia).
    destruct (checked_sub_Some (base_fee_per_gas fm) q Wb Wq) as (r & -> & Wr & Er); [fold b; lia|].
    cbn [default from_option id].
    eexists. split; [done|]. split; [done|]. intros _. exists (to_Z r).
    split; [by apply clamp_fee_spec|]. fold b in Er. split; [lia|lia].
Qed.

Lemma default_fee_market_ok : market_ok default_fee_market.
Proof.
  split.
  - apply wf_from_u64. split; [discriminate|reflexivity].
  - apply wf_from_u64. split; [discriminate|reflexivity].
  - intros m Hm. discriminate Hm.
  - split; reflexivity.
  - split; reflexivity.
Qed.

Lemma base_fee_step_is_bounded_witness :
  exists r, @next_base_fee () default_fee_market 30000000 = Ok r /\ to_Z r = 1125000000.
Proof.
  destruct (@base_fee_step_is_bounded () default_fee_market 30000000) as (r & Hr & _).
  - exact default_fee_market_ok.
  - discriminate.
  - discriminate.
  - reflexivity.
  - vm_compute. reflexivity.
  - exists r. split; [exact Hr|]. vm_compute in Hr. injection Hr as <-. vm_compute. reflexivity.
Defined.

(** ** The meter *)
Inductive meter_step : GasMeter -> GasMeter -> Prop :=
  | meter_consume m amount : 0 <= amount -> meter_step m (fst (consume m amount))
  | meter_refund m amount : 0 <= amount -> meter_step m (refund m amount).

Record meter_inv (limit : Z) (m : GasMeter) : Prop := {
  meter_limit : m_gas_limit m = limit;
  meter_used : 0 <= m_gas_used m <= limit;
  meter_refunded : 0 <= m_gas_refunded m
}.
Lemma meter_step_inv limit m m' : limit < B64 -> meter_inv limit m -> meter_step m m' -> meter_inv limit m'.
Proof.
  intros Hb [Hl Hu Hr] Hs. destruct Hs as [m a Ha|m a Ha].
  - unfold consume. case Z.ltb_spec; intros Hlt; [done|]. unfold sat_add64 in *.
    split; cbn; lia.
  - unfold refund, sat_add64. split; cbn; lia.
Qed.

(** Whatever a transaction consumes and is refunded, the meter never shows
    more than the limit; an accepted charge is the saturating sum, a refused
    one changes nothing; and the final charge after refunds is between four
    fifths of the gas used and all of it. *)
Theorem meter_stays_within_limit limit schedule m : 0 <= limit < B64 ->
  rtc meter_step (new_meter limit schedule) m ->
  0 <= m_gas_used m <= limit /\ remaining m = limit - m_gas_used m /\
  (forall amount, 0 <= amount ->
     (m_gas_used m + amount <= limit ->
        exists m', consume m amount = (m', Ok ()) /\ m_gas_used m' = m_gas_used m + amount) /\
     (limit < m_gas_used m + amount -> limit < B64 - 1 -> consume m amount = (m, Err ()))) /\
  4 * m_gas_used m <= 5 * final_used m /\ final_used m <= m_gas_used m.
Proof.
  intros Hb Hr. assert (Hi : meter_inv limit m).
  { assert (H0 : meter_inv limit (new_meter limit schedule)) by (split; cbn; lia).
    revert H0. induction Hr as [|m1 m2 m3 Hs _ IH]; [done|]. intros H0. apply IH.
    by eapply meter_step_inv; [lia| |]. }
  destruct Hi as [Hl Hu Hrf]. split; [done|].
  split; [unfold remaining, sat_sub64; lia|]. split.
  - intros a Ha. unfold consume, sat_add64. rewrite Hl. split; intros H; case Z.ltb_spec; intros; try lia.
    + eexists. split; [done|]. cbn. lia.
    + done.
  - unfold final_used, refunded, sat_sub64.
    pose proof (Z.mul_div_le (m_gas_used m) 5 ltac:(lia)).
    pose proof (Z.div_pos (m_gas_used m) 5 ltac:(lia) ltac:(lia)). lia.
Qed.
Lemma meter_stays_within_limit_witness :
  let m := fst (consume (new_meter 100 berlin) 60) in
  remaining m = 40 /\ consume m 41 = (m, Err ()).
Proof.
  intros m. destruct (meter_stays_within_limit 100 berlin m) as (_ & Hrem & Hc & _).
  - split; [discriminate|reflexivity].
  - apply rtc_once, meter_consume. discriminate.
  - split; [exact Hrem|]. apply Hc; [discriminate|reflexivity|reflexivity].
Defined.

(** ** Intrinsic gas: two computations of the same charge *)
Lemma foldl_data_gas data g : foldl (fun gas byte =>
    if byte =? 0 then gas +! 4 else gas +! 16) g data mod B64 = (g + sumZ ((fun b => if b =? 0 then 4 else 16) <$> data)) mod B64.
Proof.
  revert g. induction data as [|b data IH]; intros g; cbn [foldl fmap list_fmap].
  { simpl. by rewrite Z.add_0_r. }
  rewrite IH, sumZ_cons, Z.add_assoc. destruct (b =? 0); unfold add64; by rewrite Zplus_mod_idemp_l.
Qed.

Lemma foldl_data_gas_range data g : is_u64 g -> is_u64 (foldl (fun gas byte =>
    if byte =? 0 then gas +! 4 else gas +! 16) g data).
Proof.
  revert g. induction data as [|b data IH]; intros g Hg; cbn [foldl]; [done|].
  apply IH. destruct (b =? 0); apply add64_range.
Qed.

(** The gas schedule of the virtual machine and the transaction type charge
    the same intrinsic gas, for every plain transaction and any data, at
    machine width: the admission check and the executor cannot disagree on a
    transaction without access list. *)
Theorem intrinsic_gas_agrees tx : tx_type tx = Legacy \/ tx_type tx = AccessList \/ tx_type tx = DynamicFee ->
  intrinsic_gas berlin (data tx) (bool_decide (tx_to tx = None)) 0 = tx_intrinsic_gas tx.
Proof.
  intros Ht. assert (Hbase : match tx_type tx with Legacy | AccessList | DynamicFee => 21000
    | Private => 100000 | IsoPayment => 50000 | System => 0 end = 21000)
    by (destruct Ht as [->|[->| ->]]; done).
  unfold intrinsic_gas, tx_intrinsic_gas, tx_data_gas. rewrite Hbase, sum64_spec.
  cbn [tx_base tx_create tx_data_zero tx_data_nonzero access_list_address berlin].
  set (g0 := if bool_decide (tx_to tx = None) then 21000 +! 32000 else 21000).
  assert (Hg0 : is_u64 g0) by (unfold g0; destruct (bool_decide (tx_to tx = None)); [apply add64_range|split; [discriminate|reflexivity]]).
  pose proof (foldl_data_gas (data tx) g0) as Hf.
  pose proof (foldl_data_gas_range (data tx) g0 Hg0) as Hr.
  rewrite (Z.mod_small (foldl _ _ _)) in Hf by exact Hr.
  rewrite Hf. set (S := sumZ _). unfold add64, mul64. rewrite Z.mul_0_l, (Z.mod_small 0) by done.
  rewrite Z.add_0_r, Z.mod_mod by done. unfold g0.
  destruct (tx_to tx) as [a|]; cbn [bool_decide decide_rel].
  - rewrite bool_decide_false by done. rewrite Z.add_0_r, Z.mod_mod by done.
    by rewrite Zplus_mod_idemp_r.
  - rewrite bool_decide_true by done. unfold add64.
    rewrite !Zplus_mod_idemp_r, !Zplus_mod_idemp_l. f_equal. lia.
Qed.
Lemma intrinsic_gas_agrees_witness :
  let tx := new_legacy 1337 0 None U256.ZERO [0; 1] 100000 U256.ZERO in
  intrinsic_gas berlin [0; 1] true 0 = tx_intrinsic_gas tx /\ tx_intrinsic_gas tx = 53020.
Proof.
  intros tx. split; [|reflexivity]. exact (intrinsic_gas_agrees tx (or_introl eq_refl)).
Defined.
