(* ===== verification/EvmState.v ===== *)
(** * The state of the virtual machine (crates/nexus-evm: lib.rs, state.rs)

    Accounts, code and storage; the snapshot with its rollback, and the journal
    with its checkpoints.  The [Arc<StateDb>] that an executor and its journal
    share is one [StateDb] threaded through both; a [DashMap] is a [gmap]. *)
From stdpp Require Import base numbers list gmap strings.
From Stdlib Require Import ZArith Lia.
From S2P Require Import Prelude Types Crypto.
#[local] Open Scope Z_scope.

Inductive EvmError :=
  | Revert (msg : string)
  | OutOfGas (used limit : Z)
  | InvalidOpcode (op : Z)
  | StackUnderflow
  | StackOverflow
  | InvalidJump (dest : Z)
  | EvmStateError (msg : string)
  | PrecompileError (msg : string)
  | CreateFailed (msg : string)
  | NonceMismatch (expected got : Z)
  | InsufficientBalance (required available : string)
  | InvalidSignature.

Record Account := mkAccount {
  acc_nonce : Z;
  acc_balance : U256;
  acc_code_hash : Hash;
  acc_storage_root : Hash
}.
(** [Account::EMPTY], which is also [Account::default()] *)
Definition EMPTY : Account := mkAccount 0 U256.ZERO HASH_ZERO HASH_ZERO.
Definition is_empty (a : Account) : bool :=
  (acc_nonce a =? 0) && bool_decide (acc_balance a = U256.ZERO)
  && bool_decide (acc_code_hash a = HASH_ZERO).

(** The assignments [account.f = v] *)
Definition with_nonce (n : Z) (a : Account) : Account :=
  mkAccount n (acc_balance a) (acc_code_hash a) (acc_storage_root a).
Definition with_balance (b : U256) (a : Account) : Account :=
  mkAccount (acc_nonce a) b (acc_code_hash a) (acc_storage_root a).
Definition with_code_hash (h : Hash) (a : Account) : Account :=
  mkAccount (acc_nonce a) (acc_balance a) h (acc_storage_root a).

Record StateDb := mkState {
  accounts : gmap Address Account;
  code : gmap Hash (list Z);
  storage : gmap Address (gmap U256 U256);
  state_root : Hash;
  dirty_accounts : gset Address;
  dirty_storage : gmap Address (list U256)
}.
Definition empty_state : StateDb := mkState ∅ ∅ ∅ HASH_ZERO ∅ ∅.

(** ** Accounts *)
Definition get_account (s : StateDb) (a : Address) : Account := default EMPTY (accounts s !! a).
Definition set_account (s : StateDb) (a : Address) (acc : Account) : StateDb :=
  mkState (<[a := acc]> (accounts s)) (code s) (storage s) (state_root s)
    ({[a]} ∪ dirty_accounts s) (dirty_storage s).
Definition get_balance (s : StateDb) (a : Address) : U256 := acc_balance (get_account s a).
Definition set_balance (s : StateDb) (a : Address) (balance : U256) : StateDb :=
  set_account s a (with_balance balance (get_account s a)).
Definition get_nonce (s : StateDb) (a : Address) : Z := acc_nonce (get_account s a).
Definition increment_nonce (s : StateDb) (a : Address) : StateDb :=
  set_account s a (with_nonce (get_nonce s a +! 1) (get_account s a)).
Definition account_exists (s : StateDb) (a : Address) : bool := bool_decide (is_Some (accounts s !! a)).
Definition delete_account (s : StateDb) (a : Address) : StateDb :=
  mkState (delete a (accounts s)) (code s) (delete a (storage s)) (state_root s)
    ({[a]} ∪ dirty_accounts s) (dirty_storage s).

(** ** Storage *)
Definition get_storage (s : StateDb) (a : Address) (key : U256) : U256 :=
  default U256.ZERO (slots ← storage s !! a; slots !! key).
Definition set_storage (s : StateDb) (a : Address) (key value : U256) : StateDb :=
  mkState (accounts s) (code s)
    (<[a := <[key := value]> (default ∅ (storage s !! a))]> (storage s)) (state_root s)
    (dirty_accounts s)
    (<[a := (default [] (dirty_storage s !! a) ++ [key])%list]> (dirty_storage s)).

(** ** Code and balances *)
Section state.
Context `{CryptoLib}.

Definition u256_debug (x : U256) : string := "0x" +:+ hex_encode (U256.to_be_bytes x).

Definition add_balance (a : Address) (amount : U256) : M StateDb EvmError () := fun s =>
  let account := get_account s a in
  match U256.checked_add (acc_balance account) amount with
  | None => (s, Err (EvmStateError "Balance overflow"))
  | Some new_balance => (set_balance s a new_balance, Ok ())
  end.
Definition sub_balance (a : Address) (amount : U256) : M StateDb EvmError () := fun s =>
  let account := get_account s a in
  if U256.ltb (acc_balance account) amount
  then (s, Err (InsufficientBalance (u256_debug amount) (u256_debug (acc_balance account))))
  else
    match U256.sub (acc_balance account) amount with
    | Ok new_balance => (set_balance s a new_balance, Ok ())
    | Err e => (s, Err e)
    | Panic => (s, Panic)
    | Blocked => (s, Blocked)
    end.

Definition get_code_hash (s : StateDb) (a : Address) : Hash := acc_code_hash (get_account s a).
Definition get_code (s : StateDb) (a : Address) : list Z :=
  let account := get_account s a in
  if bool_decide (acc_code_hash account = HASH_ZERO) then []
  else default [] (code s !! acc_code_hash account).
Definition get_code_size (s : StateDb) (a : Address) : Z := Z.of_nat (length (get_code s a)).
Definition set_code (s : StateDb) (a : Address) (bytes : list Z) : StateDb :=
  let code_hash := mkHash (keccak bytes) in
  let s := mkState (accounts s) (<[code_hash := bytes]> (code s)) (storage s) (state_root s)
             (dirty_accounts s) (dirty_storage s) in
  set_account s a (with_code_hash code_hash (get_account s a)).

(** ** The state root *)
Context `{HashOrder}.

Definition all_accounts (s : StateDb) : list (Address * Account) := entries (accounts s).
(** What the hasher reads of one account *)
Definition account_bytes (entry : Address * Account) : list Z :=
  (addr_bytes entry.1 ++ to_le_bytes 8 (acc_nonce entry.2)
   ++ U256.to_be_bytes (acc_balance entry.2) ++ hash_bytes (acc_code_hash entry.2))%list.
Definition commit (s : StateDb) : StateDb * Hash :=
  let root := mkHash (keccak (concat (account_bytes <$> entries (accounts s)))) in
  (mkState (accounts s) (code s) (storage s) root ∅ ∅, root).
End state.

(** ** Snapshots *)
Record StateSnapshot := mkSnapshot {
  snap_accounts : gmap Address Account;
  snap_storage : gmap Address (gmap U256 U256)
}.
Definition snapshot (s : StateDb) : StateSnapshot := mkSnapshot (accounts s) (storage s).
(** The maps are cleared and refilled from the snapshot. *)
Definition rollback (s : StateDb) (snap : StateSnapshot) : StateDb :=
  mkState (snap_accounts snap) (code s) (snap_storage snap) (state_root s)
    (dirty_accounts s) (dirty_storage s).

(** ** The journal *)
Inductive JournalEntry :=
  | AccountCreated (a : Address)
  | AccountDestroyed (a : Address) (account : Account)
  | BalanceChanged (a : Address) (prev_balance : U256)
  | NonceChanged (a : Address) (prev_nonce : Z)
  | CodeSet (a : Address) (prev_code_hash : Hash)
  | StorageChanged (a : Address) (key prev_value : U256).

(** [JournaledState]: the end of the [journal] vector, where it is pushed and
    popped, is the head of the list. *)
Record JournaledState := mkJournaled {
  js_state : StateDb;
  journal : list JournalEntry;
  checkpoints : list nat
}.
Definition new_journaled (s : StateDb) : JournaledState := mkJournaled s [] [].

Definition checkpoint (j : JournaledState) : JournaledState * nat :=
  (mkJournaled (js_state j) (journal j) (checkpoints j ++ [length (journal j)]),
   length (checkpoints j)).
Definition commit_checkpoint (j : JournaledState) (id : nat) : JournaledState :=
  if (id <? length (checkpoints j))%nat
  then mkJournaled (js_state j) (journal j) (take id (checkpoints j))
  else j.

Definition revert_entry (s : StateDb) (entry : JournalEntry) : StateDb :=
  match entry with
  | AccountCreated a => delete_account s a
  | AccountDestroyed a account => set_account s a account
  | BalanceChanged a prev_balance => set_balance s a prev_balance
  | NonceChanged a prev_nonce => set_account s a (with_nonce prev_nonce (get_account s a))
  | CodeSet a prev_code_hash => set_account s a (with_code_hash prev_code_hash (get_account s a))
  | StorageChanged a key prev_value => set_storage s a key prev_value
  end.
(** [while self.journal.len() > journal_len { pop, revert }] *)
Fixpoint revert_loop (s : StateDb) (entries : list JournalEntry) (journal_len : nat)
    : StateDb * list JournalEntry :=
  match entries with
  | entry :: rest =>
      if (journal_len <? length entries)%nat then revert_loop (revert_entry s entry) rest journal_len
      else (s, entries)
  | [] => (s, [])
  end.
Definition revert_checkpoint (j : JournaledState) (id : nat) : JournaledState :=
  match checkpoints j !! id with
  | Some journal_len =>
      let '(s, entries) := revert_loop (js_state j) (journal j) journal_len in
      mkJournaled s entries (take id (checkpoints j))
  | None => j
  end.

(** [JournaledState::set_balance], [JournaledState::set_storage] *)
Definition j_set_balance (j : JournaledState) (a : Address) (balance : U256) : JournaledState :=
  let prev_balance := get_balance (js_state j) a in
  mkJournaled (set_balance (js_state j) a balance)
    (BalanceChanged a prev_balance :: journal j) (checkpoints j).
Definition j_set_storage (j : JournaledState) (a : Address) (key value : U256) : JournaledState :=
  let prev_value := get_storage (js_state j) a key in
  mkJournaled (set_storage (js_state j) a key value)
    (StorageChanged a key prev_value :: journal j) (checkpoints j).
