(* ===== verification/EvmStateProps.v ===== *)
(** * Properties of the state of the virtual machine

    Observational equality of states, the journal's checkpoints, snapshots and
    the state root. *)
From stdpp Require Import base numbers list gmap strings relations.
From Stdlib Require Import ZArith Lia.
From S2P Require Import Prelude Types U256Facts Crypto Transaction EvmState.
Import U256Facts.
#[local] Open Scope Z_scope.

(** ** Observational equality

    Two states are equivalent when every getter answers alike.  An account
    that is absent and one that is empty are the same to all getters but
    [account_exists]. *)
#[export] Instance state_equiv : Equiv StateDb := fun s1 s2 =>
  (forall a, get_account s1 a = get_account s2 a) /\
  (forall a key, get_storage s1 a key = get_storage s2 a key) /\
  code s1 = code s2.
#[export] Instance state_equivalence : Equivalence (≡@{StateDb}).
Proof.
  split.
  - intros s. done.
  - intros s1 s2 (H1 & H2 & H3). done.
  - intros s1 s2 s3 (H1 & H2 & H3) (K1 & K2 & K3). split; [|split].
    + intros a. by rewrite H1.
    + intros a key. by rewrite H2.
    + by rewrite H3.
Qed.
#[export] Instance get_account_proper : Proper ((≡) ==> (=) ==> (=)) get_account.
Proof. intros s1 s2 (H & _) a ? <-. apply H. Qed.
#[export] Instance get_storage_proper : Proper ((≡) ==> (=) ==> (=) ==> (=)) get_storage.
Proof. intros s1 s2 (_ & H & _) a ? <- key ? <-. apply H. Qed.
#[export] Instance get_code_proper : Proper ((≡) ==> (=) ==> (=)) get_code.
Proof. intros s1 s2 (H1 & _ & H3) a ? <-. unfold get_code. by rewrite H1, H3. Qed.

Lemma get_account_set s a acc b :
  get_account (set_account s a acc) b = if decide (a = b) then acc else get_account s b.
Proof.
  unfold get_account, set_account; cbn [accounts]. case_decide as Hab.
  - subst b. by rewrite lookup_insert_eq.
  - by rewrite lookup_insert_ne.
Qed.
Lemma get_storage_set s a key v b k :
  get_storage (set_storage s a key v) b k =
    if decide (a = b /\ key = k) then v else get_storage s b k.
Proof.
  unfold get_storage, set_storage; cbn [storage]. destruct (decide (a = b)) as [<-|Hab].
  - rewrite lookup_insert_eq. cbn [mbind option_bind]. destruct (decide (key = k)) as [<-|Hk].
    + rewrite lookup_insert_eq. by rewrite decide_True.
    + rewrite lookup_insert_ne by done. rewrite decide_False by naive_solver.
      by destruct (storage s !! a).
  - rewrite lookup_insert_ne by done. by rewrite decide_False by naive_solver.
Qed.
#[export] Instance set_account_proper : Proper ((≡) ==> (=) ==> (=) ==> (≡)) set_account.
Proof.
  intros s1 s2 (H1 & H2 & H3) a ? <- acc ? <-. split; [|split; [exact H2|exact H3]].
  intros b. rewrite !get_account_set. by rewrite H1.
Qed.
#[export] Instance set_balance_proper : Proper ((≡) ==> (=) ==> (=) ==> (≡)) set_balance.
Proof. intros s1 s2 H a ? <- v ? <-. unfold set_balance. by rewrite H. Qed.
#[export] Instance set_storage_proper : Proper ((≡) ==> (=) ==> (=) ==> (=) ==> (≡)) set_storage.
Proof.
  intros s1 s2 (H1 & H2 & H3) a ? <- key ? <- v ? <-. split; [exact H1|split; [|exact H3]].
  intros b k. rewrite !get_storage_set. by rewrite H2.
Qed.
#[export] Instance delete_account_proper : Proper ((≡) ==> (=) ==> (≡)) delete_account.
Proof.
  intros s1 s2 (H1 & H2 & H3) a ? <-. split; [|split; [|exact H3]].
  - intros b. unfold get_account, delete_account in *. cbn [accounts].
    destruct (decide (a = b)) as [<-|Hab]; [by rewrite !lookup_delete_eq|].
    rewrite !lookup_delete_ne by done. apply H1.
  - intros b k. unfold get_storage, delete_account in *. cbn [storage].
    destruct (decide (a = b)) as [<-|Hab]; [by rewrite !lookup_delete_eq|].
    rewrite !lookup_delete_ne by done. apply H2.
Qed.
#[export] Instance revert_entry_proper : Proper ((≡) ==> (=) ==> (≡)) revert_entry.
Proof.
  intros s1 s2 H entry ? <-.
  destruct entry; cbn [revert_entry]; rewrite ?H; try reflexivity.
Qed.

(** A recorded previous value undoes the change it was recorded for. *)
Lemma undo_set_balance s a v : set_balance (set_balance s a v) a (get_balance s a) ≡ s.
Proof.
  split; [|done]. intros b. unfold set_balance. rewrite !get_account_set.
  case_decide as Hab; [|done]. subst b. rewrite decide_True by done.
  unfold get_balance. by destruct (get_account s a).
Qed.
Lemma undo_set_storage s a key v :
  set_storage (set_storage s a key v) a key (get_storage s a key) ≡ s.
Proof.
  split; [done|]. split; [|done]. intros b k. rewrite !get_storage_set.
  case_decide as Hab; [|done]. destruct Hab as [<- <-]. done.
Qed.

(** ** Reverting *)
Definition undo (s : StateDb) (es : list JournalEntry) : StateDb := foldl revert_entry s es.
#[export] Instance undo_proper : Proper ((≡) ==> (=) ==> (≡)) undo.
Proof.
  intros s1 s2 H es ? <-. revert s1 s2 H. induction es as [|e es IH]; intros s1 s2 H; [done|].
  cbn [undo foldl]. apply IH. by rewrite H.
Qed.
Lemma revert_loop_spec s es base :
  revert_loop s (es ++ base) (length base) = (undo s es, base).
Proof.
  revert s. induction es as [|e es IH]; intros s; cbn [app revert_loop].
  - destruct base as [|b base]; [done|]. cbn [revert_loop].
    case Nat.ltb_spec; [lia|done].
  - rewrite length_cons, length_app. case Nat.ltb_spec; [intros _; apply IH|lia].
Qed.

(** The calls made between [checkpoint], which returned [id], and the matching
    [revert_checkpoint]: journaled writes, and checkpoints nested in it. *)
Inductive journal_step (id : nat) : JournaledState -> JournaledState -> Prop :=
  | step_set_balance j a balance : journal_step id j (j_set_balance j a balance)
  | step_set_storage j a key value : journal_step id j (j_set_storage j a key value)
  | step_checkpoint j : journal_step id j (fst (checkpoint j))
  | step_commit j k : (id < k)%nat -> journal_step id j (commit_checkpoint j k)
  | step_revert j k : (id < k)%nat -> journal_step id j (revert_checkpoint j k).

Definition touched (s : StateDb) (entry : JournalEntry) : Prop :=
  match entry with
  | BalanceChanged a _ => is_Some (accounts s !! a)
  | StorageChanged _ _ _ => True
  | _ => False
  end.

(** What is above the checkpoint undoes to the state at the checkpoint. *)
Record above (j0 j : JournaledState) : Prop := {
  above_journal : exists es, journal j = es ++ journal j0 /\
    undo (js_state j) es ≡ js_state j0 /\ Forall (touched (js_state j)) es;
  above_checkpoints : exists rest,
    checkpoints j = (checkpoints j0 ++ [length (journal j0)]) ++ rest /\
    Forall (fun n => (length (journal j0) <= n)%nat) rest
}.

Lemma touched_set_account s a acc entry :
  touched s entry -> touched (set_account s a acc) entry.
Proof.
  destruct entry as [| |b prev| | |]; cbn; try done. intros Hb.
  apply lookup_insert_is_Some. destruct (decide (a = b)); [by left|by right].
Qed.
Lemma touched_revert s entry entry' :
  touched s entry -> touched s entry' -> touched (revert_entry s entry) entry'.
Proof.
  destruct entry as [| |b prev| | |]; cbn [touched revert_entry]; try done.
  intros _. apply touched_set_account.
Qed.
Lemma touched_undo s es entry : Forall (touched s) es -> touched s entry -> touched (undo s es) entry.
Proof.
  revert s. induction es as [|e es IH]; intros s Hes He; [done|].
  apply Forall_cons in Hes as [H1 H2]. cbn [undo foldl]. apply IH; [|by apply touched_revert].
  eapply Forall_impl; [exact H2|]. intros x. by apply touched_revert.
Qed.

Lemma above_init j : above j (fst (checkpoint j)).
Proof.
  split; cbn [fst checkpoint js_state journal checkpoints].
  - exists []. split; [done|]. split; [done|constructor].
  - exists []. by rewrite app_nil_r.
Qed.
Lemma take_above {A} (l : list A) x rest k : (length l < k)%nat ->
  exists rest', take k ((l ++ [x]) ++ rest) = (l ++ [x]) ++ rest' /\ rest' = take (k - S (length l)) rest.
Proof.
  intros Hk. eexists. split; [|reflexivity]. rewrite take_app, take_ge by (rewrite length_app; cbn; lia).
  rewrite length_app. cbn [length]. do 2 f_equal. lia.
Qed.
(** Writes keep the invariant: the entry they push undoes them. *)
Lemma above_write j0 j s e : above j0 j -> revert_entry s e ≡ js_state j -> touched s e ->
  (forall x, touched (js_state j) x -> touched s x) ->
  above j0 (mkJournaled s (e :: journal j) (checkpoints j)).
Proof.
  intros [(es & Hes & Hu & Ht) Hc] He Hte Hmono. split; [|exact Hc]. exists (e :: es). cbn.
  rewrite Hes. split; [done|]. split.
  - change (undo (revert_entry s e) es ≡ js_state j0). by rewrite He.
  - constructor; [done|]. by eapply Forall_impl.
Qed.
Lemma above_step j0 j j' : above j0 j -> journal_step (length (checkpoints j0)) j j' -> above j0 j'.
Proof.
  intros Ha Hs. destruct Hs as [j a v|j a key v|j|j k Hk|j k Hk].
  - apply above_write; [done| | |].
    + apply undo_set_balance.
    + apply lookup_insert_is_Some. by left.
    + intros x. apply touched_set_account.
  - apply above_write; [done|apply undo_set_storage|done|done].
  - destruct Ha as [He (rest & Hc & Hr)]. split; [exact He|]. cbn.
    exists (rest ++ [length (journal j)]). rewrite Hc, <- !app_assoc. split; [done|].
    apply Forall_app. split; [done|]. constructor; [|done].
    destruct He as (es & -> & _). rewrite length_app. lia.
  - unfold commit_checkpoint. case Nat.ltb_spec; [intros _|done].
    destruct Ha as [He (rest & Hc & Hr)]. split; [exact He|]. cbn [checkpoints].
    rewrite Hc. destruct (take_above (checkpoints j0) (length (journal j0)) rest k Hk) as (r & -> & ->).
    eexists. split; [done|]. by apply Forall_take.
  - unfold revert_checkpoint. destruct (checkpoints j !! k) as [n|] eqn:Hn; [|done].
    destruct Ha as [(es & Hes & Hu & Ht) (rest & Hc & Hr)].
    assert (Hle : (length (journal j0) <= n)%nat).
    { rewrite Hc, lookup_app_r in Hn by (rewrite length_app; cbn; lia).
      eapply Forall_lookup_1 in Hr; [|exact Hn]. done. }
    assert (Hsplit : exists es1 es2, es = es1 ++ es2 /\ (es1 = [] \/ length (es2 ++ journal j0) = n)
      /\ (length (es2 ++ journal j0) <= n)%nat).
    { destruct (decide (length es + length (journal j0) <= n)%nat) as [Hsm|Hbig].
      - exists [], es. rewrite length_app. auto.
      - exists (take (length es - (n - length (journal j0))) es),
          (drop (length es - (n - length (journal j0))) es).
        rewrite take_drop, length_app, length_drop. split; [done|]. split; [right; lia|lia]. }
    destruct Hsplit as (es1 & es2 & -> & Hn' & Hn'').
    assert (Hloop : revert_loop (js_state j) (journal j) n = (undo (js_state j) es1, es2 ++ journal j0)).
    { rewrite Hes, <- app_assoc. destruct Hn' as [->|<-]; [|apply revert_loop_spec].
      cbn [app undo foldl]. destruct (es2 ++ journal j0) as [|x l]; [done|]. cbn [revert_loop].
      case Nat.ltb_spec; [lia|done]. }
    rewrite Hloop. apply Forall_app in Ht as [Ht1 Ht2]. split; cbn [js_state journal checkpoints].
    + exists es2. split; [done|]. split.
      * rewrite <- Hu. unfold undo. by rewrite foldl_app.
      * eapply Forall_impl; [exact Ht2|]. intros x. by apply touched_undo.
    + rewrite Hc. destruct (take_above (checkpoints j0) (length (journal j0)) rest k Hk) as (r & -> & ->).
      eexists. split; [done|]. by apply Forall_take.
Qed.

Lemma accounts_undo s es a : Forall (touched s) es ->
  account_exists (undo s es) a = account_exists s a.
Proof.
  revert s. induction es as [|e es IH]; intros s Hes; [done|].
  apply Forall_cons in Hes as [H1 H2]. cbn [undo foldl]. fold (undo (revert_entry s e) es).
  rewrite IH by (eapply Forall_impl; [exact H2|]; intros x; by apply touched_revert).
  destruct e as [| |b prev| | |]; cbn [touched revert_entry] in *; try done.
  unfold account_exists. apply bool_decide_ext. cbn. rewrite lookup_insert_is_Some.
  split; [|destruct (decide (b = a)); auto]. intros [->|[_ ?]]; done.
Qed.

(** C11: Whatever is written through the journal after a checkpoint, with
    checkpoints nested, committed and reverted in between (a commit keeps the
    journal entries, although its comment says that it discards them), reverting to it
    restores every balance, nonce, code and storage slot, the journal and the
    outer checkpoints; but the accounts that the writes brought into existence
    stay in the table, as empty ones. *)
Theorem revert_restores_state j0 j : rtc (journal_step (snd (checkpoint j0))) (fst (checkpoint j0)) j ->
  let j' := revert_checkpoint j (snd (checkpoint j0)) in
  js_state j' ≡ js_state j0 /\ journal j' = journal j0 /\ checkpoints j' = checkpoints j0 /\
  (forall a, account_exists (js_state j') a = account_exists (js_state j) a).
Proof.
  intros Hr. cbn [snd checkpoint] in *. cbv zeta.
  assert (Ha : above j0 j).
  { pose proof (above_init j0) as Hi. revert Hi. induction Hr as [|x y z Hs _ IH]; [done|].
    intros Hi. apply IH. by eapply above_step. }
  destruct Ha as [(es & Hes & Hu & Ht) (rest & Hc & Hr')].
  unfold revert_checkpoint. rewrite Hc, <- app_assoc. rewrite lookup_app_r, Nat.sub_diag by lia. cbn [app lookup list_lookup].
  rewrite Hes, revert_loop_spec. cbn [js_state journal checkpoints].
  split; [done|]. split; [done|]. split; [by rewrite take_app_length|].
  intros a. by apply accounts_undo.
Qed.

(** ** Snapshots *)
Section snapshots.
Context `{CryptoLib} `{HashOrder}.

Definition keccak_collision : Prop := exists x y, x <> y /\ keccak x = keccak y.

(** Every public call that writes the state *)
Inductive state_step : StateDb -> StateDb -> Prop :=
  | step_set_account s a acc : state_step s (set_account s a acc)
  | step_state_storage s a key value : state_step s (set_storage s a key value)
  | step_set_code s a bytes : state_step s (set_code s a bytes)
  | step_delete s a : state_step s (delete_account s a)
  | step_commit_root s : state_step s (fst (commit s))
  | step_rollback s snap : state_step s (rollback s snap).

(** Code is stored under its own hash, and never removed. *)
Definition code_addressed (s : StateDb) : Prop :=
  forall h bytes, code s !! h = Some bytes -> h = mkHash (keccak bytes).
Lemma state_step_addressed s s' : code_addressed s -> state_step s s' -> code_addressed s'.
Proof.
  intros Hc Hs. destruct Hs; try exact Hc. intros h b. cbn.
  intros [[<- <-]|[_ Hb]]%lookup_insert_Some; [done|by apply Hc].
Qed.
Lemma state_steps_addressed s s' : rtc state_step s s' -> code_addressed s -> code_addressed s'.
Proof.
  intros Hr. induction Hr as [|s1 s2 s3 Hs _ IH]; [done|]. intros Hc. apply IH.
  by eapply state_step_addressed.
Qed.
Lemma state_step_code s s' h bytes : state_step s s' -> code_addressed s ->
  code s !! h = Some bytes -> code s' !! h = Some bytes \/ keccak_collision.
Proof.
  intros Hs Hc Hb. destruct Hs as [| |s a b| | |]; try by left. cbn.
  destruct (decide (mkHash (keccak b) = h)) as [<-|Hne]; [|left; by rewrite lookup_insert_ne].
  destruct (decide (b = bytes)) as [->|Hne]; [left; by rewrite lookup_insert_eq|].
  right. exists b, bytes. split; [done|]. by apply Hc in Hb as [=].
Qed.
Lemma state_steps_code s s' h bytes : rtc state_step s s' -> code_addressed s ->
  code s !! h = Some bytes -> code s' !! h = Some bytes \/ keccak_collision.
Proof.
  intros Hr. induction Hr as [s|s1 s2 s3 Hs _ IH]; intros Hc Hb; [by left|].
  destruct (state_step_code _ _ _ _ Hs Hc Hb) as [Hb2|]; [|by right].
  apply IH; [by eapply state_step_addressed|done].
Qed.

(** Rolling back to a snapshot, after any calls at all, restores every
    account (also which accounts exist), every storage slot, and the code of
    every account whose code was known, unless Keccak-256 has collided. *)
Theorem rollback_restores_snapshot s s' : rtc state_step empty_state s -> rtc state_step s s' ->
  let r := rollback s' (snapshot s) in
  (forall a, accounts r !! a = accounts s !! a) /\
  (forall a key, get_storage r a key = get_storage s a key) /\
  (forall a bytes, code s !! acc_code_hash (get_account s a) = Some bytes ->
     get_code r a = get_code s a \/ keccak_collision).
Proof.
  intros Hinit Hr. cbv zeta. split; [done|]. split; [done|]. intros a bytes Hb.
  assert (Hc : code_addressed s) by (by apply (state_steps_addressed _ _ Hinit)).
  destruct (state_steps_code _ _ _ _ Hr Hc Hb) as [Hb'|]; [|by right]. left.
  unfold get_code. change (get_account (rollback s' (snapshot s)) a) with (get_account s a).
  cbn [rollback code]. by rewrite Hb, Hb'.
Qed.

(** ** The state root *)
Definition account_ok (entry : Address * Account) : Prop :=
  wf_addr entry.1 /\ is_u64 (acc_nonce entry.2) /\ wf (acc_balance entry.2) /\
  length (hash_bytes (acc_code_hash entry.2)) = 32%nat.
Definition committed (acc : Account) : Z * U256 * Hash :=
  (acc_nonce acc, acc_balance acc, acc_code_hash acc).

Lemma to_le_bytes_inj n x y : 0 <= x < 256 ^ Z.of_nat n -> 0 <= y < 256 ^ Z.of_nat n ->
  to_le_bytes n x = to_le_bytes n y -> x = y.
Proof. intros Hx Hy E. by rewrite <- (from_to_le_bytes n x), E, from_to_le_bytes. Qed.
Lemma account_bytes_length e : account_ok e -> length (account_bytes e) = 92%nat.
Proof.
  intros ((La & _) & _ & _ & Lh). unfold account_bytes.
  by rewrite !length_app, to_le_bytes_length, u256_to_be_bytes_length, La, Lh.
Qed.
Lemma account_bytes_inj e f : account_ok e -> account_ok f -> account_bytes e = account_bytes f ->
  (e.1, committed e.2) = (f.1, committed f.2).
Proof.
  intros ((La & _) & Hn & Hb & Lh) ((La' & _) & Hn' & Hb' & Lh') E. unfold account_bytes in E.
  apply app_inj_len in E as [Ea E]; [|by rewrite La, La'].
  apply app_inj_len in E as [En E]; [|by rewrite !to_le_bytes_length].
  apply app_inj_len in E as [Eb E]; [|by rewrite !u256_to_be_bytes_length].
  apply to_le_bytes_inj in En; [|exact Hn|exact Hn'].
  apply u256_to_be_bytes_inj in Eb; [|done..].
  destruct e as [[a] [n b [h] r]], f as [[a'] [n' b' [h'] r']]. cbn in *. by subst.
Qed.
Lemma concat_accounts_inj l k : Forall account_ok l -> Forall account_ok k ->
  concat (account_bytes <$> l) = concat (account_bytes <$> k) ->
  (fun e => (e.1, committed e.2)) <$> l = (fun e => (e.1, committed e.2)) <$> k.
Proof.
  intros Hl. revert k. induction Hl as [|e l He Hl IH]; intros k Hk E.
  - destruct Hk as [|f k Hf Hk]; [done|]. apply (f_equal length) in E. cbn in E.
    rewrite length_app, account_bytes_length in E by done. lia.
  - destruct Hk as [|f k Hf Hk].
    { apply (f_equal length) in E. cbn in E. rewrite length_app, account_bytes_length in E by done. lia. }
    cbn in E. apply app_inj_len in E as [E1 E2]; [|by rewrite !account_bytes_length].
    cbn. f_equal; [by apply account_bytes_inj|by apply IH].
Qed.
Lemma list_to_map_entries (m : gmap Address Account) :
  list_to_map ((fun e => (e.1, committed e.2)) <$> entries m) = committed <$> m.
Proof.
  apply map_eq. intros a. rewrite lookup_fmap. destruct (m !! a) as [acc|] eqn:Ha; cbn.
  - apply elem_of_list_to_map_1.
    + rewrite <- list_fmap_compose. apply entries_nodup.
    + apply list_elem_of_fmap. exists (a, acc). split; [done|]. by apply elem_of_entries.
  - apply not_elem_of_list_to_map_1. rewrite <- list_fmap_compose. intros Hin.
    apply list_elem_of_fmap in Hin as ([b acc] & Hb & Hin). cbn in Hb. subst b.
    apply elem_of_entries in Hin. congruence.
Qed.
End snapshots.

Section roots.
Context `{CryptoLib}.

(** The root that [commit] returns binds what it hashes: two states with
    well-formed accounts and the same root, whatever the order in which each
    table was enumerated, have the same accounts with the same nonce, balance
    and code hash, or exhibit a Keccak-256 collision.  Storage is not hashed:
    changing any slot leaves the root as it is. *)
Theorem state_root_binds_accounts (o1 o2 : HashOrder) s1 s2 :
  map_Forall (fun a acc => account_ok (a, acc)) (accounts s1) ->
  map_Forall (fun a acc => account_ok (a, acc)) (accounts s2) ->
  snd (@commit _ o1 s1) = snd (@commit _ o2 s2) ->
  (committed <$> accounts s1 = committed <$> accounts s2 \/ keccak_collision) /\
  (forall a key v, snd (@commit _ o1 (set_storage s1 a key v)) = snd (@commit _ o1 s1)).
Proof.
  intros W1 W2 E. split; [|done]. cbn [commit snd] in E. injection E as E.
  set (l1 := @entries o1 _ _ _ _ (accounts s1)) in *. set (l2 := @entries o2 _ _ _ _ (accounts s2)) in *.
  destruct (decide (concat (account_bytes <$> l1) = concat (account_bytes <$> l2))) as [E'|Hne];
    [left|right; by exists (concat (account_bytes <$> l1)), (concat (account_bytes <$> l2))].
  apply concat_accounts_inj in E'.
  - rewrite <- (@list_to_map_entries o1 (accounts s1)), <- (@list_to_map_entries o2 (accounts s2)). by f_equal.
  - apply Forall_forall. intros [a acc] Hin%elem_of_entries. by apply W1.
  - apply Forall_forall. intros [a acc] Hin%elem_of_entries. by apply W2.
Qed.
End roots.

(** ** Sample states *)
Module Sample.
Definition addr (n : Z) : Address := mkAddress (replicate 19 0 ++ [n]).
Definition rich : StateDb := set_balance empty_state (addr 1) (U256.from_u64 100).
Definition begun : JournaledState := fst (checkpoint (new_journaled rich)).
Definition written : JournaledState :=
  revert_checkpoint
    (j_set_storage (fst (checkpoint (j_set_balance begun (addr 2) (U256.from_u64 5))))
       (addr 1) U256.ONE U256.ONE) 1.

Lemma written_reachable : rtc (journal_step 0) begun written.
Proof.
  eapply rtc_l; [apply (step_set_balance 0 _ (addr 2) (U256.from_u64 5))|].
  eapply rtc_l; [apply step_checkpoint|].
  eapply rtc_l; [apply (step_set_storage 0 _ (addr 1) U256.ONE U256.ONE)|].
  apply rtc_once. apply (step_revert 0 _ 1). lia.
Qed.

Lemma revert_restores_state_witness :
  let j' := revert_checkpoint written 0 in
  get_account (js_state j') (addr 2) = EMPTY /\
  get_account (js_state j') (addr 1) = get_account rich (addr 1) /\
  account_exists (js_state j') (addr 2) = true.
Proof.
  intros j'.
  destruct (revert_restores_state (new_journaled rich) written written_reachable) as (He & _ & _ & Hex).
  split; [|split].
  - exact (proj1 He (addr 2)).
  - exact (proj1 He (addr 1)).
  - etransitivity; [exact (Hex (addr 2))|]. vm_compute. reflexivity.
Defined.

Definition coded : StateDb := @set_code toy_crypto rich (addr 1) [96; 1].
Lemma rollback_restores_snapshot_witness :
  let s' := delete_account (@set_code toy_crypto coded (addr 1) [0]) (addr 1) in
  let r := rollback s' (snapshot coded) in
  accounts r !! addr 1 = accounts coded !! addr 1 /\
  (get_code r (addr 1) = [96; 1] \/ @keccak_collision toy_crypto).
Proof.
  intros s' r.
  destruct (@rollback_restores_snapshot toy_crypto canonical_order coded s') as (Ha & _ & Hcode).
  - eapply rtc_l; [apply step_set_account|]. apply rtc_once. apply step_set_code.
  - eapply rtc_l; [apply (@step_set_code toy_crypto canonical_order coded (addr 1) [0])|].
    apply rtc_once. apply step_delete.
  - split; [exact (Ha (addr 1))|]. apply (Hcode (addr 1) [96; 1]). vm_compute. reflexivity.
Defined.

Definition two : StateDb :=
  set_account rich (addr 2) (mkAccount 7 U256.ONE (mkHash (replicate 32 1)) HASH_ZERO).
Lemma rich_ok : map_Forall (fun a acc => account_ok (a, acc)) (accounts rich).
Proof.
  apply map_Forall_insert_2; [|apply map_Forall_empty]. unfold account_ok, wf_addr, is_bytes. cbn.
  split; [split; [done|repeat constructor; discriminate]|].
  split; [done|]. split; [by apply wf_from_u64|done].
Qed.
Lemma state_root_binds_accounts_witness :
  committed <$> accounts rich = committed <$> accounts (set_storage rich (addr 1) U256.ONE U256.ONE) \/
  @keccak_collision toy_crypto.
Proof.
  exact (proj1 (@state_root_binds_accounts toy_crypto canonical_order reversed_order rich
    (set_storage rich (addr 1) U256.ONE U256.ONE) rich_ok rich_ok eq_refl)).
Defined.

(** One state has two roots: the root depends on the order in which the table
    happens to be enumerated. *)
Lemma root_depends_on_order :
  snd (@commit toy_crypto canonical_order two) <> snd (@commit toy_crypto reversed_order two).
Proof. vm_compute. discriminate. Qed.
End Sample.
