(* ===== verification/Executor.v ===== *)
(** * The transaction executor (crates/nexus-evm: executor.rs, revm_db.rs)

    The interpreter is the [revm] crate: a parameter, [RevmLib], which reads
    the state through the database adapter and returns a result and a map of
    changed accounts.  Everything the crate's callers do before and after it
    is defined as in the source. *)
From stdpp Require Import base numbers list gmap strings.
From Stdlib Require Import ZArith Lia.
From S2P Require Import Prelude Types Crypto Transaction Gas Receipt EvmState.
#[local] Open Scope Z_scope.

(** ** The interface of REVM *)
(** [AccountInfo]; a bytecode is its bytes *)
Record AccountInfo := mkInfo {
  info_balance : U256; info_nonce : Z; info_code_hash : Hash; info_code : option (list Z)
}.
(** What the [Database] trait answers *)
Record RevmDatabase := mkDatabase {
  db_basic : Address -> option AccountInfo;
  db_code_by_hash : Hash -> list Z;
  db_storage : Address -> U256 -> U256;
  db_block_hash : U256 -> Hash
}.
(** The configuration, block and transaction environments that are set *)
Record RevmEnv := {
  cfg_chain_id : Z;
  block_number : Z; block_timestamp : Z; block_coinbase : Address;
  block_gas_limit : Z; block_basefee : U256;
  tx_caller : Address; tx_transact_to : Address; tx_data : list Z; tx_value : U256;
  tx_gas_limit : Z; tx_gas_price : U256
}.
Record RevmSlot := { slot_changed : bool; slot_present : U256 }.
Record RevmAccount := {
  is_touched : bool;
  is_selfdestructed : bool;
  ra_info : AccountInfo;
  ra_storage : list (U256 * RevmSlot)
}.
Inductive RevmResult :=
  | RevmSuccess (gas_used gas_refunded : Z) (output : list Z) (logs : list Log)
  | RevmRevert (gas_used : Z) (output : list Z)
  | RevmHalt (gas_used : Z).
(** [Evm::transact]: an error with its text, or the result and the changed
    accounts in the order in which the map is enumerated. *)
Class RevmLib := {
  transact : RevmDatabase -> RevmEnv -> string + (RevmResult * list (Address * RevmAccount));
  KECCAK_EMPTY : Hash
}.

(** ** The executor *)
Record EvmEnv := {
  env_chain_id : Z;
  env_number : Z;
  env_timestamp : Z;
  env_coinbase : Address;
  env_gas_limit : Z;
  env_base_fee : U256;
  env_prev_hash : Hash;
  env_difficulty : U256;
  env_prevrandao : Hash
}.
Definition default_env : EvmEnv := {|
  env_chain_id := 1337; env_number := 0; env_timestamp := 0; env_coinbase := ADDRESS_ZERO;
  env_gas_limit := 30000000; env_base_fee := U256.from_u64 1000000000;
  env_prev_hash := HASH_ZERO; env_difficulty := U256.ZERO; env_prevrandao := HASH_ZERO |}.

Record PrecompileResult := { pr_output : list Z; pr_gas_used : Z }.
Definition PrecompileFn : Type := list Z -> Z -> GasSchedule -> outcome EvmError PrecompileResult.

Record Executor := mkExecutor {
  ex_state : StateDb;
  env : EvmEnv;
  gas_schedule : GasSchedule;
  fee_market : FeeMarket;
  precompiles : gmap Address PrecompileFn;
  accessed_addresses : gset Address;
  accessed_storage : gset (Address * U256)
}.
(** [Executor::new], given the table of precompiled contracts *)
Definition new_executor (table : gmap Address PrecompileFn) (s : StateDb) (e : EvmEnv) : Executor :=
  mkExecutor s e berlin default_fee_market table ∅ ∅.
Definition set_ex_state (s : StateDb) (x : Executor) : Executor :=
  mkExecutor s (env x) (gas_schedule x) (fee_market x) (precompiles x)
    (accessed_addresses x) (accessed_storage x).
(** [Executor::set_env] *)
Definition set_env (e : EvmEnv) (x : Executor) : Executor :=
  mkExecutor (ex_state x) e (gas_schedule x) (fee_market x) (precompiles x)
    (accessed_addresses x) (accessed_storage x).
Definition set_accessed (addresses : gset Address) (x : Executor) : Executor :=
  mkExecutor (ex_state x) (env x) (gas_schedule x) (fee_market x) (precompiles x) addresses ∅.

Definition find_precompile (x : Executor) (to : Address) : option PrecompileFn := precompiles x !! to.

Definition access_address (x : Executor) (a : Address) : Executor * Z :=
  (mkExecutor (ex_state x) (env x) (gas_schedule x) (fee_market x) (precompiles x)
     ({[a]} ∪ accessed_addresses x) (accessed_storage x),
   if bool_decide (a ∈ accessed_addresses x) then warm_account_access (gas_schedule x)
   else cold_account_access (gas_schedule x)).
Definition access_storage (x : Executor) (a : Address) (key : U256) : Executor * Z :=
  (mkExecutor (ex_state x) (env x) (gas_schedule x) (fee_market x) (precompiles x)
     (accessed_addresses x) ({[(a, key)]} ∪ accessed_storage x),
   if bool_decide ((a, key) ∈ accessed_storage x) then sload_warm (gas_schedule x)
   else cold_sload (gas_schedule x)).

(** The executor's [Arc<StateDb>] is the one of the journal it is given. *)
Definition Evm (A : Type) : Type := M JournaledState EvmError A.
Definition on_db {A} (m : M StateDb EvmError A) : Evm A := fun j =>
  let '(s, r) := m (js_state j) in (mkJournaled s (journal j) (checkpoints j), r).
Definition get_db : Evm StateDb := fun j => (j, Ok (js_state j)).
Definition set_db (s : StateDb) : Evm () := on_db (put_state s).

(** ** Contract addresses *)
(** [skip_while(|&b| b == 0)] *)
Fixpoint skip_zeros (l : list Z) : list Z :=
  match l with
  | b :: l' => if b =? 0 then skip_zeros l' else l
  | [] => []
  end.
Definition executor_rlp (sender : Address) (nonce : Z) : list Z :=
  let nonce_bytes :=
    if nonce =? 0 then [128]
    else if nonce <? 128 then [nonce mod 256]
    else
      let bytes := skip_zeros (to_be_bytes 8 nonce) in
      (128 + Z.of_nat (length bytes)) mod 256 :: bytes in
  let list_len := 21 + Z.of_nat (length nonce_bytes) in
  ((if list_len <? 56 then [(192 + list_len) mod 256] else [247 + 1; list_len mod 256])
   ++ [128 + 20] ++ addr_bytes sender ++ nonce_bytes)%list.
Section create_address.
Context `{CryptoLib}.
Definition calculate_create_address (sender : Address) (nonce : Z) : Address :=
  default ADDRESS_ZERO (address_from_slice (drop 12 (keccak (executor_rlp sender nonce)))).
Definition calculate_create2_address (sender : Address) (salt init_code_hash : list Z) : Address :=
  default ADDRESS_ZERO (address_from_slice
    (drop 12 (keccak (255 :: addr_bytes sender ++ salt ++ init_code_hash)%list))).
End create_address.

(** ** The database adapter *)
Section revm.
Context `{CryptoLib} `{RevmLib}.

Definition basic (s : StateDb) (a : Address) : option AccountInfo :=
  let account := get_account s a in
  if is_empty account then None
  else Some
    (if bool_decide (acc_code_hash account = HASH_ZERO)
     then mkInfo (acc_balance account) (acc_nonce account) KECCAK_EMPTY None
     else mkInfo (acc_balance account) (acc_nonce account) (acc_code_hash account)
            (Some (get_code s a))).
Definition nexus_database (s : StateDb) : RevmDatabase := {|
  db_basic := basic s;
  db_code_by_hash := fun _ => [];
  db_storage := get_storage s;
  db_block_hash := fun _ => HASH_ZERO |}.

Definition apply_slot (addr : Address) (s : StateDb) (slot : U256 * RevmSlot) : StateDb :=
  if slot_changed slot.2 then set_storage s addr slot.1 (slot_present slot.2) else s.
Definition apply_code (addr : Address) (info : AccountInfo) (s : StateDb) : StateDb :=
  match info_code info with
  | Some code_bytes =>
      if bool_decide (code_bytes = []) then s
      else if bool_decide (info_code_hash info = get_code_hash s addr) then s
      else set_code s addr code_bytes
  | None => s
  end.
Definition apply_account (s : StateDb) (change : Address * RevmAccount) : StateDb :=
  let '(addr, account) := change in
  if negb (is_touched account) then s
  else if is_selfdestructed account then delete_account s addr
  else
    let info := ra_info account in
    let s := set_account s addr
               (with_nonce (info_nonce info) (with_balance (info_balance info) (get_account s addr))) in
    let s := apply_code addr info s in
    foldl (apply_slot addr) s (ra_storage account).
Definition apply_revm_state (s : StateDb) (changes : list (Address * RevmAccount)) : StateDb :=
  foldl apply_account s changes.

(** ** Execution *)
Definition from_revm_result (r : RevmResult) : ExecutionResult :=
  match r with
  | RevmSuccess gas_used gas_refunded output logs => mkResult true gas_used gas_refunded output logs None
  | RevmRevert gas_used output => exec_revert gas_used output
  | RevmHalt gas_used => exec_revert gas_used []
  end.
Definition revm_env (e : EvmEnv) (caller address : Address) (data : list Z) (value : U256)
    (gas_limit : Z) : RevmEnv := {|
  cfg_chain_id := env_chain_id e;
  block_number := env_number e; block_timestamp := env_timestamp e;
  block_coinbase := env_coinbase e; block_gas_limit := env_gas_limit e;
  block_basefee := U256.ZERO;
  tx_caller := caller; tx_transact_to := address; tx_data := data; tx_value := value;
  tx_gas_limit := gas_limit; tx_gas_price := U256.ZERO |}.

Definition execute_code (x : Executor) (caller address : Address) (code data : list Z)
    (value : U256) (gas_limit : Z) : Evm ExecutionResult :=
  s ← get_db;
  let stored := get_code s address in
  _ ← (if negb (bool_decide (stored = code)) && negb (bool_decide (code = []))
       then set_db (set_code s address code) else mret ());
  s ← get_db;
  match transact (nexus_database s) (revm_env (env x) caller address data value gas_limit) with
  | inl e => fail (EvmStateError ("REVM: " +:+ e))
  | inr (revm_result, state_changes) =>
      _ ← set_db (apply_revm_state s state_changes);
      mret (from_revm_result revm_result)
  end.

Definition transfer (sender to : Address) (value : U256) : Evm () :=
  if U256.ltb U256.ZERO value then
    _ ← on_db (sub_balance sender value);
    on_db (add_balance to value)
  else mret ().

Definition execute_call (x : Executor) (sender to : Address) (value : U256) (data : list Z) (gas : Z)
    : Evm ExecutionResult :=
  match find_precompile x to with
  | Some precompile =>
      _ ← transfer sender to value;
      result ← lift (precompile data gas (gas_schedule x));
      mret (exec_success (pr_gas_used result) 0 (pr_output result) [])
  | None =>
      s ← get_db;
      let code := get_code s to in
      if bool_decide (code = []) then
        _ ← transfer sender to value;
        mret (exec_success 0 0 [] [])
      else execute_code x sender to code data value gas
  end.

Definition execute_create (x : Executor) (sender : Address) (tx : Transaction) : Evm ExecutionResult :=
  s ← get_db;
  let nonce := get_nonce s sender -! 1 in
  let contract_addr := calculate_create_address sender nonce in
  if negb (is_empty (get_account s contract_addr))
  then fail (CreateFailed "Contract address already exists")
  else
    let s := set_account s contract_addr (mkAccount 1 U256.ZERO HASH_ZERO HASH_ZERO) in
    _ ← set_db (set_code s contract_addr (data tx));
    let gas_available := gas_limit tx -! tx_create (gas_schedule x) in
    result ← execute_code x sender contract_addr (data tx) [] (value tx) gas_available;
    if success result then
      let code := output result in
      if (24576 <? length code)%nat then fail (CreateFailed "Contract code size exceeds limit")
      else if bool_decide (head code = Some 239) then fail (CreateFailed "Contract code starts with 0xEF")
      else
        s ← get_db;
        _ ← set_db (set_code s contract_addr code);
        let code_deposit_cost := Z.of_nat (length code) *! 200 in
        mret (mkResult true (gas_used result +! code_deposit_cost) (gas_refunded result) []
                (logs result) (Some contract_addr))
    else mret result.

(** [Executor::validate_tx]; numbers are printed in decimal *)
Definition validate_tx (x : Executor) (tx : Transaction) : outcome EvmError () :=
  if env_gas_limit (env x) <? gas_limit tx
  then Err (OutOfGas (gas_limit tx) (env_gas_limit (env x)))
  else if negb (chain_id tx =? env_chain_id (env x))
  then Err (EvmStateError ("Chain ID mismatch: expected " +:+ pretty.pretty (env_chain_id (env x))
              +:+ ", got " +:+ pretty.pretty (chain_id tx)))
  else Ok ().

Definition calculate_gas_price (x : Executor) (tx : Transaction) : outcome EvmError U256 :=
  match tx_type tx with
  | DynamicFee =>
      if U256.ltb (gas_price tx) (env_base_fee (env x))
      then Err (EvmStateError "Max fee per gas below base fee")
      else
        let max_priority_fee := default U256.ZERO (max_priority_fee tx) in
        room ← U256.sub (gas_price tx) (env_base_fee (env x));
        U256.add (env_base_fee (env x)) (U256.min max_priority_fee room)
  | _ => Ok (gas_price tx)
  end.

(** ** A transaction, in the order of [execute_tx] *)

(** Steps up to the nonce check: nothing is written.  The sender, the
    intrinsic gas, the price, the balance and the maximal fee. *)
Record Admitted_tx := mkAdmitted {
  at_sender : Address;
  at_intrinsic : Z;
  at_price : U256;
  at_balance : U256;
  at_max_fee : U256
}.
Definition set_tx_access (x : Executor) (sender : Address) (tx : Transaction) : Executor :=
  set_accessed ({[sender]} ∪ match tx_to tx with Some to => {[to]} | None => ∅ end) x.

Definition check_sender (x : Executor) (tx : Transaction) : outcome EvmError Address :=
  _ ← validate_tx x tx;
  map_err (fun _ => InvalidSignature) (recover_sender tx).

Definition check_funds (x : Executor) (tx : Transaction) (sender : Address) : outcome EvmError Admitted_tx :=
  let is_create := bool_decide (tx_to tx = None) in
  let intrinsic := intrinsic_gas (gas_schedule x) (data tx) is_create 0 in
  if gas_limit tx <? intrinsic then Err (OutOfGas intrinsic (gas_limit tx))
  else
    effective_gas_price ← calculate_gas_price x tx;
    let max_fee := U256.mul effective_gas_price (U256.from_u64 (gas_limit tx)) in
    let sender_balance := get_balance (ex_state x) sender in
    total_cost ← U256.add max_fee (value tx);
    if U256.ltb sender_balance total_cost
    then Err (InsufficientBalance (u256_debug total_cost) (u256_debug sender_balance))
    else
      let expected_nonce := get_nonce (ex_state x) sender in
      if negb (nonce tx =? expected_nonce) then Err (NonceMismatch expected_nonce (nonce tx))
      else Ok (mkAdmitted sender intrinsic effective_gas_price sender_balance max_fee).

(** [self.execute_create] or [self.execute_call], in the journal of the call *)
Definition execute (x : Executor) (tx : Transaction) (sender : Address) (intrinsic : Z)
    : Evm ExecutionResult :=
  match tx_to tx with
  | None => execute_create x sender tx
  | Some to => execute_call x sender to (value tx) (data tx) (gas_limit tx -! intrinsic)
  end.

Definition with_contract (a : option Address) (r : Receipt) : Receipt := {|
  r_tx_hash := r_tx_hash r; r_tx_index := r_tx_index r; r_vertex_hash := r_vertex_hash r;
  r_status := r_status r; r_cumulative_gas_used := r_cumulative_gas_used r;
  r_gas_used := r_gas_used r; r_effective_gas_price := r_effective_gas_price r;
  r_contract_address := a; r_logs := r_logs r; r_logs_bloom := r_logs_bloom r;
  r_revert_reason := r_revert_reason r |}.

(** The receipt, the gas used, and the journal committed or reverted *)
Definition handle_result (x : Executor) (tx : Transaction) (intrinsic : Z) (price : U256)
    (checkpoint : nat) (result : JournaledState * outcome EvmError ExecutionResult)
    : JournaledState * outcome EvmError (Receipt * Z) :=
  let '(j, r) := result in
  let prev_hash := env_prev_hash (env x) in
  match r with
  | Ok res =>
      if success res then
        let used := (intrinsic +! gas_used res) -! gas_refunded res in
        (commit_checkpoint j checkpoint,
         Ok (with_contract (created_address res)
               (receipt_success (tx_hash tx) prev_hash used price (logs res)), used))
      else
        let j := revert_checkpoint j checkpoint in
        let used := intrinsic +! gas_used res in
        match revert_reason res with
        | Ok reason =>
            (j, Ok (receipt_revert (tx_hash tx) prev_hash used price (default EmptyString reason), used))
        | Err e => (j, Err e)
        | Panic => (j, Panic)
        | Blocked => (j, Blocked)
        end
  | Err _ =>
      (revert_checkpoint j checkpoint,
       Ok (receipt_failure (tx_hash tx) prev_hash (gas_limit tx) price, gas_limit tx))
  | Panic => (j, Panic)
  | Blocked => (j, Blocked)
  end.

(** The refund of the unused gas and the payment of the validator *)
Definition settle (x : Executor) (tx : Transaction) (sender : Address) (price : U256) (used : Z)
    : M StateDb EvmError () :=
  let gas_refund := gas_limit tx -! used in
  let refund_amount := U256.mul price (U256.from_u64 gas_refund) in
  _ ← add_balance sender refund_amount;
  let fee := U256.mul price (U256.from_u64 used) in
  priority_fee ← lift (U256.sub fee (U256.mul (env_base_fee (env x)) (U256.from_u64 used)));
  add_balance (env_coinbase (env x)) priority_fee.

(** From the deduction of the fee on *)
Definition run_admitted (x : Executor) (tx : Transaction) (adm : Admitted_tx)
    : M StateDb EvmError Receipt := fun s =>
  let sender := at_sender adm in
  match U256.sub (at_balance adm) (at_max_fee adm) with
  | Ok balance =>
      let j := j_set_balance (new_journaled s) sender balance in
      let j := mkJournaled (increment_nonce (js_state j) sender) (journal j) (checkpoints j) in
      let '(j, id) := checkpoint j in
      let '(j, r) := handle_result x tx (at_intrinsic adm) (at_price adm) id
                       (execute x tx sender (at_intrinsic adm) j) in
      match r with
      | Ok (receipt, used) =>
          let '(s, paid) := settle x tx sender (at_price adm) used (js_state j) in
          (s, _ ← paid; Ok receipt)
      | Err e => (js_state j, Err e)
      | Panic => (js_state j, Panic)
      | Blocked => (js_state j, Blocked)
      end
  | Err e => (s, Err e)
  | Panic => (s, Panic)
  | Blocked => (s, Blocked)
  end.

Definition execute_tx (tx : Transaction) : M Executor EvmError Receipt := fun x =>
  match check_sender x tx with
  | Ok sender =>
      let x := set_tx_access x sender tx in
      match check_funds x tx sender with
      | Ok adm => let '(s, r) := run_admitted x tx adm (ex_state x) in (set_ex_state s x, r)
      | Err e => (x, Err e)
      | Panic => (x, Panic)
      | Blocked => (x, Blocked)
      end
  | Err e => (x, Err e)
  | Panic => (x, Panic)
  | Blocked => (x, Blocked)
  end.

(** [execute_batch]: one after the other, failures included *)
Fixpoint execute_batch (txs : list Transaction) (x : Executor)
    : Executor * outcome EvmError (list (outcome EvmError Receipt)) :=
  match txs with
  | [] => (x, Ok [])
  | tx :: txs =>
      match execute_tx tx x with
      | (x, Panic) => (x, Panic)
      | (x, Blocked) => (x, Blocked)
      | (x, r) => let '(x, rs) := execute_batch txs x in (x, rs ← rs; Ok (r :: rs))
      end
  end.

Definition call_dry_run (caller to : Address) (value : U256) (data : list Z) (gas : Z)
    : M Executor EvmError (list Z * Z) := fun x =>
  let '(j, id) := checkpoint (new_journaled (ex_state x)) in
  let '(j, result) := execute_call x caller to value data gas j in
  match result with
  | Panic => (set_ex_state (js_state j) x, Panic)
  | Blocked => (set_ex_state (js_state j) x, Blocked)
  | _ =>
      let j := revert_checkpoint j id in
      (set_ex_state (js_state j) x, r ← result; Ok (output r, gas_used r))
  end.
End revm.
