(* ===== verification/ExecutorProps.v ===== *)
(** * Properties of the transaction executor *)
From stdpp Require Import base numbers list gmap strings relations.
From Stdlib Require Import ZArith Lia.
From S2P Require Import Prelude Types U256Facts Crypto Transaction Gas Receipt EvmState EvmStateProps Executor.
Import U256Facts.
#[local] Open Scope Z_scope.

(** ** Balances as integers *)
Definition bal (s : StateDb) (a : Address) : Z := to_Z (get_balance s a).
Definition balances_ok (s : StateDb) : Prop := forall a, wf (get_balance s a).
(** No two accounts together hold 2^256 or more. *)
Definition supply_ok (s : StateDb) : Prop := forall a b, a <> b -> bal s a + bal s b < B256.

(** [d] on the account [a] and nothing elsewhere *)
Definition at_ (a : Address) (d : Z) (b : Address) : Z := if decide (a = b) then d else 0.
(** [s'] is [s] with [d a] more (or less) on every account [a]. *)
Record credits (d : Address -> Z) (s s' : StateDb) : Prop := {
  credit_ok : balances_ok s';
  credit_bal : forall b, bal s' b = bal s b + d b;
  credit_nonce : forall b, get_nonce s' b = get_nonce s b;
  credit_code : forall b, get_code s' b = get_code s b;
  credit_storage : forall b key, get_storage s' b key = get_storage s b key
}.

Lemma credits_trans d1 d2 s1 s2 s3 : credits d1 s1 s2 -> credits d2 s2 s3 ->
  credits (fun b => d1 b + d2 b) s1 s3.
Proof.
  intros [_ B1 N1 C1 S1] [O B2 N2 C2 S2]. split; [done|..]; intros b; rewrite ?B2, ?B1, ?N2, ?C2; auto; [lia|].
  intros key. by rewrite S2.
Qed.
Lemma credits_refl s : balances_ok s -> credits (fun _ => 0) s s.
Proof. intros Hs. split; [done|..]; intros b; [lia|done..]. Qed.
Lemma credits_ext d1 d2 s s' : (forall b, d1 b = d2 b) -> credits d1 s s' -> credits d2 s s'.
Proof. intros Hd [O B N C S]. split; try done. intros b. by rewrite B, Hd. Qed.

Lemma get_account_set_balance s a v b : get_account (set_balance s a v) b =
  if decide (a = b) then with_balance v (get_account s b) else get_account s b.
Proof. unfold set_balance. rewrite get_account_set. case_decide; [by subst|done]. Qed.

Lemma credits_set_balance s a v : balances_ok s -> wf v -> credits (at_ a (to_Z v - bal s a)) s (set_balance s a v).
Proof.
  intros Hs Hv. split.
  - intros b. unfold get_balance. rewrite get_account_set_balance. case_decide; [done|apply Hs].
  - intros b. unfold bal, get_balance, at_. rewrite get_account_set_balance.
    case_decide as Hab; [subst b; cbn; lia|lia].
  - intros b. unfold get_nonce. rewrite get_account_set_balance. by case_decide.
  - intros b. unfold get_code. rewrite get_account_set_balance. by case_decide.
  - done.
Qed.
Section balances.
Context `{CryptoLib}.

Lemma add_balance_Ok s a v : balances_ok s -> wf v -> bal s a + to_Z v < B256 ->
  exists s', add_balance a v s = (s', Ok ()) /\ credits (at_ a (to_Z v)) s s'.
Proof.
  intros Hs Hv Hb. destruct (checked_add_Some _ v (Hs a) Hv Hb) as (r & Hr & Wr & Er).
  eexists. unfold add_balance. fold (get_balance s a). rewrite Hr. split; [done|].
  replace (to_Z v) with (to_Z r - bal s a) by (unfold bal; lia). by apply credits_set_balance.
Qed.
Lemma sub_balance_Ok s a v : balances_ok s -> wf v -> to_Z v <= bal s a ->
  exists s', sub_balance a v s = (s', Ok ()) /\ credits (at_ a (- to_Z v)) s s'.
Proof.
  intros Hs Hv Hb. destruct (checked_sub_Some _ v (Hs a) Hv Hb) as (r & Hr & Wr & Er).
  eexists. unfold sub_balance. fold (get_balance s a). rewrite (ltb_spec _ v (Hs a) Hv).
  fold (bal s a). case Z.ltb_spec; [lia|intros _]. unfold U256.sub. rewrite Hr. cbn [unwrap].
  split; [done|]. replace (- to_Z v) with (to_Z r - bal s a) by (unfold bal; lia).
  by apply credits_set_balance.
Qed.
Lemma add_balance_Err s a v s' e : add_balance a v s = (s', Err e) -> e = EvmStateError "Balance overflow" /\ s' = s.
Proof. unfold add_balance. destruct (U256.checked_add _ v); by intros [= <- <-]. Qed.
Lemma sub_balance_Err s a v s' e : sub_balance a v s = (s', Err e) -> s' = s.
Proof.
  unfold sub_balance. destruct (U256.ltb _ v); [by intros [= <- _]|].
  unfold U256.sub. by destruct (U256.checked_sub _ v).
Qed.
End balances.

(** ** The phases of a transaction *)
Section phases.
Context `{CL : CryptoLib} `{RL : RevmLib}.

Lemma mul_u64_exact p g : wf p -> is_u64 g -> to_Z p * g < B256 ->
  wf (U256.mul p (U256.from_u64 g)) /\ to_Z (U256.mul p (U256.from_u64 g)) = to_Z p * g.
Proof.
  intros Hp Hg Hb. destruct (mul_spec p _ Hp (wf_from_u64 g Hg)) as [Wm Em]. split; [done|].
  rewrite Em, to_Z_from_u64. apply Z.mod_small. pose proof (to_Z_range _ Hp). unfold is_u64 in Hg. nia.
Qed.

(** A transfer between accounts succeeds and moves the value. *)
Lemma transfer_Ok j sender to v : balances_ok (js_state j) -> supply_ok (js_state j) -> wf v ->
  to_Z v <= bal (js_state j) sender ->
  exists s', transfer sender to v j = (mkJournaled s' (journal j) (checkpoints j), Ok ()) /\
    credits (fun b => at_ sender (- to_Z v) b + at_ to (to_Z v) b) (js_state j) s'.
Proof.
  intros Hs Hsup Hv Hle. unfold transfer. rewrite (ltb_spec _ v wf_zero Hv), to_Z_zero.
  pose proof (to_Z_range _ Hv). case Z.ltb_spec; intros Hpos.
  - destruct (sub_balance_Ok _ sender v Hs Hv Hle) as (s1 & E1 & C1).
    unfold mbind, M_bind, on_db. rewrite E1. cbn [js_state journal checkpoints]. destruct (add_balance_Ok s1 to v (credit_ok _ _ _ C1) Hv) as (s2 & E2 & C2).
    { rewrite (credit_bal _ _ _ C1). unfold at_. case_decide as Hab; [subst; pose proof (to_Z_range _ (Hs to)); unfold bal; lia|].
      pose proof (Hsup sender to Hab). lia. }
    rewrite E2. exists s2. split; [done|]. by eapply credits_trans.
  - destruct j as [s es cps]. exists s. split; [done|]. eapply credits_ext; [|by apply credits_refl].
    intros b. unfold at_. repeat case_decide; lia.
Qed.

Lemma sat_used_mul p used gl : 0 <= p -> 0 <= used <= gl -> 0 <= p * used <= p * gl /\ p * (gl - used) + p * used = p * gl.
Proof. intros. split; [split; [nia|apply Z.mul_le_mono_nonneg_l; lia]|lia]. Qed.

(** Refund and tip, when the price covers the base fee. *)
Lemma settle_Ok x tx sender p used s : balances_ok s -> wf p -> wf (env_base_fee (env x)) ->
  is_u64 (gas_limit tx) -> 0 <= used <= gas_limit tx -> to_Z p * gas_limit tx < B256 ->
  to_Z (env_base_fee (env x)) <= to_Z p ->
  bal s sender + to_Z p * (gas_limit tx - used) < B256 ->
  (forall b, bal s b + at_ sender (to_Z p * (gas_limit tx - used)) b
     + at_ (env_coinbase (env x)) ((to_Z p - to_Z (env_base_fee (env x))) * used) b < B256) ->
  exists s', settle x tx sender p used s = (s', Ok ()) /\
    credits (fun b => at_ sender (to_Z p * (gas_limit tx - used)) b
               + at_ (env_coinbase (env x)) ((to_Z p - to_Z (env_base_fee (env x))) * used) b) s s'.
Proof.
  intros Hs Hp Hbase Hgl Hused Hov Hle Hrefund Hall. unfold settle, is_u64 in *.
  pose proof (to_Z_range _ Hp) as Rp. pose proof (to_Z_range _ Hbase) as Rb.
  destruct (sat_used_mul (to_Z p) used (gas_limit tx)) as [Hmul Hsum]; [lia..|].
  rewrite sub64_small by lia.
  destruct (mul_u64_exact p (gas_limit tx - used)) as [W1 E1]; [done|unfold is_u64; lia|nia|].
  destruct (mul_u64_exact p used) as [W2 E2]; [done|unfold is_u64; lia|nia|].
  destruct (mul_u64_exact (env_base_fee (env x)) used) as [W3 E3]; [done|unfold is_u64; lia|nia|].
  destruct (add_balance_Ok s sender (U256.mul p (U256.from_u64 (gas_limit tx - used)))) as (s1 & A1 & C1); [done|done|by rewrite E1|].
  unfold mbind, M_bind, lift. rewrite A1. cbv beta iota.
  destruct (checked_sub_Some _ _ W2 W3) as (tip & Ht & Wt & Et); [nia|].
  unfold U256.sub. rewrite Ht. cbn [unwrap].
  destruct (add_balance_Ok s1 (env_coinbase (env x)) tip) as (s2 & A2 & C2); [apply C1|done| |].
  { rewrite (credit_bal _ _ _ C1), Et, E1, E2, E3. specialize (Hall (env_coinbase (env x))).
    unfold at_ at 2 in Hall. rewrite decide_True in Hall by done. lia. }
  exists s2. split; [done|]. rewrite Et, E2, E3, E1 in *.
  rewrite Z.mul_sub_distr_r. by eapply credits_trans.
Qed.

(** What an admitted transaction has passed. *)
Record funded (x : Executor) (tx : Transaction) (adm : Admitted_tx) : Prop := {
  fd_intrinsic : at_intrinsic adm <= gas_limit tx;
  fd_price : calculate_gas_price x tx = Ok (at_price adm);
  fd_max_fee : at_max_fee adm = U256.mul (at_price adm) (U256.from_u64 (gas_limit tx));
  fd_balance : at_balance adm = get_balance (ex_state x) (at_sender adm);
  fd_total : exists total, U256.checked_add (at_max_fee adm) (value tx) = Some total /\
    U256.ltb (at_balance adm) total = false;
  fd_nonce : nonce tx = get_nonce (ex_state x) (at_sender adm)
}.
Lemma check_funds_Ok x tx sender adm : check_funds x tx sender = Ok adm ->
  at_sender adm = sender /\ funded x tx adm /\
  at_intrinsic adm = intrinsic_gas (gas_schedule x) (data tx) (bool_decide (tx_to tx = None)) 0.
Proof.
  unfold check_funds. case Z.ltb_spec; [done|intros Hg].
  intros (price & Hp & Hc)%bind_Ok_iff. unfold U256.add in Hc.
  apply bind_Ok_iff in Hc as (total & Ht & Hc).
  destruct (U256.checked_add _ (value tx)) as [t|] eqn:Et in Ht; [|done]. injection Ht as ->.
  destruct (U256.ltb _ total) eqn:El in Hc; [done|].
  destruct (Z.eqb_spec (nonce tx) (get_nonce (ex_state x) sender)) as [En|]; [|done].
  cbn [negb] in Hc. injection Hc as <-. split; [done|]. split; [|done].
  split; [exact Hg|exact Hp|reflexivity|reflexivity|by exists total|exact En].
Qed.

(** A checkpoint under which nothing was journaled reverts to itself. *)
Lemma revert_fresh j s :
  js_state (revert_checkpoint (mkJournaled s (journal j) (checkpoints (fst (checkpoint j)))) (snd (checkpoint j))) = s.
Proof.
  unfold revert_checkpoint. cbn [checkpoint fst snd checkpoints js_state journal].
  rewrite lookup_app_r, Nat.sub_diag by lia. cbn [lookup list_lookup].
  pose proof (revert_loop_spec s [] (journal j)) as E. cbn [app] in E. by rewrite E.
Qed.

(** The effect of a direct call that was charged for [used] gas *)
Definition direct_delta (x : Executor) (tx : Transaction) (adm : Admitted_tx) (to : Address) (used : Z)
    (b : Address) : Z :=
  at_ (at_sender adm) (- (to_Z (value tx) + to_Z (at_price adm) * used)) b + at_ to (to_Z (value tx)) b
  + at_ (env_coinbase (env x)) ((to_Z (at_price adm) - to_Z (env_base_fee (env x))) * used) b.
Record charged (x : Executor) (tx : Transaction) (adm : Admitted_tx) (to : Address) (used : Z)
    (s s' : StateDb) : Prop := {
  ch_ok : balances_ok s';
  ch_bal : forall b, bal s' b = bal s b + direct_delta x tx adm to used b;
  ch_nonce : forall b, get_nonce s' b =
    if decide (at_sender adm = b) then get_nonce s b +! 1 else get_nonce s b;
  ch_code : forall b, get_code s' b = get_code s b;
  ch_storage : forall b key, get_storage s' b key = get_storage s b key
}.

(** The conditions under which the arithmetic is exact *)
Record exact_fees (x : Executor) (tx : Transaction) (adm : Admitted_tx) (s : StateDb) : Prop := {
  ef_balances : balances_ok s;
  ef_supply : supply_ok s;
  ef_price : wf (at_price adm);
  ef_base : wf (env_base_fee (env x));
  ef_value : wf (value tx);
  ef_limit : is_u64 (gas_limit tx);
  ef_total : to_Z (at_price adm) * gas_limit tx + to_Z (value tx) < B256;
  ef_floor : to_Z (env_base_fee (env x)) <= to_Z (at_price adm)
}.

Lemma increment_nonce_spec s a :
  (forall b, get_balance (increment_nonce s a) b = get_balance s b) /\
  (forall b, get_nonce (increment_nonce s a) b = if decide (a = b) then get_nonce s b +! 1 else get_nonce s b) /\
  (forall b, get_code (increment_nonce s a) b = get_code s b).
Proof.
  unfold increment_nonce, get_balance, get_nonce, get_code.
  split; [|split]; intros b; rewrite get_account_set; case_decide; by try subst.
Qed.

Lemma deduct_Ok x tx adm s : exact_fees x tx adm s -> funded x tx adm ->
  at_balance adm = get_balance s (at_sender adm) ->
  to_Z (value tx) + to_Z (at_price adm) * gas_limit tx <= bal s (at_sender adm) /\
  exists b, @U256.sub EvmError (at_balance adm) (at_max_fee adm) = Ok b /\ wf b /\
    to_Z b = bal s (at_sender adm) - to_Z (at_price adm) * gas_limit tx.
Proof.
  intros [Hs _ Hp _ Hv Hgl Htot _] [_ _ Hm _ (total & Ht & Hlt) _] Hbal.
  pose proof (to_Z_range _ Hv).
  destruct (mul_u64_exact (at_price adm) (gas_limit tx)) as [Wm Em]; [done|done|lia|].
  rewrite <- Hm in Wm, Em. destruct (checked_add_Some _ _ Wm Hv) as (t & Et & Wt & Ett); [lia|].
  rewrite Et in Ht. injection Ht as ->. rewrite Hbal in *. rewrite (ltb_spec _ _ (Hs _) Wt) in Hlt.
  apply Z.ltb_ge in Hlt. fold (bal s (at_sender adm)) in Hlt. split; [lia|].
  destruct (checked_sub_Some _ _ (Hs (at_sender adm)) Wm) as (b & Eb & Wb & Ebb);
    [fold (bal s (at_sender adm)); lia|].
  exists b. unfold U256.sub. rewrite Eb. split; [done|]. split; [done|]. unfold bal. lia.
Qed.

(** The deltas of a charged call fit each account: what it pays is at most
    what the sender has. *)
Lemma direct_delta_bound x tx adm to used s : exact_fees x tx adm s ->
  to_Z (value tx) + to_Z (at_price adm) * gas_limit tx <= bal s (at_sender adm) ->
  0 <= used <= gas_limit tx ->
  forall b, 0 <= bal s b + direct_delta x tx adm to used b < B256.
Proof.
  intros [Hs Hsup Hp Hbase Hv Hgl _ Hle] Hpay Hu b. unfold direct_delta.
  pose proof (to_Z_range _ Hp) as Rp. pose proof (to_Z_range _ Hbase) as Rb.
  pose proof (to_Z_range _ Hv) as Rv. pose proof (to_Z_range _ (Hs b)) as Rs. fold (bal s b) in Rs.
  destruct (sat_used_mul (to_Z (at_price adm)) used (gas_limit tx)) as [H1 _]; [lia..|].
  assert (H2 : 0 <= (to_Z (at_price adm) - to_Z (env_base_fee (env x))) * used
            <= to_Z (at_price adm) * used) by nia.
  set (tip := (_ - _) * used) in *. set (paid := to_Z (at_price adm) * used) in *.
  unfold at_. destruct (decide (at_sender adm = b)) as [<-|Hb].
  - repeat case_decide; lia.
  - pose proof (Hsup b (at_sender adm) ltac:(congruence)). repeat case_decide; lia.
Qed.

(** The deduction of the fee with the increment of the nonce *)
Lemma charge_fee_spec s a b0 fee : balances_ok s -> supply_ok s -> wf b0 -> 0 <= fee ->
  to_Z b0 = bal s a - fee ->
  let s1 := increment_nonce (set_balance s a b0) a in
  balances_ok s1 /\ supply_ok s1 /\ (forall b, bal s1 b = bal s b + at_ a (- fee) b) /\
  (forall b, get_nonce s1 b = if decide (a = b) then get_nonce s b +! 1 else get_nonce s b) /\
  (forall b, get_code s1 b = get_code s b) /\
  (forall b key, get_storage s1 b key = get_storage s b key).
Proof.
  intros Hs Hsup Wb0 Hfee Zb0. cbv zeta. pose proof (credits_set_balance s a b0 Hs Wb0) as C0.
  rewrite Zb0 in C0. set (s0 := set_balance s a b0) in *.
  destruct (increment_nonce_spec s0 a) as (Ib & In & Ic). set (s1 := increment_nonce s0 a) in *.
  assert (B1 : forall b, bal s1 b = bal s b + at_ a (- fee) b).
  { intros b. unfold bal. rewrite Ib. fold (bal s0 b). rewrite (credit_bal _ _ _ C0). fold (bal s b).
    unfold at_. case_decide; lia. }
  split; [intros b; rewrite Ib; apply C0|]. split.
  { intros b c Hbc. rewrite !B1. pose proof (Hsup b c Hbc). unfold at_. repeat case_decide; lia. }
  split; [exact B1|]. split; [intros b; by rewrite In, (credit_nonce _ _ _ C0)|].
  split; [intros b; by rewrite Ic, (credit_code _ _ _ C0)|].
  exact (credit_storage _ _ _ C0).
Qed.

(** The three movements of a direct call add up. *)
Lemma charged_compose x tx adm to used s s1 s2 s3 : 0 <= used <= gas_limit tx ->
  let fee := to_Z (at_price adm) * gas_limit tx in
  (forall b, bal s1 b = bal s b + at_ (at_sender adm) (- fee) b) ->
  (forall b, get_nonce s1 b = if decide (at_sender adm = b) then get_nonce s b +! 1 else get_nonce s b) ->
  (forall b, get_code s1 b = get_code s b) ->
  (forall b key, get_storage s1 b key = get_storage s b key) ->
  credits (fun b => at_ (at_sender adm) (- to_Z (value tx)) b + at_ to (to_Z (value tx)) b) s1 s2 ->
  credits (fun b => at_ (at_sender adm) (to_Z (at_price adm) * (gas_limit tx - used)) b
    + at_ (env_coinbase (env x)) ((to_Z (at_price adm) - to_Z (env_base_fee (env x))) * used) b) s2 s3 ->
  charged x tx adm to used s s3.
Proof.
  cbv zeta. intros Hu B1 N1 K1 S1 C2 C3. split.
  - apply C3.
  - intros b. rewrite (credit_bal _ _ _ C3), (credit_bal _ _ _ C2), B1. unfold direct_delta, at_.
    repeat case_decide; lia.
  - intros b. by rewrite (credit_nonce _ _ _ C3), (credit_nonce _ _ _ C2), N1.
  - intros b. by rewrite (credit_code _ _ _ C3), (credit_code _ _ _ C2), K1.
  - intros b key. by rewrite (credit_storage _ _ _ C3), (credit_storage _ _ _ C2), S1.
Qed.

(** From the deduction to the settlement, around a transfer followed by [R]. *)
Lemma run_direct x tx adm to s (R : outcome EvmError ExecutionResult) used : exact_fees x tx adm s ->
  funded x tx adm -> at_balance adm = get_balance s (at_sender adm) ->
  (forall j, (forall b, get_code (js_state j) b = get_code s b) ->
     execute x tx (at_sender adm) (at_intrinsic adm) j =
       (_ ← transfer (at_sender adm) to (value tx); lift R) j) ->
  match R with
  | Ok res => success res = true /\ used = (at_intrinsic adm +! gas_used res) -! gas_refunded res
  | Err _ => used = gas_limit tx
  | _ => False
  end ->
  0 <= used <= gas_limit tx ->
  exists s' receipt, run_admitted x tx adm s = (s', Ok receipt) /\ r_gas_used receipt = used /\
    r_status receipt = match R with Ok _ => StatusSuccess | _ => StatusFailure end /\
    charged x tx adm to used s s'.
Proof.
  intros Hex Hfd Hbal Hexec HR Hused.
  destruct (deduct_Ok x tx adm s Hex Hfd Hbal) as [Hpay (b0 & Eb0 & Wb0 & Zb0)].
  pose proof (direct_delta_bound x tx adm to used s Hex Hpay Hused) as Hfit.
  pose proof Hex as [Hs Hsup Hp Hbase Hv Hgl Htot Hle].
  pose proof (to_Z_range _ Hp) as Rp. pose proof (to_Z_range _ Hv) as Rv.
  destruct (sat_used_mul (to_Z (at_price adm)) used (gas_limit tx)) as [Hm1 Hm2]; [lia..|].
  unfold run_admitted. rewrite Eb0. cbn [js_state j_set_balance new_journaled journal checkpoints].
  destruct (charge_fee_spec s (at_sender adm) b0 (to_Z (at_price adm) * gas_limit tx)) as (O1 & Sup1 & B1 & N1 & K1 & S1);
    [done|done|done|lia|done|].
  set (s1 := increment_nonce _ _) in *.
  set (j1 := mkJournaled s1 _ []).
  destruct (transfer_Ok (fst (checkpoint j1)) (at_sender adm) to (value tx)) as (s2 & Et & C2); [done..| |].
  { cbn [fst checkpoint js_state]. rewrite B1. unfold at_. rewrite decide_True by done. lia. }
  cbn [fst checkpoint js_state journal checkpoints] in Et, C2.
  unfold checkpoint. rewrite Hexec by exact K1.
  unfold mbind, M_bind, lift. rewrite Et. cbv beta iota.
  destruct (settle_Ok x tx (at_sender adm) (at_price adm) used s2) as (s3 & E3 & C3); [apply C2|done..|lia|done| | |].
  { rewrite (credit_bal _ _ _ C2), B1. pose proof (Hfit (at_sender adm)) as Hf.
    pose proof (to_Z_range _ (Hs (at_sender adm))) as Rs. fold (bal s (at_sender adm)) in Rs.
    unfold at_. repeat case_decide; try congruence; lia. }
  { intros b. rewrite (credit_bal _ _ _ C2), B1. pose proof (Hfit b) as Hf. unfold direct_delta in Hf.
    unfold at_ in *. repeat case_decide; lia. }
  pose proof (charged_compose x tx adm to used s s1 s2 s3 Hused B1 N1 K1 S1 C2 C3) as Hch.
  destruct R as [res|e| |]; [| |done|done].
  - destruct HR as [Hsucc ->]. unfold handle_result. rewrite Hsucc. cbv beta iota.
    change (js_state (commit_checkpoint _ _)) with s2. rewrite E3. cbn [outcome_bind]. eauto 10.
  - subst used. unfold handle_result. cbv beta iota.
    assert (Hrf : js_state (revert_checkpoint (mkJournaled s2 (journal j1)
      (checkpoints j1 ++ [length (journal j1)])) (length (checkpoints j1))) = s2)
      by exact (revert_fresh j1 s2).
    rewrite Hrf, E3. cbn [outcome_bind]. eauto 10.
Qed.

Lemma execute_tx_admitted x tx sender adm s r : check_sender x tx = Ok sender ->
  check_funds x tx sender = Ok adm -> run_admitted x tx adm (ex_state x) = (s, r) ->
  execute_tx tx x = (set_ex_state s (set_tx_access x sender tx), r).
Proof.
  intros Hs Hf Hr. unfold execute_tx. rewrite Hs.
  change (check_funds (set_tx_access x sender tx) tx sender) with (check_funds x tx sender). rewrite Hf.
  change (run_admitted (set_tx_access x sender tx) tx adm (ex_state (set_tx_access x sender tx)))
    with (run_admitted x tx adm (ex_state x)). by rewrite Hr.
Qed.
Lemma intrinsic_range x tx sender adm : check_funds x tx sender = Ok adm -> is_u64 (at_intrinsic adm).
Proof. intros (_ & _ & ->)%check_funds_Ok. unfold intrinsic_gas. apply add64_range. Qed.

Section direct.
Context (x : Executor) (tx : Transaction) (sender to : Address) (adm : Admitted_tx)
  (Hsender : check_sender x tx = Ok sender) (Hadm : check_funds x tx sender = Ok adm)
  (Hto : tx_to tx = Some to) (Hfees : exact_fees x tx adm (ex_state x)).

Lemma execute_plain j : find_precompile x to = None -> get_code (js_state j) to = [] ->
  execute x tx sender (at_intrinsic adm) j =
    (_ ← transfer sender to (value tx); lift (Ok (exec_success 0 0 [] []))) j.
Proof.
  intros Hpre Hcode. unfold execute. rewrite Hto. unfold execute_call. rewrite Hpre. unfold mbind at 1, M_bind at 1, get_db.
  rewrite Hcode. by rewrite bool_decide_true.
Qed.

Lemma plain_transfer : find_precompile x to = None -> get_code (ex_state x) to = [] ->
  exists x' receipt, execute_tx tx x = (x', Ok receipt) /\ r_status receipt = StatusSuccess /\
    r_gas_used receipt = at_intrinsic adm /\ x' = set_ex_state (ex_state x') (set_tx_access x sender tx) /\
    charged x tx adm to (at_intrinsic adm) (ex_state x) (ex_state x').
Proof.
  intros Hpre Hcode. destruct (check_funds_Ok x tx sender adm Hadm) as (Es & Hfd & _).
  pose proof (intrinsic_range x tx sender adm Hadm) as Hi.
  pose proof (fd_intrinsic _ _ _ Hfd) as Hle.
  destruct (run_direct x tx adm to (ex_state x) (Ok (exec_success 0 0 [] [])) (at_intrinsic adm))
    as (s' & receipt & Hrun & Hg & Hst & Hch); [done|done|apply (fd_balance _ _ _ Hfd)| | | |].
  - intros j Hj. rewrite Es. apply execute_plain; [done|]. by rewrite Hj.
  - split; [done|]. cbn. unfold is_u64 in Hi. rewrite add64_small, sub64_small by lia. lia.
  - unfold is_u64 in Hi. lia.
  - eexists _, receipt. split; [exact (execute_tx_admitted _ _ _ _ _ _ Hsender Hadm Hrun)|]. done.
Qed.

Lemma failed_precompile f e : find_precompile x to = Some f ->
  f (data tx) (gas_limit tx -! at_intrinsic adm) (gas_schedule x) = Err e ->
  exists x' receipt, execute_tx tx x = (x', Ok receipt) /\ r_status receipt = StatusFailure /\
    r_gas_used receipt = gas_limit tx /\
    charged x tx adm to (gas_limit tx) (ex_state x) (ex_state x').
Proof.
  intros Hpre Hf. destruct (check_funds_Ok x tx sender adm Hadm) as (Es & Hfd & _).
  pose proof (ef_limit _ _ _ _ Hfees) as Hl.
  destruct (run_direct x tx adm to (ex_state x) (Err e) (gas_limit tx))
    as (s' & receipt & Hrun & Hg & Hst & Hch); [done|done|apply (fd_balance _ _ _ Hfd)| |done| |].
  - intros j _. rewrite Es. unfold execute. rewrite Hto. unfold execute_call. rewrite Hpre, Hf.
    unfold mbind, M_bind. by destruct (transfer sender to (value tx) j) as [j' []].
  - unfold is_u64 in Hl. lia.
  - eexists _, receipt. split; [exact (execute_tx_admitted _ _ _ _ _ _ Hsender Hadm Hrun)|]. done.
Qed.
End direct.

(** Once the nonce has moved, the same transaction is refused. *)
Lemma nonce_moved_refused x x' tx sender adm : gas_schedule x' = gas_schedule x -> env x' = env x ->
  check_funds x tx sender = Ok adm -> get_nonce (ex_state x') sender <> nonce tx ->
  exists e, check_funds x' tx sender = Err e.
Proof.
  intros Eg Ee Hc Hn. destruct (check_funds_Ok x tx sender adm Hc) as (_ & [_ Hp Hm _ (total & Ht & _) _] & _).
  unfold check_funds in *. rewrite Eg. revert Hc. case Z.ltb_spec; [done|intros _ _].
  assert (Hp' : calculate_gas_price x' tx = Ok (at_price adm)).
  { rewrite <- Hp. unfold calculate_gas_price. by rewrite Ee. }
  rewrite Hp'. cbn [mbind outcome_bind]. rewrite <- Hm. unfold U256.add. rewrite Ht. cbn [unwrap mbind outcome_bind].
  destruct (U256.ltb _ total); [by eexists|].
  case Z.eqb_spec; [congruence|by eexists].
Qed.
Lemma add64_1_ne n : n +! 1 <> n.
Proof.
  unfold add64. intros Eq. pose proof (Z.mod_pos_bound (n + 1) B64 ltac:(lia)).
  pose proof (Z.div_mod (n + 1) B64). lia.
Qed.
End phases.

(** ** Theorems *)
Section theorems.
Context `{CL : CryptoLib} `{RL : RevmLib}.

(** C4: An admitted transfer to an account without code that is no precompiled
    contract, at a price that reaches the base fee and within the range where
    prices, limits and balances do not wrap ([exact_fees]; see [Sample] for what
    happens outside), succeeds, uses exactly its intrinsic gas, and moves exactly the value to the recipient, the tip to
    the validator and the fee out of the sender (also when these coincide);
    every other balance, all code and storage stay, and only the sender's nonce
    grows, by one. *)
Theorem transfer_accounting x tx sender to adm : check_sender x tx = Ok sender ->
  check_funds x tx sender = Ok adm -> tx_to tx = Some to -> exact_fees x tx adm (ex_state x) ->
  find_precompile x to = None -> get_code (ex_state x) to = [] ->
  let gas := at_intrinsic adm in
  let price := to_Z (at_price adm) in
  exists x' receipt, execute_tx tx x = (x', Ok receipt) /\ r_status receipt = StatusSuccess /\
    r_gas_used receipt = gas /\
    (forall b, bal (ex_state x') b = bal (ex_state x) b
       - (if decide (sender = b) then to_Z (value tx) + price * gas else 0)
       + (if decide (to = b) then to_Z (value tx) else 0)
       + (if decide (env_coinbase (env x) = b) then (price - to_Z (env_base_fee (env x))) * gas else 0)) /\
    (forall b, get_nonce (ex_state x') b =
       if decide (sender = b) then get_nonce (ex_state x) b +! 1 else get_nonce (ex_state x) b) /\
    (forall b, get_code (ex_state x') b = get_code (ex_state x) b) /\
    (forall b key, get_storage (ex_state x') b key = get_storage (ex_state x) b key).
Proof.
  intros Hs Ha Hto Hf Hpre Hcode. cbv zeta.
  destruct (plain_transfer x tx sender to adm Hs Ha Hto Hf Hpre Hcode) as (x' & r & Hx & Hst & Hg & _ & [O B N K S]).
  destruct (check_funds_Ok x tx sender adm Ha) as (<- & _).
  exists x', r. do 3 (split; [done|]). split; [|done]. intros b. rewrite B. unfold direct_delta, at_.
  repeat case_decide; lia.
Qed.

(** A transfer that was executed cannot be executed again: the second
    submission is refused and changes nothing. *)
Theorem replayed_transfer_is_refused x tx sender to adm x' r : check_sender x tx = Ok sender ->
  check_funds x tx sender = Ok adm -> tx_to tx = Some to -> exact_fees x tx adm (ex_state x) ->
  find_precompile x to = None -> get_code (ex_state x) to = [] ->
  execute_tx tx x = (x', r) ->
  exists x'' e, execute_tx tx x' = (x'', Err e) /\ ex_state x'' = ex_state x'.
Proof.
  intros Hs Ha Hto Hf Hpre Hcode Hr.
  destruct (plain_transfer x tx sender to adm Hs Ha Hto Hf Hpre Hcode) as (y & rc & Hy & _ & _ & Ey & Hch).
  rewrite Hr in Hy. injection Hy as <- ->.
  destruct (check_funds_Ok x tx sender adm Ha) as (Es & [_ Hp Hm _ (total & Ht & _) Hn] & Ei).
  assert (Hs' : check_sender x' tx = Ok sender) by (rewrite Ey; exact Hs).
  destruct (nonce_moved_refused x x' tx sender adm) as [e He]; [by rewrite Ey..|done| |].
  { rewrite (ch_nonce _ _ _ _ _ _ _ Hch), decide_True, <- Es, <- Hn by done. apply add64_1_ne. }
  unfold execute_tx. rewrite Hs'.
  change (check_funds (set_tx_access x' sender tx) tx sender) with (check_funds x' tx sender). rewrite He.
  by eexists _, e.
Qed.

(** A call to a precompiled contract that fails is reported as a failed
    transaction, but the value it carried stays with the contract: the
    balances move as for a successful call that used the whole gas limit. *)
Theorem failed_call_keeps_value x tx sender to adm f e : check_sender x tx = Ok sender ->
  check_funds x tx sender = Ok adm -> tx_to tx = Some to -> exact_fees x tx adm (ex_state x) ->
  find_precompile x to = Some f ->
  f (data tx) (gas_limit tx -! at_intrinsic adm) (gas_schedule x) = Err e ->
  let gas := gas_limit tx in
  let price := to_Z (at_price adm) in
  exists x' receipt, execute_tx tx x = (x', Ok receipt) /\ r_status receipt = StatusFailure /\
    r_gas_used receipt = gas /\
    (forall b, bal (ex_state x') b = bal (ex_state x) b
       - (if decide (sender = b) then to_Z (value tx) + price * gas else 0)
       + (if decide (to = b) then to_Z (value tx) else 0)
       + (if decide (env_coinbase (env x) = b) then (price - to_Z (env_base_fee (env x))) * gas else 0)).
Proof.
  intros Hs Ha Hto Hf Hpre Hfail. cbv zeta.
  destruct (failed_precompile x tx sender to adm Hs Ha Hto Hf f e Hpre Hfail) as (x' & r & Hx & Hst & Hg & [O B N K S]).
  destruct (check_funds_Ok x tx sender adm Ha) as (<- & _).
  exists x', r. do 3 (split; [done|]). intros b. rewrite B. unfold direct_delta, at_.
  repeat case_decide; lia.
Qed.

(** The simulation of a call moves the value for good: nothing of a plain
    transfer is journaled, so reverting to the checkpoint restores nothing. *)
Theorem dry_run_moves_value x caller to v bytes gas : balances_ok (ex_state x) ->
  supply_ok (ex_state x) -> wf v -> to_Z v <= bal (ex_state x) caller ->
  find_precompile x to = None -> get_code (ex_state x) to = [] ->
  exists x', call_dry_run caller to v bytes gas x = (x', Ok ([], 0)) /\
    (forall b, bal (ex_state x') b = bal (ex_state x) b
       - (if decide (caller = b) then to_Z v else 0) + (if decide (to = b) then to_Z v else 0)).
Proof.
  intros Hs Hsup Hv Hle Hpre Hcode. unfold call_dry_run, checkpoint, execute_call. rewrite Hpre.
  cbn [new_journaled js_state journal checkpoints]. unfold mbind at 1, M_bind at 1, get_db. cbn [js_state].
  rewrite Hcode, bool_decide_true by done.
  destruct (transfer_Ok (mkJournaled (ex_state x) [] ([] ++ [length (@nil JournalEntry)])) caller to v)
    as (s' & Et & Hc); [done..|].
  unfold mbind, M_bind. rewrite Et. eexists. split; [reflexivity|]. intros b.
  cbn. rewrite (credit_bal _ _ _ Hc). cbn [js_state]. unfold at_. repeat case_decide; lia.
Qed.

Lemma revert_reason_no_Err {E} res (e : E) : revert_reason res <> Err e.
Proof. unfold revert_reason. repeat case_match; congruence. Qed.
Lemma U256_sub_no_Err {E} a b (e : E) : U256.sub a b <> Err e.
Proof. unfold U256.sub. by destruct (U256.checked_sub a b). Qed.
Lemma handle_result_no_Err x tx i p id jr j e : handle_result x tx i p id jr <> (j, Err e).
Proof.
  destruct jr as [j0 [res|e'| |]]; unfold handle_result; [|congruence..].
  destruct (success res); [congruence|]. pose proof (@revert_reason_no_Err EvmError res).
  destruct (revert_reason res); try congruence. naive_solver.
Qed.
Lemma settle_Err x tx sender p used s s' e : settle x tx sender p used s = (s', Err e) ->
  e = EvmStateError "Balance overflow".
Proof.
  unfold settle, mbind, M_bind, lift.
  destruct (add_balance sender _ s) as [s1 [[]|e1| |]] eqn:E1; [|intros [= <- <-]; apply (add_balance_Err _ _ _ _ _ E1)|done..].
  destruct (U256.sub _ _) as [tip|e2| |] eqn:E2; [|by apply U256_sub_no_Err in E2|done..].
  intros E3. apply (add_balance_Err _ _ _ _ _ E3).
Qed.

(** A transaction that is refused with an error has changed no account, no
    code and no storage, except when crediting the refund or the tip overflows
    a balance, which is reported after the transaction has run. *)
Theorem refused_tx_changes_nothing x tx x' e : execute_tx tx x = (x', Err e) ->
  ex_state x' = ex_state x \/ e = EvmStateError "Balance overflow".
Proof.
  unfold execute_tx. destruct (check_sender x tx) as [sender| | |]; [|intros [= <- <-]; by left|done..].
  destruct (check_funds _ tx sender) as [adm| | |]; [|intros [= <- <-]; by left|done..].
  unfold run_admitted.
  destruct (U256.sub _ _) as [b|e0| |] eqn:Es; [|by apply U256_sub_no_Err in Es|done..].
  destruct (checkpoint _) as [j id].
  destruct (handle_result _ _ _ _ _ _) as [j' [[rc used]|e1| |]] eqn:Eh;
    [|by apply handle_result_no_Err in Eh|done..].
  destruct (settle _ _ _ _ _ _) as [s2 [[]|e2| |]] eqn:Ep; cbn; [done| |done..].
  intros [= <- <-]. right. by eapply settle_Err.
Qed.
End theorems.

(** ** Contract addresses *)
Lemma to_le_bytes_app a b n :
  to_le_bytes (a + b) n = to_le_bytes a n ++ to_le_bytes b (n / 256 ^ Z.of_nat a).
Proof.
  revert n. induction a as [|a IH]; intros n; [by rewrite Z.div_1_r|].
  cbn [Nat.add to_le_bytes app]. f_equal. rewrite IH. do 2 f_equal.
  rewrite Z.div_div, <- Z.pow_succ_r by lia. do 2 f_equal. lia.
Qed.
Lemma to_le_bytes_zero k : to_le_bytes k 0 = replicate k 0.
Proof. induction k as [|k IH]; [done|]. cbn [to_le_bytes replicate]. by rewrite Z.mod_0_l, Z.div_0_l, IH. Qed.

(** The big-endian bytes of a number of [S m] bytes *)
Lemma be_bytes_split m n : (m < 8)%nat -> 256 ^ Z.of_nat m <= n < 256 ^ Z.of_nat (S m) ->
  exists b l, to_be_bytes 8 n = replicate (7 - m) 0 ++ b :: l /\ b <> 0 /\ length l = m.
Proof.
  intros Hm Hn. set (d := n / 256 ^ Z.of_nat m).
  assert (Hd : 1 <= d < 256).
  { subst d. rewrite Nat2Z.inj_succ, Z.pow_succ_r in Hn by lia.
    split; [apply Z.div_le_lower_bound; lia|apply Z.div_lt_upper_bound; lia]. }
  exists d, (rev (to_le_bytes m n)). unfold to_be_bytes.
  replace 8%nat with (m + S (7 - m))%nat at 1 by lia.
  rewrite to_le_bytes_app. fold d. cbn [to_le_bytes]. rewrite Z.mod_small, Z.div_small, to_le_bytes_zero by lia.
  rewrite rev_app_distr. cbn [rev]. rewrite <- app_assoc. split; [|split; [lia|by rewrite length_rev, to_le_bytes_length]].
  rewrite rev_alt. f_equal. apply reverse_replicate.
Qed.
Lemma first_nonzero_app k b l : b <> 0 -> first_nonzero (replicate k 0 ++ b :: l) = Some k.
Proof.
  intros Hb. induction k as [|k IH]; cbn.
  - by destruct (Z.eqb_spec b 0).
  - by rewrite IH.
Qed.
Lemma skip_zeros_app k b l : b <> 0 -> skip_zeros (replicate k 0 ++ b :: l) = b :: l.
Proof.
  intros Hb. induction k as [|k IH]; [|exact IH]. cbn. by destruct (Z.eqb_spec b 0).
Qed.

(** The executor and the address type of the primitives encode a deployer
    and a nonce to the same bytes, although one counts leading zero bits and
    the other strips zero bytes: both give a contract the same address. *)
Theorem create_addresses_agree `{CryptoLib} sender n : is_u64 n ->
  (forall l, length (keccak l) = 32%nat) ->
  executor_rlp sender n = create_rlp sender n /\
  calculate_create_address sender n = create_contract_address sender n.
Proof.
  intros Hn Hk. assert (E : executor_rlp sender n = create_rlp sender n).
  { unfold executor_rlp, create_rlp, is_u64 in *.
    destruct (Z.eqb_spec n 0) as [->|H0]; [done|].
    destruct (Z.ltb_spec n 128) as [H128|H128]; [by rewrite (Z.mod_small n) by lia|].
    set (m := Z.to_nat (Z.log2 n / 8)).
    assert (Hlog : 0 <= Z.log2 n < 64) by (split; [apply Z.log2_nonneg|apply Z.log2_lt_pow2; lia]).
    assert (Hm : Z.of_nat m = Z.log2 n / 8) by (subst m; rewrite Z2Nat.id; [done|apply Z.div_pos; lia]).
    pose proof (Z.div_mod (Z.log2 n) 8 ltac:(lia)) as Hdm.
    pose proof (Z.mod_pos_bound (Z.log2 n) 8 ltac:(lia)) as Hmb.
    pose proof (Z.log2_spec n ltac:(lia)) as Hspec.
    destruct (be_bytes_split m n) as (b & l & Eb & Hb & Hl); [lia| |].
    { change 256 with (2 ^ 8). rewrite <- !Z.pow_mul_r by lia. split.
      - transitivity (2 ^ Z.log2 n); [apply Z.pow_le_mono_r; lia|lia].
      - apply Z.lt_le_trans with (2 ^ Z.succ (Z.log2 n)); [lia|apply Z.pow_le_mono_r; lia]. }
    rewrite Eb, first_nonzero_app, skip_zeros_app by done. cbn [default from_option].
    rewrite drop_app_length' by (by rewrite length_replicate). cbn [length]. rewrite Hl.
    unfold leading_zeros64. destruct (Z.eqb_spec n 0); [done|].
    replace (64 - (63 - Z.log2 n)) with (Z.log2 n + 1) by lia.
    assert (Hlen : 1 + (Z.log2 n + 1) / 8 + (if (Z.log2 n + 1) mod 8 =? 0 then 0 else 1) = 2 + Z.of_nat m).
    { rewrite Hm. case Z.eqb_spec; intros He; Z.to_euclidean_division_equations; lia. }
    rewrite Hlen. replace (21 + Z.of_nat (S (S m))) with (21 + (2 + Z.of_nat m)) by lia.
    assert (Hm8 : (m < 8)%nat) by lia. destruct (Z.ltb_spec (21 + (2 + Z.of_nat m)) 56); [|lia].
    unfold id. by replace (8 - Z.of_nat (7 - m)) with (Z.of_nat (S m)) by lia. }
  split; [exact E|]. unfold calculate_create_address, create_contract_address, keccak256.
  rewrite E. unfold address_from_slice. by rewrite decide_True by (rewrite length_drop, Hk; done).
Qed.

(** ** Sample transactions *)
Module Sample.
Definition addr (n : Z) : Address := mkAddress (replicate 19 0 ++ [n]).
#[local] Existing Instance toy_crypto.
(** An interpreter that succeeds and uses all the gas it is given. *)
Definition spender : RevmLib := {|
  transact := fun _ e => inr (RevmSuccess (tx_gas_limit e) 0 [] [], []);
  KECCAK_EMPTY := HASH_ZERO
|}.
#[local] Existing Instance spender.

Definition signed (typ : TxType) (to : option Address) (v : U256) (bytes : list Z) (limit : Z) (price : U256)
    : Transaction := {|
  tx_type := typ; chain_id := 1337; nonce := 0; tx_to := to; value := v; data := bytes;
  gas_limit := limit; gas_price := price; max_priority_fee := None; access_list := [];
  zkp_proof := None; iso_data := None;
  signature := Some (mkSig (replicate 32 0) (replicate 31 0 ++ [1]) 27) |}.
Definition sample_env : EvmEnv := {|
  env_chain_id := 1337; env_number := 1; env_timestamp := 0; env_coinbase := addr 9;
  env_gas_limit := 30000000; env_base_fee := U256.from_u64 10;
  env_prev_hash := HASH_ZERO; env_difficulty := U256.ZERO; env_prevrandao := HASH_ZERO |}.
Definition wealth : StateDb := set_balance empty_state (addr 1) (U256.from_u64 1000000).
Definition refusing : PrecompileFn := fun _ _ _ => Err (PrecompileError "refused").
Definition sample : Executor := new_executor {[ addr 5 := refusing ]} wealth sample_env.

Definition admitted (x : Executor) (tx : Transaction) : Admitted_tx :=
  match check_funds x tx (addr 1) with
  | Ok adm => adm
  | _ => mkAdmitted (addr 0) 0 U256.ZERO U256.ZERO U256.ZERO
  end.
Definition pay : Transaction := signed Legacy (Some (addr 2)) (U256.from_u64 500) [] 30000 (U256.from_u64 12).
Definition pay_precompile : Transaction :=
  signed Legacy (Some (addr 5)) (U256.from_u64 500) [] 30000 (U256.from_u64 12).

Lemma empty_balances : balances_ok empty_state /\ forall b, bal empty_state b = 0.
Proof.
  assert (Hb : forall b, get_balance empty_state b = U256.ZERO).
  { intros b. unfold get_balance, get_account. cbn [accounts empty_state]. by rewrite lookup_empty. }
  split; intros b; [rewrite Hb; apply wf_zero|unfold bal; rewrite Hb; apply to_Z_zero].
Qed.
Lemma wealth_balances : balances_ok wealth /\ supply_ok wealth /\ forall b, bal wealth b = at_ (addr 1) 1000000 b.
Proof.
  destruct empty_balances as [H0 Hz].
  assert (Hw : wf (U256.from_u64 1000000)) by (apply wf_from_u64; split; [discriminate|reflexivity]).
  pose proof (credits_set_balance empty_state (addr 1) _ H0 Hw) as [O B _ _ _]. fold wealth in O, B.
  rewrite to_Z_from_u64, Hz, Z.sub_0_r in B.
  assert (Hb : forall b, bal wealth b = at_ (addr 1) 1000000 b) by (intros b; by rewrite B, Hz).
  split; [exact O|]. split; [|exact Hb]. intros b c Hbc. rewrite !Hb. unfold at_.
  repeat case_decide; subst; try done; lia.
Qed.
Lemma sample_fees tx : tx = pay \/ tx = pay_precompile -> exact_fees sample tx (admitted sample tx) wealth.
Proof.
  intros Htx. destruct wealth_balances as (Hb & Hs & _).
  assert (Hp : at_price (admitted sample tx) = U256.from_u64 12) by (destruct Htx as [->| ->]; vm_compute; reflexivity).
  assert (Hv : value tx = U256.from_u64 500) by (by destruct Htx as [->| ->]).
  assert (Hl : gas_limit tx = 30000) by (by destruct Htx as [->| ->]).
  split; rewrite ?Hp, ?Hv, ?Hl; done.
Qed.
Lemma check_sample tx : tx = pay \/ tx = pay_precompile ->
  check_sender sample tx = Ok (addr 1) /\ check_funds sample tx (addr 1) = Ok (admitted sample tx).
Proof. intros [->| ->]; split; vm_compute; reflexivity. Qed.

Lemma transfer_accounting_witness : exists x' receipt, execute_tx pay sample = (x', Ok receipt) /\
  r_gas_used receipt = 21000 /\
  bal (ex_state x') (addr 1) = 747500 /\ bal (ex_state x') (addr 2) = 500 /\
  bal (ex_state x') (addr 9) = 42000.
Proof.
  destruct (transfer_accounting sample pay (addr 1) (addr 2) (admitted sample pay))
    as (x' & r & Hx & _ & Hg & Hb & _).
  - exact (proj1 (check_sample pay (or_introl eq_refl))).
  - exact (proj2 (check_sample pay (or_introl eq_refl))).
  - reflexivity.
  - exact (sample_fees pay (or_introl eq_refl)).
  - reflexivity.
  - reflexivity.
  - exists x', r. split; [exact Hx|]. split; [exact Hg|].
    rewrite !Hb. change (ex_state sample) with wealth. rewrite !(proj2 (proj2 wealth_balances)).
    split; [|split]; vm_compute; reflexivity.
Defined.

Lemma replayed_transfer_is_refused_witness : exists x'' e,
  execute_tx pay (fst (execute_tx pay sample)) = (x'', Err e) /\
  ex_state x'' = ex_state (fst (execute_tx pay sample)).
Proof.
  apply (replayed_transfer_is_refused sample pay (addr 1) (addr 2) (admitted sample pay)
    (fst (execute_tx pay sample)) (snd (execute_tx pay sample))).
  - exact (proj1 (check_sample pay (or_introl eq_refl))).
  - exact (proj2 (check_sample pay (or_introl eq_refl))).
  - reflexivity.
  - exact (sample_fees pay (or_introl eq_refl)).
  - reflexivity.
  - reflexivity.
  - exact (surjective_pairing _).
Defined.

Lemma failed_call_keeps_value_witness : exists x' receipt,
  execute_tx pay_precompile sample = (x', Ok receipt) /\ r_status receipt = StatusFailure /\
  bal (ex_state x') (addr 5) = 500.
Proof.
  destruct (failed_call_keeps_value sample pay_precompile (addr 1) (addr 5) (admitted sample pay_precompile)
    refusing (PrecompileError "refused")) as (x' & r & Hx & Hst & _ & Hb).
  - exact (proj1 (check_sample pay_precompile (or_intror eq_refl))).
  - exact (proj2 (check_sample pay_precompile (or_intror eq_refl))).
  - reflexivity.
  - exact (sample_fees pay_precompile (or_intror eq_refl)).
  - vm_compute. reflexivity.
  - reflexivity.
  - exists x', r. split; [exact Hx|]. split; [exact Hst|].
    rewrite Hb. change (ex_state sample) with wealth. rewrite (proj2 (proj2 wealth_balances)).
    vm_compute. reflexivity.
Defined.

Lemma dry_run_moves_value_witness : exists x',
  call_dry_run (addr 1) (addr 2) (U256.from_u64 300) [] 50000 sample = (x', Ok ([], 0)) /\
  bal (ex_state x') (addr 2) = 300.
Proof.
  destruct wealth_balances as (Hok & Hsup & Hbal).
  destruct (dry_run_moves_value sample (addr 1) (addr 2) (U256.from_u64 300) [] 50000) as (x' & Hx & Hb).
  - exact Hok.
  - exact Hsup.
  - apply wf_from_u64. split; [discriminate|reflexivity].
  - change (ex_state sample) with wealth. rewrite Hbal. vm_compute. discriminate.
  - reflexivity.
  - reflexivity.
  - exists x'. split; [exact Hx|]. rewrite Hb. change (ex_state sample) with wealth.
    rewrite Hbal. vm_compute. reflexivity.
Defined.

Lemma refused_tx_changes_nothing_witness :
  let tx := signed Legacy (Some (addr 2)) (U256.from_u64 500) [] 20000 (U256.from_u64 12) in
  ex_state (fst (execute_tx tx sample)) = ex_state sample \/
  OutOfGas 21000 20000 = EvmStateError "Balance overflow".
Proof.
  intros tx. apply (refused_tx_changes_nothing sample tx). vm_compute. reflexivity.
Defined.

Lemma create_addresses_agree_witness :
  calculate_create_address (addr 1) 300 = create_contract_address (addr 1) 300.
Proof.
  apply (create_addresses_agree (addr 1) 300); [split; [discriminate|reflexivity]|exact pad32_length].
Defined.

(** ** Findings *)

(** The product of price and gas limit wraps: with a price of 2^240 and a limit
    of 2^16 the maximal fee is 0, and the refund alone mints 2^240 * 44536. *)
Lemma wrapping_fee_mints :
  let tx := signed Legacy (Some (addr 2)) U256.ZERO [] 65536 (mkU256 0 0 0 (2 ^ 48)) in
  let x := new_executor ∅ empty_state sample_env in
  bal (ex_state x) (addr 1) = 0 /\
  bal (ex_state (fst (execute_tx tx x))) (addr 1) = 2 ^ 240 * 44536.
Proof. split; vm_compute; reflexivity. Qed.

(** A creation that uses the gas it was given has used more than its limit:
    the refund of the difference wraps to almost 2^64 units of gas. *)
Lemma creation_refund_mints :
  let tx := signed Legacy None U256.ZERO [] 60000 (U256.from_u64 10) in
  bal (ex_state sample) (addr 1) = 1000000 /\
  bal (ex_state (fst (execute_tx tx sample))) (addr 1) = 1000000 - 600000 + 10 * (2 ^ 64 - 21000).
Proof. split; vm_compute; reflexivity. Qed.

(** A legacy transaction priced below the base fee is admitted, charged and
    executed, and the settlement then panics. *)
Lemma underpriced_transfer_panics :
  let tx := signed Legacy (Some (addr 2)) (U256.from_u64 500) [] 30000 (U256.from_u64 1) in
  let '(x', r) := execute_tx tx sample in
  r = Panic /\ bal (ex_state x') (addr 2) = 500 /\ get_nonce (ex_state x') (addr 1) = 1.
Proof. vm_compute. split; [reflexivity|split; reflexivity]. Qed.

(** A contract that reverts with a string length near 2^64 makes the decoder of
    the revert reason panic. *)
Lemma revert_reason_panics :
  @revert_reason EvmError (exec_revert 0
    ([8; 195; 121; 160] ++ replicate 31 0 ++ [32] ++ replicate 24 0 ++ replicate 8 255)) = Panic.
Proof. vm_compute. reflexivity. Qed.
End Sample.
