(* ===== verification/TipSelection.v ===== *)
(** * Tip selection (crates/nexus-dag: tip_selection.rs)

    The selector's parent counts, its five strategies, the height of the new
    vertex, and the validation of a selection.  The random generator is the
    [rand] crate: a state with the documented behaviour of its draws.  [exp] and
    [ln] have an unspecified precision in Rust and are parameters.  A selection
    is a computation on the generator's state. *)
From stdpp Require Import base numbers list gmap sets strings relations sorting.
From Stdlib Require Import ZArith Lia.
From Stdlib Require Import Floats.SpecFloat.
From S2P Require Import Prelude Types Crypto Transaction Vertex Dag DagFacts DagSearch DagProps Float.
#[local] Open Scope Z_scope.

Class RandLib := {
  rng : Type;
  (** [gen::<f64>()] *)
  gen_f64 : rng -> f64 * rng;
  (** [gen_range(0..n)] of a range that is not empty *)
  gen_range : nat -> rng -> nat * rng;
  (** [SliceRandom::choose] and [choose_multiple] *)
  choose : list Hash -> rng -> option Hash * rng;
  choose_multiple : list Hash -> nat -> rng -> list Hash * rng
}.
(** [choose_multiple] gives that many distinct positions of the slice, or all
    of them, in any order. *)
Class RandLaws `{RandLib} : Prop := {
  gen_range_spec : forall n r, (0 < n)%nat -> ((gen_range n r).1 < n)%nat;
  choose_spec : forall l r, match (choose l r).1 with Some h => h ∈ l | None => l = [] end;
  choose_multiple_spec : forall l n r, exists rest,
    l ≡ₚ (choose_multiple l n r).1 ++ rest /\ length (choose_multiple l n r).1 = Nat.min n (length l)
}.
Class FloatLib := { f_exp : f64 -> f64; f_ln : f64 -> f64 }.

(** The strategies *)
Inductive TipSelectionStrategy :=
  | Random
  | WeightedRandom
  | HighestWeight
  | MarkovChainMonteCarlo (alpha : f64) (depth : nat)
  | Hybrid (recency_weight confirmation_weight : f64).
Record TipSelector := mkSelector {
  strategy : TipSelectionStrategy;
  min_parents : nat;
  max_parents : nat
}.
Definition new_selector (s : TipSelectionStrategy) : TipSelector := mkSelector s 1 8.
Definition with_parent_limits (sel : TipSelector) (min max : nat) : TipSelector :=
  mkSelector (strategy sel) min (Nat.min max MAX_PARENTS).

Definition select_count (sel : TipSelector) (available : nat) : nat :=
  if (available =? 0)%nat then 0%nat
  else
    let target := Nat.max (Nat.min 2 available) (min_parents sel) in
    Nat.min target (max_parents sel).

(** [sort_by(|a, b| b.1.cmp(&a.1))]: stable, heaviest first *)
Fixpoint insert_heavy (x : Hash * Z) (l : list (Hash * Z)) : list (Hash * Z) :=
  match l with
  | [] => [x]
  | y :: l' => if y.2 <=? x.2 then x :: l else y :: insert_heavy x l'
  end.
Definition sort_heavy (l : list (Hash * Z)) : list (Hash * Z) := foldr insert_heavy [] l.

(** The errors of [validate_parents] *)
Inductive TipValidationError :=
  | NoParentsSelected
  | TooManyParentsSelected
  | DuplicateParents
  | ParentNotFoundT (h : Hash)
  | ParentNotConfirmed (h : Hash) (s : VertexStatus)
  | ConflictingParents (h1 h2 : Hash).

Section tips.
Context `{HashOrder}.

(** [tips.iter().map(|h| (h, dag.calculate_weight(h)))] *)
Fixpoint weigh (d : Dag) (tips : list Hash) : option (list (Hash * Z)) :=
  match tips with
  | [] => Some []
  | h :: tips =>
      w ← calculate_weight d h;
      ws ← weigh d tips;
      Some ((h, w) :: ws)
  end.
(** A search that outruns its fuel does not return. *)
Definition searched {A} (o : option A) : outcome () A := match o with Some a => Ok a | None => Blocked end.

Definition map_weights {A} (f : A -> f64) (ws : list (Hash * A)) : list (Hash * f64) :=
  (fun x => (x.1, f x.2)) <$> ws.

Section strategies.
Context `{RandLib} `{FloatLib}.

Definition random_selection (sel : TipSelector) (tips : list Hash) : M rng () (list Hash) := fun r =>
  let '(l, r) := choose_multiple tips (select_count sel (length tips)) r in (r, Ok l).
Definition highest_weight_selection (sel : TipSelector) (d : Dag) (tips : list Hash) : M rng () (list Hash) :=
  let count := select_count sel (length tips) in
  weighted ← lift (searched (weigh d tips));
  mret (take count (sort_heavy weighted)).*1.

(** The scan for the first entry whose cumulative weight reaches the
    threshold *)
Fixpoint reach (threshold cumulative : f64) (l : list (Hash * f64)) : option nat :=
  match l with
  | [] => None
  | (_, weight) :: l =>
      let cumulative := f_add cumulative weight in
      if f_geb cumulative threshold then Some 0%nat else S <$> reach threshold cumulative l
  end.
Definition gen_threshold (total : f64) : M rng () f64 := fun r =>
  let '(u, r) := gen_f64 r in (r, Ok (f_mul u total)).
(** Selection without replacement: [remove] takes the first entry when the
    scan finds none. *)
Fixpoint draw (count : nat) (remaining : list (Hash * f64)) : M rng () (list Hash) :=
  match count, remaining with
  | O, _ | _, [] => mret []
  | S count, _ =>
      threshold ← gen_threshold (f_sum remaining.*2);
      let selected_idx := default 0%nat (reach threshold f_zero remaining) in
      entry ← lift (unwrap (remaining !! selected_idx));
      selected ← draw count (delete selected_idx remaining);
      mret (entry.1 :: selected)
  end.
Definition weighted_random_selection (sel : TipSelector) (d : Dag) (tips : list Hash) : M rng () (list Hash) :=
  let count := select_count sel (length tips) in
  weighted ← lift (searched (weigh d tips));
  let weights := map_weights f_of weighted in
  if f_eqb (f_sum weights.*2) f_zero then random_selection sel tips else draw count weights.

(** *** Markov chain *)
Definition transition (d : Dag) (alpha : f64) (hs : list Hash) : outcome () (list (Hash * f64)) :=
  ws ← searched (weigh d hs);
  Ok (map_weights (fun w => f_exp (f_mul (f_of w) alpha)) ws).
(** One of the two loops of a walk: [next] is the parents or the children.
    The walk stays where it is when the scan finds none. *)
Fixpoint walk (next : Hash -> list Hash) (d : Dag) (alpha : f64) (max_depth : nat) (current : Hash)
    : M rng () Hash :=
  match max_depth with
  | O => mret current
  | S max_depth =>
      match next current with
      | [] => mret current
      | hs =>
          ws ← lift (transition d alpha hs);
          let total := f_sum ws.*2 in
          if f_eqb total f_zero then mret current
          else
            threshold ← gen_threshold total;
            let moved := default current (reach threshold f_zero ws ≫= fun i => ws.*1 !! i) in
            walk next d alpha max_depth moved
      end
  end.
Definition gen_index (n : nat) : M rng () nat := fun r =>
  if (n =? 0)%nat then (r, Panic) else let '(i, r) := gen_range n r in (r, Ok i).
Definition push_new (h : Hash) (selected : list Hash) : list Hash :=
  if bool_decide (h ∈ selected) then selected else (selected ++ [h])%list.
Fixpoint mcmc_walks (count : nat) (d : Dag) (tips : list Hash) (alpha : f64) (max_depth : nat)
    (selected : list Hash) : M rng () (list Hash) :=
  match count with
  | O => mret selected
  | S count =>
      start_idx ← gen_index (length tips);
      start ← lift (unwrap (tips !! start_idx));
      current ← walk (parents_of d) d alpha max_depth start;
      walk_result ← walk (get_children d) d alpha max_depth current;
      mcmc_walks count d tips alpha max_depth (push_new walk_result selected)
  end.
Definition choose_one (l : list Hash) : M rng () Hash := fun r =>
  let '(o, r) := choose l r in (r, unwrap o).
(** The [while] that adds tips drawn at random up to the minimum: [fuel]
    bounds its draws. *)
Fixpoint top_up (fuel : nat) (sel : TipSelector) (tips selected : list Hash) : M rng () (list Hash) :=
  if (length selected <? min_parents sel)%nat && negb (bool_decide (tips = [])) then
    match fuel with
    | O => lift Blocked
    | S fuel =>
        additional ← choose_one tips;
        top_up fuel sel tips (push_new additional selected)
    end
  else mret selected.
Definition mcmc_selection (fuel : nat) (sel : TipSelector) (d : Dag) (tips : list Hash) (alpha : f64)
    (max_depth : nat) : M rng () (list Hash) :=
  let count := select_count sel (length tips) in
  selected ← mcmc_walks count d tips alpha max_depth [];
  top_up fuel sel tips selected.

(** *** Recency and confirmation *)
Fixpoint hybrid_scores (d : Dag) (max_height : Z) (recency_weight confirmation_weight : f64)
    (tips : list Hash) : outcome () (list (Hash * f64)) :=
  match tips with
  | [] => Ok []
  | h :: tips =>
      match get_vertex d h with
      | None => hybrid_scores d max_height recency_weight confirmation_weight tips
      | Some v =>
          let recency_score := f_div (f_of (v_height v)) (f_of (Z.max max_height 1)) in
          weight ← searched (calculate_weight d h);
          let confirmation_score := f_max (f_ln (f_of weight)) f_zero in
          let total_score := f_add (f_mul recency_weight recency_score)
                                   (f_mul confirmation_weight confirmation_score) in
          scores ← hybrid_scores d max_height recency_weight confirmation_weight tips;
          Ok ((h, total_score) :: scores)
      end
  end.
Definition hybrid_selection (sel : TipSelector) (d : Dag) (tips : list Hash)
    (recency_weight confirmation_weight : f64) : M rng () (list Hash) :=
  let count := select_count sel (length tips) in
  scores ← lift (hybrid_scores d (latest_height d) recency_weight confirmation_weight tips);
  match scores with
  | [] => random_selection sel tips
  | _ =>
      let max_score := foldl f_max f_neg_infinity scores.*2 in
      draw count (map_weights (fun s => f_exp (f_sub s max_score)) scores)
  end.

(** The text of the strategy is a derived [Debug]; the duration is an
    argument. *)
Record TipSelectionMetrics := mkTipMetrics {
  tips_evaluated : nat; selection_time_us : Z; weight_variance : f64 }.
Record TipSelectionResult := mkSelection {
  sel_parents : list Hash; sel_height : Z; sel_strategy : string; sel_metrics : TipSelectionMetrics }.
Definition select (strategy_debug : TipSelectionStrategy -> string) (elapsed_us : Z) (fuel : nat)
    (sel : TipSelector) (d : Dag) : M rng () TipSelectionResult :=
  let tips := get_tips d in
  parents ← match strategy sel with
            | Random => random_selection sel tips
            | WeightedRandom => weighted_random_selection sel d tips
            | HighestWeight => highest_weight_selection sel d tips
            | MarkovChainMonteCarlo alpha depth => mcmc_selection fuel sel d tips alpha depth
            | Hybrid recency_weight confirmation_weight =>
                hybrid_selection sel d tips recency_weight confirmation_weight
            end;
  mret (mkSelection parents (expected_height (vertices d) parents) (strategy_debug (strategy sel))
          (mkTipMetrics (length tips) elapsed_us f_zero)).
End strategies.

(** *** Validation of a selection *)
Fixpoint check_status (d : Dag) (parents : list Hash) : outcome TipValidationError () :=
  match parents with
  | [] => Ok ()
  | parent :: parents =>
      match get_status d parent with
      | Some Confirmed | Some Finalized => check_status d parents
      | Some status => Err (ParentNotConfirmed parent status)
      | None => Err (ParentNotFoundT parent)
      end
  end.
Definition conflict (d : Dag) (p1 p2 : Hash) : option bool :=
  b ← is_ancestor d p1 p2;
  if (b : bool) then Some true else is_ancestor d p2 p1.
(** The inner loop, over [parents.iter().skip(i + 1)] *)
Fixpoint check_conflicts_with (d : Dag) (p1 : Hash) (later : list Hash)
    : option (outcome TipValidationError ()) :=
  match later with
  | [] => Some (Ok ())
  | p2 :: later =>
      b ← conflict d p1 p2;
      if (b : bool) then Some (Err (ConflictingParents p1 p2)) else check_conflicts_with d p1 later
  end.
Fixpoint check_conflicts (d : Dag) (parents : list Hash) : option (outcome TipValidationError ()) :=
  match parents with
  | [] => Some (Ok ())
  | p1 :: later =>
      r ← check_conflicts_with d p1 later;
      match r with
      | Ok _ => check_conflicts d later
      | r => Some r
      end
  end.
(** The outer option is the fuel of the searches. *)
Definition validate_parents (d : Dag) (parents : list Hash) : option (outcome TipValidationError ()) :=
  if bool_decide (parents = []) then Some (Err NoParentsSelected)
  else if (MAX_PARENTS <? length parents)%nat then Some (Err TooManyParentsSelected)
  else if negb (base.size (list_to_set parents : gset Hash) =? length parents)%nat
  then Some (Err DuplicateParents)
  else match check_status d parents with
  | Ok _ => check_conflicts d parents
  | r => Some r
  end.
End tips.

(** ** A validated selection is an antichain of stored vertices *)
Section facts.
Context `{HashOrder} `{CryptoLib}.

(** Neither of two hashes descends from the other. *)
Definition unrelated (d : Dag) (p1 p2 : Hash) : Prop := ~ rtc (up d) p2 p1 /\ ~ rtc (up d) p1 p2.
Definition antichain (d : Dag) (l : list Hash) : Prop :=
  forall i j p1 p2, (i < j)%nat -> l !! i = Some p1 -> l !! j = Some p2 -> unrelated d p1 p2.

Lemma conflict_spec d p1 p2 : exists b, conflict d p1 p2 = Some b /\ (b = false <-> unrelated d p1 p2).
Proof.
  unfold conflict, unrelated. destruct (is_ancestor_spec d p1 p2) as ([] & -> & H1); cbn [mbind option_bind].
  - exists true. split; [done|]. split; [done|]. intros [Hn _]. by destruct Hn; apply H1.
  - destruct (is_ancestor_spec d p2 p1) as (b & -> & H2). exists b. split; [done|].
    split.
    + intros ->. split; [intros Hr; by apply H1 in Hr|intros Hr; by apply H2 in Hr].
    + intros [_ Hn]. destruct b; [|done]. by destruct Hn; apply H2.
Qed.
Lemma check_conflicts_with_spec d p1 later : exists r, check_conflicts_with d p1 later = Some r /\
  (r = Ok () <-> Forall (unrelated d p1) later).
Proof.
  induction later as [|p2 later (r & Hr & Hs)]; cbn [check_conflicts_with].
  - exists (Ok ()). split; [done|]. by split; [constructor|].
  - destruct (conflict_spec d p1 p2) as (b & -> & Hb). cbn [mbind option_bind]. destruct b.
    + eexists. split; [done|]. split; [done|]. intros [Hu _]%Forall_cons. apply Hb in Hu. done.
    + exists r. split; [done|]. rewrite Forall_cons, Hs. split; [|naive_solver].
      intros Hl. split; [by apply Hb|done].
Qed.
Lemma antichain_cons d p l : antichain d (p :: l) <-> Forall (unrelated d p) l /\ antichain d l.
Proof.
  split.
  - intros Ha. split.
    + apply Forall_lookup_2. intros j q Hq. apply (Ha 0%nat (S j) p q); [lia|done|done].
    + intros i j p1 p2 Hij H1 H2. apply (Ha (S i) (S j) p1 p2); [lia|done|done].
  - intros [Hf Ha] [|i] [|j] p1 p2 Hij H1 H2; try lia.
    + injection H1 as <-. eapply Forall_lookup_1 in Hf; [exact Hf|exact H2].
    + apply (Ha i j p1 p2); [lia|done|done].
Qed.
Lemma check_conflicts_spec d parents : exists r, check_conflicts d parents = Some r /\
  (r = Ok () <-> antichain d parents).
Proof.
  induction parents as [|p l (r & Hr & Hs)]; cbn [check_conflicts].
  - exists (Ok ()). split; [done|]. split; [|done]. by intros _ i j p1 p2 _ H1.
  - destruct (check_conflicts_with_spec d p l) as (r' & -> & Hs'). cbn [mbind option_bind].
    pose proof (antichain_cons d p l) as Hc. rewrite <- Hs', <- Hs in Hc.
    destruct r' as [[]|e| |]; (eexists; split; [done|]); rewrite Hc; naive_solver.
Qed.
Lemma check_status_spec d parents : dag_inv d ->
  check_status d parents = Ok () <-> Forall (stored d) parents.
Proof.
  intros Hi. induction parents as [|p l IH]; cbn; [by split; [constructor|]|].
  rewrite Forall_cons, <- IH, <- (inv_status _ _ Hi p). unfold get_status.
  destruct (status d !! p) as [[]|]; split; try done; try naive_solver.
Qed.
Lemma set_size_nodup (l : list Hash) : base.size (list_to_set l : gset Hash) = length l <-> NoDup l.
Proof.
  split; [|apply size_list_to_set].
  induction l as [|x l IH]; [constructor|]. cbn [list_to_set length]. intros Hs.
  assert (Hle : (base.size (list_to_set l : gset Hash) <= length l)%nat).
  { clear. induction l as [|y l IH]; [done|]. cbn [list_to_set length].
    rewrite size_union_alt, size_singleton.
    assert (base.size (list_to_set l ∖ {[y]} : gset Hash) <= base.size (list_to_set l : gset Hash))%nat
      by (apply subseteq_size; set_solver). lia. }
  destruct (decide (x ∈ (list_to_set l : gset Hash))) as [Hx|Hx].
  - replace ({[x]} ∪ list_to_set l : gset Hash) with (list_to_set l : gset Hash) in Hs by set_solver. lia.
  - rewrite size_union, size_singleton in Hs by set_solver. constructor; [set_solver|]. apply IH. lia.
Qed.

(** On a well-formed DAG [validate_parents] always answers, and accepts
    exactly the lists of one to eight distinct stored vertices none of which
    descends from another. *)
Theorem validate_parents_exact d parents : dag_inv d -> exists r, validate_parents d parents = Some r /\
  (r = Ok () <-> parents <> [] /\ (length parents <= 8)%nat /\ NoDup parents /\
                 Forall (stored d) parents /\ antichain d parents).
Proof.
  intros Hi. unfold validate_parents, MAX_PARENTS.
  case bool_decide_reflect; intros Hnil; [eexists; split; [done|]; naive_solver|].
  case Nat.ltb_spec; intros Hlen; [eexists; split; [done|]; split; [done|]; intros (_ & ? & _); lia|].
  pose proof (set_size_nodup parents) as Hsize. pose proof (check_status_spec d parents Hi) as Hst.
  case Nat.eqb_spec; intros Hnd; cbn [negb]; [|eexists; split; [done|]; naive_solver].
  destruct (check_conflicts_spec d parents) as (r & Hr & Hs).
  destruct (check_status d parents) as [[]|e| |] eqn:Ec.
  - exists r. split; [done|]. rewrite Hs, <- Hst, <- Hsize. naive_solver.
  - eexists. split; [done|]. rewrite <- Hst. naive_solver.
  - eexists. split; [done|]. rewrite <- Hst. naive_solver.
  - eexists. split; [done|]. rewrite <- Hst. naive_solver.
Qed.

(** *** Selections *)
Lemma insert_heavy_perm x l : insert_heavy x l ≡ₚ x :: l.
Proof.
  induction l as [|y l IH]; [done|]. cbn [insert_heavy]. destruct (y.2 <=? x.2); [done|].
  rewrite IH. apply Permutation_swap.
Qed.
Lemma sort_heavy_perm l : sort_heavy l ≡ₚ l.
Proof. induction l as [|x l IH]; [done|]. cbn. by rewrite insert_heavy_perm, IH. Qed.
Lemma weigh_spec d tips : dag_inv d -> Z.of_nat (base.size (vertices d)) < B128 ->
  exists ws, weigh d tips = Some ws /\ ws.*1 = tips /\
    Forall (fun x => calculate_weight d x.1 = Some x.2) ws.
Proof.
  intros Hi Hb. induction tips as [|h tips (ws & Hw & H1 & H2)]; cbn [weigh]; [by exists []|].
  destruct (calculate_weight_spec d h Hi Hb) as (S & _ & Hc). rewrite Hc, Hw. cbn [mbind option_bind].
  eexists. split; [done|]. cbn. rewrite H1. split; [done|]. by constructor.
Qed.

Lemma tip_unrelated d p q : dag_inv d -> p ∈ tips d -> q ∈ tips d -> p <> q -> unrelated d p q.
Proof.
  intros Hi Hp Hq Hne. apply (inv_tips _ _ Hi) in Hp as [_ Hp]. apply (inv_tips _ _ Hi) in Hq as [_ Hq].
  assert (Hno : forall x y, x <> y -> (forall c, ~ edge d x c) -> ~ rtc (up d) y x).
  { intros x y Hxy Hx [|(z & Hyz & Hz)]%rtc_inv_r; [congruence|]. apply up_edge in Hz. by apply (Hx z). }
  split; apply Hno; done.
Qed.
Lemma tips_valid d l : dag_inv d -> NoDup l -> (forall h, h ∈ l -> h ∈ tips d) ->
  Forall (stored d) l /\ antichain d l.
Proof.
  intros Hi Hnd Hl. split.
  - apply Forall_forall. intros h Hh. by apply (inv_tips _ _ Hi), Hl.
  - intros i j p q Hij Hp Hq. apply tip_unrelated; [done|eapply Hl, list_elem_of_lookup_2; eauto..|].
    intros ->. pose proof (NoDup_lookup _ _ _ _ Hnd Hp Hq). lia.
Qed.
Lemma select_count_bounds sel n : (0 < n)%nat -> (1 <= max_parents sel <= 8)%nat ->
  (1 <= select_count sel n <= 8)%nat.
Proof. intros Hn Hm. unfold select_count. case Nat.eqb_spec; lia. Qed.


(** A tip has no descendant but itself: the strategies that look at the
    weights of the tips cannot tell them apart. *)
Lemma tip_weight d h : dag_inv d -> Z.of_nat (base.size (vertices d)) < B128 -> h ∈ tips d ->
  calculate_weight d h = Some 1.
Proof.
  intros Hi Hb Ht. destruct (calculate_weight_spec d h Hi Hb) as (S & HS & ->). do 2 f_equal.
  assert (S = {[h]}) as ->; [|by rewrite size_singleton]. apply set_eq. intros x.
  apply (inv_tips _ _ Hi) in Ht as [Hst Hno]. rewrite HS, elem_of_singleton. split; [|intros ->; by split].
  intros [_ Hr]. inversion Hr as [|? y ? Hhy]; [done|]. by destruct (Hno y).
Qed.
Lemma weigh_tips d l : dag_inv d -> Z.of_nat (base.size (vertices d)) < B128 ->
  (forall h, h ∈ l -> h ∈ tips d) -> weigh d l = Some ((fun h => (h, 1)) <$> l).
Proof.
  intros Hi Hb. induction l as [|h l IH]; intros Hl; [done|]. cbn [weigh].
  rewrite (tip_weight d h Hi Hb), IH by (intros; apply Hl; set_solver). done.
Qed.
Lemma sort_equal (l : list Hash) : sort_heavy ((fun h => (h, 1)) <$> l) = (fun h => (h, 1)) <$> l.
Proof. induction l as [|h l IH]; [done|]. cbn [fmap list_fmap sort_heavy foldr]. fold (sort_heavy ((fun h => (h, 1)) <$> l)). rewrite IH. by destruct l. Qed.
End facts.

(** *** Computations on the generator's state

    [returns m P]: from every state [m] returns a value with [P].  [safe m P]:
    it does, or it waits for ever. *)
Section computations.
Context {S : Type}.
Definition returns {A} (m : M S () A) (P : A -> Prop) : Prop :=
  forall s, exists s' a, m s = (s', Ok a) /\ P a.
Definition safe {A} (m : M S () A) (P : A -> Prop) : Prop :=
  forall s, match (m s).2 with Ok a => P a | Blocked => True | _ => False end.
Lemma returns_ret {A} (a : A) (P : A -> Prop) : P a -> returns (mret a) P.
Proof. intros Ha s. by exists s, a. Qed.
Lemma returns_lift {A} (o : outcome () A) a : o = Ok a -> returns (lift o) (eq a).
Proof. intros -> s. by exists s, a. Qed.
Lemma bind_returns {A B} (m : M S () A) (f : A -> M S () B) P Q :
  returns m P -> (forall a, P a -> returns (f a) Q) -> returns (m ≫= f) Q.
Proof.
  intros Hm Hf s. destruct (Hm s) as (s' & a & E & Ha). destruct (Hf a Ha s') as (t & b & E' & Hb).
  exists t, b. unfold mbind, M_bind. by rewrite E.
Qed.
Lemma returns_mono {A} (m : M S () A) (P Q : A -> Prop) : returns m P -> (forall a, P a -> Q a) -> returns m Q.
Proof. intros Hm HPQ s. destruct (Hm s) as (s' & a & E & Ha). exists s', a. auto. Qed.
Lemma safe_ret {A} (a : A) (P : A -> Prop) : P a -> safe (mret a) P.
Proof. by intros Ha s. Qed.
Lemma safe_bind {A B} (m : M S () A) (f : A -> M S () B) P Q :
  safe m P -> (forall a, P a -> safe (f a) Q) -> safe (m ≫= f) Q.
Proof.
  intros Hm Hf s. specialize (Hm s). unfold mbind, M_bind. destruct (m s) as [s' [a|e| |]]; cbn in *; try done.
  by apply Hf.
Qed.
Lemma returns_safe {A} (m : M S () A) P : returns m P -> safe m P.
Proof. intros Hm s. destruct (Hm s) as (s' & a & -> & Ha). exact Ha. Qed.
Lemma safe_mono {A} (m : M S () A) (P Q : A -> Prop) : safe m P -> (forall a, P a -> Q a) -> safe m Q.
Proof. intros Hm HPQ s. specialize (Hm s). destruct (m s) as [? []]; cbn in *; auto. Qed.
Lemma safe_blocked {A} (m : M S () A) s : safe m (fun _ => False) -> (m s).2 = Blocked.
Proof. intros Hm. specialize (Hm s). by destruct (m s) as [? []]. Qed.
Lemma blocked_bind {A B} (m : M S () A) (f : A -> M S () B) s : (m s).2 = Blocked -> ((m ≫= f) s).2 = Blocked.
Proof. unfold mbind, M_bind. destruct (m s) as [? []]; cbn; done. Qed.
End computations.

Section selections.
Context `{HO : HashOrder} `{CL : CryptoLib} `{RA : RandLib} `{RW : !RandLaws} `{FL : FloatLib}.

(** [n] distinct entries of [l] *)
Definition sample (n : nat) (l hs : list Hash) : Prop :=
  (exists rest, l ≡ₚ hs ++ rest) /\ length hs = Nat.min n (length l).
Lemma random_returns sel l : returns (random_selection sel l) (sample (select_count sel (length l)) l).
Proof.
  intros r. unfold random_selection. destruct (choose_multiple_spec l (select_count sel (length l)) r) as (rest & Hp & Hl).
  destruct (choose_multiple _ _ r) as [hs r']. exists r', hs. split; [done|]. split; [by exists rest|done].
Qed.
Lemma reach_lt t c l i : reach t c l = Some i -> (i < length l)%nat.
Proof.
  revert c i. induction l as [|[h w] l IH]; intros c i; [done|]. cbn [reach length].
  destruct (f_geb _ t); [intros [= <-]; lia|]. destruct (reach _ _ l) as [j|] eqn:E; [|done].
  intros [= <-]. apply IH in E. lia.
Qed.
Lemma threshold_returns total : returns (gen_threshold total) (fun _ => True).
Proof. intros r. unfold gen_threshold. destruct (gen_f64 r) as [u r']. by eexists _, _. Qed.
Lemma draw_returns count l : returns (draw count l) (sample count l.*1).
Proof.
  revert l. induction count as [|count IH]; intros l; [apply returns_ret; split; [by exists l.*1|done]|].
  destruct l as [|e l]; [apply returns_ret; split; [by exists []|done]|]. cbn [draw].
  eapply bind_returns; [apply threshold_returns|]. intros t _. set (i := default 0%nat _). set (w := e :: l) in *.
  assert (Hi : (i < length w)%nat).
  { unfold i. destruct (reach t f_zero w) as [j|] eqn:E; [by apply reach_lt in E|]. cbn. lia. }
  apply lookup_lt_is_Some in Hi as [x Hx].
  eapply bind_returns; [apply (returns_lift _ x); by rewrite Hx|]. intros ? <-.
  eapply bind_returns; [apply IH|]. intros hs [[rest Hp] Hl]. apply returns_ret.
  pose proof (delete_Permutation w i x Hx) as Hd. split.
  - exists rest. rewrite Hd. change (x.1 :: (delete i w).*1 ≡ₚ x.1 :: hs ++ rest). by rewrite Hp.
  - cbn [length]. rewrite Hl, !length_fmap, (Permutation_length Hd). cbn [length]. lia.
Qed.
Lemma map_weights_fst {A} (f : A -> f64) ws : (map_weights f ws).*1 = ws.*1.
Proof. unfold map_weights. by rewrite <- list_fmap_compose. Qed.

Lemma weighted_returns sel d l : dag_inv d -> Z.of_nat (base.size (vertices d)) < B128 ->
  returns (weighted_random_selection sel d l) (sample (select_count sel (length l)) l).
Proof.
  intros Hi Hb. unfold weighted_random_selection. destruct (weigh_spec d l Hi Hb) as (ws & -> & H1 & _).
  eapply bind_returns; [by apply (returns_lift _ ws)|]. intros ? <-. destruct (f_eqb _ _); [apply random_returns|].
  eapply returns_mono; [apply draw_returns|]. intros hs. by rewrite map_weights_fst, H1.
Qed.
Lemma hybrid_scores_Ok d mh rw cw l : dag_inv d -> Z.of_nat (base.size (vertices d)) < B128 ->
  (forall h, h ∈ l -> stored d h) -> exists ss, hybrid_scores d mh rw cw l = Ok ss /\ ss.*1 = l.
Proof.
  intros Hi Hb. induction l as [|h l IH]; intros Hl; [by exists []|]. cbn [hybrid_scores]. unfold get_vertex.
  destruct (Hl h) as [v ->]; [apply list_elem_of_here|].
  destruct (calculate_weight_spec d h Hi Hb) as (S & _ & ->). destruct IH as (ss & -> & Hs); [set_solver|].
  eexists. split; [reflexivity|]. cbn. by rewrite Hs.
Qed.
Lemma hybrid_returns sel d rw cw : dag_inv d -> Z.of_nat (base.size (vertices d)) < B128 ->
  returns (hybrid_selection sel d (get_tips d) rw cw) (sample (select_count sel (length (get_tips d))) (get_tips d)).
Proof.
  intros Hi Hb. unfold hybrid_selection. set (l := get_tips d).
  destruct (hybrid_scores_Ok d (latest_height d) rw cw l Hi Hb) as (ss & -> & Hs).
  { intros h Hh%elem_of_members. by apply (inv_tips _ _ Hi). }
  eapply bind_returns; [by apply (returns_lift _ ss)|]. intros ? <-. destruct ss as [|s ss]; [apply random_returns|].
  eapply returns_mono; [apply draw_returns|]. intros hs. by rewrite map_weights_fst, Hs.
Qed.
Lemma heaviest_returns sel d : dag_inv d -> Z.of_nat (base.size (vertices d)) < B128 ->
  returns (highest_weight_selection sel d (get_tips d))
    (fun hs => hs = take (select_count sel (length (get_tips d))) (get_tips d)).
Proof.
  intros Hi Hb. unfold highest_weight_selection. rewrite (weigh_tips d) by (done || intros h; apply elem_of_members).
  eapply bind_returns; [by apply returns_lift|]. intros ? <-. apply returns_ret.
  by rewrite sort_equal, fmap_take, <- list_fmap_compose, list_fmap_id.
Qed.

Lemma walk_returns next d alpha depth (P : Hash -> Prop) h : dag_inv d -> Z.of_nat (base.size (vertices d)) < B128 ->
  (forall x y, P x -> y ∈ next x -> P y) -> P h -> returns (walk next d alpha depth h) P.
Proof.
  intros Hi Hb Hstep. revert h. induction depth as [|depth IH]; intros h Hh; [by apply returns_ret|]. cbn [walk].
  destruct (next h) as [|x hs] eqn:E; [by apply returns_ret|]. unfold transition.
  destruct (weigh_spec d (x :: hs) Hi Hb) as (ws & -> & H1 & _).
  eapply bind_returns; [by apply returns_lift|]. intros ? <-. destruct (f_eqb _ _); [by apply returns_ret|].
  eapply bind_returns; [apply threshold_returns|]. intros t _. apply IH. rewrite map_weights_fst, H1.
  destruct (reach _ _ _) as [j|]; cbn [mbind option_bind]; [|done]. destruct (_ !! j) as [y|] eqn:Ey; [|done].
  apply (Hstep h); [done|]. rewrite E. by eapply list_elem_of_lookup_2.
Qed.

(** [p] descends from an ancestor of a tip. *)
Definition related (d : Dag) (p : Hash) : Prop :=
  stored d p /\ exists t a, t ∈ tips d /\ rtc (up d) t a /\ rtc (edge d) a p.
Lemma push_new_spec h l (P : Hash -> Prop) : NoDup l -> Forall P l -> P h ->
  NoDup (push_new h l) /\ Forall P (push_new h l) /\
  (length l <= length (push_new h l) <= length l + 1)%nat /\ push_new h l <> [].
Proof.
  intros Hn Hl Hh. unfold push_new. case_bool_decide as Hin.
  - repeat split; [done..|lia|lia|]. intros ->. by apply elem_of_nil in Hin.
  - rewrite length_app. repeat split; [|by apply Forall_app; repeat constructor|cbn; lia..|by destruct l].
    apply NoDup_app. split; [done|]. split; [|repeat constructor; by intros ?%elem_of_nil].
    intros x Hx ->%list_elem_of_singleton. done.
Qed.
Lemma walks_return d alpha depth count selected : dag_inv d -> Z.of_nat (base.size (vertices d)) < B128 ->
  tips d <> ∅ -> NoDup selected -> Forall (related d) selected ->
  returns (mcmc_walks count d (get_tips d) alpha depth selected) (fun l => NoDup l /\ Forall (related d) l /\
    (length selected <= length l <= length selected + count)%nat /\ ((0 < count)%nat -> l <> []) /\
    (depth = 0%nat -> Forall (fun h => h ∈ tips d) selected -> Forall (fun h => h ∈ tips d) l)).
Proof.
  intros Hi Hb Ht. revert selected. induction count as [|count IH]; intros l Hn Hl.
  { apply returns_ret. repeat split; [done..|lia|lia|lia|done]. }
  assert (Hpos : (0 < length (get_tips d))%nat).
  { destruct (get_tips d) eqn:E; [|cbn; lia]. destruct Ht. apply set_eq. intros h.
    rewrite <- elem_of_members. fold (get_tips d). rewrite E. set_solver. }
  cbn [mcmc_walks]. eapply (bind_returns _ _ (fun i => (i < length (get_tips d))%nat)).
  { intros r. unfold gen_index. rewrite (proj2 (Nat.eqb_neq _ _)) by lia.
    pose proof (gen_range_spec (length (get_tips d)) r Hpos). destruct (gen_range _ r) as [j r']. by exists r', j. }
  intros i Hlt. destruct (lookup_lt_is_Some_2 _ _ Hlt) as [t E]. rewrite E.
  eapply bind_returns; [by apply returns_lift|]. intros ? <-.
  assert (Htip : t ∈ tips d) by (apply elem_of_members; by eapply list_elem_of_lookup_2).
  eapply (bind_returns _ _ (fun a => rtc (up d) t a /\ stored d a /\ (depth = 0%nat -> a = t))).
  { destruct depth as [|depth]; [apply returns_ret; repeat split; [constructor|by apply (inv_tips _ _ Hi)]|].
    eapply returns_mono; [apply (walk_returns _ _ _ _ (fun a => rtc (up d) t a /\ stored d a)); [done|done| |]|].
    - intros x y [Hx _] Hxy. split; [by eapply rtc_r|]. apply (inv_closed _ _ Hi y x). by apply up_edge.
    - split; [constructor|by apply (inv_tips _ _ Hi)].
    - intros a [? ?]. repeat split; [done..|lia]. }
  intros a (Ha & Hsa & Hz).
  eapply (bind_returns _ _ (fun p => related d p /\ (depth = 0%nat -> p = t))).
  { destruct depth as [|depth].
    { apply returns_ret. split; [|auto]. split; [done|]. exists t, a. repeat split; [done..|constructor]. }
    eapply returns_mono; [apply (walk_returns _ _ _ _ (related d)); [done|done| |]|].
    - intros x y [_ (t' & a' & ? & ? & ?)] Hxy%elem_of_members. apply (inv_children _ _ Hi) in Hxy as (v & Hv & Hp).
      split; [by exists v|]. exists t', a'. repeat split; [done..|]. eapply rtc_r; [done|]. by exists v.
    - split; [done|]. exists t, a. repeat split; [done..|constructor].
    - intros p Hp. split; [done|lia]. }
  intros p (Hp & Hzp). destruct (push_new_spec p l (related d) Hn Hl Hp) as (P1 & P2 & P3 & P4).
  eapply returns_mono; [by apply IH|]. intros l' (Q1 & Q2 & Q3 & Q4 & Q5). split; [done|]. split; [done|].
  split; [lia|]. split.
  - intros _ ->. cbn in Q3. destruct (push_new p l); [done|cbn in Q3; lia].
  - intros Hd Hlt'. apply Q5; [done|]. unfold push_new. case_bool_decide; [done|]. apply Forall_app. split; [done|].
    repeat constructor. by rewrite (Hzp Hd).
Qed.
Lemma top_up_safe fuel sel d l : NoDup l -> Forall (related d) l -> get_tips d <> [] ->
  (forall t, t ∈ get_tips d -> related d t) ->
  safe (top_up fuel sel (get_tips d) l) (fun l => NoDup l /\ Forall (related d) l /\ (min_parents sel <= length l)%nat).
Proof.
  intros Hn Hl Ht Hrel. revert l Hn Hl. induction fuel as [|fuel IH]; intros l Hn Hl; cbn [top_up];
    rewrite bool_decide_false by done; cbn [negb]; rewrite andb_true_r;
    (destruct (Nat.ltb_spec (length l) (min_parents sel)); [|apply safe_ret; repeat split; [done..|lia]]); [done|].
  eapply (safe_bind _ _ (fun h => h ∈ get_tips d)).
  { intros r. unfold choose_one. pose proof (choose_spec (get_tips d) r) as Hc.
    destruct (choose _ r) as [[h|] r']; cbn in *; [done|]. by destruct Ht. }
  intros h Hh. destruct (push_new_spec h l (related d) Hn Hl (Hrel h Hh)) as (P1 & P2 & _ & _). by apply IH.
Qed.
Lemma top_up_enough fuel sel tips l : (min_parents sel <= length l)%nat -> top_up fuel sel tips l = mret l.
Proof. intros Hl. destruct fuel; cbn [top_up]; by rewrite (proj2 (Nat.ltb_ge _ _)) by done. Qed.
Lemma stored_bound d l : NoDup l -> Forall (stored d) l -> (length l <= base.size (vertices d))%nat.
Proof.
  intros Hn Hl. rewrite <- size_dom, <- (size_list_to_set (C := gset Hash) l Hn). apply subseteq_size.
  intros h Hh%elem_of_list_to_set. rewrite Forall_forall in Hl. by apply elem_of_dom, Hl.
Qed.

Context (strategy_debug : TipSelectionStrategy -> string).
Lemma sample_tips d n hs : sample n (get_tips d) hs -> NoDup hs /\ forall h, h ∈ hs -> h ∈ tips d.
Proof.
  intros [[rest Hp] _]. split.
  - pose proof (members_nodup (tips d)) as Hn. fold (get_tips d) in Hn. rewrite Hp in Hn. by apply NoDup_app in Hn as [? _].
  - intros h Hh. apply elem_of_members. fold (get_tips d). rewrite Hp. apply elem_of_app. by left.
Qed.
Lemma no_tips d : get_tips d = [] <-> tips d = ∅.
Proof.
  split; intros E.
  2: { destruct (get_tips d) as [|h l] eqn:Eg; [done|]. assert (Hh : h ∈ get_tips d) by (rewrite Eg; left).
       apply elem_of_members in Hh. set_solver. }
  apply set_eq. intros h. rewrite <- elem_of_members. fold (get_tips d). rewrite E. set_solver.
Qed.
Lemma sample_valid sel d hs : dag_inv d -> tips d <> ∅ -> (1 <= max_parents sel <= 8)%nat ->
  sample (select_count sel (length (get_tips d))) (get_tips d) hs -> validate_parents d hs = Some (Ok ()).
Proof.
  intros Hi Ht Hm Hsam. destruct (sample_tips _ _ _ Hsam) as [Hn Hin]. destruct Hsam as [_ Hl].
  assert (Hpos : (0 < length (get_tips d))%nat).
  { rewrite <- no_tips in Ht. destruct (get_tips d); [done|cbn; lia]. }
  pose proof (select_count_bounds sel _ Hpos Hm) as Hc.
  destruct (tips_valid d hs Hi Hn Hin) as [Hst Hac].
  destruct (validate_parents_exact d hs Hi) as (r & -> & Hr). f_equal. apply Hr.
  split; [intros ->; cbn in Hl; lia|]. split; [lia|done].
Qed.

(** C36: On a well-formed DAG, every strategy but the Markov chain returns,
    whatever the random generator answers, tips without repetition with the
    height that a vertex with these parents must have.  When there is a tip and
    at least one parent is allowed, [validate_parents] accepts them; else none
    is selected.  The highest-weight strategy takes the first tips in the order
    of the hash table, since every tip has weight one. *)
Theorem selected_tips_are_valid elapsed fuel sel d : dag_inv d ->
  Z.of_nat (base.size (vertices d)) < B128 -> (max_parents sel <= 8)%nat ->
  (forall alpha depth, strategy sel <> MarkovChainMonteCarlo alpha depth) ->
  returns (select strategy_debug elapsed fuel sel d) (fun res =>
    (tips d <> ∅ -> max_parents sel <> 0%nat -> validate_parents d (sel_parents res) = Some (Ok ())) /\
    (tips d = ∅ \/ max_parents sel = 0%nat -> sel_parents res = []) /\
    sel_height res = expected_height (vertices d) (sel_parents res) /\
    NoDup (sel_parents res) /\ (forall h, h ∈ sel_parents res -> h ∈ tips d) /\
    length (sel_parents res) = Nat.min (select_count sel (length (get_tips d))) (length (get_tips d)) /\
    (strategy sel = HighestWeight ->
       sel_parents res = take (select_count sel (length (get_tips d))) (get_tips d))).
Proof.
  intros Hi Hb Hm Hs. unfold select.
  set (n := select_count sel (length (get_tips d))).
  eapply (bind_returns _ _ (fun hs => sample n (get_tips d) hs /\
    (strategy sel = HighestWeight -> hs = take n (get_tips d)))).
  - assert (Hw : forall m : M rng () (list Hash), returns m (sample n (get_tips d)) -> strategy sel <> HighestWeight ->
      returns m (fun hs => sample n (get_tips d) hs /\ (strategy sel = HighestWeight -> hs = take n (get_tips d)))).
    { intros m Hr Hne. eapply returns_mono; [exact Hr|]. done. }
    destruct (strategy sel) as [| | |alpha depth|rw cw]; [| | |by destruct (Hs alpha depth)|].
    + apply Hw; [apply random_returns|done].
    + apply Hw; [by apply weighted_returns|done].
    + eapply returns_mono; [by apply heaviest_returns|]. intros hs ->. split; [|done].
      split; [exists (drop n (get_tips d)); by rewrite take_drop|by rewrite length_take].
    + apply Hw; [by apply hybrid_returns|done].
  - intros hs [Hsam Hheavy]. apply returns_ret. cbn [sel_parents sel_height].
    destruct (sample_tips d n hs Hsam) as [Hn Hin].
    split; [intros Ht Hz; apply (sample_valid sel d hs); [done..|lia|done]|]. destruct Hsam as [_ Hl].
    split; [|done]. intros Hz. apply length_zero_iff_nil. rewrite Hl. unfold n, select_count.
    destruct Hz as [Hz%no_tips| ->]; [by rewrite Hz|case_match; lia].
Qed.

(** C25: What the Markov chain selects on a well-formed DAG.  Without a tip it
    selects nothing.  With a tip and the default minimum of one parent it
    always returns: distinct stored vertices, at least one and at most the
    wanted number, each below an ancestor of a tip; with depth zero they are
    tips and validated.  With a tip, when more parents are required than there
    are vertices, it never returns, whatever it draws. *)
Theorem mcmc_selection_outcome elapsed sel d alpha depth : dag_inv d ->
  Z.of_nat (base.size (vertices d)) < B128 -> (1 <= max_parents sel <= 8)%nat ->
  strategy sel = MarkovChainMonteCarlo alpha depth ->
  (tips d = ∅ -> forall fuel, returns (select strategy_debug elapsed fuel sel d) (fun res =>
     sel_parents res = [] /\ sel_height res = 0)) /\
  (tips d <> ∅ -> (min_parents sel <= 1)%nat -> forall fuel, returns (select strategy_debug elapsed fuel sel d) (fun res =>
     (1 <= length (sel_parents res) <= select_count sel (length (get_tips d)))%nat /\
     NoDup (sel_parents res) /\ Forall (related d) (sel_parents res) /\
     sel_height res = expected_height (vertices d) (sel_parents res) /\
     (depth = 0%nat -> validate_parents d (sel_parents res) = Some (Ok ())))) /\
  (tips d <> ∅ -> (base.size (vertices d) < min_parents sel)%nat ->
     forall fuel r, (select strategy_debug elapsed fuel sel d r).2 = Blocked).
Proof.
  intros Hi Hb Hm Hs. unfold select. rewrite Hs. unfold mcmc_selection.
  set (n := select_count sel (length (get_tips d))). split.
  { intros Ht%no_tips fuel. unfold n. rewrite Ht.
    eapply (bind_returns _ _ (fun l => l = [])); [|intros l ->; by apply returns_ret].
    eapply (bind_returns _ _ (fun l => l = [])); [by apply returns_ret|]. intros l ->.
    assert (E : top_up fuel sel [] [] = mret []).
    { destruct fuel; cbn [top_up]; rewrite bool_decide_true by done; cbn [negb]; by rewrite andb_false_r. }
    rewrite E. by apply returns_ret. }
  destruct (decide (tips d = ∅)) as [|Ht]; [by split|].
  assert (Hne : get_tips d <> []) by by rewrite no_tips.
  assert (Hn : (1 <= n <= 8)%nat) by (apply select_count_bounds; [destruct (get_tips d); [done|cbn; lia]|done]).
  pose proof (walks_return d alpha depth n [] Hi Hb Ht (NoDup_nil_2) (Forall_nil_2 _)) as Hw. split.
  - intros _ Hmin fuel. eapply bind_returns.
    { eapply bind_returns; [exact Hw|]. intros l (Q1 & Q2 & Q3 & Q4 & Q5). cbn in Q3.
      assert (Hl : (1 <= length l)%nat) by (destruct l; [exfalso; apply Q4; [lia|done]|cbn; lia]).
      rewrite top_up_enough by lia. apply returns_ret.
      exact (conj (conj Hl (proj2 Q3)) (conj Q1 (conj Q2 Q5))). }
    intros l (Hlen & Hnd & Hrel & Hz). apply returns_ret. cbn [sel_parents sel_height].
    split; [lia|]. split; [done|]. split; [done|]. split; [done|]. intros Hd.
    specialize (Hz Hd (Forall_nil_2 _)). rewrite Forall_forall in Hz.
    destruct (tips_valid d l Hi Hnd Hz) as [Hst Hac].
    destruct (validate_parents_exact d l Hi) as (r & -> & Hr). f_equal. apply Hr.
    split; [intros ->; cbn in Hlen; lia|]. split; [lia|done].
  - intros _ Hmin fuel r.
    enough (Hsafe : safe (mcmc_walks n d (get_tips d) alpha depth [] ≫= top_up fuel sel (get_tips d)) (fun _ => False)).
    { by apply blocked_bind, safe_blocked. }
    eapply safe_bind; [apply returns_safe; exact Hw|]. intros l (Q1 & Q2 & _).
    eapply safe_mono; [apply (top_up_safe fuel sel d l Q1 Q2 Hne)|].
    + intros t Htt%elem_of_members. apply (inv_tips _ _ Hi) in Htt as Hst. split; [by apply Hst|].
      exists t, t. repeat split; [done|constructor..].
    + intros l' (P1 & P2 & P3). assert (Hlen := stored_bound d l' P1 (Forall_impl _ _ _ P2 (fun h Hh => proj1 Hh))). lia.
Qed.
End selections.

(** ** A DAG with two tips *)
Module Sample.
Import DagProps.Sample.
#[local] Existing Instance canonical_order.
#[local] Existing Instance toy_crypto.

(** A sibling of the sample vertex [a] *)
Definition sibling : Vertex := vx [HASH_ZERO] 1 1500 5.
Definition forked : Dag := fst (default (e1, Panic) (insert_vertex 1 e1 sibling)).
Lemma forked_inv : dag_inv forked.
Proof.
  eapply (insert_vertex_inv 1 [] e1 sibling); [exact e1_inv| |vm_compute; reflexivity].
  insertable.
Qed.
(** A generator that reads its draws from a list: multiples of one
    sixteenth, and indexes modulo the length *)
Definition pop (r : list nat) : nat * list nat := (default 0%nat (head r), tail r).
#[local] Instance scripted : RandLib := {|
  rng := list nat;
  gen_f64 := fun r => (f_div (f_of (Z.of_nat ((pop r).1 mod 16))) (f_of 16), (pop r).2);
  gen_range := fun n r => (((pop r).1 mod n)%nat, (pop r).2);
  choose := fun l r => (l !! ((pop r).1 mod length l)%nat, (pop r).2);
  choose_multiple := fun l n r => (take n (reverse l), r)
|}.
#[local] Instance scripted_laws : RandLaws.
Proof.
  constructor.
  - intros n r Hn. cbn. apply Nat.mod_upper_bound. lia.
  - intros [|h l] r; cbn [choose scripted fst]; [done|].
    destruct (lookup_lt_is_Some_2 (h :: l) ((pop r).1 mod length (h :: l))) as [x E]; [by apply Nat.mod_upper_bound|].
    rewrite E. by eapply list_elem_of_lookup_2.
  - intros l n r. exists (drop n (reverse l)). cbn. split; [|by rewrite length_take, length_reverse].
    rewrite take_drop. symmetry. apply reverse_Permutation.
Qed.
(** [exp 0] and [ln 1], the values that the samples need *)
#[local] Instance flat : FloatLib := {| f_exp := fun _ => f_of 1; f_ln := fun _ => f_zero |}.
Definition debug (s : TipSelectionStrategy) : string := "".
Definition run_select (fuel : nat) (sel : TipSelector) (d : Dag) (draws : list nat) : outcome () TipSelectionResult :=
  (select debug 0 fuel sel d draws).2.

Lemma validate_parents_exact_witness :
  exists r, validate_parents forked [v_hash a; v_hash sibling] = Some r /\ r = Ok () /\
    antichain forked [v_hash a; v_hash sibling].
Proof.
  destruct (validate_parents_exact forked [v_hash a; v_hash sibling] forked_inv) as (r & Hr & Hs).
  assert (Hok : r = Ok ()).
  { enough (Some r = Some (Ok ())) as [= E] by exact E. rewrite <- Hr. vm_compute. reflexivity. }
  exists r. split; [exact Hr|]. split; [exact Hok|]. apply Hs, Hok.
Defined.

Lemma forked_tips : tips forked <> ∅.
Proof. intros Ht. apply (f_equal base.size) in Ht. vm_compute in Ht. discriminate Ht. Qed.
Lemma selected_tips_are_valid_witness :
  exists r res, select debug 0 0 (new_selector WeightedRandom) forked [9; 3]%nat = (r, Ok res) /\
    validate_parents forked (sel_parents res) = Some (Ok ()) /\ sel_height res = 2.
Proof.
  destruct (selected_tips_are_valid debug 0 0 (new_selector WeightedRandom) forked forked_inv) with (s := [9; 3]%nat)
    as (r & res & Hr & Hv & _); [vm_compute; reflexivity|cbn; lia|discriminate|].
  exists r, res. split; [exact Hr|]. split; [exact (Hv forked_tips ltac:(discriminate))|].
  enough ((fun o => match o with Ok x => Some (sel_height x) | _ => None end)
    (run_select 0 (new_selector WeightedRandom) forked [9; 3]%nat) = Some (sel_height res)) as E.
  { assert (E' : Some 2 = Some (sel_height res)) by (rewrite <- E; vm_compute; reflexivity). injection E' as <-. reflexivity. }
  unfold run_select. rewrite Hr. reflexivity.
Defined.

Definition chain (depth : nat) : TipSelector := new_selector (MarkovChainMonteCarlo (f_of 0) depth).
Lemma mcmc_selection_outcome_witness :
  (exists r res, select debug 0 0 (chain 3) forked [1; 5; 6; 7]%nat = (r, Ok res) /\ NoDup (sel_parents res)) /\
  (select debug 0 100 (mkSelector (MarkovChainMonteCarlo (f_of 0) 3) 4 8) forked []).2 = Blocked.
Proof.
  split.
  - destruct (mcmc_selection_outcome debug 0 (chain 3) forked (f_of 0) 3 forked_inv) as (_ & Hok & _);
      [vm_compute; reflexivity|cbn; lia|reflexivity|].
    destruct (Hok forked_tips ltac:(cbn; lia) 0%nat [1; 5; 6; 7]%nat) as (r & res & Hr & _ & Hn & _).
    exists r, res. split; [exact Hr|exact Hn].
  - destruct (mcmc_selection_outcome debug 0 (mkSelector (MarkovChainMonteCarlo (f_of 0) 3) 4 8) forked (f_of 0) 3 forked_inv)
      as (_ & _ & Hb); [vm_compute; reflexivity|cbn; lia|reflexivity|].
    apply Hb; [exact forked_tips|]. vm_compute. lia.
Defined.

(** [b] on top of [a], and a second tip: a walk of depth one from the second
    tip ends in [a], one from [b] ends in [b]; the selection holds a vertex and
    its ancestor and is refused. *)
Definition tall : Dag := fst (default (forked, Panic) (insert_vertex 1 forked b)).
Lemma mcmc_selects_an_ancestor :
  exists res, run_select 0 (chain 1) tall [0; 15; 15; 1; 15; 15]%nat = Ok res /\
    sel_parents res = [v_hash a; v_hash b] /\
    validate_parents tall (sel_parents res) = Some (Err (ConflictingParents (v_hash a) (v_hash b))).
Proof. eexists. split; [vm_compute; reflexivity|]. split; vm_compute; reflexivity. Qed.
(** Weights of [exp] that overflow: the walk takes the first entry, or stays
    where it is when the draw is zero and the threshold no number. *)
Definition heavy : list (Hash * f64) := [(v_hash a, S754_infinity false); (v_hash b, S754_infinity false)].
Lemma overflowing_weights :
  reach (f_mul (f_div (f_of 15) (f_of 16)) (f_sum heavy.*2)) f_zero heavy = Some 0%nat /\
  reach (f_mul (f_of 0) (f_sum heavy.*2)) f_zero heavy = None.
Proof. split; vm_compute; reflexivity. Qed.
End Sample.
