(* ===== verification/Proposer.v ===== *)
(** * The block proposer (crates/nexus-consensus: proposer.rs)

    The transaction pool, and the two calls with which a node proposes: making
    a vertex over the current tips and submitting it to the DAG and to the
    round.  The [Arc]s are fields of one record; the two clocks (the date of
    the vertex and the monotonic instant, in milliseconds) are arguments. *)
From stdpp Require Import base numbers list gmap strings.
From Stdlib Require Import ZArith Lia.
From S2P Require Import Prelude Types Crypto Transaction Vertex Dag Validator Bft Pos.
#[local] Open Scope Z_scope.

Record ProposerConfig := {
  max_txs_per_vertex : nat;
  max_vertex_size : Z;
  target_interval : Z;
  cfg_max_parents : nat;
  cfg_min_parents : nat
}.
Definition default_proposer_config : ProposerConfig := {|
  max_txs_per_vertex := 1000; max_vertex_size := 1024 * 1024; target_interval := 500;
  cfg_max_parents := 8; cfg_min_parents := 1 |}.

(** ** The pool *)
Record TransactionPool := mkTxPool { pool_pending : list Transaction; max_size : nat }.
Definition new_pool (max_size : nat) : TransactionPool := mkTxPool [] max_size.
Definition default_tx_pool : TransactionPool := new_pool (Z.to_nat 100000).

Section pool.
Context `{CryptoLib}.

Definition pool_add (p : TransactionPool) (tx : Transaction) : TransactionPool * bool :=
  if (max_size p <=? length (pool_pending p))%nat then (p, false)
  else
    let hash := tx_hash tx in
    if existsb (fun t => bool_decide (tx_hash t = hash)) (pool_pending p) then (p, false)
    else (mkTxPool (pool_pending p ++ [tx]) (max_size p), true).
Definition get_pending (p : TransactionPool) (max : nat) : list Transaction :=
  take max (pool_pending p).
Definition pool_remove (p : TransactionPool) (hashes : list Hash) : TransactionPool :=
  mkTxPool (filter (fun tx => tx_hash tx ∉ hashes) (pool_pending p)) (max_size p).
Definition pool_len (p : TransactionPool) : nat := length (pool_pending p).
Definition pool_is_empty (p : TransactionPool) : bool := bool_decide (pool_pending p = []).
End pool.

(** ** Priorities *)
Inductive TxPriority := High | Normal | Low.
Definition priority_from_tx (tx : Transaction) : TxPriority :=
  let gas_price_gwei := U256.as_u64 (gas_price tx) / 1000000000 in
  if 100 <? gas_price_gwei then High
  else if 10 <? gas_price_gwei then Normal
  else Low.

(** ** The proposer *)
Record ProposedVertex := { pv_vertex : Vertex; pv_transactions : list Transaction }.
Record Proposer := mkProposer {
  pr_config : ProposerConfig;
  pr_address : Address;
  tx_pool : TransactionPool;
  pr_dag : Dag;
  pr_bft : BftConsensus;
  pr_pos : ProofOfStake;
  last_proposal : Z;
  (** [vertex_tx]: what is in the channel, if one is set *)
  vertex_tx : option (list ProposedVertex)
}.
(** [Proposer::new], at an instant *)
Definition new_proposer (config : ProposerConfig) (address : Address) (pool : TransactionPool)
    (dag : Dag) (bft : BftConsensus) (pos : ProofOfStake) (instant : Z) : Proposer :=
  mkProposer config address pool dag bft pos instant None.
Definition set_last (i : Z) (p : Proposer) : Proposer :=
  mkProposer (pr_config p) (pr_address p) (tx_pool p) (pr_dag p) (pr_bft p) (pr_pos p) i
    (vertex_tx p).
Definition set_dag (d : Dag) (p : Proposer) : Proposer :=
  mkProposer (pr_config p) (pr_address p) (tx_pool p) d (pr_bft p) (pr_pos p) (last_proposal p)
    (vertex_tx p).
Definition set_bft (b : BftConsensus) (p : Proposer) : Proposer :=
  mkProposer (pr_config p) (pr_address p) (tx_pool p) (pr_dag p) b (pr_pos p) (last_proposal p)
    (vertex_tx p).
Definition set_pool (q : TransactionPool) (p : Proposer) : Proposer :=
  mkProposer (pr_config p) (pr_address p) q (pr_dag p) (pr_bft p) (pr_pos p) (last_proposal p)
    (vertex_tx p).

(** [set_vertex_channel], and what [send] adds *)
Definition set_channel (c : option (list ProposedVertex)) (p : Proposer) : Proposer :=
  mkProposer (pr_config p) (pr_address p) (tx_pool p) (pr_dag p) (pr_bft p) (pr_pos p) (last_proposal p) c.

Section proposer.
Context `{HO : HashOrder} `{CL : CryptoLib}.
(** The derived [Debug] text of a [NexusError] *)
Context (error_debug : NexusError -> string).

(** [Instant::elapsed] saturates at zero. *)
Definition should_propose (instant : Z) (p : Proposer) : outcome ConsensusError bool :=
  leads ← snd (run (is_weighted_leader (pr_address p)) (pr_bft p));
  if negb leads then Ok false
  else
    let elapsed := Z.max (instant - last_proposal p) 0 in
    if elapsed <? target_interval (pr_config p) then Ok false
    else if pool_is_empty (tx_pool p) then Ok false
    else Ok true.

Fixpoint check_iso (txs : list Transaction) : outcome ConsensusError () :=
  match txs with
  | [] => Ok ()
  | tx :: txs =>
      if bool_decide (tx_type tx = IsoPayment) && bool_decide (iso_data tx = None)
      then Err (InvalidProposal "ISO payment transaction missing iso_data")
      else check_iso txs
  end.

Definition create_proposal (now instant : Z) (p : Proposer) : Proposer * outcome ConsensusError ProposedVertex :=
  let parents := take (cfg_max_parents (pr_config p)) (get_tips (pr_dag p)) in
  if (length parents <? cfg_min_parents (pr_config p))%nat
  then (p, Err (InvalidProposal "Not enough parent tips available"))
  else
    let transactions := get_pending (tx_pool p) (max_txs_per_vertex (pr_config p)) in
    match check_iso transactions with
    | Ok _ =>
        let tx_hashes := tx_hash <$> transactions in
        let height := default 0 (max_opt (parent_heights (vertices (pr_dag p)) parents)) +! 1 in
        let vertex := new now (pr_address p) parents tx_hashes (current_epoch (pr_pos p)) height in
        (set_last instant p, Ok {| pv_vertex := vertex; pv_transactions := transactions |})
    | Err e => (p, Err e)
    | Panic => (p, Panic)
    | Blocked => (p, Blocked)
    end.

(** The outer option is the fuel of [add_vertex]; [now] is its clock. *)
Definition submit_proposal (now : Z) (proposed : ProposedVertex) (p : Proposer)
    : option (Proposer * outcome ConsensusError Hash) :=
  let hash := v_hash (pv_vertex proposed) in
  '(d, added) ← add_vertex now (pr_dag p) (pv_vertex proposed);
  let p := set_dag d p in
  Some match map_err (fun e => InvalidProposal (error_debug e)) added with
  | Ok _ =>
      let parents := v_parents (pv_vertex proposed) in
      let '(b, voted) := run (propose hash parents) (pr_bft p) in
      let p := set_bft b p in
      match voted with
      | Ok _ =>
          let tx_hashes := tx_hash <$> pv_transactions proposed in
          let p := set_pool (pool_remove (tx_pool p) tx_hashes) p in
          (set_channel ((fun sent => sent ++ [proposed])%list <$> vertex_tx p) p, Ok hash)
      | Err e => (p, Err e)
      | Panic => (p, Panic)
      | Blocked => (p, Blocked)
      end
  | Err e => (p, Err e)
  | Panic => (p, Panic)
  | Blocked => (p, Blocked)
  end.

(** One tick of [run]: a proposal is made and submitted when it is due; errors
    are only logged. *)
Definition tick (now instant : Z) (p : Proposer) : option (Proposer * outcome ConsensusError ()) :=
  match should_propose instant p with
  | Ok true =>
      match create_proposal now instant p with
      | (p, Ok proposed) =>
          '(p, r) ← submit_proposal now proposed p;
          Some (p, match r with Panic => Panic | Blocked => Blocked | _ => Ok () end)
      | (p, Err _) => Some (p, Ok ())
      | (p, Panic) => Some (p, Panic)
      | (p, Blocked) => Some (p, Blocked)
      end
  | Ok false => Some (p, Ok ())
  | Err e => Some (p, Err e)
  | Panic => Some (p, Panic)
  | Blocked => Some (p, Blocked)
  end.
End proposer.
