(* ===== verification/ProposerProps.v ===== *)
(** * Properties of the block proposer and its transaction pool *)
From stdpp Require Import base numbers list gmap sets strings relations.
From Stdlib Require Import ZArith Lia.
From S2P Require Import Prelude Types Crypto Transaction Vertex Dag DagFacts DagSearch DagProps TipSelection Validator Bft BftFacts BftProps Pos Proposer.
#[local] Open Scope Z_scope.

(** ** The pool *)
Section pool.
Context `{CryptoLib}.

Inductive pool_step : TransactionPool -> TransactionPool -> Prop :=
  | step_add p tx : pool_step p (fst (pool_add p tx))
  | step_remove p hashes : pool_step p (pool_remove p hashes).
Record pool_inv (n : nat) (p : TransactionPool) : Prop := {
  pool_size : max_size p = n;
  pool_bound : (length (pool_pending p) <= n)%nat;
  pool_distinct : NoDup (tx_hash <$> pool_pending p)
}.

Lemma existsb_hash txs h :
  existsb (fun t => bool_decide (tx_hash t = h)) txs = true <-> h ∈ tx_hash <$> txs.
Proof.
  rewrite existsb_exists, list_elem_of_fmap. split.
  - intros (t & Ht & Hh%bool_decide_eq_true). exists t. split; [done|]. by apply list_elem_of_In.
  - intros (t & -> & Ht). exists t. split; [by apply list_elem_of_In|]. by apply bool_decide_eq_true.
Qed.
Lemma pool_add_spec p tx : pool_add p tx =
  if decide ((length (pool_pending p) < max_size p)%nat /\ tx_hash tx ∉ tx_hash <$> pool_pending p)
  then (mkTxPool (pool_pending p ++ [tx]) (max_size p), true) else (p, false).
Proof.
  unfold pool_add. case Nat.leb_spec; intros Hl.
  - rewrite decide_False; [done|]. intros [? _]. lia.
  - pose proof (existsb_hash (pool_pending p) (tx_hash tx)) as He.
    destruct (existsb _ _).
    + rewrite decide_False; [done|]. intros [_ Hn]. by apply Hn, He.
    + rewrite decide_True; [done|]. split; [done|]. intros Hin. by apply He in Hin.
Qed.
Lemma pool_step_inv n p q : pool_inv n p -> pool_step p q -> pool_inv n q.
Proof.
  intros [Hs Hb Hd] Hst. destruct Hst as [p tx|p hashes].
  - rewrite pool_add_spec. case_decide as Ha; [|done]. destruct Ha as [Hlt Hn]. split; cbn; [done|..].
    + rewrite length_app. cbn. lia.
    + rewrite fmap_app. apply NoDup_app. split; [done|]. split; [|apply NoDup_singleton].
      intros h Hh ->%list_elem_of_singleton. done.
  - split; cbn; [done|..].
    + pose proof (length_filter (fun tx => tx_hash tx ∉ hashes) (pool_pending p)). lia.
    + clear Hb. induction (pool_pending p) as [|t l IH]; [constructor|].
      apply NoDup_cons in Hd as [Hn Hd]. rewrite filter_cons. case_decide; [|by apply IH].
      cbn. constructor; [|by apply IH]. intros Hin. apply Hn.
      apply list_elem_of_fmap in Hin as (u & Hu & [_ Hin]%list_elem_of_filter).
      apply list_elem_of_fmap. by exists u.
Qed.

Lemma filter_prefix (l : list Transaction) k : NoDup (tx_hash <$> l) ->
  filter (fun tx => tx_hash tx ∉ tx_hash <$> take k l) l = drop k l.
Proof.
  intros Hd. pose proof (take_drop k l) as E. set (a := take k l) in *. set (b := drop k l) in *.
  rewrite <- E in Hd. rewrite <- E at 1. rewrite fmap_app in Hd. apply NoDup_app in Hd as (_ & Hdis & _).
  rewrite filter_app. rewrite (list_filter_none _ a), app_nil_l.
  - apply list_filter_all. intros t Ht Hin. apply (Hdis (tx_hash t) Hin).
    apply list_elem_of_fmap. by exists t.
  - intros t Ht Hn. apply Hn, list_elem_of_fmap. by exists t.
Qed.

(** The pool never holds more transactions than its size, nor two with the
    same hash; a transaction is accepted exactly when there is room and its
    hash is not in the pool, and goes last; what is taken for a vertex is the
    oldest prefix, and removing it takes out exactly the transactions with
    these hashes. *)
Theorem pool_holds_distinct n p tx : rtc pool_step (new_pool n) p ->
  (length (pool_pending p) <= n)%nat /\ NoDup (tx_hash <$> pool_pending p) /\
  (snd (pool_add p tx) = true <->
     (length (pool_pending p) < n)%nat /\ tx_hash tx ∉ tx_hash <$> pool_pending p) /\
  (snd (pool_add p tx) = true -> pool_pending (fst (pool_add p tx)) = pool_pending p ++ [tx]) /\
  (forall k, get_pending p k `prefix_of` pool_pending p /\
     pool_pending (pool_remove p (tx_hash <$> get_pending p k)) = drop k (pool_pending p)).
Proof.
  intros Hr. assert (Hi : pool_inv n p).
  { assert (H0 : pool_inv n (new_pool n)) by (split; cbn; [done|lia|constructor]).
    revert H0. induction Hr as [|p1 p2 p3 Hs _ IH]; [done|]. intros H0. apply IH. by eapply pool_step_inv. }
  destruct Hi as [Hs Hb Hd]. split; [done|]. split; [done|].
  rewrite pool_add_spec, Hs. split; [case_decide; cbn; naive_solver|].
  split; [case_decide; cbn; [done|done]|]. intros k. split; [apply prefix_take|].
  by apply filter_prefix.
Qed.
End pool.

(** ** Proposals *)
Section proposals.
Context `{HO : HashOrder} `{CL : CryptoLib} (error_debug : NexusError -> string).

Lemma leads_total a b : exists r, run (is_weighted_leader a) b = (b, Ok r).
Proof.
  unfold is_weighted_leader, weighted_leader. destruct b as [ks vs st fin vcs]. run_bft.
  destruct (_ =? 0); run_bft; by eexists.
Qed.
Lemma should_propose_total instant p : exists b, should_propose instant p = Ok b /\
  (b = true -> pool_pending (tx_pool p) <> []).
Proof.
  unfold should_propose. destruct (leads_total (pr_address p) (pr_bft p)) as (l & ->).
  cbn [snd mbind outcome_bind]. destruct l; cbn [negb]; [|by exists false].
  destruct (_ <? _); [by exists false|]. unfold pool_is_empty.
  case bool_decide_reflect; intros Hp; [by exists false|by exists true].
Qed.

(** What [create_proposal] returns when it returns a proposal. *)
Lemma create_proposal_Ok now instant p p' pv : create_proposal now instant p = (p', Ok pv) ->
  let parents := take (cfg_max_parents (pr_config p)) (get_tips (pr_dag p)) in
  let txs := get_pending (tx_pool p) (max_txs_per_vertex (pr_config p)) in
  p' = set_last instant p /\ pv_transactions pv = txs /\
  (cfg_min_parents (pr_config p) <= length parents)%nat /\
  pv_vertex pv = new now (pr_address p) parents (tx_hash <$> txs) (current_epoch (pr_pos p))
    (default 0 (max_opt (parent_heights (vertices (pr_dag p)) parents)) +! 1).
Proof.
  cbv zeta. unfold create_proposal. case Nat.ltb_spec; [done|]. intros Hl.
  destruct (check_iso _); [|done..]. intros [= <- <-]. done.
Qed.

Lemma check_iso_total txs : check_iso txs = Ok () \/ exists e, check_iso txs = Err e.
Proof. induction txs as [|tx l IH]; [by left|]. cbn. destruct (_ && _); [right; by eexists|done]. Qed.
Lemma create_proposal_total now instant p :
  (exists pv, create_proposal now instant p = (set_last instant p, Ok pv)) \/
  (exists e, create_proposal now instant p = (p, Err e)).
Proof.
  unfold create_proposal. destruct (_ <? _)%nat; [right; by eexists|].
  destruct (check_iso_total (get_pending (tx_pool p) (max_txs_per_vertex (pr_config p)))) as [->|[e ->]];
    [left; by eexists|right; by eexists].
Qed.

(** On a well-formed DAG with a tip, a proposal takes its parents among the
    tips in a way that [validate_parents] accepts, has the height that the DAG
    expects of it, and carries the oldest transactions of the pool; making it
    changes nothing but the time of the last proposal. *)
Theorem proposals_extend_the_tips now instant p p' pv : dag_inv (pr_dag p) ->
  Z.of_nat (base.size (vertices (pr_dag p))) < B128 ->
  (1 <= cfg_min_parents (pr_config p))%nat -> (cfg_max_parents (pr_config p) <= 8)%nat ->
  create_proposal now instant p = (p', Ok pv) ->
  let v := pv_vertex pv in
  validate_parents (pr_dag p) (v_parents v) = Some (Ok ()) /\
  (forall h, h ∈ v_parents v -> h ∈ tips (pr_dag p)) /\
  v_height v = expected_height (vertices (pr_dag p)) (v_parents v) /\
  pv_transactions pv `prefix_of` pool_pending (tx_pool p) /\
  p' = set_last instant p.
Proof.
  intros Hi Hb Hmin Hmax Hc. apply create_proposal_Ok in Hc as (-> & Htx & Hl & Hv). cbv zeta.
  rewrite Hv. cbn [new v_parents v_height]. set (ps := take _ _) in *.
  assert (Hps : forall h, h ∈ ps -> h ∈ tips (pr_dag p)).
  { intros h Hh. apply elem_of_members. exact (subseteq_take _ _ h Hh). }
  assert (Hnd : NoDup ps) by (eapply sublist_NoDup; [apply members_nodup|apply sublist_take]).
  destruct (tips_valid (pr_dag p) ps Hi Hnd Hps) as [Hst Hac].
  assert (Hne : ps <> []) by (intros E; rewrite E in Hl; cbn in Hl; lia).
  split.
  { destruct (validate_parents_exact (pr_dag p) ps Hi) as (r & -> & Hr). f_equal. apply Hr.
    split; [done|]. split; [unfold ps; rewrite length_take; lia|done]. }
  split; [done|]. split; [|split; [rewrite Htx; apply prefix_take|done]].
  unfold expected_height. destruct (max_opt _) as [m|] eqn:Em; [done|]. exfalso.
  destruct ps as [|h l] eqn:Eps; [done|]. apply Forall_cons in Hst as [[w Hw] _].
  unfold parent_heights in Em. cbn [omap list_omap] in Em. rewrite Hw in Em. cbn in Em. done.
Qed.

(** A vertex made of transactions never enters the DAG. *)
Lemma rejected_vertex now d now' validator parents hashes epoch height :
  compute_merkle_root hashes <> HASH_ZERO ->
  let v := new now' validator parents hashes epoch height in
  vertices d !! v_hash v = None ->
  exists e, add_vertex now d v = Some (d, Err e).
Proof.
  cbv zeta. intros Hroot Hfresh. unfold add_vertex. rewrite decide_False by (rewrite Hfresh; by intros [? ?]).
  assert (Hv : exists e, verify_structure (new now' validator parents hashes epoch height) = Err e).
  { unfold verify_structure. destruct (negb _ && _); [by eexists|]. destruct (_ <? _)%nat; [by eexists|].
    destruct (_ <? _)%nat; [by eexists|]. cbn [new v_transactions v_tx_root fmap list_fmap].
    rewrite bool_decide_false by (cbn; congruence). by eexists. }
  destruct Hv as [e ->]. by eexists.
Qed.

(** The loop of the proposer never gets a transaction into the DAG: it only
    proposes when the pool is not empty, the vertex it makes carries the root
    of the transactions but not the transactions, and the DAG refuses it.  A
    tick leaves the DAG, the round and the pool as they were, so the next one
    proposes the same transactions again (unless the identifier is taken or the
    Merkle root happens to be zero). *)
Theorem proposer_never_publishes now instant p :
  (forall p' pv, create_proposal now instant p = (p', Ok pv) ->
     vertices (pr_dag p) !! v_hash (pv_vertex pv) = None /\
     compute_merkle_root (tx_hash <$> pv_transactions pv) <> HASH_ZERO) ->
  exists p', tick error_debug now instant p = Some (p', Ok ()) /\
    pr_dag p' = pr_dag p /\ pr_bft p' = pr_bft p /\ tx_pool p' = tx_pool p.
Proof.
  intros Hgood. unfold tick.
  destruct (should_propose_total instant p) as (b & -> & _). destruct b; [|by exists p].
  destruct (create_proposal_total now instant p) as [(pv & Hc)|(e & Hc)]; rewrite Hc; [|by exists p].
  destruct (Hgood _ pv Hc) as (Hfresh & Hroot).
  pose proof (create_proposal_Ok _ _ _ _ _ Hc) as (_ & Htx & _ & Hv).
  unfold submit_proposal. change (pr_dag (set_last instant p)) with (pr_dag p).
  rewrite Hv in Hfresh |- *. rewrite Htx in Hroot.
  destruct (rejected_vertex now (pr_dag p) _ _ _ _ _ _ Hroot Hfresh) as (e & ->).
  cbn [mbind option_bind map_err]. by eexists.
Qed.
End proposals.

(** ** A node with one pending payment *)
Module Sample.
#[local] Existing Instance canonical_order.
#[local] Existing Instance toy_crypto.
Definition payment (n : Z) : Transaction := new_legacy 1337 n None U256.ZERO [n + 1] 100000 U256.ONE.
Definition pool : TransactionPool := fst (pool_add (fst (pool_add (new_pool 3) (payment 0))) (payment 1)).
Definition node : Proposer := {|
  pr_config := default_proposer_config; pr_address := BftProps.Sample.addr 1; tx_pool := pool;
  pr_dag := TipSelection.Sample.forked; pr_bft := new_bft BftProps.Sample.keys1 BftProps.Sample.one;
  pr_pos := new_pos default_staking_config; last_proposal := 0; vertex_tx := Some [] |}.

Lemma pool_reach : rtc pool_step (new_pool 3) pool.
Proof. eapply rtc_l; [apply step_add|]. apply rtc_once, step_add. Qed.
Lemma pool_holds_distinct_witness :
  snd (pool_add pool (payment 1)) <> true /\ snd (pool_add pool (payment 2)) = true /\
  pool_pending (pool_remove pool (tx_hash <$> get_pending pool 1)) = [payment 1].
Proof.
  destruct (pool_holds_distinct 3 pool (payment 1) pool_reach) as (_ & _ & H1 & _ & Hrem).
  destruct (pool_holds_distinct 3 pool (payment 2) pool_reach) as (_ & _ & H2 & _).
  split; [|split].
  - intros Hadd. destruct (proj1 H1 Hadd) as [_ Hn]. apply Hn.
    apply (bool_decide_unpack _). vm_compute. exact I.
  - apply H2. split; [vm_compute; repeat constructor|]. apply (bool_decide_unpack _). vm_compute. exact I.
  - exact (proj2 (Hrem 1%nat)).
Defined.

Definition made : ProposedVertex :=
  match create_proposal 5000 1000 node with
  | (_, Ok pv) => pv
  | _ => {| pv_vertex := genesis 0 0; pv_transactions := [] |}
  end.
Lemma made_step : create_proposal 5000 1000 node = (set_last 1000 node, Ok made).
Proof. vm_compute. reflexivity. Qed.
Lemma pair_Ok_inj {A B E} (a c : A) (b d : B) : (a, @Ok E B b) = (c, Ok d) -> b = d.
Proof. by intros [= _ ->]. Qed.
Lemma proposals_extend_the_tips_witness :
  create_proposal 5000 1000 node = (set_last 1000 node, Ok made) /\
  validate_parents (pr_dag node) (v_parents (pv_vertex made)) = Some (Ok ()).
Proof.
  split; [exact made_step|].
  apply (proposals_extend_the_tips 5000 1000 node (set_last 1000 node) made); [| | | |exact made_step].
  - exact TipSelection.Sample.forked_inv.
  - vm_compute. reflexivity.
  - cbn. lia.
  - cbn. lia.
Defined.

Lemma proposer_never_publishes_witness :
  should_propose 1000 node = Ok true /\
  exists p', tick (fun _ => "") 5000 1000 node = Some (p', Ok ()) /\
    pr_dag p' = pr_dag node /\ tx_pool p' = pool.
Proof.
  split; [vm_compute; reflexivity|].
  destruct (proposer_never_publishes (fun _ => "") 5000 1000 node) as (p' & Ht & Hd & _ & Hp).
  - intros q pv Hc. pose proof (pair_Ok_inj _ _ _ _ (eq_trans (eq_sym Hc) made_step)) as ->.
    split; [vm_compute; reflexivity|].
    apply (bool_decide_unpack (_ <> _)). vm_compute. exact I.
  - exists p'. split; [exact Ht|]. split; [exact Hd|exact Hp].
Defined.
End Sample.
