(* ===== verification/Slices.v ===== *)
(** * Slices, and the laws of the state monad

    Indexing and slicing of a byte vector as the source writes them: a bound
    out of range panics.  [ToVec] is the class of serde encoders that the
    source calls on its own types.  The lemmas compute a bind of the state
    monad from the result of its first part. *)
From stdpp Require Import base numbers list gmap strings.
From Stdlib Require Import ZArith Lia.
From S2P Require Import Prelude.
#[local] Open Scope Z_scope.

(** [v[i]] *)
Definition index_at {E A} (v : list A) (i : nat) : outcome E A := unwrap (v !! i).
(** [v[n..]] *)
Definition slice_from {E A} (v : list A) (n : nat) : outcome E (list A) :=
  if decide (n <= length v)%nat then Ok (drop n v) else Panic.
(** [v[a..b]] *)
Definition slice {E A} (v : list A) (a b : nat) : outcome E (list A) :=
  if decide (a <= b /\ b <= length v)%nat then Ok (take (b - a) (drop a v)) else Panic.
(** [v[i] = x] *)
Definition assign_at {E A} (v : list A) (i : nat) (x : A) : outcome E (list A) :=
  if decide (i < length v)%nat then Ok (<[i := x]> v) else Panic.

(** [starts_with] *)
Definition starts_with {A} `{EqDecision A} (v prefix : list A) : bool :=
  bool_decide (take (length prefix) v = prefix).

(** [serde_json::to_vec] on a type of the source; [None] is its error. *)
Class ToVec (A : Type) := to_vec : A -> option (list Z).

Lemma slice_from_ok {E A} (v : list A) n :
  (n <= length v)%nat -> @slice_from E A v n = Ok (drop n v).
Proof. intros. unfold slice_from. by rewrite decide_True. Qed.
Lemma assign_at_ok {E A} (v : list A) i x :
  (i < length v)%nat -> @assign_at E A v i x = Ok (<[i := x]> v).
Proof. intros. unfold assign_at. by rewrite decide_True. Qed.
Lemma index_at_ok {E A} (v : list A) i x : v !! i = Some x -> @index_at E A v i = Ok x.
Proof. intros H. unfold index_at. by rewrite H. Qed.
Lemma slice_ok {E A} (v : list A) a b : (a <= b)%nat -> (b <= length v)%nat ->
  @slice E A v a b = Ok (take (b - a) (drop a v)).
Proof. intros. unfold slice. by rewrite decide_True. Qed.
Lemma starts_with_spec {A} `{EqDecision A} (v prefix : list A) :
  starts_with v prefix = true <-> exists rest, v = (prefix ++ rest)%list.
Proof.
  unfold starts_with. rewrite bool_decide_eq_true. split.
  - intros H. exists (drop (length prefix) v). rewrite <- H at 1. by rewrite take_drop.
  - intros [rest ->]. by rewrite take_app_length.
Qed.

Section laws.
Context {S E : Type}.
Lemma M_bind_ok {A B} (m : M S E A) (f : A -> M S E B) s s' a :
  m s = (s', Ok a) -> mbind f m s = f a s'.
Proof. intros H. unfold mbind, M_bind. by rewrite H. Qed.
Lemma M_bind_panic {A B} (m : M S E A) (f : A -> M S E B) s s' :
  m s = (s', Panic) -> mbind f m s = (s', Panic).
Proof. intros H. unfold mbind, M_bind. by rewrite H. Qed.
Lemma M_bind_err {A B} (m : M S E A) (f : A -> M S E B) s s' e :
  m s = (s', Err e) -> mbind f m s = (s', Err e).
Proof. intros H. unfold mbind, M_bind. by rewrite H. Qed.
Lemma M_bind_assoc {A B C} (m : M S E A) (f : A -> M S E B) (g : B -> M S E C) s :
  mbind g (mbind f m) s = mbind (fun a => mbind g (f a)) m s.
Proof. unfold mbind, M_bind. by destruct (m s) as [? []]. Qed.
Lemma lift_bind_ok {A B} (o : outcome E A) (f : A -> M S E B) s a :
  o = Ok a -> mbind f (lift o) s = f a s.
Proof. by intros ->. Qed.
Lemma get_bind {B} (f : S -> M S E B) s : mbind f get_state s = f s s.
Proof. done. Qed.
End laws.
