(* ===== verification/Trie.v ===== *)
(** * The state trie (crates/nexus-state: trie.rs, the errors of lib.rs)

    Nodes are stored under the Keccak-256 digest of their JSON encoding; the
    encoder is the serde_json crate's and is a parameter ([ToVec]).  An
    operation that adds nodes is a state monad over the node table, so the
    nodes added before a panic stay.  The recursions are given one step more
    than the key has nibbles; a descent that does not end would overflow the
    stack, which is [Panic]. *)
From stdpp Require Import base numbers list gmap strings.
From Stdlib Require Import ZArith Lia.
From S2P Require Import Prelude Types Crypto Slices.
#[local] Open Scope Z_scope.

Inductive StateError :=
  | NotFound (msg : string)
  | InvalidProof
  | Storage (msg : string)
  | Serialization (msg : string)
  | CheckpointErr (msg : string).

Inductive TrieNode :=
  | Empty
  | Leaf (key_end value : list Z)
  | Extension (prefix : list Z) (child : Hash)
  | Branch (children : list (option Hash)) (value : option (list Z)).
#[export] Instance TrieNode_eq_dec : EqDecision TrieNode.
Proof. solve_decision. Defined.

Abbreviation Nodes := (gmap Hash TrieNode).
Record MerkleTrie := mkTrie { root : Hash; nodes : Nodes }.

Record MerkleProof := mkProof {
  proof_key : list Z;
  proof_value : option (list Z);
  proof_nodes : list TrieNode;
  proof_root : Hash
}.

(** [MerkleTrie::new] *)
Definition new_trie : MerkleTrie := mkTrie HASH_ZERO {[ HASH_ZERO := Empty ]}.

(** [[None; 16]] *)
Definition no_children : list (option Hash) := replicate 16 None.

Fixpoint key_to_nibbles (key : list Z) : list Z :=
  match key with
  | [] => []
  | byte :: key => Z.shiftr byte 4 :: Z.land byte 15 :: key_to_nibbles key
  end.

(** [zip], [take_while(|(a, b)| a == b)], [count] *)
Fixpoint common_len (a b : list Z) : nat :=
  match a, b with
  | x :: a, y :: b => if x =? y then S (common_len a b) else 0%nat
  | _, _ => 0%nat
  end.

(** ** Lookup *)
Fixpoint get_recursive (fuel : nat) (nodes : Nodes) (node_hash : Hash) (nibbles : list Z)
    (depth : nat) : outcome StateError (option (list Z)) :=
  match fuel with
  | O => Panic
  | S fuel =>
      match nodes !! node_hash with
      | None => Ok None
      | Some Empty => Ok None
      | Some (Leaf key_end value) =>
          rest ← slice_from nibbles depth;
          Ok (if bool_decide (rest = key_end) then Some value else None)
      | Some (Extension prefix child) =>
          rest ← slice_from nibbles depth;
          if starts_with rest prefix
          then get_recursive fuel nodes child nibbles (depth + length prefix)
          else Ok None
      | Some (Branch children value) =>
          if (length nibbles <=? depth)%nat then Ok value
          else
            idx ← index_at nibbles depth;
            child ← index_at children (Z.to_nat idx);
            match child with
            | Some child => get_recursive fuel nodes child nibbles (depth + 1)
            | None => Ok None
            end
      end
  end.

Definition get (t : MerkleTrie) (key : list Z) : outcome StateError (option (list Z)) :=
  let nibbles := key_to_nibbles key in
  get_recursive (S (length nibbles)) (nodes t) (root t) nibbles 0.

Section trie.
Context `{CryptoLib} `{ToVec TrieNode}.

Definition rlp_encode (n : TrieNode) : list Z := default [] (to_vec n).
Definition hash (n : TrieNode) : Hash := mkHash (keccak (rlp_encode n)).

(** [let h = n.hash(); self.nodes.insert(h.clone(), n)] *)
Definition add_node (n : TrieNode) : M Nodes StateError Hash := fun nodes =>
  (<[hash n := n]> nodes, Ok (hash n)).

(** The branch under an extension when it shares a prefix *)
Definition wrap (prefix : list Z) (branch : TrieNode) : M Nodes StateError TrieNode :=
  if (0 <? length prefix)%nat
  then branch_hash ← add_node branch; mret (Extension prefix branch_hash)
  else mret branch.

(** The leaf of [key] past its first [common] nibbles and one more, stored and
    hung in the slot of that one *)
Definition plant_leaf (key value : list Z) (common : nat) (children : list (option Hash))
    : M Nodes StateError (list (option Hash)) :=
  tail ← lift (slice_from key (common + 1));
  leaf_hash ← add_node (Leaf tail value);
  idx ← lift (index_at key common);
  lift (assign_at children (Z.to_nat idx) (Some leaf_hash)).

(** A leaf that meets another key *)
Definition split_leaf (key_end old_value remaining value : list Z)
    : M Nodes StateError TrieNode :=
  let common := common_len key_end remaining in
  let children := no_children in
  children ←
    (if (common <? length key_end)%nat
     then plant_leaf key_end old_value common children else mret children);
  children ←
    (if (common <? length remaining)%nat
     then plant_leaf remaining value common children else mret children);
  wrap (take common remaining)
    (Branch children
       (if decide (common = length remaining) then Some value
        else if decide (common = length key_end) then Some old_value
        else None)).

(** An extension that the key leaves before its end *)
Definition split_extension (prefix : list Z) (child : Hash) (remaining value : list Z)
    : M Nodes StateError TrieNode :=
  let common := common_len prefix remaining in
  let children := no_children in
  children ←
    (if (common + 1 <? length prefix)%nat then
       tail ← lift (slice_from prefix (common + 1));
       ext_hash ← add_node (Extension tail child);
       idx ← lift (index_at prefix common);
       lift (assign_at children (Z.to_nat idx) (Some ext_hash))
     else
       idx ← lift (index_at prefix common);
       lift (assign_at children (Z.to_nat idx) (Some child)));
  children ← plant_leaf remaining value common children;
  wrap (take common remaining) (Branch children None).

(** ** Insertion *)
Fixpoint insert_recursive (fuel : nat) (node_hash : Hash) (nibbles : list Z) (depth : nat)
    (value : list Z) : M Nodes StateError Hash :=
  match fuel with
  | O => lift Panic
  | S fuel =>
      nodes ← get_state;
      new_node ←
        match default Empty (nodes !! node_hash) with
        | Empty =>
            key_end ← lift (slice_from nibbles depth);
            mret (Leaf key_end value)
        | Leaf key_end old_value =>
            remaining ← lift (slice_from nibbles depth);
            let common := common_len key_end remaining in
            if decide (common = length key_end /\ common = length remaining)
            then mret (Leaf key_end value)
            else split_leaf key_end old_value remaining value
        | Extension prefix child =>
            remaining ← lift (slice_from nibbles depth);
            let common := common_len prefix remaining in
            if decide (common = length prefix) then
              new_child ← insert_recursive fuel child nibbles (depth + common) value;
              mret (Extension prefix new_child)
            else split_extension prefix child remaining value
        | Branch children branch_value =>
            remaining ← lift (slice_from nibbles depth);
            match remaining with
            | [] => mret (Branch children (Some value))
            | idx :: _ =>
                child ← lift (index_at children (Z.to_nat idx));
                let child_hash := default HASH_ZERO child in
                new_child ← insert_recursive fuel child_hash nibbles (depth + 1) value;
                children ← lift (assign_at children (Z.to_nat idx) (Some new_child));
                mret (Branch children branch_value)
            end
        end;
      add_node new_node
  end.

(** ** Deletion *)
Fixpoint delete_recursive (fuel : nat) (node_hash : Hash) (nibbles : list Z) (depth : nat)
    : M Nodes StateError Hash :=
  match fuel with
  | O => lift Panic
  | S fuel =>
      nodes ← get_state;
      node ← lift (ok_or (NotFound "Node not found") (nodes !! node_hash));
      match node with
      | Empty => mret node_hash
      | Leaf key_end _ =>
          rest ← lift (slice_from nibbles depth);
          mret (if bool_decide (rest = key_end) then HASH_ZERO else node_hash)
      | Branch children value =>
          if (length nibbles <=? depth)%nat then add_node (Branch children None)
          else
            idx ← lift (index_at nibbles depth);
            child ← lift (index_at children (Z.to_nat idx));
            children ←
              match child with
              | Some child =>
                  new_child ← delete_recursive fuel child nibbles (depth + 1);
                  lift (assign_at children (Z.to_nat idx)
                          (if bool_decide (new_child = HASH_ZERO) then None else Some new_child))
              | None => mret children
              end;
            add_node (Branch children value)
      | _ => mret node_hash
      end
  end.

(** [self.root = ...?]: the root moves when the recursion succeeds. *)
Definition update_root (step : M Nodes StateError Hash) : M MerkleTrie StateError () := fun t =>
  match step (nodes t) with
  | (nodes, Ok new_root) => (mkTrie new_root nodes, Ok ())
  | (nodes, Err e) => (mkTrie (root t) nodes, Err e)
  | (nodes, Panic) => (mkTrie (root t) nodes, Panic)
  | (nodes, Blocked) => (mkTrie (root t) nodes, Blocked)
  end.
Definition insert (key value : list Z) : M MerkleTrie StateError () := fun t =>
  let nibbles := key_to_nibbles key in
  update_root (insert_recursive (S (length nibbles)) (root t) nibbles 0 value) t.
Definition delete (key : list Z) : M MerkleTrie StateError () := fun t =>
  let nibbles := key_to_nibbles key in
  update_root (delete_recursive (S (length nibbles)) (root t) nibbles 0) t.

(** ** Proofs *)
Fixpoint prove_recursive (fuel : nat) (nodes : Nodes) (node_hash : Hash) (nibbles : list Z)
    (depth : nat) (proof : list TrieNode) : outcome StateError (bool * list TrieNode) :=
  match fuel with
  | O => Panic
  | S fuel =>
      match nodes !! node_hash with
      | None => Ok (false, proof)
      | Some node =>
          let proof := (proof ++ [node])%list in
          match node with
          | Empty | Leaf _ _ => Ok (true, proof)
          | Extension prefix child =>
              rest ← slice_from nibbles depth;
              if starts_with rest prefix
              then prove_recursive fuel nodes child nibbles (depth + length prefix) proof
              else Ok (true, proof)
          | Branch children _ =>
              if (depth <? length nibbles)%nat then
                idx ← index_at nibbles depth;
                child ← index_at children (Z.to_nat idx);
                match child with
                | Some child => prove_recursive fuel nodes child nibbles (depth + 1) proof
                | None => Ok (true, proof)
                end
              else Ok (true, proof)
          end
      end
  end.

Definition prove (t : MerkleTrie) (key : list Z) : outcome StateError (option MerkleProof) :=
  let nibbles := key_to_nibbles key in
  '(found, proof_nodes) ←
    prove_recursive (S (length nibbles)) (nodes t) (root t) nibbles 0 [];
  if (found : bool)
  then value ← get t key; Ok (Some (mkProof key value proof_nodes (root t)))
  else Ok None.

Definition verify_proof (proof : MerkleProof) : bool :=
  match proof_nodes proof with
  | [] => bool_decide (proof_value proof = None)
  | node :: _ => bool_decide (hash node = proof_root proof)
  end.
End trie.
