(* ===== verification/TrieFacts.v ===== *)
(** * What a trie holds (lemmas for trie.rs)

    [holds nodes h s v]: the subtree at [h] has the value [v] under the nibbles
    [s].  [inv] is the invariant of the node table; its flag [strict] adds that
    every branch has two keys that differ at their head, which insertion keeps
    and deletion does not.  The lemmas give each node operation in these terms,
    or a clash of node digests. *)
From stdpp Require Import base numbers list gmap strings.
From Stdlib Require Import ZArith Lia.
From S2P Require Import Prelude Types Crypto Slices Trie.
#[local] Open Scope Z_scope.

Definition is_nibble (n : Z) : Prop := 0 <= n < 16.

Inductive holds (nodes : Nodes) : Hash -> list Z -> list Z -> Prop :=
  | holds_leaf h k v : nodes !! h = Some (Leaf k v) -> holds nodes h k v
  | holds_ext h p c s v : nodes !! h = Some (Extension p c) ->
      holds nodes c s v -> holds nodes h (p ++ s) v
  | holds_here h cs v : nodes !! h = Some (Branch cs (Some v)) -> holds nodes h [] v
  | holds_child h cs b i c s v : nodes !! h = Some (Branch cs b) -> 0 <= i ->
      cs !! Z.to_nat i = Some (Some c) -> holds nodes c s v -> holds nodes h (i :: s) v.

(** The same, one step, for a node that need not be stored *)
Definition node_holds (nodes : Nodes) (n : TrieNode) (s v : list Z) : Prop :=
  match n with
  | Empty => False
  | Leaf k x => s = k /\ v = x
  | Extension p c => exists t, s = (p ++ t)%list /\ holds nodes c t v
  | Branch cs b =>
      match s with
      | [] => b = Some v
      | i :: t => 0 <= i /\ exists c, cs !! Z.to_nat i = Some (Some c) /\ holds nodes c t v
      end
  end.

Lemma holds_node nodes h s v :
  holds nodes h s v <-> exists n, nodes !! h = Some n /\ node_holds nodes n s v.
Proof.
  split.
  - intros [h' k x Hn|h' p c t x Hn Hc|h' cs x Hn|h' cs b i c t x Hn Hi Hcs Hc];
      (eexists; split; [exact Hn|]); simpl; eauto.
  - intros ([|k x|p c|cs b] & Hn & Hs); simpl in Hs.
    + done.
    + destruct Hs as [-> ->]. by constructor.
    + destruct Hs as (t & -> & Hc). by econstructor.
    + destruct s as [|i t].
      * subst b. by econstructor.
      * destruct Hs as (Hi & c & Hcs & Hc). by econstructor.
Qed.
Lemma holds_at nodes h n s v : nodes !! h = Some n ->
  holds nodes h s v <-> node_holds nodes n s v.
Proof.
  intros Hn. rewrite holds_node. split; [|by eauto].
  intros (n' & Hn' & Hs). by simplify_eq.
Qed.

Lemma holds_mono nodes nodes' h s v :
  nodes ⊆ nodes' -> holds nodes h s v -> holds nodes' h s v.
Proof.
  intros Hsub Hh. induction Hh; (eapply lookup_weaken in Hsub; [|eassumption]);
    by econstructor; eauto.
Qed.
Lemma node_holds_mono nodes nodes' n s v :
  nodes ⊆ nodes' -> node_holds nodes n s v -> node_holds nodes' n s v.
Proof.
  intros Hsub. destruct n as [|k x|p c|cs b]; simpl; auto.
  - intros (t & -> & Hc). eauto using holds_mono.
  - destruct s; [done|]. intros (? & c & ? & Hc). eauto 6 using holds_mono.
Qed.

(** ** The invariant *)
Section trie.
Context `{CL : CryptoLib} `{SJ : ToVec TrieNode}.

(** Two nodes with one digest, or a node whose digest is the empty root *)
Definition node_clash : Prop :=
  (exists n n', n <> n' /\ hash n = hash n') \/ exists n, hash n = HASH_ZERO.

Section strict.
Context (strict : bool).

Definition wf_node (nodes : Nodes) (n : TrieNode) : Prop :=
  match n with
  | Empty => False
  | Leaf k _ => Forall is_nibble k
  | Extension p c => p <> [] /\ Forall is_nibble p /\
      (exists cs b, nodes !! c = Some (Branch cs b)) /\ (exists s v, holds nodes c s v)
  | Branch cs b => length cs = 16%nat /\
      (forall i c, cs !! i = Some (Some c) -> is_Some (nodes !! c) /\ c <> HASH_ZERO) /\
      (strict = true -> exists s1 v1 s2 v2, node_holds nodes n s1 v1 /\
         node_holds nodes n s2 v2 /\ head s1 <> head s2)
  end.
Definition inv (nodes : Nodes) : Prop :=
  nodes !! HASH_ZERO = Some Empty /\
  forall h n, nodes !! h = Some n -> h <> HASH_ZERO -> h = hash n /\ wf_node nodes n.

Lemma wf_node_mono nodes nodes' n : nodes ⊆ nodes' -> wf_node nodes n -> wf_node nodes' n.
Proof.
  intros Hsub. destruct n as [|k x|p c|cs b]; simpl; auto.
  - intros (? & ? & (cs & b & Hc) & s & v & Hs).
    eauto 10 using holds_mono, lookup_weaken.
  - intros (? & Hcs & Hst). split_and!; [done| |].
    + intros i c Hi. destruct (Hcs i c Hi) as [[n Hn] ?].
      split; [eexists; eauto using lookup_weaken|done].
    + intros E. destruct (Hst E) as (s1 & v1 & s2 & v2 & H1 & H2 & ?).
      exists s1, v1, s2, v2. split_and!; [..|done]; by eapply (node_holds_mono _ _ (Branch cs b)).
Qed.

Lemma inv_new : inv (nodes new_trie).
Proof.
  split; simpl; [by rewrite lookup_singleton_eq|].
  intros h n [<- <-]%lookup_singleton_Some. done.
Qed.

(** What [add_node] does to the table *)
Record added (nodes : Nodes) (n : TrieNode) (nodes' : Nodes) : Prop := {
  added_inv : inv nodes';
  added_sub : nodes ⊆ nodes';
  added_at : nodes' !! hash n = Some n;
  added_nonzero : hash n <> HASH_ZERO
}.

Lemma add_node_added nodes n : inv nodes -> wf_node nodes n ->
  node_clash \/ added nodes n (<[hash n := n]> nodes).
Proof.
  intros [Hz Hinv] Hwf.
  destruct (decide (hash n = HASH_ZERO)) as [E|Hnz]; [left; right; by eauto|].
  destruct (nodes !! hash n) as [n'|] eqn:Hn.
  - destruct (decide (n' = n)) as [->|Hne].
    + right. rewrite insert_id by done. by split.
    + left. left. exists n', n. split; [done|]. symmetry. by apply (Hinv (hash n)).
  - assert (Hsub : nodes ⊆ <[hash n := n]> nodes) by by apply insert_subseteq.
    right. split; [|done|by rewrite lookup_insert_eq|done]. split.
    + by rewrite lookup_insert_ne.
    + intros h m. rewrite lookup_insert_Some. intros [[<- <-]|[? Hm]] ?.
      * split; [done|by eapply wf_node_mono].
      * destruct (Hinv h m Hm) as [-> ?]; [done|]. split; [done|by eapply wf_node_mono].
Qed.

(** What is held at a stored node is the same in a larger table. *)
Lemma holds_stable nodes nodes' h s v : inv nodes -> nodes ⊆ nodes' -> is_Some (nodes !! h) ->
  holds nodes' h s v <-> holds nodes h s v.
Proof.
  intros [Hz Hinv] Hsub Hh. split; [|by apply holds_mono].
  intros Hs. revert Hh. induction Hs as [h k x Hn|h p c s x Hn Hc IH|h cs x Hn|h cs b i c s x Hn Hi Hcs Hc IH];
    intros [n Hh]; pose proof (lookup_weaken _ _ _ _ Hh Hsub); simplify_eq;
    (destruct (decide (h = HASH_ZERO)) as [->|Hnz]; [congruence|]);
    destruct (Hinv _ _ Hh Hnz) as [_ Hwf]; simpl in Hwf.
  - by constructor.
  - eapply holds_ext; [done|]. apply IH. destruct Hwf as (_ & _ & (? & ? & ?) & _). by eexists.
  - by eapply holds_here.
  - eapply holds_child; [done..|]. apply IH. destruct Hwf as (_ & Hwf & _). by destruct (Hwf _ _ Hcs).
Qed.
Lemma node_holds_stable nodes nodes' n s v : inv nodes -> nodes ⊆ nodes' -> wf_node nodes n ->
  node_holds nodes' n s v <-> node_holds nodes n s v.
Proof.
  intros Hinv Hsub Hwf. split; [|by apply node_holds_mono].
  destruct n as [|k x|p c|cs b]; simpl in *; auto.
  - intros (t & -> & Hc). exists t. split; [done|]. destruct Hwf as (_ & _ & (? & ? & ?) & _).
    apply (holds_stable nodes nodes'); eauto.
  - destruct s; [done|]. intros (? & c & Hcs & Hc). split; [done|]. exists c. split; [done|].
    destruct Hwf as (_ & Hwf & _). destruct (Hwf _ _ Hcs). by apply (holds_stable nodes nodes').
Qed.

Lemma holds_functional nodes h s v v' :
  holds nodes h s v -> holds nodes h s v' -> v = v'.
Proof.
  intros Hs. revert v'. induction Hs as [h k x Hn|h p c s x Hn Hc IH|h cs x Hn|h cs b i c s x Hn Hi Hcs Hc IH];
    intros v' Hv; apply (holds_at _ _ _ _ _ Hn) in Hv; simpl in Hv.
  - naive_solver.
  - destruct Hv as (t & ?%app_inv_head & ?). subst. auto.
  - naive_solver.
  - destruct Hv as (_ & c' & ? & ?). simplify_eq. auto.
Qed.

(** ** Lookup *)

(** One step into a branch *)
Lemma drop_nibble (nibbles : list Z) depth : (depth < length nibbles)%nat ->
  Forall is_nibble nibbles ->
  exists i, nibbles !! depth = Some i /\ is_nibble i /\
    drop depth nibbles = i :: drop (depth + 1) nibbles.
Proof.
  intros Hd Hn. destruct (lookup_lt_is_Some_2 _ _ Hd) as [i Hi]. exists i. split; [done|].
  split; [by eapply Forall_lookup_1|]. rewrite (drop_S _ i) by done. by rewrite Nat.add_1_r.
Qed.
Lemma child_slot (cs : list (option Hash)) i : length cs = 16%nat -> is_nibble i ->
  exists o, cs !! Z.to_nat i = Some o.
Proof. intros Hl [? ?]. apply lookup_lt_is_Some_2. lia. Qed.

Lemma get_recursive_spec fuel nodes h nibbles depth : inv nodes -> is_Some (nodes !! h) ->
  Forall is_nibble nibbles -> (depth <= length nibbles)%nat -> (length nibbles - depth < fuel)%nat ->
  exists o, get_recursive fuel nodes h nibbles depth = Ok o /\
    forall v, o = Some v <-> holds nodes h (drop depth nibbles) v.
Proof.
  intros Hinv. revert h depth. induction fuel as [|fuel IH]; intros h depth [n Hn] Hnib Hd Hf; [lia|].
  cbn [get_recursive]. rewrite Hn. setoid_rewrite (holds_at _ _ _ _ _ Hn).
  assert (Hwf : n = Empty \/ wf_node nodes n).
  { destruct Hinv as [Hz Hinv], (decide (h = HASH_ZERO)) as [->|?]; [left; congruence|].
    right. by destruct (Hinv h n). }
  destruct n as [|k x|p c|cs b].
  - by exists None.
  - rewrite slice_from_ok by done. cbn [mbind outcome_bind]. eexists. split; [done|].
    intros v. simpl. case_bool_decide; naive_solver.
  - rewrite slice_from_ok by done. cbn [mbind outcome_bind].
    destruct Hwf as [|(Hp & _ & (cs & b & Hc) & _)]; [done|].
    destruct (starts_with _ p) eqn:Hs.
    + apply starts_with_spec in Hs as [rest Hs].
      assert (0 < length p)%nat by (destruct p; [done|simpl; lia]).
      assert (Hl := f_equal length Hs). rewrite length_drop, length_app in Hl.
      destruct (IH c (depth + length p)%nat) as (o & -> & Ho); [by eexists|done|lia|lia|].
      exists o. split; [done|]. intros v. rewrite Ho. simpl.
      rewrite <- drop_drop, Hs, drop_app_length. split; [by eauto|].
      intros (t & ?%app_inv_head & ?). by subst.
    + exists None. split; [done|]. intros v. split; [done|]. intros (t & Ht & _).
      enough (starts_with (drop depth nibbles) p = true) by congruence.
      apply starts_with_spec. by eexists.
  - destruct Hwf as [|(Hl & Hcs & _)]; [done|]. case Nat.leb_spec; intros Hlt.
    + exists b. split; [done|]. intros v. by rewrite drop_ge.
    + destruct (drop_nibble nibbles depth) as (i & Hi & Hin & ->); [done..|].
      destruct (child_slot cs i) as [o Ho]; [done..|].
      rewrite (index_at_ok _ _ _ Hi). cbn [mbind outcome_bind]. rewrite (index_at_ok _ _ _ Ho).
      cbn [mbind outcome_bind]. destruct o as [c|].
      * destruct (IH c (depth + 1)%nat) as (o' & -> & Hv); [by apply (Hcs _ _ Ho)|done|lia|lia|].
        exists o'. split; [done|]. intros v. rewrite Hv. simpl. split.
        -- intros. split; [apply Hin|]. by eauto.
        -- intros (_ & c' & ? & ?). by simplify_eq.
      * exists None. split; [done|]. intros v. simpl. split; [done|].
        intros (_ & c' & ? & _). simplify_eq.
Qed.

(** ** Building nodes *)

(** The keys [P] with [s] now mapped to [v] *)
Definition update (P : list Z -> list Z -> Prop) (s v s' v' : list Z) : Prop :=
  (s' = s /\ v' = v) \/ (s' <> s /\ P s' v').

(** A table and a node that is about to be stored in it *)
Record built (nodes nodes' : Nodes) (n : TrieNode) (Q : list Z -> list Z -> Prop) : Prop := {
  built_inv : inv nodes';
  built_sub : nodes ⊆ nodes';
  built_wf : wf_node nodes' n;
  built_holds : forall s v, node_holds nodes' n s v <-> Q s v
}.

Lemma built_weaken nodes0 nodes nodes' n Q Q' : nodes0 ⊆ nodes ->
  (forall s v, Q s v <-> Q' s v) -> built nodes nodes' n Q -> built nodes0 nodes' n Q'.
Proof.
  intros Hsub HQ [? ? ? Hh]. split; [done|by etrans|done|]. intros s v. by rewrite Hh.
Qed.

(** What [common_len] counts *)
Lemma common_len_spec a b : exists p a' b', a = (p ++ a')%list /\ b = (p ++ b')%list /\
  common_len a b = length p /\
  match a', b' with i :: _, j :: _ => i <> j | _, _ => True end.
Proof.
  revert b. induction a as [|x a IH]; intros b; [by exists [], [], b|].
  destruct b as [|y b]; [by exists [], (x :: a), []|]. simpl. case Z.eqb_spec.
  - intros <-. destruct (IH b) as (p & a' & b' & -> & -> & -> & ?). by exists (x :: p), a', b'.
  - intros. by exists [], (x :: a), (y :: b).
Qed.

Definition children1 (i : Z) (h : Hash) : list (option Hash) :=
  <[Z.to_nat i := Some h]> no_children.
Definition children2 (i j : Z) (h1 h2 : Hash) : list (option Hash) :=
  <[Z.to_nat j := Some h2]> (children1 i h1).

Lemma nibble_inj i j : is_nibble i -> 0 <= j -> Z.to_nat j = Z.to_nat i -> j = i.
Proof. intros []. lia. Qed.
Lemma children1_lookup i h k c : is_nibble i ->
  children1 i h !! k = Some (Some c) <-> k = Z.to_nat i /\ c = h.
Proof.
  intros []. unfold children1, no_children. rewrite list_lookup_insert_Some.
  rewrite length_replicate, lookup_replicate. naive_solver lia.
Qed.
Lemma children2_lookup i j h1 h2 k c : is_nibble i -> is_nibble j -> i <> j ->
  children2 i j h1 h2 !! k = Some (Some c) <->
  (k = Z.to_nat i /\ c = h1) \/ (k = Z.to_nat j /\ c = h2).
Proof.
  intros Hi [] Hne. unfold children2. rewrite list_lookup_insert_Some, children1_lookup by done.
  assert (Z.to_nat i <> Z.to_nat j) by (destruct Hi; lia).
  assert (Z.to_nat j < length (children1 i h1))%nat
    by (unfold children1; rewrite length_insert; unfold no_children; rewrite length_replicate; lia).
  naive_solver.
Qed.

Lemma children1_holds nodes i h b s v : is_nibble i ->
  node_holds nodes (Branch (children1 i h) b) s v <->
  (s = [] /\ b = Some v) \/ exists t, s = i :: t /\ holds nodes h t v.
Proof.
  intros Hi. destruct s as [|k t]; simpl; [naive_solver|]. setoid_rewrite children1_lookup; [|done].
  split.
  - intros (? & c & [? ->] & ?). right. exists t. split; [|done]. f_equal. by apply nibble_inj.
  - intros [[? _]|(t' & ? & ?)]; [done|]. simplify_eq. destruct Hi. by eauto.
Qed.
Lemma children2_holds nodes i j h1 h2 b s v : is_nibble i -> is_nibble j -> i <> j ->
  node_holds nodes (Branch (children2 i j h1 h2) b) s v <->
  (s = [] /\ b = Some v) \/ (exists t, s = i :: t /\ holds nodes h1 t v) \/
  (exists t, s = j :: t /\ holds nodes h2 t v).
Proof.
  intros Hi Hj Hne. destruct s as [|k t]; simpl; [naive_solver|].
  setoid_rewrite children2_lookup; [|done..]. split.
  - intros (? & c & [[? ->]|[? ->]] & ?); right; [left|right]; exists t;
      (split; [|done]); f_equal; by apply nibble_inj.
  - intros [[? _]|[(t' & ? & ?)|(t' & ? & ?)]]; [done|simplify_eq..].
    + split; [apply Hi|]. exists h1. split; [by left|done].
    + split; [apply Hj|]. exists h2. split; [by right|done].
Qed.

(** A stored, non-empty subtree *)
Definition planted (nodes : Nodes) (h : Hash) : Prop :=
  is_Some (nodes !! h) /\ h <> HASH_ZERO /\ exists s v, holds nodes h s v.

Lemma children1_wf nodes i h v : is_nibble i -> planted nodes h ->
  wf_node nodes (Branch (children1 i h) (Some v)).
Proof.
  intros Hi (? & ? & s & x & Hs). split_and!.
  - unfold children1. by rewrite length_insert.
  - intros k c [-> ->]%children1_lookup; done.
  - intros _. exists [], v, (i :: s), x. split_and!; [done| |done].
    apply children1_holds; [done|]. by eauto.
Qed.
Lemma children2_wf nodes i j h1 h2 b : is_nibble i -> is_nibble j -> i <> j ->
  planted nodes h1 -> planted nodes h2 -> wf_node nodes (Branch (children2 i j h1 h2) b).
Proof.
  intros Hi Hj Hne (? & ? & s1 & x1 & Hs1) (? & ? & s2 & x2 & Hs2). split_and!.
  - unfold children2, children1. by rewrite !length_insert.
  - intros k c [[-> ->]|[-> ->]]%children2_lookup; done.
  - intros _. exists (i :: s1), x1, (j :: s2), x2.
    split_and!; [apply children2_holds; by eauto 10..|simpl; congruence].
Qed.
Lemma added_leaf_planted nodes k v nodes' :
  added nodes (Leaf k v) nodes' -> planted nodes' (hash (Leaf k v)).
Proof.
  intros [_ _ Hat ?]. split_and!; [by eexists|done|]. exists k, v. by constructor.
Qed.
Lemma added_holds nodes n nodes' s v : added nodes n nodes' ->
  holds nodes' (hash n) s v <-> node_holds nodes' n s v.
Proof. intros [_ _ Hat _]. by apply holds_at. Qed.
Lemma planted_mono nodes nodes' h : nodes ⊆ nodes' -> planted nodes h -> planted nodes' h.
Proof.
  intros Hsub ([n Hn] & ? & s & v & Hs). split_and!; [|done|by eauto using holds_mono].
  exists n. by eapply lookup_weaken.
Qed.

(** An extension over the branch, when the prefix is not empty *)
Lemma wrap_built nodes nodes1 p cs b Q : built nodes nodes1 (Branch cs b) Q ->
  Forall is_nibble p -> (exists s v, Q s v) ->
  node_clash \/ exists nodes' n, wrap p (Branch cs b) nodes1 = (nodes', Ok n) /\
    built nodes nodes' n (fun s v => exists t, s = (p ++ t)%list /\ Q t v).
Proof.
  intros [Hinv Hsub Hwf Hh] Hp (s0 & v0 & HQ). unfold wrap. case Nat.ltb_spec; intros Hl.
  - destruct (add_node_added nodes1 (Branch cs b)) as [?|Hadd]; [done..|by left|]. right.
    eexists _, _. split; [reflexivity|].
    assert (Heq : forall s v, holds (<[hash (Branch cs b):=Branch cs b]> nodes1)
              (hash (Branch cs b)) s v <-> Q s v).
    { intros s v. rewrite (added_holds _ _ _ _ _ Hadd), <- Hh.
      by apply node_holds_stable; [|apply Hadd|]. }
    split; [apply Hadd|etrans; [done|apply Hadd]| |].
    + split_and!; [by destruct p; [simpl in Hl; lia|]|done|by eexists _, _; apply (added_at _ _ _ Hadd)|].
      exists s0, v0. exact (proj2 (Heq _ _) HQ).
    + intros s v. cbn [node_holds]. by setoid_rewrite Heq.
  - right. exists nodes1, (Branch cs b). split; [done|]. split; [done..|].
    intros s v. destruct p; [|simpl in *; lia]. rewrite Hh. simpl. naive_solver.
Qed.

(** ** Splitting a leaf *)
Definition diverge (a b : list Z) : Prop :=
  match a, b with i :: _, j :: _ => i <> j | _, _ => True end.

Lemma common_len_app p a b : diverge a b -> common_len (p ++ a) (p ++ b) = length p.
Proof.
  intros Hd. induction p as [|x p IH]; simpl.
  - destruct a as [|i a], b as [|j b]; [done..|]. simpl in *. by case Z.eqb_spec.
  - by rewrite Z.eqb_refl, IH.
Qed.

Lemma plant_leaf_run nodes p i t v cs : is_nibble i -> length cs = 16%nat ->
  plant_leaf (p ++ i :: t) v (length p) cs nodes =
  (<[hash (Leaf t v) := Leaf t v]> nodes, Ok (<[Z.to_nat i := Some (hash (Leaf t v))]> cs)).
Proof.
  intros [] Hl. unfold plant_leaf.
  assert (E1 : @slice_from StateError _ (p ++ i :: t) (length p + 1) = Ok t).
  { rewrite slice_from_ok by (rewrite length_app; simpl; lia).
    by rewrite <- drop_drop, drop_app_length. }
  assert (E2 : @index_at StateError _ (p ++ i :: t) (length p) = Ok i).
  { apply index_at_ok. by rewrite list_lookup_middle. }
  rewrite E1, E2. unfold mbind, M_bind, lift, add_node. rewrite assign_at_ok by lia. done.
Qed.

(** The optional leaves of [split_leaf] *)
Definition plant_if (key value : list Z) (common : nat) (children : list (option Hash))
    : M Nodes StateError (list (option Hash)) :=
  if (common <? length key)%nat then plant_leaf key value common children else mret children.
Lemma plant_if_end nodes p v cs : plant_if (p ++ []) v (length p) cs nodes = (nodes, Ok cs).
Proof. unfold plant_if. rewrite app_nil_r, Nat.ltb_irrefl. done. Qed.
Lemma plant_if_run nodes p i t v cs : is_nibble i -> length cs = 16%nat ->
  plant_if (p ++ i :: t) v (length p) cs nodes =
  (<[hash (Leaf t v) := Leaf t v]> nodes, Ok (<[Z.to_nat i := Some (hash (Leaf t v))]> cs)).
Proof.
  intros. unfold plant_if. rewrite (proj2 (Nat.ltb_lt _ _)); [by apply plant_leaf_run|].
  rewrite length_app. simpl. lia.
Qed.

Lemma plant_if_first nodes p i t v : is_nibble i ->
  plant_if (p ++ i :: t) v (length p) no_children nodes =
  (<[hash (Leaf t v) := Leaf t v]> nodes, Ok (children1 i (hash (Leaf t v)))).
Proof. intros. by apply plant_if_run. Qed.
Lemma plant_if_second nodes p i h j t v : is_nibble j ->
  plant_if (p ++ j :: t) v (length p) (children1 i h) nodes =
  (<[hash (Leaf t v) := Leaf t v]> nodes, Ok (children2 i j h (hash (Leaf t v)))).
Proof. intros. apply plant_if_run; [done|]. unfold children1. by rewrite length_insert. Qed.

(** The branch where two keys part, before the extension above it *)
Lemma fork_built nodes k' ov r' v : inv nodes -> Forall is_nibble k' -> Forall is_nibble r' ->
  diverge k' r' -> (k' <> [] \/ r' <> []) ->
  forall p, node_clash \/ exists nodes1 nodes2 cs1 cs2,
    plant_if (p ++ k') ov (length p) no_children nodes = (nodes1, Ok cs1) /\
    plant_if (p ++ r') v (length p) cs1 nodes1 = (nodes2, Ok cs2) /\
    built nodes nodes2
      (Branch cs2 (if decide (r' = []) then Some v else if decide (k' = []) then Some ov else None))
      (update (fun s x => s = k' /\ x = ov) r' v).
Proof.
  intros Hinv Hk Hr Hd Hne p.
  destruct k' as [|i kt], r' as [|j rt]; [naive_solver|..].
  - inversion Hr as [|? ? Hj Hrt]; subst.
    destruct (add_node_added nodes (Leaf rt v)) as [?|Hadd]; [done..|by left|]. right.
    eexists _, _, _, _. rewrite plant_if_end. split; [done|].
    rewrite plant_if_first by done. split; [done|].
    repeat case_decide; try done.
    split; [apply Hadd..|apply children1_wf; [done|by eapply added_leaf_planted]|].
    intros s x. rewrite children1_holds by done. setoid_rewrite (added_holds _ _ _ _ _ Hadd).
    unfold update. simpl. destruct (decide (s = j :: rt)); naive_solver.
  - inversion Hk as [|? ? Hi Hkt]; subst.
    destruct (add_node_added nodes (Leaf kt ov)) as [?|Hadd]; [done..|by left|]. right.
    eexists _, _, _, _. rewrite plant_if_first by done. split; [done|].
    rewrite plant_if_end. split; [done|].
    repeat case_decide; try done.
    split; [apply Hadd..|apply children1_wf; [done|by eapply added_leaf_planted]|].
    intros s x. rewrite children1_holds by done. setoid_rewrite (added_holds _ _ _ _ _ Hadd).
    unfold update. simpl. destruct (decide (s = [])); naive_solver.
  - inversion Hk as [|? ? Hi Hkt]; inversion Hr as [|? ? Hj Hrt]; subst. simpl in Hd.
    destruct (add_node_added nodes (Leaf kt ov)) as [?|Hadd1]; [done..|by left|].
    destruct (add_node_added _ (Leaf rt v) (added_inv _ _ _ Hadd1)) as [?|Hadd2]; [done..|by left|].
    right. eexists _, _, _, _. rewrite plant_if_first by done. split; [done|].
    rewrite plant_if_second by done. split; [done|].
    assert (Hp := planted_mono _ _ _ (added_sub _ _ _ Hadd2) (added_leaf_planted _ _ _ _ Hadd1)).
    repeat case_decide; try done.
    split; [apply Hadd2|etrans; [apply Hadd1|apply Hadd2]| |].
    + apply (children2_wf _ i j); [done..|by eapply added_leaf_planted].
    + intros s x. rewrite (children2_holds _ i j) by done.
      setoid_rewrite (added_holds _ _ _ _ _ Hadd2).
      setoid_rewrite (holds_at _ _ _ _ _ (lookup_weaken _ _ _ _ (added_at _ _ _ Hadd1) (added_sub _ _ _ Hadd2))).
      unfold update. simpl. destruct (decide (s = j :: rt)); naive_solver.
Qed.

Lemma split_leaf_built nodes p k' ov r' v : inv nodes ->
  Forall is_nibble (p ++ k') -> Forall is_nibble (p ++ r') -> diverge k' r' ->
  (k' <> [] \/ r' <> []) ->
  node_clash \/ exists nodes' n, split_leaf (p ++ k') ov (p ++ r') v nodes = (nodes', Ok n) /\
    built nodes nodes' n (update (fun s x => s = p ++ k' /\ x = ov)%list (p ++ r')%list v).
Proof.
  intros Hinv [Hp Hk]%Forall_app [_ Hr]%Forall_app Hd Hne.
  destruct (fork_built nodes k' ov r' v Hinv Hk Hr Hd Hne p)
    as [?|(nodes1 & nodes2 & cs1 & cs2 & E1 & E2 & Hb)]; [by left|].
  destruct (wrap_built _ _ p _ _ _ Hb Hp) as [?|(nodes' & n & E3 & Hb')];
    [exists r', v; by left|by left|].
  right. exists nodes', n. split.
  - unfold split_leaf. rewrite common_len_app by done.
    rewrite (M_bind_ok _ _ _ _ _ E1), (M_bind_ok _ _ _ _ _ E2), take_app_length, <- E3.
    do 2 f_equal. rewrite !length_app. destruct r', k'; simpl; repeat case_decide; try done; lia.
  - refine (built_weaken _ _ _ _ _ _ (reflexivity _) _ Hb'). intros s x. unfold update. split.
    + intros (t & -> & [[-> ->]|[Hnt [-> ->]]]); [by left|]. right. split; [|done].
      by intros ?%app_inv_head.
    + intros [[-> ->]|[Hnt [-> ->]]]; eexists; (split; [done|]); [by left|].
      right. split; [|done]. by intros ->.
Qed.

(** ** Splitting an extension *)

(** The part of [split_extension] that hangs the old child *)
Definition hang_child (prefix : list Z) (child : Hash) (common : nat)
    : M Nodes StateError (list (option Hash)) :=
  if (common + 1 <? length prefix)%nat then
    tail ← lift (slice_from prefix (common + 1));
    ext_hash ← add_node (Extension tail child);
    idx ← lift (index_at prefix common);
    lift (assign_at no_children (Z.to_nat idx) (Some ext_hash))
  else
    idx ← lift (index_at prefix common);
    lift (assign_at no_children (Z.to_nat idx) (Some child)).

Lemma stored_nonzero nodes c cs b : inv nodes -> nodes !! c = Some (Branch cs b) -> c <> HASH_ZERO.
Proof. intros [Hz _] Hc ->. congruence. Qed.

Lemma hang_child_run nodes p i pt c : inv nodes -> wf_node nodes (Extension (p ++ i :: pt) c) ->
  node_clash \/ exists nodes1 h1,
    hang_child (p ++ i :: pt) c (length p) nodes = (nodes1, Ok (children1 i h1)) /\
    inv nodes1 /\ nodes ⊆ nodes1 /\ planted nodes1 h1 /\
    forall t x, holds nodes1 h1 t x <-> exists u, t = (pt ++ u)%list /\ holds nodes c u x.
Proof.
  intros Hinv (_ & [Hp [Hi Hpt]%Forall_cons]%Forall_app & (cs & b & Hc) & s & x & Hs).
  assert (E2 : @index_at StateError _ (p ++ i :: pt) (length p) = Ok i)
    by (apply index_at_ok; by rewrite list_lookup_middle).
  assert (Ha : forall h, @assign_at StateError _ no_children (Z.to_nat i) (Some h) = Ok (children1 i h)).
  { intros h. apply assign_at_ok. unfold no_children. rewrite length_replicate. destruct Hi. lia. }
  unfold hang_child. rewrite length_app. cbn [length].
  destruct pt as [|j pt].
  - right. exists nodes, c. rewrite (proj2 (Nat.ltb_ge _ _)) by (simpl; lia).
    rewrite E2. unfold mbind, M_bind, lift. rewrite Ha. split; [done|]. split; [done|].
    split; [done|]. split; [|intros; simpl; naive_solver].
    split_and!; [by eexists|by eapply stored_nonzero|by eauto].
  - destruct (add_node_added nodes (Extension (j :: pt) c)) as [?|Hadd];
      [done|split_and!; [done..|by eauto|by eauto]|by left|].
    right. exists (<[hash (Extension (j :: pt) c) := Extension (j :: pt) c]> nodes), (hash (Extension (j :: pt) c)).
    rewrite (proj2 (Nat.ltb_lt _ _)) by (simpl; lia).
    rewrite E2, slice_from_ok by (rewrite length_app; simpl; lia).
    rewrite <- drop_drop, drop_app_length. unfold mbind, M_bind, lift, add_node. cbn [drop]. rewrite Ha.
    split; [done|]. split; [apply Hadd|]. split; [apply Hadd|].
    assert (Heq : forall t y, holds (<[hash (Extension (j :: pt) c) := Extension (j :: pt) c]> nodes)
        (hash (Extension (j :: pt) c)) t y <-> exists u, t = ((j :: pt) ++ u)%list /\ holds nodes c u y).
    { intros t y. rewrite (added_holds _ _ _ _ _ Hadd). cbn [node_holds].
      split; intros (u & -> & Hu); exists u; (split; [done|]).
      - apply (holds_stable nodes _ c u y Hinv (added_sub _ _ _ Hadd)) in Hu; [done|by eexists].
      - eapply holds_mono; [apply Hadd|done]. }
    split; [|done]. split; [by rewrite (added_at _ _ _ Hadd)|]. split; [apply Hadd|].
    exists ((j :: pt) ++ s)%list, x. apply Heq. by eauto.
Qed.

Lemma split_extension_panics nodes p i pt c v : inv nodes ->
  wf_node nodes (Extension (p ++ i :: pt) c) ->
  node_clash \/ exists nodes', split_extension (p ++ i :: pt) c p v nodes = (nodes', Panic).
Proof.
  intros Hinv Hwf. destruct (hang_child_run _ p i pt c Hinv Hwf) as [?|(nodes1 & h1 & E & _)]; [by left|].
  right. exists nodes1. pose proof (common_len_app p (i :: pt) [] I) as Ec. rewrite app_nil_r in Ec.
  unfold split_extension. rewrite Ec, (M_bind_ok _ _ _ _ _ E). unfold plant_leaf, slice_from.
  rewrite decide_False by lia. done.
Qed.

Lemma split_extension_built nodes p i pt c j rt v : inv nodes ->
  wf_node nodes (Extension (p ++ i :: pt) c) -> Forall is_nibble (p ++ j :: rt) -> i <> j ->
  node_clash \/ exists nodes' n,
    split_extension (p ++ i :: pt) c (p ++ j :: rt) v nodes = (nodes', Ok n) /\
    built nodes nodes' n
      (update (node_holds nodes (Extension (p ++ i :: pt) c)) (p ++ j :: rt)%list v).
Proof.
  intros Hinv Hwf Hr Hne.
  destruct (hang_child_run _ p i pt c Hinv Hwf) as [?|(nodes1 & h1 & E1 & Hinv1 & Hs1 & Hp1 & Hh1)]; [by left|].
  destruct Hwf as (_ & [Hp [Hi Hpt]%Forall_cons]%Forall_app & _).
  apply Forall_app in Hr as [_ [Hj Hrt]%Forall_cons].
  destruct (add_node_added nodes1 (Leaf rt v)) as [?|Hadd]; [done..|by left|].
  assert (E2 : plant_leaf (p ++ j :: rt) v (length p) (children1 i h1) nodes1 =
    (<[hash (Leaf rt v) := Leaf rt v]> nodes1, Ok (children2 i j h1 (hash (Leaf rt v))))).
  { apply plant_leaf_run; [done|]. unfold children1. by rewrite length_insert. }
  assert (Hb : built nodes (<[hash (Leaf rt v) := Leaf rt v]> nodes1)
     (Branch (children2 i j h1 (hash (Leaf rt v))) None)
     (update (node_holds nodes (Extension (i :: pt) c)) (j :: rt) v)).
  { split; [apply Hadd|etrans; [done|apply Hadd]| |].
    - apply children2_wf; [done..|by eapply planted_mono; [apply Hadd|]|by eapply added_leaf_planted].
    - intros s x. rewrite children2_holds by done. setoid_rewrite (added_holds _ _ _ _ _ Hadd).
      assert (Heq : forall t, holds (<[hash (Leaf rt v) := Leaf rt v]> nodes1) h1 t x <->
                exists u, t = (pt ++ u)%list /\ holds nodes c u x).
      { intros t. rewrite <- Hh1. apply holds_stable; [done|apply Hadd|apply Hp1]. }
      setoid_rewrite Heq. unfold update. simpl. split.
      + intros [[? ?]|[(t & -> & u & -> & ?)|(t & -> & -> & ->)]]; [done| |by left].
        right. split; [congruence|by eauto].
      + intros [[-> ->]|[? (u & -> & ?)]]; [right; right; by eauto|right; left; by eauto 6]. }
  destruct (wrap_built _ _ p _ _ _ Hb Hp) as [?|(nodes' & n & E3 & Hb')];
    [exists (j :: rt), v; by left|by left|].
  right. exists nodes', n. split.
  - unfold split_extension. rewrite common_len_app by done.
    rewrite (M_bind_ok _ _ _ _ _ E1), (M_bind_ok _ _ _ _ _ E2), take_app_length. done.
  - refine (built_weaken _ _ _ _ _ _ (reflexivity _) _ Hb'). intros s x. unfold update. simpl. split.
    + intros (t & -> & [[-> ->]|[Hnt (u & -> & ?)]]); [by left|]. right.
      split; [by intros ?%app_inv_head|]. exists u. split; [|done]. by rewrite <- (assoc_L app).
    + intros [[-> ->]|[Hnt (u & -> & ?)]]; [eexists; split; [done|]; by left|].
      rewrite <- app_assoc in *. eexists; split; [done|]. right. split; [|by eexists].
      intros E. apply Hnt. by rewrite <- E.
Qed.

(** ** Insertion *)

(** The node that [insert_recursive] stores last *)
Definition insert_node (fuel : nat) (node : TrieNode) (nibbles : list Z) (depth : nat)
    (value : list Z) : M Nodes StateError TrieNode :=
  match node with
  | Empty =>
      key_end ← lift (slice_from nibbles depth);
      mret (Leaf key_end value)
  | Leaf key_end old_value =>
      remaining ← lift (slice_from nibbles depth);
      let common := common_len key_end remaining in
      if decide (common = length key_end /\ common = length remaining)
      then mret (Leaf key_end value)
      else split_leaf key_end old_value remaining value
  | Extension prefix child =>
      remaining ← lift (slice_from nibbles depth);
      let common := common_len prefix remaining in
      if decide (common = length prefix) then
        new_child ← insert_recursive fuel child nibbles (depth + common) value;
        mret (Extension prefix new_child)
      else split_extension prefix child remaining value
  | Branch children branch_value =>
      remaining ← lift (slice_from nibbles depth);
      match remaining with
      | [] => mret (Branch children (Some value))
      | idx :: _ =>
          child ← lift (index_at children (Z.to_nat idx));
          let child_hash := default HASH_ZERO child in
          new_child ← insert_recursive fuel child_hash nibbles (depth + 1) value;
          children ← lift (assign_at children (Z.to_nat idx) (Some new_child));
          mret (Branch children branch_value)
      end
  end.
Lemma insert_recursive_step fuel h nibbles depth v nodes :
  insert_recursive (S fuel) h nibbles depth v nodes =
  mbind add_node (insert_node fuel (default Empty (nodes !! h)) nibbles depth v) nodes.
Proof. done. Qed.

Definition is_branch (n : TrieNode) : Prop := exists cs b, n = Branch cs b.

Record inserted (nodes : Nodes) (h : Hash) (s v : list Z) (nodes' : Nodes) (h' : Hash) : Prop := {
  ins_inv : inv nodes';
  ins_sub : nodes ⊆ nodes';
  ins_at : is_Some (nodes' !! h');
  ins_nonzero : h' <> HASH_ZERO;
  ins_branch : (exists n, nodes !! h = Some n /\ is_branch n) ->
    exists n, nodes' !! h' = Some n /\ is_branch n;
  ins_holds : forall s' v', holds nodes' h' s' v' <-> update (holds nodes h) s v s' v'
}.

(** How one call ends: a clash, the updated subtree, or the panic of a key
    that a held key extends. *)
Definition node_outcome (nodes : Nodes) (n : TrieNode) (s v : list Z)
    (run : Nodes * outcome StateError TrieNode) : Prop :=
  node_clash \/
  (exists nodes' n', run = (nodes', Ok n') /\
     built nodes nodes' n' (update (node_holds nodes n) s v) /\ (is_branch n -> is_branch n')) \/
  (exists nodes', run = (nodes', Panic) /\ exists t x, t <> [] /\ node_holds nodes n (s ++ t) x).
Definition hash_outcome (nodes : Nodes) (h : Hash) (s v : list Z)
    (run : Nodes * outcome StateError Hash) : Prop :=
  node_clash \/
  (exists nodes' h', run = (nodes', Ok h') /\ inserted nodes h s v nodes' h') \/
  (exists nodes', run = (nodes', Panic) /\ exists t x, t <> [] /\ holds nodes h (s ++ t) x).

Lemma store_outcome nodes h n s v (m : M Nodes StateError TrieNode) : nodes !! h = Some n ->
  node_outcome nodes n s v (m nodes) -> hash_outcome nodes h s v (mbind add_node m nodes).
Proof.
  intros Hn [?|[(nodes1 & n' & E & [Hi Hsub Hwf Hh] & Hbr)|(nodes1 & E & t & x & Ht & Hx)]].
  - by left.
  - destruct (add_node_added nodes1 n' Hi Hwf) as [?|Hadd]; [by left|].
    right; left. exists (<[hash n' := n']> nodes1), (hash n').
    split; [by rewrite (M_bind_ok _ _ _ _ _ E)|]. split.
    + apply Hadd.
    + etrans; [done|apply Hadd].
    + by rewrite (added_at _ _ _ Hadd).
    + apply Hadd.
    + intros (n0 & ? & ?). simplify_eq. exists n'. split; [apply Hadd|auto].
    + intros s' v'. rewrite (added_holds _ _ _ _ _ Hadd).
      rewrite (node_holds_stable nodes1), Hh by (done || apply Hadd).
      unfold update. by rewrite (holds_at _ _ _ _ _ Hn).
  - right; right. exists nodes1. split; [by rewrite (M_bind_panic _ _ _ _ E)|].
    exists t, x. split; [done|]. by apply (holds_at _ _ _ _ _ Hn).
Qed.

(** A branch whose keys were updated still has two heads. *)
Lemma update_heads nodes nodes' cs b n' s v : wf_node nodes (Branch cs b) ->
  (forall s' v', node_holds nodes' n' s' v' <-> update (node_holds nodes (Branch cs b)) s v s' v') ->
  strict = true -> exists s1 v1 s2 v2, node_holds nodes' n' s1 v1 /\
    node_holds nodes' n' s2 v2 /\ head s1 <> head s2.
Proof.
  intros (_ & _ & Hst) Hh E. destruct (Hst E) as (s1 & v1 & s2 & v2 & H1 & H2 & Hne).
  assert (Hkeep : forall t x, node_holds nodes (Branch cs b) t x -> exists y, node_holds nodes' n' t y).
  { intros t x Ht. destruct (decide (t = s)) as [->|?].
    - exists v. apply Hh. by left.
    - exists x. apply Hh. by right. }
  destruct (Hkeep _ _ H1) as [y1 ?], (Hkeep _ _ H2) as [y2 ?]. by exists s1, y1, s2, y2.
Qed.

Lemma insert_leaf_outcome fuel nodes k ov nibbles depth v : inv nodes -> Forall is_nibble k ->
  Forall is_nibble nibbles -> (depth <= length nibbles)%nat ->
  node_outcome nodes (Leaf k ov) (drop depth nibbles) v
    (insert_node fuel (Leaf k ov) nibbles depth v nodes).
Proof.
  intros Hinv Hk Hnib Hd. cbn [insert_node].
  rewrite slice_from_ok by done. rewrite (lift_bind_ok _ _ _ _ eq_refl).
  assert (Hr : Forall is_nibble (drop depth nibbles)) by by apply Forall_drop.
  destruct (common_len_spec k (drop depth nibbles)) as (p & k' & r' & -> & Hr' & Hc & Hdiv).
  rewrite Hr', Hc in *. rewrite !length_app. case_decide as Hcase.
  - assert (k' = []) as -> by (destruct k'; [done|simpl in *; lia]).
    assert (r' = []) as -> by (destruct r'; [done|simpl in *; lia]).
    right; left. eexists _, _. split; [done|]. split; [split; [done..|]|by intros (? & ? & ?)].
    intros s x. unfold update. simpl. destruct (decide (s = p ++ [])%list); naive_solver.
  - destruct (split_leaf_built nodes p k' ov r' v) as [?|(nodes' & n & E & Hb)]; [done..| |by left|].
    + destruct k' as [|], r' as [|]; [|auto..]. simpl in Hcase. lia.
    + right; left. exists nodes', n. split; [done|]. split; [done|]. by intros (? & ? & ?).
Qed.

(** The recursive call that a node's case relies on *)
Definition recursion_ok (fuel : nat) (nodes : Nodes) (nibbles v : list Z) : Prop :=
  forall h depth, is_Some (nodes !! h) -> (depth <= length nibbles)%nat ->
  (length nibbles - depth < fuel)%nat ->
  hash_outcome nodes h (drop depth nibbles) v (insert_recursive fuel h nibbles depth v nodes).

Lemma extend_outcome fuel nodes p c r nibbles depth v : inv nodes -> wf_node nodes (Extension p c) ->
  (depth <= length nibbles)%nat -> (length nibbles - depth < S fuel)%nat ->
  recursion_ok fuel nodes nibbles v -> drop depth nibbles = (p ++ r)%list ->
  node_outcome nodes (Extension p c) (p ++ r) v
    ((new_child ← insert_recursive fuel c nibbles (depth + length p) v;
      mret (Extension p new_child)) nodes).
Proof.
  intros Hinv (Hp & Hpn & (cs & b & Hc) & s0 & x0 & Hs0) Hd Hf IH Hs.
  assert (0 < length p)%nat by (destruct p; [done|simpl; lia]).
  assert (Hl := f_equal length Hs). rewrite length_drop, length_app in Hl.
  assert (Hr : drop (depth + length p) nibbles = r) by (by rewrite <- drop_drop, Hs, drop_app_length).
  destruct (IH c (depth + length p)%nat) as [?|[(nodes' & h' & E & [Hi Hsub Hat Hnz Hbr Hh])
    |(nodes' & E & t & x & Ht & Hx)]]; [by eexists|lia|lia|by left|right; left|right; right].
  - rewrite Hr in Hh. eexists _, _. split; [by rewrite (M_bind_ok _ _ _ _ _ E)|].
    split; [|by intros (? & ? & ?)]. split; [done|done| |].
    + split_and!; [done..| |exists r, v; apply Hh; by left].
      destruct Hbr as (? & ? & (cs' & b' & ->)); [|by eauto]. eexists. split; [done|by eexists _, _].
    + intros s x. cbn [node_holds]. setoid_rewrite Hh. unfold update. cbn [node_holds]. split.
      * intros (t & -> & [[-> ->]|[? ?]]); [by left|]. right. split; [by intros ?%app_inv_head|by eauto].
      * intros [[-> ->]|[Hne (t & -> & ?)]]; [by eauto|]. exists t. split; [done|]. right.
        split; [congruence|done].
  - rewrite Hr in Hx. exists nodes'. split; [by rewrite (M_bind_panic _ _ _ _ E)|].
    exists t, x. split; [done|]. cbn [node_holds]. exists (r ++ t)%list. by rewrite (assoc_L app).
Qed.

Lemma insert_extension_outcome fuel nodes p c nibbles depth v : inv nodes ->
  wf_node nodes (Extension p c) -> Forall is_nibble nibbles -> (depth <= length nibbles)%nat ->
  (length nibbles - depth < S fuel)%nat -> recursion_ok fuel nodes nibbles v ->
  node_outcome nodes (Extension p c) (drop depth nibbles) v
    (insert_node fuel (Extension p c) nibbles depth v nodes).
Proof.
  intros Hinv Hwf Hnib Hd Hf IH. cbn [insert_node].
  rewrite slice_from_ok by done. rewrite (lift_bind_ok _ _ _ _ eq_refl).
  destruct (common_len_spec p (drop depth nibbles)) as (q & p' & r' & -> & Hr' & Hc & Hdiv).
  assert (Hr : Forall is_nibble (q ++ r')) by (rewrite <- Hr'; by apply Forall_drop).
  rewrite Hc, length_app. case_decide as Hcase.
  - assert (p' = []) as -> by (destruct p'; [done|simpl in *; lia]).
    rewrite app_nil_r in *. rewrite Hr'. by apply extend_outcome.
  - destruct p' as [|i pt]; [simpl in Hcase; lia|]. rewrite Hr'. destruct r' as [|j rt].
    + rewrite app_nil_r. destruct (split_extension_panics nodes q i pt c v Hinv Hwf) as [?|[nodes' E]]; [by left|].
      right; right. exists nodes'. split; [done|].
      destruct Hwf as (_ & _ & _ & s & x & Hs). exists ((i :: pt) ++ s)%list, x. split; [done|].
      cbn [node_holds]. exists s. by rewrite <- (assoc_L app).
    + destruct (split_extension_built nodes q i pt c j rt v) as [?|(nodes' & n & E & Hb)]; [done..|by left|].
      right; left. exists nodes', n. split; [done|]. split; [done|]. by intros (? & ? & ?).
Qed.

(** The keys below a slot, an empty one included *)
Lemma slot_holds nodes (cs : list (option Hash)) b i o t x : inv nodes -> 0 <= i ->
  cs !! Z.to_nat i = Some o ->
  node_holds nodes (Branch cs b) (i :: t) x <-> holds nodes (default HASH_ZERO o) t x.
Proof.
  intros [Hz _] Hi Ho. cbn [node_holds]. destruct o as [c|]; simpl.
  - split; [|by eauto]. intros (_ & c' & ? & ?). by simplify_eq.
  - rewrite (holds_at _ _ _ _ _ Hz). simpl. split; [|done]. intros (_ & c' & ? & _). simplify_eq.
Qed.

(** The keys of a branch one of whose slots was assigned *)
Lemma slot_assigned nodes nodes' cs b i o s x : inv nodes -> inv nodes' -> nodes ⊆ nodes' ->
  wf_node nodes (Branch cs b) -> is_nibble i ->
  node_holds nodes' (Branch (<[Z.to_nat i := o]> cs) b) s x <->
  (exists t, s = i :: t /\ holds nodes' (default HASH_ZERO o) t x) \/
  (head s <> Some i /\ node_holds nodes (Branch cs b) s x).
Proof.
  intros Hinv Hinv' Hsub Hwf Hi. destruct s as [|j s]; [simpl; naive_solver|].
  destruct (decide (j = i)) as [->|Hne].
  - assert (Z.to_nat i < length cs)%nat by (destruct Hwf as [-> _], Hi; lia).
    rewrite (slot_holds nodes' _ b i o) by (done || apply Hi || by apply list_lookup_insert_eq).
    simpl. naive_solver.
  - rewrite <- (node_holds_stable nodes nodes' (Branch cs b)) by done. simpl. split.
    + intros (? & c & Hc & ?). right. split; [congruence|]. split; [done|]. exists c.
      rewrite list_lookup_insert_ne in Hc; [done|]. intros E. by apply Hne, (nibble_inj i).
    + intros [(t & ? & _)|[_ (? & c & Hc & ?)]]; [congruence|]. split; [done|]. exists c.
      rewrite list_lookup_insert_ne; [done|]. intros E. by apply Hne, (nibble_inj i).
Qed.
Lemma slot_assigned_children (nodes nodes' : Nodes) (cs : list (option Hash)) i o : nodes ⊆ nodes' ->
  (forall k c, cs !! k = Some (Some c) -> is_Some (nodes !! c) /\ c <> HASH_ZERO) ->
  (forall c, o = Some c -> is_Some (nodes' !! c) /\ c <> HASH_ZERO) ->
  forall k c, <[i := o]> cs !! k = Some (Some c) -> is_Some (nodes' !! c) /\ c <> HASH_ZERO.
Proof.
  intros Hsub Hcs Ho k c. rewrite list_lookup_insert_Some. intros [(<- & ? & _)|[_ Hc]]; [by apply Ho|].
  destruct (Hcs k c Hc) as [[n Hn] ?]. split; [|done]. exists n. by eapply lookup_weaken.
Qed.

Lemma regrow_built nodes cs b i o t v nodes' h' : inv nodes -> wf_node nodes (Branch cs b) ->
  is_nibble i -> cs !! Z.to_nat i = Some o ->
  inserted nodes (default HASH_ZERO o) t v nodes' h' ->
  built nodes nodes' (Branch (<[Z.to_nat i := Some h']> cs) b)
    (update (node_holds nodes (Branch cs b)) (i :: t) v).
Proof.
  intros Hinv Hwf Hi Ho [Hi' Hsub Hat Hnz _ Hh].
  assert (Hslot := fun t x => slot_holds nodes cs b i o t x Hinv (proj1 Hi) Ho).
  assert (Heq : forall s x, node_holds nodes' (Branch (<[Z.to_nat i := Some h']> cs) b) s x <->
            update (node_holds nodes (Branch cs b)) (i :: t) v s x).
  { intros s x. rewrite (slot_assigned nodes) by done. simpl. setoid_rewrite Hh. unfold update. split.
    - intros [(u & -> & [[-> ->]|[? Hu]])|[? ?]]; [by left|right|right; by destruct s; naive_solver].
      split; [congruence|]. by apply Hslot.
    - intros [[-> ->]|[Hne Hs]]; [left; by eauto|]. destruct (decide (head s = Some i)) as [E|?]; [|by right].
      destruct s as [|j s]; simplify_eq/=. left. exists s. split; [done|]. right. split; [congruence|].
      by apply Hslot in Hs. }
  split; [done..| |done]. destruct Hwf as (Hl & Hcs & Hst). split_and!.
  - by rewrite length_insert.
  - apply (slot_assigned_children nodes); [done..|]. intros c [= <-]. done.
  - by apply (update_heads nodes nodes' cs b _ (i :: t) v).
Qed.

Lemma insert_branch_outcome fuel nodes cs b nibbles depth v : inv nodes ->
  wf_node nodes (Branch cs b) -> Forall is_nibble nibbles -> (depth <= length nibbles)%nat ->
  (length nibbles - depth < S fuel)%nat -> recursion_ok fuel nodes nibbles v ->
  node_outcome nodes (Branch cs b) (drop depth nibbles) v
    (insert_node fuel (Branch cs b) nibbles depth v nodes).
Proof.
  intros Hinv Hwf Hnib Hd Hf IH. cbn [insert_node].
  rewrite slice_from_ok by done. rewrite (lift_bind_ok _ _ _ _ eq_refl).
  destruct (decide (depth < length nibbles)%nat) as [Hlt|?].
  - destruct (drop_nibble nibbles depth) as (i & Hi & Hin & ->); [done..|].
    destruct (child_slot cs i) as [o Ho]; [apply Hwf|done|].
    rewrite (index_at_ok _ _ _ Ho), (lift_bind_ok _ _ _ _ eq_refl). cbv zeta.
    destruct (IH (default HASH_ZERO o) (depth + 1)%nat) as [?|[(nodes' & h' & E & Hins)
      |(nodes' & E & t & x & Ht & Hx)]]; [|lia|lia|by left|right; left|right; right].
    + destruct o as [c|]; simpl; [by eapply Hwf|]. rewrite (proj1 Hinv). by eexists.
    + eexists _, _. split.
      * rewrite (M_bind_ok _ _ _ _ _ E), assign_at_ok by by eapply lookup_lt_Some. done.
      * split; [by eapply regrow_built|]. intros _. by eexists _, _.
    + exists nodes'. split; [by rewrite (M_bind_panic _ _ _ _ E)|]. exists t, x. split; [done|].
      apply (slot_holds nodes cs b i o); [done|apply Hin|done..].
  - rewrite drop_ge by lia. right; left. eexists _, _. split; [done|].
    split; [|intros _; by eexists _, _].
    assert (Heq : forall s x, node_holds nodes (Branch cs (Some v)) s x <->
              update (node_holds nodes (Branch cs b)) [] v s x)
      by (intros [|j s] x; unfold update; simpl; naive_solver).
    split; [done..| |done]. destruct Hwf as (Hl & Hcs & Hst).
    split_and!; [done..|]. by apply (update_heads nodes nodes cs b _ [] v).
Qed.

Lemma insert_recursive_spec fuel nodes nibbles v : inv nodes -> Forall is_nibble nibbles ->
  recursion_ok fuel nodes nibbles v.
Proof.
  intros Hinv Hnib. induction fuel as [|fuel IH]; intros h depth [n Hn] Hd Hf; [lia|].
  rewrite insert_recursive_step, Hn. apply (store_outcome _ _ n); [done|]. cbn [default from_option id].
  destruct (decide (h = HASH_ZERO)) as [->|Hnz].
  - rewrite (proj1 Hinv) in Hn. simplify_eq. right; left. cbn [insert_node].
    rewrite slice_from_ok by done. eexists _, _. split; [done|].
    split; [|by intros (? & ? & ?)]. split; [done..|by apply Forall_drop|].
    intros s x. unfold update. simpl. destruct (decide (s = drop depth nibbles)); naive_solver.
  - destruct (proj2 Hinv h n Hn Hnz) as [_ Hwf]. destruct n as [|k x|p c|cs b]; [done|..].
    + by apply insert_leaf_outcome.
    + by apply insert_extension_outcome.
    + by apply insert_branch_outcome.
Qed.
End strict.

(** ** Deletion *)
Lemma wf_node_weaken strict nodes n : wf_node strict nodes n -> wf_node false nodes n.
Proof. destruct n; simpl; [done..|]. intros (? & ? & _). by split_and!. Qed.
Lemma inv_weaken strict nodes : inv strict nodes -> inv false nodes.
Proof.
  intros [Hz Hinv]. split; [done|]. intros h n Hn Hnz. destruct (Hinv h n Hn Hnz).
  split; [done|by eapply wf_node_weaken].
Qed.

(** The path of [s] from [h] meets an extension, where [delete_recursive] stops. *)
Inductive blocked (nodes : Nodes) : Hash -> list Z -> Prop :=
  | blocked_ext h p c s : nodes !! h = Some (Extension p c) -> blocked nodes h s
  | blocked_child h cs b i c s : nodes !! h = Some (Branch cs b) ->
      cs !! Z.to_nat i = Some (Some c) -> blocked nodes c s -> blocked nodes h (i :: s).

Record deleted (nodes : Nodes) (h : Hash) (s : list Z) (nodes' : Nodes) (h' : Hash) : Prop := {
  del_inv : inv false nodes';
  del_sub : nodes ⊆ nodes';
  del_at : is_Some (nodes' !! h');
  del_holds : forall s' v', holds nodes' h' s' v' <->
    holds nodes h s' v' /\ (s' = s -> blocked nodes h s)
}.

Lemma delete_branch_deleted nodes h cs b i o t nodes' h' : inv false nodes ->
  nodes !! h = Some (Branch cs b) -> wf_node false nodes (Branch cs b) ->
  is_nibble i -> cs !! Z.to_nat i = Some o ->
  inv false nodes' -> nodes ⊆ nodes' -> is_Some (nodes' !! h') ->
  (forall s x, holds nodes' h' s x <->
     holds nodes (default HASH_ZERO o) s x /\ (s = t -> exists c, o = Some c /\ blocked nodes c t)) ->
  let n := Branch (<[Z.to_nat i := if bool_decide (h' = HASH_ZERO) then None else Some h']> cs) b in
  node_clash \/ deleted nodes h (i :: t) (<[hash n := n]> nodes') (hash n).
Proof.
  intros Hinv Hn Hwf Hi Ho Hinv' Hsub Hat Hh n.
  assert (Hslot := fun t x => slot_holds false nodes cs b i o t x Hinv (proj1 Hi) Ho).
  set (o' := if bool_decide (h' = HASH_ZERO) then None else Some h') in n.
  assert (Hd : default HASH_ZERO o' = h') by (unfold o'; case_bool_decide; simpl; congruence).
  assert (Hwf' : wf_node false nodes' n).
  { destruct Hwf as (Hl & Hcs & _). split_and!; [by rewrite length_insert| |done].
    apply (slot_assigned_children nodes); [done..|]. intros c. unfold o'. case_bool_decide; [done|].
    by intros [= <-]. }
  destruct (add_node_added false nodes' n) as [?|Hadd]; [done..|by left|]. right. split.
  - apply Hadd.
  - etrans; [done|apply Hadd].
  - by rewrite (added_at _ _ _ _ Hadd).
  - intros s x. rewrite (added_holds _ _ _ _ _ _ Hadd), (node_holds_stable false nodes') by (done || apply Hadd).
    unfold n. rewrite (slot_assigned false nodes) by done. rewrite Hd. setoid_rewrite Hh.
    rewrite (holds_at _ _ _ _ _ Hn). split.
    + intros [(u & -> & Hu & Hb)|[Hne Hs]].
      * split; [by apply (slot_holds false nodes cs b i o); [..|apply Hi| |]|]. intros [= ->].
        destruct (Hb eq_refl) as (c & -> & ?). by eapply blocked_child.
      * split; [done|]. intros ->. done.
    + intros [Hs Hb]. destruct (decide (head s = Some i)) as [E|?]; [|by right].
      destruct s as [|j s]; simplify_eq/=. left. exists s. split; [done|]. split.
      * by apply Hslot in Hs.
      * intros ->. specialize (Hb eq_refl). inversion Hb; simplify_eq. by eexists.
Qed.

Lemma delete_recursive_spec fuel nodes h nibbles depth : inv false nodes -> is_Some (nodes !! h) ->
  Forall is_nibble nibbles -> (depth <= length nibbles)%nat -> (length nibbles - depth < fuel)%nat ->
  node_clash \/ exists nodes' h', delete_recursive fuel h nibbles depth nodes = (nodes', Ok h') /\
    deleted nodes h (drop depth nibbles) nodes' h'.
Proof.
  intros Hinv Hh Hnib. revert h depth Hh. induction fuel as [|fuel IH]; intros h depth [n Hn] Hd Hf; [lia|].
  cbn [delete_recursive]. rewrite get_bind, Hn. cbn [ok_or]. rewrite (lift_bind_ok _ _ _ _ eq_refl).
  assert (Hwf : n = Empty \/ wf_node false nodes n).
  { destruct Hinv as [Hz Hinv], (decide (h = HASH_ZERO)) as [->|?]; [left; congruence|].
    right. by destruct (Hinv h n). }
  destruct n as [|k x|p c|cs b].
  - right. exists nodes, h. split; [done|]. split; [done..|by rewrite Hn|].
    intros s x. rewrite (holds_at _ _ _ _ _ Hn). simpl. naive_solver.
  - rewrite slice_from_ok by done. rewrite (lift_bind_ok _ _ _ _ eq_refl). right.
    exists nodes. case_bool_decide as Hk; eexists; (split; [done|]); split; try done.
    + by rewrite (proj1 Hinv).
    + intros s y. rewrite (holds_at _ _ _ _ _ (proj1 Hinv)), (holds_at _ _ _ _ _ Hn). simpl.
      split; [done|]. intros [[-> ->] Hb]. specialize (Hb (eq_sym Hk)). inversion Hb; simplify_eq.
    + intros s y. rewrite (holds_at _ _ _ _ _ Hn). simpl. naive_solver.
  - right. exists nodes, h. split; [done|]. split; [done..|by rewrite Hn|].
    intros s x. split; [|by intros []]. intros. split; [done|]. intros. by eapply blocked_ext.
  - destruct Hwf as [|Hwf]; [done|]. case Nat.leb_spec; intros Hlt.
    + assert (Hwf' : wf_node false nodes (Branch cs None)) by by destruct Hwf as (? & ? & _).
      destruct (add_node_added false nodes (Branch cs None)) as [?|Hadd]; [done..|by left|].
      right. eexists _, _. split; [done|]. rewrite drop_ge by done.
      split; [apply Hadd..|by rewrite (added_at _ _ _ _ Hadd)|].
      intros s x. rewrite (added_holds _ _ _ _ _ _ Hadd), (node_holds_stable false nodes) by (done || apply Hadd).
      rewrite (holds_at _ _ _ _ _ Hn). destruct s as [|i s]; simpl.
      * split; [done|]. intros [-> Hb]. specialize (Hb eq_refl). inversion Hb; simplify_eq.
      * naive_solver.
    + destruct (drop_nibble nibbles depth) as (i & Hi & Hin & ->); [done..|].
      destruct (child_slot cs i) as [o Ho]; [apply Hwf|done|].
      rewrite (index_at_ok _ _ _ Hi), (lift_bind_ok _ _ _ _ eq_refl).
      rewrite (index_at_ok _ _ _ Ho), (lift_bind_ok _ _ _ _ eq_refl).
      assert (Hlt' : (Z.to_nat i < length cs)%nat) by by eapply lookup_lt_Some.
      destruct o as [c|].
      * destruct (IH c (depth + 1)%nat) as [?|(nodes' & h' & E & [Hinv' Hsub Hat Hh'])];
          [by eapply Hwf|lia|lia|by left|].
        rewrite M_bind_assoc, (M_bind_ok _ _ _ _ _ E), assign_at_ok, (lift_bind_ok _ _ _ _ eq_refl) by done.
        destruct (delete_branch_deleted nodes h cs b i (Some c) (drop (depth + 1) nibbles) nodes' h')
          as [?|Hdel]; [done..| |by left|right; by eauto].
        intros s x. rewrite Hh'. simpl. naive_solver.
      * rewrite (M_bind_ok (mret cs) _ nodes nodes cs eq_refl).
        destruct (delete_branch_deleted nodes h cs b i None (drop (depth + 1) nibbles) nodes HASH_ZERO)
          as [?|Hdel]; [done..|by rewrite (proj1 Hinv)| |by left|].
        { intros s x. rewrite (holds_at _ _ _ _ _ (proj1 Hinv)). cbn [node_holds]. split; [done|]. intros [Hs _]. by apply (holds_at _ _ _ _ _ (proj1 Hinv)) in Hs. }
        right. rewrite bool_decide_eq_true_2, list_insert_id in Hdel by done. by eauto.
Qed.
End trie.
