(* ===== verification/TrieCanon.v ===== *)
(** * The shape of a trie is determined by its contents (lemmas for trie.rs)

    Keys as nibbles; and, for tables built by insertion alone, the root as a
    function of the contents ([canonical]) and the contents as a function of
    the root ([contents_agree], or a clash of digests). *)
From stdpp Require Import base numbers list gmap strings.
From Stdlib Require Import ZArith Lia.
From S2P Require Import Prelude Types Crypto Slices Trie TrieFacts.
#[local] Open Scope Z_scope.

(** ** Keys *)
Lemma byte_split b : is_byte b ->
  is_nibble (Z.shiftr b 4) /\ is_nibble (Z.land b 15) /\ b = 16 * Z.shiftr b 4 + Z.land b 15.
Proof.
  intros Hb. change 15 with (Z.ones 4). rewrite Z.land_ones, Z.shiftr_div_pow2 by lia.
  unfold is_byte, is_nibble in *. change (2 ^ 4) with 16.
  pose proof (Z.div_mod b 16). pose proof (Z.mod_pos_bound b 16).
  pose proof (Z.div_pos b 16). pose proof (Z.div_lt_upper_bound b 16 16). lia.
Qed.
Lemma key_nibbles key : Forall is_byte key -> Forall is_nibble (key_to_nibbles key).
Proof. induction 1 as [|b key Hb]; simpl; [done|]. apply byte_split in Hb as (? & ? & _). by auto. Qed.
Lemma key_nibbles_length key : length (key_to_nibbles key) = (2 * length key)%nat.
Proof. induction key; simpl; lia. Qed.

(** A key whose nibbles begin another's is a prefix of it. *)
Lemma key_nibbles_prefix k k' rest : Forall is_byte k -> Forall is_byte k' ->
  key_to_nibbles k' = (key_to_nibbles k ++ rest)%list -> exists r, k' = (k ++ r)%list.
Proof.
  intros Hk. revert k'. induction Hk as [|b k Hb _ IH]; intros k' Hk' E; [by exists k'|].
  destruct Hk' as [|b' k' Hb' Hk']; [done|]. simpl in E. injection E as E1 E2 E3.
  destruct (IH k' Hk' E3) as [r ->]. exists r. simpl. f_equal.
  apply byte_split in Hb as (_ & _ & ->), Hb' as (_ & _ & ->). by rewrite E1, E2.
Qed.
Lemma key_nibbles_inj k k' : Forall is_byte k -> Forall is_byte k' ->
  key_to_nibbles k' = key_to_nibbles k -> k' = k.
Proof.
  intros Hk Hk' E. destruct (key_nibbles_prefix k k' []) as [r ->]; [done..|by rewrite app_nil_r|].
  apply (f_equal length) in E. rewrite !key_nibbles_length, length_app in E.
  destruct r; [by rewrite app_nil_r|simpl in E; lia].
Qed.

Section trie.
Context `{CL : CryptoLib} `{SJ : ToVec TrieNode}.

(** ** From contents to root *)

(** Every node but the empty one holds a key. *)
Lemma stored_holds nodes h : inv true nodes -> is_Some (nodes !! h) -> h <> HASH_ZERO ->
  exists s v, holds nodes h s v.
Proof.
  intros [_ Hinv] [n Hn] Hnz. destruct (Hinv h n Hn Hnz) as [_ Hwf].
  setoid_rewrite (holds_at _ _ _ _ _ Hn). destruct n as [|k x|p c|cs b]; simpl in *.
  - done.
  - by exists k, x.
  - destruct Hwf as (_ & _ & _ & s & v & Hs). exists (p ++ s)%list, v. by eauto.
  - destruct Hwf as (_ & _ & (s & v & _ & _ & Hs & _)); [done|]. by eauto.
Qed.

Definition same_contents (nodes1 : Nodes) (n1 : TrieNode) (nodes2 : Nodes) (n2 : TrieNode) : Prop :=
  forall s v, node_holds nodes1 n1 s v <-> node_holds nodes2 n2 s v.
Lemma same_contents_sym nodes1 n1 nodes2 n2 :
  same_contents nodes1 n1 nodes2 n2 -> same_contents nodes2 n2 nodes1 n1.
Proof. intros H s v. symmetry. apply H. Qed.

(** Two keys of the node differ at their head. *)
Definition parts (nodes : Nodes) (n : TrieNode) : Prop :=
  exists s1 v1 s2 v2, node_holds nodes n s1 v1 /\ node_holds nodes n s2 v2 /\ head s1 <> head s2.
Lemma branch_parts nodes cs b : wf_node true nodes (Branch cs b) -> parts nodes (Branch cs b).
Proof. intros (_ & _ & Hst). by apply Hst. Qed.
Lemma leaf_unparted nodes k x : ~ parts nodes (Leaf k x).
Proof. intros (s1 & v1 & s2 & v2 & [-> _] & [-> _] & ?). done. Qed.
Lemma extension_unparted nodes p c : p <> [] -> ~ parts nodes (Extension p c).
Proof.
  intros Hp (s1 & v1 & s2 & v2 & (t1 & -> & _) & (t2 & -> & _) & Hne). by destruct p.
Qed.
Lemma parts_same nodes1 n1 nodes2 n2 :
  same_contents nodes1 n1 nodes2 n2 -> parts nodes1 n1 -> parts nodes2 n2.
Proof.
  intros Hs (s1 & v1 & s2 & v2 & H1 & H2 & ?). apply Hs in H1, H2. by exists s1, v1, s2, v2.
Qed.
(** The child of an extension is a branch. *)
Lemma extension_child nodes p c : inv true nodes -> wf_node true nodes (Extension p c) ->
  is_Some (nodes !! c) /\ c <> HASH_ZERO /\
  exists s1 v1 s2 v2, holds nodes c s1 v1 /\ holds nodes c s2 v2 /\ head s1 <> head s2.
Proof.
  intros Hinv (_ & _ & (cs & b & Hc) & _).
  assert (Hnz : c <> HASH_ZERO) by by eapply stored_nonzero.
  split; [by eexists|]. split; [done|]. setoid_rewrite (holds_at _ _ _ _ _ Hc).
  apply branch_parts. by apply (proj2 Hinv c).
Qed.
Lemma leaf_extension_differ nodes1 k x nodes2 p c : inv true nodes2 ->
  wf_node true nodes2 (Extension p c) -> ~ same_contents nodes1 (Leaf k x) nodes2 (Extension p c).
Proof.
  intros Hinv Hwf Hs.
  destruct (extension_child _ _ _ Hinv Hwf) as (_ & _ & s1 & v1 & s2 & v2 & H1 & H2 & Hne).
  destruct (proj2 (Hs (p ++ s1)%list v1)) as [E1 _]; [by exists s1|].
  destruct (proj2 (Hs (p ++ s2)%list v2)) as [E2 _]; [by exists s2|].
  rewrite <- E2 in E1. apply app_inv_head in E1. by subst.
Qed.

(** The prefix of an extension is the longest one its keys share. *)
Lemma extension_prefix nodes1 p c nodes2 q d : inv true nodes1 ->
  wf_node true nodes1 (Extension p c) ->
  same_contents nodes1 (Extension p c) nodes2 (Extension q d) -> exists e, p = (q ++ e)%list.
Proof.
  intros Hinv Hwf Hs.
  destruct (extension_child _ _ _ Hinv Hwf) as (_ & _ & s1 & v1 & s2 & v2 & H1 & H2 & Hne).
  destruct (proj1 (Hs (p ++ s1)%list v1)) as (t1 & E1 & _); [by exists s1|].
  destruct (proj1 (Hs (p ++ s2)%list v2)) as (t2 & E2 & _); [by exists s2|].
  apply app_eq_inv in E1 as [(e & -> & ->)|(e & -> & ->)]; [by exists e|].
  exists []. rewrite app_nil_r. destruct e as [|i e]; [by rewrite app_nil_r|].
  rewrite <- (assoc_L app) in E2. apply app_inv_head in E2 as ->. done.
Qed.

Definition canonical_at (L : nat) : Prop := forall nodes1 nodes2 h1 h2,
  inv true nodes1 -> inv true nodes2 -> is_Some (nodes1 !! h1) -> is_Some (nodes2 !! h2) ->
  (forall s v, holds nodes1 h1 s v -> length s = L) ->
  (forall s v, holds nodes1 h1 s v <-> holds nodes2 h2 s v) -> h1 = h2.

Lemma extension_canonical L nodes1 p c nodes2 q d :
  (forall L', (L' < L)%nat -> canonical_at L') -> inv true nodes1 -> inv true nodes2 ->
  wf_node true nodes1 (Extension p c) -> wf_node true nodes2 (Extension q d) ->
  (forall s v, node_holds nodes1 (Extension p c) s v -> length s = L) ->
  same_contents nodes1 (Extension p c) nodes2 (Extension q d) -> Extension p c = Extension q d.
Proof.
  intros IH Hi1 Hi2 Hw1 Hw2 HL Hs.
  destruct (extension_prefix _ _ _ _ _ _ Hi1 Hw1 Hs) as [e1 E1].
  destruct (extension_prefix _ _ _ _ _ _ Hi2 Hw2 (same_contents_sym _ _ _ _ Hs)) as [e2 E2].
  assert (p = q) as ->.
  { rewrite E2 in E1. rewrite <- (assoc_L app) in E1. rewrite <- (app_nil_r p) in E1 at 1.
    apply app_inv_head in E1. symmetry in E1. apply app_nil in E1 as [-> _]. by rewrite app_nil_r in E2. }
  f_equal. destruct (extension_child _ _ _ Hi1 Hw1) as (Hc & _ & s0 & v0 & _ & _ & H0 & _).
  destruct (extension_child _ _ _ Hi2 Hw2) as (Hd & _).
  assert (Hlen : forall s v, holds nodes1 c s v -> (length q + length s)%nat = L).
  { intros s v Hh. rewrite <- length_app. apply (HL _ v). by exists s. }
  apply (IH (length s0)) with (nodes1 := nodes1) (nodes2 := nodes2); [|done..| |].
  - destruct Hw1 as (? & _). pose proof (Hlen _ _ H0). destruct q; [done|simpl in *; lia].
  - intros s v Hh. pose proof (Hlen _ _ H0). pose proof (Hlen _ _ Hh). lia.
  - intros s v. destruct (Hs (q ++ s)%list v) as [H1 H2]. split; intros Hh.
    + destruct H1 as (t & ?%app_inv_head & ?); [by exists s|by subst].
    + destruct H2 as (t & ?%app_inv_head & ?); [by exists s|by subst].
Qed.

(** Equal slots, once what they lead to is equal *)
Lemma slot_eq (nodes1 nodes2 : Nodes) (cs1 cs2 : list (option Hash)) k o1 o2 :
  (forall i c, cs1 !! i = Some (Some c) -> is_Some (nodes1 !! c) /\ c <> HASH_ZERO) ->
  (forall i c, cs2 !! i = Some (Some c) -> is_Some (nodes2 !! c) /\ c <> HASH_ZERO) ->
  cs1 !! k = Some o1 -> cs2 !! k = Some o2 ->
  default HASH_ZERO o1 = default HASH_ZERO o2 -> o1 = o2.
Proof.
  intros H1 H2 E1 E2 E. destruct o1 as [c1|], o2 as [c2|]; simpl in E; try done.
  - by subst.
  - by destruct (H1 _ _ E1).
  - by destruct (H2 _ _ E2).
Qed.
Lemma branch_canonical L nodes1 cs1 b1 nodes2 cs2 b2 :
  (forall L', (L' < L)%nat -> canonical_at L') -> inv true nodes1 -> inv true nodes2 ->
  wf_node true nodes1 (Branch cs1 b1) -> wf_node true nodes2 (Branch cs2 b2) ->
  (forall s v, node_holds nodes1 (Branch cs1 b1) s v -> length s = L) ->
  same_contents nodes1 (Branch cs1 b1) nodes2 (Branch cs2 b2) -> Branch cs1 b1 = Branch cs2 b2.
Proof.
  intros IH Hi1 Hi2 Hw1 Hw2 HL Hs. f_equal.
  - destruct (branch_parts _ _ _ Hw1) as (s1 & v1 & s2 & v2 & Hh1 & Hh2 & Hne).
    assert (0 < L)%nat.
    { apply HL in Hh1, Hh2. destruct L; [|lia]. by destruct s1, s2. }
    destruct Hw1 as (Hl1 & Hc1 & _), Hw2 as (Hl2 & Hc2 & _).
    apply list_eq_same_length with (n := 16%nat); [done..|]. intros k o1 o2 Hk E1 E2.
    apply (slot_eq nodes1 nodes2 cs1 cs2 k); [done..|].
    assert (Hn1 := fun s v => slot_holds true nodes1 cs1 b1 (Z.of_nat k) o1 s v Hi1 ltac:(lia)).
    assert (Hn2 := fun s v => slot_holds true nodes2 cs2 b2 (Z.of_nat k) o2 s v Hi2 ltac:(lia)).
    rewrite Nat2Z.id in Hn1, Hn2.
    apply (IH (L - 1)%nat) with (nodes1 := nodes1) (nodes2 := nodes2); [lia|done..| | | |].
    + destruct o1 as [c|]; simpl; [by eapply Hc1|]. rewrite (proj1 Hi1). by eexists.
    + destruct o2 as [c|]; simpl; [by eapply Hc2|]. rewrite (proj1 Hi2). by eexists.
    + intros s v Hh. apply Hn1, HL in Hh; [|done]. simpl in Hh. lia.
    + intros s v. rewrite <- Hn1, <- Hn2 by done. apply Hs.
  - apply option_eq. intros v. apply (Hs [] v).
Qed.

Lemma node_canonical L nodes1 n1 nodes2 n2 :
  (forall L', (L' < L)%nat -> canonical_at L') -> inv true nodes1 -> inv true nodes2 ->
  wf_node true nodes1 n1 -> wf_node true nodes2 n2 ->
  (forall s v, node_holds nodes1 n1 s v -> length s = L) ->
  same_contents nodes1 n1 nodes2 n2 -> n1 = n2.
Proof.
  intros IH Hi1 Hi2 Hw1 Hw2 HL Hs. pose proof (same_contents_sym _ _ _ _ Hs) as Hs'.
  destruct n1 as [|k1 x1|p1 c1|cs1 b1], n2 as [|k2 x2|p2 c2|cs2 b2]; try done.
  - destruct (proj1 (Hs k1 x1)) as [-> ->]; done.
  - by destruct (leaf_extension_differ nodes1 k1 x1 nodes2 p2 c2).
  - by destruct (leaf_unparted _ _ _ (parts_same _ _ _ _ Hs' (branch_parts _ _ _ Hw2))).
  - by destruct (leaf_extension_differ nodes2 k2 x2 nodes1 p1 c1).
  - by apply (extension_canonical L nodes1 _ _ nodes2).
  - by destruct (extension_unparted _ _ _ (proj1 Hw1) (parts_same _ _ _ _ Hs' (branch_parts _ _ _ Hw2))).
  - by destruct (leaf_unparted _ _ _ (parts_same _ _ _ _ Hs (branch_parts _ _ _ Hw1))).
  - by destruct (extension_unparted _ _ _ (proj1 Hw2) (parts_same _ _ _ _ Hs (branch_parts _ _ _ Hw1))).
  - by apply (branch_canonical L nodes1 _ _ nodes2).
Qed.

Lemma canonical L : canonical_at L.
Proof.
  induction (lt_wf L) as [L _ IH]. intros nodes1 nodes2 h1 h2 Hi1 Hi2 Hs1 Hs2 HL Hh.
  assert (Hempty : forall nodes s v, inv true nodes -> ~ holds nodes HASH_ZERO s v).
  { intros nodes s v [Hz _] Hs. by apply (holds_at _ _ _ _ _ Hz) in Hs. }
  destruct (decide (h1 = HASH_ZERO)) as [->|Hz1], (decide (h2 = HASH_ZERO)) as [->|Hz2]; [done|..].
  - destruct (stored_holds nodes2 h2) as (s & v & Hs); [done..|].
    apply Hh in Hs. by destruct (Hempty nodes1 s v).
  - destruct (stored_holds nodes1 h1) as (s & v & Hs); [done..|].
    apply Hh in Hs. by destruct (Hempty nodes2 s v).
  - destruct Hs1 as [n1 Hn1], Hs2 as [n2 Hn2].
    destruct (proj2 Hi1 h1 n1 Hn1 Hz1) as [-> Hw1], (proj2 Hi2 h2 n2 Hn2 Hz2) as [-> Hw2].
    f_equal. apply (node_canonical L nodes1 n1 nodes2 n2); [done..| |].
    + intros s v Hs. apply (HL s v). by apply (holds_at _ _ _ _ _ Hn1).
    + intros s v. by rewrite <- (holds_at _ _ _ _ _ Hn1), <- (holds_at _ _ _ _ _ Hn2).
Qed.

(** ** From root to contents *)
Lemma contents_agree strict nodes1 nodes2 h s v : inv strict nodes1 -> inv strict nodes2 ->
  is_Some (nodes2 !! h) -> holds nodes1 h s v -> node_clash \/ holds nodes2 h s v.
Proof.
  intros Hi1 Hi2 Hh Hs. revert Hh.
  assert (Hsame : forall h n, nodes1 !! h = Some n -> is_Some (nodes2 !! h) ->
            node_clash \/ (nodes2 !! h = Some n /\ (h = HASH_ZERO \/ wf_node strict nodes2 n))).
  { intros g n Hn [m Hm]. destruct (decide (g = HASH_ZERO)) as [->|Hnz].
    - right. rewrite (proj1 Hi1) in Hn. rewrite (proj1 Hi2). by auto.
    - destruct (proj2 Hi1 g n Hn Hnz) as [E1 _], (proj2 Hi2 g m Hm Hnz) as [E2 Hw].
      destruct (decide (n = m)) as [->|?]; [by auto|]. left; left. exists n, m. split; congruence. }
  induction Hs as [h k x Hn|h p c s x Hn _ IH|h cs x Hn|h cs b i c s x Hn Hi Hcs _ IH];
    intros Hh; (destruct (Hsame _ _ Hn Hh) as [?|[Hm Hw]]; [by left|]).
  - right. by apply holds_leaf.
  - destruct Hw as [->|(_ & _ & (? & ? & Hc) & _)]; [rewrite (proj1 Hi2) in Hm; done|].
    destruct IH as [?|?]; [by eexists|by left|]. right. by eapply holds_ext.
  - right. by eapply holds_here.
  - destruct Hw as [->|(_ & Hc & _)]; [rewrite (proj1 Hi2) in Hm; done|].
    destruct IH as [?|?]; [by eapply Hc|by left|]. right. by eapply holds_child.
Qed.
End trie.
