(* ===== verification/TrieProps.v ===== *)
(** * What the state trie guarantees (theorems about trie.rs)

    Reads after writes and deletions, refinement of a finite map, the root as
    a digest of the contents, and what a proof is worth. *)
From stdpp Require Import base numbers list gmap strings.
From Stdlib Require Import ZArith Lia.
From S2P Require Import Prelude Types Crypto Slices Trie TrieFacts TrieCanon.
#[local] Open Scope Z_scope.

Section trie.
Context `{CL : CryptoLib} `{SJ : ToVec TrieNode}.

(** ** Reachable tries *)

(** Calls that return, on keys of bytes; with [strict], insertions alone. *)
Inductive reach (strict : bool) : MerkleTrie -> Prop :=
  | reach_new : reach strict new_trie
  | reach_insert t t' key value : reach strict t -> Forall is_byte key ->
      insert key value t = (t', Ok ()) -> reach strict t'
  | reach_delete t t' key : strict = false -> reach strict t -> Forall is_byte key ->
      delete key t = (t', Ok ()) -> reach strict t'.

(** What a reachable trie satisfies *)
Record trie_ok (strict : bool) (t : MerkleTrie) : Prop := {
  ok_inv : inv strict (nodes t);
  ok_root : is_Some (nodes t !! root t);
  ok_keys : forall s v, holds (nodes t) (root t) s v ->
    exists key, Forall is_byte key /\ s = key_to_nibbles key
}.
Definition contains (t : MerkleTrie) (key value : list Z) : Prop :=
  holds (nodes t) (root t) (key_to_nibbles key) value.

Lemma new_trie_ok strict : trie_ok strict new_trie.
Proof.
  assert (E : nodes new_trie !! root new_trie = Some Empty) by by simpl; rewrite lookup_singleton_eq.
  split; [by apply inv_new|by rewrite E|]. intros s v Hs. by apply (holds_at _ _ _ _ _ E) in Hs.
Qed.
Lemma new_trie_contains key value : ~ contains new_trie key value.
Proof.
  intros Hs. apply (holds_at _ _ Empty) in Hs; [done|]. simpl. by rewrite lookup_singleton_eq.
Qed.

(** [get] decides [contains]. *)
Lemma get_spec strict t key : trie_ok strict t -> Forall is_byte key ->
  exists o, get t key = Ok o /\ forall v, o = Some v <-> contains t key v.
Proof.
  intros [Hinv Hroot _] Hk. apply (get_recursive_spec strict); try done; [by apply key_nibbles|lia..].
Qed.
Lemma get_contains strict t key value : trie_ok strict t -> Forall is_byte key ->
  get t key = Ok (Some value) <-> contains t key value.
Proof.
  intros Hok Hk. destruct (get_spec strict t key Hok Hk) as (o & -> & Ho). rewrite <- Ho.
  split; [by intros [= ->]|by intros ->].
Qed.
Lemma get_ext strict1 t1 strict2 t2 k1 k2 : trie_ok strict1 t1 -> trie_ok strict2 t2 ->
  Forall is_byte k1 -> Forall is_byte k2 ->
  (forall v, contains t1 k1 v <-> contains t2 k2 v) -> get t1 k1 = get t2 k2.
Proof.
  intros H1 H2 Hk1 Hk2 E. destruct (get_spec _ t1 k1 H1 Hk1) as (o1 & -> & Ho1).
  destruct (get_spec _ t2 k2 H2 Hk2) as (o2 & -> & Ho2). f_equal. apply option_eq.
  intros v. by rewrite Ho1, Ho2.
Qed.
Lemma get_is strict t key o : trie_ok strict t -> Forall is_byte key ->
  (forall v, contains t key v <-> o = Some v) -> get t key = Ok o.
Proof.
  intros Hok Hk E. destruct (get_spec _ t key Hok Hk) as (o' & -> & Ho). f_equal.
  apply option_eq. intros v. by rewrite Ho.
Qed.

(** ** Insertion and deletion on the whole trie *)
Definition insert_outcome (strict : bool) (key value : list Z) (t : MerkleTrie) : Prop :=
  (exists t', insert key value t = (t', Ok ()) /\ trie_ok strict t' /\ root t' <> HASH_ZERO /\
     nodes t ⊆ nodes t' /\
     forall k v, Forall is_byte k ->
       contains t' k v <-> (k = key /\ v = value) \/ (k <> key /\ contains t k v)) \/
  (exists t', insert key value t = (t', Panic) /\
     exists rest v, rest <> [] /\ Forall is_byte rest /\ contains t (key ++ rest) v).

Lemma insert_spec strict key value t : trie_ok strict t -> Forall is_byte key ->
  node_clash \/ insert_outcome strict key value t.
Proof.
  intros [Hinv Hroot Hkeys] Hk. pose proof (key_nibbles key Hk) as Hn.
  destruct (insert_recursive_spec strict (S (length (key_to_nibbles key))) (nodes t)
      (key_to_nibbles key) value Hinv Hn (root t) 0%nat)
    as [?|[(nodes' & h & E & [Hi Hsub Hat Hnz _ Hh])|(nodes' & E & s & v & Hs & Hv)]];
    [done|lia|lia|by left|right; left|right; right].
  - exists (mkTrie h nodes'). unfold insert, update_root. rewrite E. split; [done|].
    rewrite drop_0 in Hh. split_and!; [|done..|].
    + split; [done..|]. intros s v Hs. apply Hh in Hs as [[-> _]|[_ ?]]; [by eauto|by eapply Hkeys].
    + intros k v Hkb. unfold contains. simpl. rewrite Hh. unfold update. split.
      * intros [[E1 ?]|[Hne ?]]; [left|right].
        -- split; [by apply key_nibbles_inj|done].
        -- split; [by intros ->|done].
      * intros [[-> ->]|[Hne ?]]; [by left|right]. split; [|done].
        intros ?. by apply Hne, key_nibbles_inj.
  - exists (mkTrie (root t) nodes'). unfold insert, update_root. rewrite E. split; [done|].
    rewrite drop_0 in Hv. destruct (Hkeys _ _ Hv) as (k & Hkb & Ek).
    destruct (key_nibbles_prefix key k s) as [rest ->]; [done..|].
    exists rest, v. split_and!.
    + intros ->. rewrite app_nil_r in Ek. apply Hs, nil_length_inv.
      apply (f_equal length) in Ek. rewrite length_app in Ek. lia.
    + by apply Forall_app in Hkb as [_ ?].
    + unfold contains. by rewrite <- Ek.
Qed.

Lemma delete_spec strict key t : trie_ok strict t -> Forall is_byte key ->
  node_clash \/ exists t', delete key t = (t', Ok ()) /\ trie_ok false t' /\
    forall k v, Forall is_byte k -> contains t' k v <->
      contains t k v /\ (k = key -> blocked (nodes t) (root t) (key_to_nibbles key)).
Proof.
  intros [Hinv Hroot Hkeys] Hk. pose proof (key_nibbles key Hk) as Hn.
  destruct (delete_recursive_spec (S (length (key_to_nibbles key))) (nodes t) (root t)
      (key_to_nibbles key) 0%nat) as [?|(nodes' & h & E & [Hi Hsub Hat Hh])];
    [by eapply inv_weaken|done|done|lia|lia|by left|right].
  exists (mkTrie h nodes'). unfold delete, update_root. rewrite E. split; [done|].
  rewrite drop_0 in Hh. split.
  - split; [done..|]. intros s v Hs. apply Hh in Hs as [? _]. by eapply Hkeys.
  - intros k v Hkb. unfold contains. simpl. rewrite Hh. split; intros [? Hb]; (split; [done|]).
    + intros ->. by apply Hb.
    + intros ?. by apply Hb, key_nibbles_inj.
Qed.

Lemma reach_ok strict t : reach strict t -> node_clash \/ trie_ok strict t.
Proof.
  induction 1 as [|t t' key value _ IH Hk E|t t' key -> _ IH Hk E].
  - right. apply new_trie_ok.
  - destruct IH as [?|Hok]; [by left|].
    destruct (insert_spec strict key value t Hok Hk) as [?|[(t1 & E1 & ? & _)|(t1 & E1 & _)]];
      [by left|right; congruence|congruence].
  - destruct IH as [?|Hok]; [by left|].
    destruct (delete_spec _ key t Hok Hk) as [?|(t1 & E1 & ? & _)]; [by left|right; congruence].
Qed.

(** ** Reads after writes *)

(** After [insert key value] on a reachable trie the key reads back as the
    value and every other key as before; or the call panics, and then a stored
    key properly extends the inserted one; or two nodes (or a node and the
    empty root) share a Keccak-256 digest. *)
Theorem insert_then_get strict t key value : reach strict t -> Forall is_byte key ->
  node_clash \/
  (exists t', insert key value t = (t', Ok ()) /\ forall k, Forall is_byte k ->
     get t' k = if decide (k = key) then Ok (Some value) else get t k) \/
  (exists t' rest v, insert key value t = (t', Panic) /\ rest <> [] /\ Forall is_byte rest /\
     get t (key ++ rest) = Ok (Some v)).
Proof.
  intros Hr Hk. destruct (reach_ok strict t Hr) as [?|Hok]; [by left|].
  destruct (insert_spec strict key value t Hok Hk)
    as [?|[(t' & E & Hok' & _ & _ & Hc)|(t' & E & rest & v & Hne & Hrb & Hv)]];
    [by left|right; left|right; right].
  - exists t'. split; [done|]. intros k Hkb. case_decide as Hd.
    + apply (get_is strict); [done..|]. intros v. rewrite Hc by done. naive_solver.
    + apply (get_ext strict t' strict t); [done..|]. intros v. rewrite Hc by done. naive_solver.
  - exists t', rest, v. split_and!; [done..|].
    apply (get_contains strict); [done|by apply Forall_app|done].
Qed.

(** Deletion returns, leaves every other key as it was, and removes the
    key exactly when no extension node lies on its path: below an extension
    [delete_recursive] changes nothing and the key still reads back. *)
Theorem delete_exact strict t key : reach strict t -> Forall is_byte key ->
  node_clash \/
  exists t', delete key t = (t', Ok ()) /\
    (forall k, Forall is_byte k -> k <> key -> get t' k = get t k) /\
    (blocked (nodes t) (root t) (key_to_nibbles key) -> get t' key = get t key) /\
    (~ blocked (nodes t) (root t) (key_to_nibbles key) -> get t' key = Ok None).
Proof.
  intros Hr Hk. destruct (reach_ok strict t Hr) as [?|Hok]; [by left|].
  destruct (delete_spec strict key t Hok Hk) as [?|(t' & E & Hok' & Hc)]; [by left|right].
  exists t'. split; [done|]. split_and!.
  - intros k Hkb Hne. apply (get_ext false t' strict t); [done..|].
    intros v. rewrite Hc by done. naive_solver.
  - intros Hb. apply (get_ext false t' strict t); [done..|].
    intros v. rewrite Hc by done. naive_solver.
  - intros Hb. apply (get_is false); [done..|]. intros v. rewrite Hc by done. naive_solver.
Qed.

(** ** Refinement of a finite map *)
Fixpoint insert_all (entries : list (list Z * list Z)) : M MerkleTrie StateError () :=
  match entries with
  | [] => mret ()
  | (key, value) :: entries => _ ← insert key value; insert_all entries
  end.
(** The specification: later entries replace earlier ones. *)
Definition map_of (m : gmap (list Z) (list Z)) (entries : list (list Z * list Z)) :
    gmap (list Z) (list Z) :=
  foldl (fun m entry => <[entry.1 := entry.2]> m) m entries.

(** The trie holds what the map does, under keys of [len] bytes. *)
Record represents (len : nat) (t : MerkleTrie) (m : gmap (list Z) (list Z)) : Prop := {
  repr_ok : trie_ok true t;
  repr_map : forall k v, Forall is_byte k -> contains t k v <-> m !! k = Some v;
  repr_len : forall k v, m !! k = Some v -> length k = len /\ Forall is_byte k
}.

Lemma insert_represents len key value t m : represents len t m ->
  length key = len -> Forall is_byte key ->
  node_clash \/ exists t', insert key value t = (t', Ok ()) /\ nodes t ⊆ nodes t' /\
    represents len t' (<[key := value]> m).
Proof.
  intros [Hok Hm Hlen] Hl Hk. destruct (insert_spec true key value t Hok Hk)
    as [?|[(t' & E & Hok' & _ & Hsub & Hc)|(t' & E & rest & v & Hne & Hrb & Hv)]]; [by left|right|].
  - exists t'. split; [done|]. split; [done|]. split; [done|..].
    + intros k v Hkb. rewrite Hc, lookup_insert_Some, Hm by done. naive_solver.
    + intros k v. rewrite lookup_insert_Some. naive_solver.
  - apply Hm in Hv; [|by apply Forall_app]. apply Hlen in Hv as [Hv _].
    rewrite length_app in Hv. destruct rest; [done|simpl in Hv; lia].
Qed.
Lemma insert_all_represents len entries t m : represents len t m ->
  Forall (fun entry => length entry.1 = len /\ Forall is_byte entry.1) entries ->
  node_clash \/ exists t', insert_all entries t = (t', Ok ()) /\ nodes t ⊆ nodes t' /\
    represents len t' (map_of m entries).
Proof.
  intros Hr He. revert t m Hr. induction He as [|[key value] entries [Hl Hk] _ IH]; intros t m Hr.
  - right. by exists t.
  - destruct (insert_represents len key value t m Hr Hl Hk) as [?|(t1 & E & Hsub & Hr1)]; [by left|].
    destruct (IH t1 _ Hr1) as [?|(t' & E' & ? & ?)]; [by left|right].
    exists t'. split; [|split; [by etrans|done]]. simpl. by rewrite (M_bind_ok _ _ _ _ _ E).
Qed.
Lemma new_represents len : represents len new_trie ∅.
Proof.
  split; [apply new_trie_ok|..]; intros k v; rewrite lookup_empty; [|done].
  intros _. split; [|done]. intros Hs. by apply new_trie_contains in Hs.
Qed.

(** Two maps that agree wherever [P] fails *)
Lemma map_or_eq (P : Prop) (m1 m2 : gmap (list Z) (list Z)) :
  (forall k v, m1 !! k = Some v -> P \/ m2 !! k = Some v) -> P \/ m1 ⊆ m2.
Proof.
  induction m1 as [|k v m1 Hk IH] using map_ind; intros H; [right; apply map_empty_subseteq|].
  destruct (H k v) as [?|Hv]; [by rewrite lookup_insert_eq|by left|].
  destruct IH as [?|?]; [|by left|right; by apply insert_subseteq_l].
  intros k' v' Hk'. apply H. apply lookup_insert_Some. right. split; [|done].
  intros ->. congruence.
Qed.

(** C6: Refinement.  Inserting any list of entries under byte keys of one
    length into a new trie never fails, and the trie then reads as the finite
    map that the list denotes; or Keccak-256 has clashed on its nodes. *)
Theorem trie_refines_map len entries :
  Forall (fun entry => length entry.1 = len /\ Forall is_byte entry.1) entries ->
  node_clash \/ exists t, insert_all entries new_trie = (t, Ok ()) /\
    forall k, Forall is_byte k -> get t k = Ok (map_of ∅ entries !! k).
Proof.
  intros He. destruct (insert_all_represents len entries new_trie ∅ (new_represents len) He)
    as [?|(t & E & _ & [Hok Hm _])]; [by left|right].
  exists t. split; [done|]. intros k Hk. apply (get_is true); [done..|]. intros v. by apply Hm.
Qed.

(** ** The root as a digest of the contents *)
Lemma represents_root len t1 t2 m : represents len t1 m -> represents len t2 m ->
  root t1 = root t2.
Proof.
  intros [[Hi1 Hs1 Hk1] Hm1 Hl1] [[Hi2 Hs2 Hk2] Hm2 _].
  apply (canonical (2 * len) (nodes t1) (nodes t2)); [done..| |].
  - intros s v Hs. destruct (Hk1 _ _ Hs) as (key & Hkb & ->). apply Hm1, Hl1 in Hs as [? _]; [|done].
    rewrite key_nibbles_length. lia.
  - intros s v. split; intros Hs.
    + destruct (Hk1 _ _ Hs) as (key & Hkb & ->). by apply Hm2, Hm1.
    + destruct (Hk2 _ _ Hs) as (key & Hkb & ->). by apply Hm1, Hm2.
Qed.
Lemma represents_subset len t1 t2 m1 m2 : represents len t1 m1 -> represents len t2 m2 ->
  root t1 = root t2 -> node_clash \/ m1 ⊆ m2.
Proof.
  intros [[Hi1 Hs1 Hk1] Hm1 Hl1] [[Hi2 Hs2 Hk2] Hm2 _] E. apply map_or_eq. intros k v Hv.
  destruct (Hl1 k v Hv) as [_ Hk]. apply Hm1 in Hv; [|done]. unfold contains in Hv. rewrite E in Hv.
  destruct (contents_agree true (nodes t1) (nodes t2) (root t2) (key_to_nibbles k) v Hi1 Hi2 Hs2 Hv)
    as [?|?]; [by left|right]. by apply Hm2.
Qed.

(** C12: The root is a digest of the contents.  Two tries built by inserting
    entries under byte keys of one length have the same root exactly when the
    entries denote the same map, whatever their order and repetitions; or
    Keccak-256 has clashed on their nodes. *)
Theorem trie_root_is_canonical len entries1 entries2 t1 t2 :
  Forall (fun entry => length entry.1 = len /\ Forall is_byte entry.1) entries1 ->
  Forall (fun entry => length entry.1 = len /\ Forall is_byte entry.1) entries2 ->
  insert_all entries1 new_trie = (t1, Ok ()) -> insert_all entries2 new_trie = (t2, Ok ()) ->
  node_clash \/ (root t1 = root t2 <-> map_of ∅ entries1 = map_of ∅ entries2).
Proof.
  intros He1 He2 E1 E2.
  destruct (insert_all_represents len entries1 _ _ (new_represents len) He1)
    as [?|(t1' & E1' & _ & Hr1)]; [by left|].
  destruct (insert_all_represents len entries2 _ _ (new_represents len) He2)
    as [?|(t2' & E2' & _ & Hr2)]; [by left|].
  assert (t1' = t1) as -> by congruence. assert (t2' = t2) as -> by congruence.
  destruct (decide (root t1 = root t2)) as [E|Hne].
  - destruct (represents_subset len t1 t2 _ _ Hr1 Hr2 E) as [?|H12]; [by left|].
    destruct (represents_subset len t2 t1 _ _ Hr2 Hr1 (eq_sym E)) as [?|H21]; [by left|].
    right. split; [|done]. intros _. by apply (anti_symm (⊆)).
  - right. split; [done|]. intros Hm. rewrite Hm in Hr1. by eapply represents_root.
Qed.

(** ** Proofs *)
Lemma prove_recursive_spec strict fuel nodes h nibbles depth acc : inv strict nodes ->
  is_Some (nodes !! h) -> Forall is_nibble nibbles -> (depth <= length nibbles)%nat ->
  (length nibbles - depth < fuel)%nat ->
  exists n path, nodes !! h = Some n /\
    prove_recursive fuel nodes h nibbles depth acc = Ok (true, acc ++ n :: path)%list.
Proof.
  intros Hinv. revert h depth acc. induction fuel as [|fuel IH]; intros h depth acc [n Hn] Hnib Hd Hf; [lia|].
  cbn [prove_recursive]. rewrite Hn. exists n.
  assert (Hwf : n = Empty \/ wf_node strict nodes n).
  { destruct Hinv as [Hz Hinv], (decide (h = HASH_ZERO)) as [->|?]; [left; congruence|].
    right. by destruct (Hinv h n). }
  assert (Hnext : forall c d, is_Some (nodes !! c) -> (d <= length nibbles)%nat ->
    (length nibbles - d < fuel)%nat -> exists path,
    prove_recursive fuel nodes c nibbles d (acc ++ [n])%list = Ok (true, acc ++ n :: path)%list).
  { intros c d Hc ? ?. destruct (IH c d (acc ++ [n])%list Hc) as (m & path & _ & ->); [done..|].
    exists (m :: path). by rewrite <- (assoc_L app). }
  destruct n as [|k x|p c|cs b].
  - by exists [].
  - by exists [].
  - rewrite slice_from_ok by done. cbn [mbind outcome_bind].
    destruct Hwf as [|(Hp & _ & (cs & b & Hc) & _)]; [done|].
    destruct (starts_with _ p) eqn:Hs; [|by exists []].
    apply starts_with_spec in Hs as [rest Hs].
    assert (0 < length p)%nat by (destruct p; [done|simpl; lia]).
    apply (f_equal length) in Hs. rewrite length_drop, length_app in Hs.
    destruct (Hnext c (depth + length p)%nat) as [path ->]; [by eexists|lia|lia|by exists path].
  - destruct Hwf as [|(Hl & Hcs & _)]; [done|]. case Nat.ltb_spec; intros Hlt; [|by exists []].
    destruct (drop_nibble nibbles depth) as (i & Hi & Hin & _); [done..|].
    destruct (child_slot cs i) as [o Ho]; [done..|].
    rewrite (index_at_ok _ _ _ Hi). cbn [mbind outcome_bind]. rewrite (index_at_ok _ _ _ Ho).
    cbn [mbind outcome_bind]. destruct o as [c|]; [|by exists []].
    destruct (Hnext c (depth + 1)%nat) as [path ->]; [by apply (Hcs _ _ Ho)|lia|lia|by exists path].
Qed.

(** [prove] always returns a proof, for present and absent keys, that
    states what [get] reads; [verify_proof] accepts it exactly when the trie
    is not empty, unless a digest clashes. *)
Theorem proofs_verify strict t key : reach strict t -> Forall is_byte key ->
  node_clash \/ exists proof, prove t key = Ok (Some proof) /\
    proof_root proof = root t /\ get t key = Ok (proof_value proof) /\
    verify_proof proof = bool_decide (root t <> HASH_ZERO).
Proof.
  intros Hr Hk. destruct (reach_ok strict t Hr) as [?|Hok]; [by left|].
  destruct (get_spec strict t key Hok Hk) as (o & Eo & _). destruct Hok as [Hinv Hroot _].
  destruct (prove_recursive_spec strict (S (length (key_to_nibbles key))) (nodes t) (root t)
    (key_to_nibbles key) 0%nat [] Hinv Hroot (key_nibbles key Hk)) as (n & path & Hn & E); [lia..|].
  assert (Hv : node_clash \/ bool_decide (hash n = root t) = bool_decide (root t <> HASH_ZERO)).
  { destruct (decide (root t = HASH_ZERO)) as [Ez|Hnz].
    - rewrite Ez. destruct (decide (hash n = HASH_ZERO)); [left; right; by eauto|right].
      rewrite !bool_decide_eq_false_2; [done|auto..].
    - destruct (proj2 Hinv _ _ Hn Hnz) as [Eh _]. right. rewrite <- Eh.
      by rewrite !bool_decide_eq_true_2. }
  destruct Hv as [?|Hv]; [by left|right].
  exists (mkProof key o (n :: path) (root t)). unfold prove. rewrite E. cbn [mbind outcome_bind].
  rewrite Eo. by split_and!.
Qed.

(** A proof that verifies does not bind what it claims: with the key and
    the value replaced by any others, and the nodes after the first by any
    others, it verifies too. *)
Theorem verify_ignores_claim proof node path key value :
  proof_nodes proof = node :: path -> verify_proof proof = true ->
  forall path', verify_proof (mkProof key value (node :: path') (proof_root proof)) = true.
Proof. unfold verify_proof. intros -> H path'. done. Qed.
End trie.

(** ** Concrete tries *)
Module Sample.

(** An injective encoding, and the identity as digest: no two nodes clash, and
    none has the empty root as digest ([plain_clash_free]). *)
Definition node_repr (n : TrieNode) :
    () + list Z * list Z + (list Z * Hash + list (option Hash) * option (list Z)) :=
  match n with
  | Empty => inl (inl ())
  | Leaf k v => inl (inr (k, v))
  | Extension p c => inr (inl (p, c))
  | Branch cs b => inr (inr (cs, b))
  end.
#[local] Instance plain_json : ToVec TrieNode := fun n => Some [Zpos (encode (node_repr n))].
#[local] Instance plain_crypto : CryptoLib := {|
  blake3 := fun l => l;
  keccak := fun l => l;
  key_ok := fun _ => true;
  sig_ok := fun _ => true;
  verify_prehash := fun _ _ _ => true;
  verify_msg := fun _ _ _ => true;
  recover_prehash := fun _ sig _ => Some sig;
  sign_prehash := fun key _ => Some (key, 0);
  sign_msg := fun key _ => key;
  secret_ok := fun _ => true;
  public_point := fun key => key;
  public_compressed := fun key => key;
  hex_encode := fun _ => ""
|}.

Lemma plain_clash_free : ~ node_clash.
Proof.
  intros [(n & n' & Hne & [= E])|[n [=]]]. apply Hne.
  apply (inj encode) in E. by destruct n, n'; simplify_eq/=.
Qed.

(** The keys of the test in trie.rs *)
Definition hello : list Z := [104; 101; 108; 108; 111].
Definition help : list Z := [104; 101; 108; 112].
Definition hell : list Z := [104; 101; 108; 108].
Definition two : MerkleTrie := (insert help [2] (insert hello [1] new_trie).1).1.

Example two_reads : get two hello = Ok (Some [1]) /\ get two help = Ok (Some [2]) /\
  get two hell = Ok None.
Proof. by vm_compute. Qed.
(** Both keys share an extension, so neither can be deleted. *)
Example delete_below_extension : (delete hello two).2 = Ok () /\
  get (delete hello two).1 hello = Ok (Some [1]).
Proof. by vm_compute. Qed.
(** The new key ends inside the shared prefix: [remaining[common_len + 1..]] *)
Example prefix_key_panics : (insert [104; 101] [3] two).2 = Panic.
Proof. by vm_compute. Qed.
Example prefix_key_below_leaf : get (insert hell [3] (insert hello [1] new_trie).1).1 hell = Ok (Some [3]).
Proof. by vm_compute. Qed.
(** A proof about the empty trie is refused. *)
Example empty_proof_refused : exists p, prove new_trie hello = Ok (Some p) /\ verify_proof p = false.
Proof. eexists. split; [by vm_compute|by vm_compute]. Qed.

Lemma two_step key value t : (insert key value t).2 = Ok () ->
  insert key value t = ((insert key value t).1, Ok ()).
Proof. intros <-. apply surjective_pairing. Qed.
Lemma bytes_of l : forallb (fun b => (0 <=? b) && (b <? 256)) l = true -> Forall is_byte l.
Proof.
  intros H. apply Forall_forall. intros b Hb. rewrite forallb_forall in H.
  apply list_elem_of_In, H in Hb. unfold is_byte. lia.
Qed.
Lemma two_reach strict : reach strict two.
Proof.
  apply (reach_insert strict (insert hello [1] new_trie).1 two help [2]).
  - apply (reach_insert strict new_trie _ hello [1]); [constructor|by apply bytes_of|].
    apply two_step. by vm_compute.
  - by apply bytes_of.
  - apply two_step. by vm_compute.
Qed.

Lemma insert_then_get_witness :
  (exists t', insert hell [3] two = (t', Ok ()) /\ forall k, Forall is_byte k ->
     get t' k = if decide (k = hell) then Ok (Some [3]) else get two k) \/
  (exists t' rest v, insert hell [3] two = (t', Panic) /\ rest <> [] /\ Forall is_byte rest /\
     get two (hell ++ rest) = Ok (Some v)).
Proof.
  destruct (insert_then_get true two hell [3]) as [C|R]; [apply two_reach|by apply bytes_of| |exact R].
  destruct (plain_clash_free C).
Defined.

Lemma delete_exact_witness : exists t', delete hello two = (t', Ok ()) /\
  (forall k, Forall is_byte k -> k <> hello -> get t' k = get two k) /\
  (blocked (nodes two) (root two) (key_to_nibbles hello) -> get t' hello = get two hello) /\
  (~ blocked (nodes two) (root two) (key_to_nibbles hello) -> get t' hello = Ok None).
Proof.
  destruct (delete_exact true two hello) as [C|R]; [apply two_reach|by apply bytes_of| |exact R].
  destruct (plain_clash_free C).
Defined.

Definition table : list (list Z * list Z) := [([1; 2], [10]); ([1; 3], [11]); ([9; 2], [12]); ([1; 2], [13])].
Definition table' : list (list Z * list Z) := [([9; 2], [12]); ([1; 2], [13]); ([1; 3], [11])].
Lemma table_keys : Forall (fun entry => length entry.1 = 2%nat /\ Forall is_byte entry.1) table.
Proof. repeat constructor; by vm_compute. Qed.
Lemma table_keys' : Forall (fun entry => length entry.1 = 2%nat /\ Forall is_byte entry.1) table'.
Proof. repeat constructor; by vm_compute. Qed.

Lemma trie_refines_map_witness : exists t, insert_all table new_trie = (t, Ok ()) /\
  forall k, Forall is_byte k -> get t k = Ok (map_of ∅ table !! k).
Proof.
  destruct (trie_refines_map 2 table table_keys) as [C|R]; [destruct (plain_clash_free C)|exact R].
Defined.

Lemma table_inserted entries : (insert_all entries new_trie).2 = Ok () ->
  insert_all entries new_trie = ((insert_all entries new_trie).1, Ok ()).
Proof. intros <-. apply surjective_pairing. Qed.
Lemma trie_root_is_canonical_witness :
  root (insert_all table new_trie).1 = root (insert_all table' new_trie).1 <->
  map_of ∅ table = map_of ∅ table'.
Proof.
  destruct (trie_root_is_canonical 2 table table' _ _ table_keys table_keys'
    (table_inserted table ltac:(by vm_compute)) (table_inserted table' ltac:(by vm_compute)))
    as [C|R]; [destruct (plain_clash_free C)|exact R].
Defined.
(** Both sides hold here. *)
Example tables_agree : map_of ∅ table = map_of ∅ table'.
Proof. by vm_compute. Qed.

Lemma proofs_verify_witness : exists proof, prove two hello = Ok (Some proof) /\
  proof_root proof = root two /\ get two hello = Ok (proof_value proof) /\
  verify_proof proof = bool_decide (root two <> HASH_ZERO).
Proof.
  destruct (proofs_verify true two hello) as [C|R]; [apply two_reach|by apply bytes_of| |exact R].
  destruct (plain_clash_free C).
Defined.
End Sample.
