(* ===== verification/Storage.v ===== *)
(** * The account store (crates/nexus-state: storage.rs)

    A [DashMap] is a [gmap]; the JSON encoder of an account is serde_json's
    ([ToVec]).  [account.balance + amount] panics on overflow ([U256::add]), the
    nonce wraps. *)
From stdpp Require Import base numbers list gmap strings.
From Stdlib Require Import ZArith Lia.
From S2P Require Import Prelude Types Crypto Slices Trie.
#[local] Open Scope Z_scope.

Record AccountState := mkAccountState {
  nonce : Z;
  balance : U256;
  code_hash : Hash;
  storage_root : Hash
}.
#[export] Instance AccountState_eq_dec : EqDecision AccountState.
Proof. solve_decision. Defined.
(** [#[derive(Default)]] *)
Definition default_account : AccountState := mkAccountState 0 U256.ZERO HASH_ZERO HASH_ZERO.

(** The assignments [account.f = v] *)
Definition set_acc_nonce (n : Z) (a : AccountState) : AccountState :=
  mkAccountState n (balance a) (code_hash a) (storage_root a).
Definition set_acc_balance (b : U256) (a : AccountState) : AccountState :=
  mkAccountState (nonce a) b (code_hash a) (storage_root a).
Definition set_acc_code_hash (h : Hash) (a : AccountState) : AccountState :=
  mkAccountState (nonce a) (balance a) h (storage_root a).

Record StateDb := mkStateDb {
  accounts : gmap Address AccountState;
  code : gmap Hash (list Z);
  storage : gmap (Address * U256) U256;
  trie : MerkleTrie
}.
(** [StateDb::new] *)
Definition new_db : StateDb := mkStateDb ∅ ∅ ∅ new_trie.

Definition state_root (s : StateDb) : Hash := root (trie s).

(** ** Accounts *)
Definition get_account (s : StateDb) (address : Address) : AccountState :=
  default default_account (accounts s !! address).
Definition set_account (s : StateDb) (address : Address) (account : AccountState) : StateDb :=
  mkStateDb (<[address := account]> (accounts s)) (code s) (storage s) (trie s).
Definition get_balance (s : StateDb) (address : Address) : U256 := balance (get_account s address).
Definition set_balance (s : StateDb) (address : Address) (b : U256) : StateDb :=
  set_account s address (set_acc_balance b (get_account s address)).
Definition add_balance (address : Address) (amount : U256) : M StateDb StateError () := fun s =>
  let account := get_account s address in
  match U256.add (balance account) amount with
  | Ok b => (set_account s address (set_acc_balance b account), Ok ())
  | Err e => (s, Err e)
  | Panic => (s, Panic)
  | Blocked => (s, Blocked)
  end.
Definition sub_balance (address : Address) (amount : U256) : M StateDb StateError () := fun s =>
  let account := get_account s address in
  if U256.ltb (balance account) amount then (s, Err (Storage "Insufficient balance"))
  else
    match U256.sub (balance account) amount with
    | Ok b => (set_account s address (set_acc_balance b account), Ok ())
    | Err e => (s, Err e)
    | Panic => (s, Panic)
    | Blocked => (s, Blocked)
    end.
Definition get_nonce (s : StateDb) (address : Address) : Z := nonce (get_account s address).
Definition set_nonce (s : StateDb) (address : Address) (n : Z) : StateDb :=
  set_account s address (set_acc_nonce n (get_account s address)).
Definition increment_nonce (s : StateDb) (address : Address) : StateDb :=
  set_account s address (set_acc_nonce (nonce (get_account s address) +! 1) (get_account s address)).

(** ** Code and storage *)
Definition get_code_hash (s : StateDb) (address : Address) : Hash := code_hash (get_account s address).
Definition get_code (s : StateDb) (address : Address) : list Z :=
  let account := get_account s address in
  default [] (code s !! code_hash account).
Definition set_code `{CryptoLib} (s : StateDb) (address : Address) (bytes : list Z) : StateDb :=
  let code_hash := mkHash (keccak bytes) in
  let s := mkStateDb (accounts s) (<[code_hash := bytes]> (code s)) (storage s) (trie s) in
  set_account s address (set_acc_code_hash code_hash (get_account s address)).
Definition get_storage (s : StateDb) (address : Address) (key : U256) : U256 :=
  default U256.ZERO (storage s !! (address, key)).
Definition set_storage (s : StateDb) (address : Address) (key value : U256) : StateDb :=
  if bool_decide (value = U256.ZERO)
  then mkStateDb (accounts s) (code s) (base.delete (address, key) (storage s)) (trie s)
  else mkStateDb (accounts s) (code s) (<[(address, key) := value]> (storage s)) (trie s).

Definition account_exists (s : StateDb) (address : Address) : bool :=
  bool_decide (is_Some (accounts s !! address)).
Definition is_empty (s : StateDb) (address : Address) : bool :=
  let account := get_account s address in
  (nonce account =? 0) && bool_decide (balance account = U256.ZERO)
  && bool_decide (code_hash account = HASH_ZERO).
Definition delete_account (s : StateDb) (address : Address) : StateDb :=
  mkStateDb (base.delete address (accounts s)) (code s)
    (filter (fun slot => slot.1.1 <> address) (storage s)) (trie s).
Definition account_count (s : StateDb) : nat := size (accounts s).

(** ** Commitment *)
Section commit.
Context `{CryptoLib} `{ToVec TrieNode} `{ToVec AccountState} `{HashOrder}.

Definition encode_account (account : AccountState) : list Z := default [] (to_vec account).

(** The [for] loop; [.ok()] drops the error of an insertion. *)
Fixpoint commit_loop (accounts : list (Address * AccountState)) : M MerkleTrie StateError () :=
  match accounts with
  | [] => mret ()
  | (address, account) :: accounts => fun trie =>
      match insert (addr_bytes address) (encode_account account) trie with
      | (trie, Ok _) | (trie, Err _) => commit_loop accounts trie
      | (trie, Panic) => (trie, Panic)
      | (trie, Blocked) => (trie, Blocked)
      end
  end.
Definition commit : M StateDb StateError Hash := fun s =>
  let '(trie, outcome) := commit_loop (entries (accounts s)) (trie s) in
  (mkStateDb (accounts s) (code s) (storage s) trie, (_ ← outcome; Ok (root trie))).
End commit.
