(* ===== verification/Checkpoint.v ===== *)
(** * Checkpoints (crates/nexus-state: checkpoint.rs)

    The manager's tables, and the change records that move a [StateDb] forward
    and back.  Every method takes its locks one after the other and is atomic
    here. *)
From stdpp Require Import base numbers list gmap strings.
From Stdlib Require Import ZArith Lia.
From S2P Require Import Prelude Types Crypto Slices Trie Storage.
#[local] Open Scope Z_scope.

Abbreviation CheckpointId := Z.

Inductive StateChange :=
  | BalanceChange (address : Address) (old_value new_value : U256)
  | NonceChange (address : Address) (old_value new_value : Z)
  | CodeChange (address : Address) (old_code new_code : list Z)
  | StorageChange (address : Address) (key old_value new_value : U256)
  | AccountCreated (address : Address)
  | AccountDeleted (address : Address) (balance : U256) (nonce : Z).

Record Checkpoint := mkCheckpoint {
  cp_id : CheckpointId;
  cp_vertex_hash : Hash;
  cp_state_root : Hash;
  cp_changes : list StateChange;
  cp_parents : list CheckpointId
}.

Record CheckpointManager := mkManager {
  checkpoints : gmap CheckpointId Checkpoint;
  vertex_to_checkpoint : gmap Hash CheckpointId;
  next_id : CheckpointId;
  finalized_checkpoint : CheckpointId
}.
(** [CheckpointManager::new] *)
Definition new_manager : CheckpointManager := mkManager ∅ ∅ 1 0.

Definition create_checkpoint (m : CheckpointManager) (vertex_hash state_root : Hash)
    (changes : list StateChange) (parent_vertices : list Hash) : CheckpointManager * CheckpointId :=
  let id := next_id m in
  let parents := omap (fun h => vertex_to_checkpoint m !! h) parent_vertices in
  let checkpoint := mkCheckpoint id vertex_hash state_root changes parents in
  (mkManager (<[id := checkpoint]> (checkpoints m))
     (<[vertex_hash := id]> (vertex_to_checkpoint m)) (next_id m +! 1) (finalized_checkpoint m), id).

Definition get_checkpoint (m : CheckpointManager) (id : CheckpointId) : option Checkpoint :=
  checkpoints m !! id.
Definition get_checkpoint_for_vertex (m : CheckpointManager) (vertex_hash : Hash) : option Checkpoint :=
  id ← vertex_to_checkpoint m !! vertex_hash; get_checkpoint m id.
Definition get_state_root (m : CheckpointManager) (id : CheckpointId) : option Hash :=
  cp_state_root <$> checkpoints m !! id.

(** ** Finalization *)
Section prune.
Context `{HashOrder}.

Definition prune_before (m : CheckpointManager) (before_id : CheckpointId) : CheckpointManager :=
  let to_remove :=
    (fun entry => (entry.1, cp_vertex_hash entry.2))
      <$> filter (fun entry => entry.1 < before_id) (entries (checkpoints m)) in
  foldl (fun m removed =>
      mkManager (base.delete removed.1 (checkpoints m)) (base.delete removed.2 (vertex_to_checkpoint m))
        (next_id m) (finalized_checkpoint m))
    m to_remove.

Definition finalize (id : CheckpointId) : M CheckpointManager StateError () := fun m =>
  if bool_decide (checkpoints m !! id = None)
  then (m, Err (CheckpointErr "Checkpoint not found"))
  else
    let m := mkManager (checkpoints m) (vertex_to_checkpoint m) (next_id m) id in
    (prune_before m id, Ok ()).
End prune.
Definition finalized (m : CheckpointManager) : CheckpointId := finalized_checkpoint m.

(** ** Moving a state *)
Section changes.
Context `{CryptoLib}.

Definition apply_change (state : StateDb) (change : StateChange) : StateDb :=
  match change with
  | BalanceChange address _ new_value => set_balance state address new_value
  | NonceChange address _ new_value => set_nonce state address new_value
  | CodeChange address _ new_code => set_code state address new_code
  | StorageChange address key _ new_value => set_storage state address key new_value
  | AccountCreated _ => state
  | AccountDeleted address _ _ => delete_account state address
  end.
Definition revert_change (state : StateDb) (change : StateChange) : StateDb :=
  match change with
  | BalanceChange address old_value _ => set_balance state address old_value
  | NonceChange address old_value _ => set_nonce state address old_value
  | CodeChange address old_code _ => set_code state address old_code
  | StorageChange address key old_value _ => set_storage state address key old_value
  | AccountCreated address => delete_account state address
  | AccountDeleted address balance nonce => set_nonce (set_balance state address balance) address nonce
  end.

Definition apply_checkpoint (m : CheckpointManager) (id : CheckpointId) : M StateDb StateError () :=
  fun state =>
  match get_checkpoint m id with
  | None => (state, Err (CheckpointErr "Checkpoint not found"))
  | Some checkpoint => (foldl apply_change state (cp_changes checkpoint), Ok ())
  end.
Definition revert_checkpoint (m : CheckpointManager) (id : CheckpointId) : M StateDb StateError () :=
  fun state =>
  match get_checkpoint m id with
  | None => (state, Err (CheckpointErr "Checkpoint not found"))
  | Some checkpoint => (foldl revert_change state (rev (cp_changes checkpoint)), Ok ())
  end.
End changes.

(** ** The chain to the finalized checkpoint *)

(** The [while] loop; [None] when the fuel does not suffice *)
Fixpoint chain_loop (fuel : nat) (m : CheckpointManager) (current : CheckpointId)
    (chain : list CheckpointId) : option (list CheckpointId) :=
  if finalized m <? current then
    match fuel with
    | O => None
    | S fuel =>
        let chain := (chain ++ [current])%list in
        match get_checkpoint m current with
        | Some cp => chain_loop fuel m (default 0 (head (cp_parents cp))) chain
        | None => Some chain
        end
    end
  else Some chain.
(** Identifiers decrease along the chain: one pass more than there are
    checkpoints is enough
    ([chain_terminates]). *)
Definition get_chain_to_finalized (m : CheckpointManager) (from : CheckpointId)
    : option (list CheckpointId) :=
  @rev CheckpointId <$> chain_loop (S (size (checkpoints m))) m from [].
