(* ===== verification/StorageProps.v ===== *)
(** * What a commitment says (theorems about storage.rs)

    The trie after [commit] holds every account, its root does not depend on
    the order in which the hash table is read, and it keeps accounts that were
    deleted. *)
From stdpp Require Import base numbers list gmap strings.
From Stdlib Require Import ZArith Lia.
From S2P Require Import Prelude Types Crypto Slices Trie TrieFacts TrieCanon TrieProps Storage.
#[local] Open Scope Z_scope.

Lemma elem_of_map_of m (l : list (list Z * list Z)) k v : NoDup l.*1 ->
  map_of m l !! k = Some v <-> (k, v) ∈ l \/ ((k ∉ l.*1) /\ m !! k = Some v).
Proof.
  revert m. induction l as [|[k' v'] l IH]; intros m Hd; simpl in *.
  - split; [intros; right; split; [by apply not_elem_of_nil|done]|].
    intros [?%elem_of_nil|[_ ?]]; done.
  - apply NoDup_cons in Hd as [Hk' Hd]. unfold map_of in *. simpl. rewrite IH by done.
    rewrite elem_of_cons, not_elem_of_cons, lookup_insert_Some.
    assert (Hin : (k', v) ∈ l -> False).
    { intros Hin. apply Hk'. apply (list_elem_of_fmap_2 fst) in Hin. done. }
    split.
    + intros [?|[? [[-> ->]|[? ?]]]]; [by left; right|left; by left|right; done].
    + intros [[[= -> ->]|?]|[[? ?] ?]]; [right; split; [done|by left]|by left|right].
      split; [done|right; done].
Qed.

Section storage.
Context `{CL : CryptoLib} `{SJ : ToVec TrieNode} `{SA : ToVec AccountState}.

(** The entries that [commit] writes *)
Definition account_entry (entry : Address * AccountState) : list Z * list Z :=
  (addr_bytes entry.1, encode_account entry.2).
Definition committed `{HashOrder} (s : StateDb) : list (list Z * list Z) :=
  account_entry <$> entries (accounts s).

(** One call, on addresses of twenty bytes *)
Inductive db_step `{HashOrder} : StateDb -> StateDb -> Prop :=
  | step_set_account s a acc : wf_addr a -> db_step s (set_account s a acc)
  | step_set_balance s a b : wf_addr a -> db_step s (set_balance s a b)
  | step_add_balance s s' a b o : wf_addr a -> add_balance a b s = (s', o) -> db_step s s'
  | step_sub_balance s s' a b o : wf_addr a -> sub_balance a b s = (s', o) -> db_step s s'
  | step_set_nonce s a n : wf_addr a -> db_step s (set_nonce s a n)
  | step_increment_nonce s a : wf_addr a -> db_step s (increment_nonce s a)
  | step_set_code s a bytes : wf_addr a -> db_step s (set_code s a bytes)
  | step_set_storage s a key value : wf_addr a -> db_step s (set_storage s a key value)
  | step_delete_account s a : wf_addr a -> db_step s (delete_account s a)
  | step_commit s s' h : commit s = (s', Ok h) -> db_step s s'.
Definition reach_db `{HashOrder} : StateDb -> Prop := rtc db_step new_db.

(** The invariant, with the contents of the trie *)
Definition wf_accounts (s : StateDb) : Prop :=
  forall a acc, accounts s !! a = Some acc -> wf_addr a.
Record db_ok (s : StateDb) (m : gmap (list Z) (list Z)) : Prop := {
  db_addrs : wf_accounts s;
  db_trie : represents 20 (trie s) m
}.

Lemma set_account_ok s m a acc : wf_addr a -> db_ok s m -> db_ok (set_account s a acc) m.
Proof.
  intros Ha [Hs Ht]. split; [|done]. intros b x. simpl. rewrite lookup_insert_Some.
  intros [[<- _]|[_ Hb]]; [done|by eapply Hs].
Qed.

Section order.
Context `{HO : HashOrder}.

Lemma committed_keys s : wf_accounts s ->
  Forall (fun entry => length entry.1 = 20%nat /\ Forall is_byte entry.1) (committed s).
Proof.
  intros Hs. apply Forall_fmap, Forall_forall. intros [a acc] Hin. apply elem_of_entries in Hin.
  by apply Hs in Hin.
Qed.
Lemma committed_nodup s : NoDup (committed s).*1.
Proof.
  unfold committed. rewrite <- list_fmap_compose.
  change (fst ∘ account_entry) with (addr_bytes ∘ @fst Address AccountState).
  rewrite list_fmap_compose. apply NoDup_fmap; [intros [] []; simpl; congruence|].
  rewrite entries_perm. apply NoDup_fst_map_to_list.
Qed.
Lemma elem_of_committed s a v :
  (addr_bytes a, v) ∈ committed s <-> exists acc, accounts s !! a = Some acc /\ v = encode_account acc.
Proof.
  unfold committed. rewrite list_elem_of_fmap. split.
  - intros ([a' acc] & [= E ->] & Hin). apply elem_of_entries in Hin.
    destruct a, a'; simpl in E; subst. by eauto.
  - intros (acc & Ha & ->). exists (a, acc). split; [done|]. by apply elem_of_entries.
Qed.

Lemma commit_loop_represents accs t m : represents 20 t m ->
  Forall (fun entry => length entry.1 = 20%nat /\ Forall is_byte entry.1) (account_entry <$> accs) ->
  node_clash \/ exists t', commit_loop accs t = (t', Ok ()) /\
    represents 20 t' (map_of m (account_entry <$> accs)).
Proof.
  revert t m. induction accs as [|[a acc] accs IH]; intros t m Hr Hk; [right; by exists t|].
  apply Forall_cons in Hk as [[Hl Hb] Hk].
  destruct (insert_represents 20 (addr_bytes a) (encode_account acc) t m Hr Hl Hb)
    as [?|(t1 & E & _ & Hr1)]; [by left|].
  destruct (IH t1 _ Hr1 Hk) as [?|(t' & E' & Hr')]; [by left|right].
  exists t'. split; [|done]. simpl. by rewrite E.
Qed.
Lemma commit_represents s m : db_ok s m ->
  node_clash \/ exists s', commit s = (s', Ok (state_root s')) /\ accounts s' = accounts s /\
    db_ok s' (map_of m (committed s)).
Proof.
  intros [Hs Ht].
  destruct (commit_loop_represents (entries (accounts s)) (trie s) m Ht (committed_keys s Hs))
    as [?|(t' & E & Hr)]; [by left|right].
  exists (mkStateDb (accounts s) (code s) (storage s) t'). unfold commit. rewrite E. by split_and!.
Qed.

Lemma db_step_ok s s' m : db_step s s' -> db_ok s m -> node_clash \/ exists m', db_ok s' m'.
Proof.
  intros Hstep Hok. destruct Hstep as [s a acc Ha|s a b Ha|s s' a b o Ha E|s s' a b o Ha E|s a n Ha|s a Ha
    |s a bytes Ha|s a key value Ha|s a Ha|s s' h E]; try (right; exists m; by apply set_account_ok).
  - right. exists m. unfold add_balance in E. destruct (U256.add _ _); simplify_eq; [|done..].
    by apply set_account_ok.
  - right. exists m. unfold sub_balance in E. destruct (U256.ltb _ _); [by simplify_eq|].
    destruct (U256.sub _ _); simplify_eq; [|done..]. by apply set_account_ok.
  - right. exists m. apply set_account_ok; [done|]. by destruct Hok.
  - right. exists m. unfold set_storage. case_bool_decide; by destruct Hok.
  - right. exists m. destruct Hok as [Hs Ht]. split; [|done]. intros b acc.
    simpl. rewrite lookup_delete_Some. intros [_ ?]. by eapply Hs.
  - destruct (commit_represents s m Hok) as [?|(s1 & E1 & _ & Hok1)]; [by left|right].
    exists (map_of m (committed s)). congruence.
Qed.
Lemma reach_db_ok s : reach_db s -> node_clash \/ exists m, db_ok s m.
Proof.
  revert s. refine (rtc_ind_r _ new_db _ _); [|intros s s' _ Hs IH].
  - right. exists ∅. split; [by intros a acc ?|]. apply new_represents.
  - destruct IH as [?|[m Hm]]; [by left|]. by eapply db_step_ok.
Qed.

(** On every reachable store [commit] succeeds; the trie then reads, at the
    address of every account, that account's encoding, and at every other
    address what it read before; the accounts are untouched; or a digest
    clashes. *)
Theorem commit_writes_accounts s : reach_db s ->
  node_clash \/ exists s', commit s = (s', Ok (state_root s')) /\ accounts s' = accounts s /\
    forall a, wf_addr a ->
      get (trie s') (addr_bytes a) =
        match accounts s !! a with
        | Some acc => Ok (Some (encode_account acc))
        | None => get (trie s) (addr_bytes a)
        end.
Proof.
  intros Hr. destruct (reach_db_ok s Hr) as [?|[m Hok]]; [by left|].
  destruct (commit_represents s m Hok) as [?|(s' & E & Ha & [_ [Hok' Hm' _]])]; [by left|right].
  exists s'. split; [done|]. split; [done|]. intros a [Hl Hb].
  destruct Hok as [_ [Hokt Hm _]].
  assert (Hin : forall v, contains (trie s') (addr_bytes a) v <->
    (exists acc, accounts s !! a = Some acc /\ v = encode_account acc) \/
    ((addr_bytes a ∉ (committed s).*1) /\ contains (trie s) (addr_bytes a) v)).
  { intros v. rewrite Hm', elem_of_map_of, elem_of_committed, Hm by (done || apply committed_nodup). done. }
  assert (Hnot : addr_bytes a ∉ (committed s).*1 <-> accounts s !! a = None).
  { rewrite eq_None_not_Some, list_elem_of_fmap. split; intros Hn.
    - intros [acc Hacc]. apply Hn. exists (addr_bytes a, encode_account acc).
      split; [done|]. apply elem_of_committed. by eauto.
    - intros ([k v] & Ek & Hv). apply Hn. simpl in Ek. subst k. apply elem_of_committed in Hv as (acc & ? & _). by eexists. }
  destruct (accounts s !! a) as [acc|] eqn:Hacc.
  - apply (get_is true); [done..|]. intros v. rewrite Hin. split.
    + intros [(acc' & [= <-] & ->)|[Hn%Hnot _]]; done.
    + intros [= <-]. left. by eauto.
  - apply (get_ext true _ true); [done..|]. intros v. rewrite Hin, Hnot. naive_solver.
Qed.

(** What a commit writes after a deletion was already there. *)
Lemma recommit_after_delete m accs s s1 a : accounts s = accs -> accounts s1 = accs ->
  map_of (map_of m (committed s)) (committed (delete_account s1 a)) = map_of m (committed s).
Proof.
  intros <- Ha1. apply map_eq. intros k. apply option_eq. intros v.
  rewrite elem_of_map_of by apply committed_nodup.
  assert (Hsub : forall k v, (k, v) ∈ committed (delete_account s1 a) -> (k, v) ∈ committed s).
  { intros k' v' ([b x] & E & Hb%elem_of_entries)%list_elem_of_fmap. rewrite E.
    simpl in Hb. apply lookup_delete_Some in Hb as [_ Hb]. rewrite Ha1 in Hb.
    apply elem_of_committed. by eauto. }
  split; [|intros Hk].
  - intros [Hin|[_ ?]]; [|done]. apply elem_of_map_of; [apply committed_nodup|]. left. by apply Hsub.
  - destruct (decide (k ∈ (committed (delete_account s1 a)).*1)) as [Hin|]; [left|by right].
    apply list_elem_of_fmap in Hin as ([k' v'] & Ek & Hin). simpl in Ek. subst k'.
    assert (E : map_of m (committed s) !! k = Some v').
    { apply elem_of_map_of; [apply committed_nodup|]. left. by apply Hsub. }
    rewrite E in Hk. by simplify_eq.
Qed.

(** Deleting an account does not take it out of the commitment: after a
    commit, deleting an account and committing again gives the same state root,
    and the trie still reads the deleted account at its address. *)
Theorem deleted_account_stays_committed s a acc : reach_db s -> accounts s !! a = Some acc ->
  node_clash \/ exists s1 s2 root, commit s = (s1, Ok root) /\
    commit (delete_account s1 a) = (s2, Ok root) /\ account_exists s2 a = false /\
    get (trie s2) (addr_bytes a) = Ok (Some (encode_account acc)).
Proof.
  intros Hr Hacc. destruct (reach_db_ok s Hr) as [?|[m Hok]]; [by left|].
  destruct (commit_represents s m Hok) as [?|(s1 & E1 & Ha1 & Hok1)]; [by left|].
  assert (Hd : db_ok (delete_account s1 a) (map_of m (committed s))).
  { destruct Hok1 as [Hs Ht]. split; [|done]. intros b x. simpl.
    rewrite lookup_delete_Some. intros [_ ?]. by eapply Hs. }
  destruct (commit_represents _ _ Hd) as [?|(s2 & E2 & Ha2 & Hok2)]; [by left|right].
  rewrite (recommit_after_delete m (accounts s) s s1 a eq_refl Ha1) in Hok2.
  destruct Hok as [Hs _], Hok1 as [_ Ht1], Hok2 as [_ Ht2].
  exists s1, s2, (state_root s1). split; [done|].
  assert (Hroot : state_root s2 = state_root s1) by by eapply represents_root.
  rewrite <- Hroot. split; [done|]. split.
  - unfold account_exists. rewrite Ha2. simpl. apply bool_decide_eq_false_2.
    rewrite lookup_delete_eq. by intros [].
  - destruct (Hs _ _ Hacc) as [Hl Hb], Ht2 as [Hok2 Hm2 _]. apply (get_contains true); [done..|].
    apply Hm2; [done|]. apply elem_of_map_of; [apply committed_nodup|]. left.
    apply elem_of_committed. by eauto.
Qed.
End order.

(** The state root of a fresh store depends on the accounts alone: two
    stores that have not committed yet, read in any two hash table orders,
    commit to the same root exactly when they hold the same encoded accounts;
    or a digest clashes. *)
Theorem state_root_is_order_free (HO1 HO2 : HashOrder) s1 s2 s1' s2' r1 r2 :
  wf_accounts s1 -> wf_accounts s2 -> trie s1 = new_trie -> trie s2 = new_trie ->
  commit (H2 := HO1) s1 = (s1', Ok r1) -> commit (H2 := HO2) s2 = (s2', Ok r2) ->
  node_clash \/ (r1 = r2 <-> encode_account <$> accounts s1 = encode_account <$> accounts s2).
Proof.
  intros Hs1 Hs2 Ht1 Ht2 E1 E2.
  assert (Hok : forall s, wf_accounts s -> trie s = new_trie -> db_ok s ∅)
    by (intros s ? Ht; split; [done|rewrite Ht; apply new_represents]).
  destruct (commit_represents (HO := HO1) s1 ∅) as [?|(t1 & F1 & _ & [_ Hr1])]; [by apply Hok|by left|].
  destruct (commit_represents (HO := HO2) s2 ∅) as [?|(t2 & F2 & _ & [_ Hr2])]; [by apply Hok|by left|].
  assert (t1 = s1' /\ r1 = state_root s1') as [-> ->] by (split; congruence).
  assert (t2 = s2' /\ r2 = state_root s2') as [-> ->] by (split; congruence).
  assert (Hmap : forall (HO : HashOrder) s a v,
    map_of ∅ (committed s) !! addr_bytes a = Some v <-> (encode_account <$> accounts s) !! a = Some v).
  { intros HO s a v. rewrite elem_of_map_of, elem_of_committed by apply committed_nodup.
    rewrite lookup_empty, lookup_fmap, fmap_Some. naive_solver. }
  assert (Hiff : map_of ∅ (committed (H := HO1) s1) = map_of ∅ (committed (H := HO2) s2) <->
    encode_account <$> accounts s1 = encode_account <$> accounts s2).
  { split; intros E; apply map_eq.
    - intros a. apply option_eq. intros v. by rewrite <- (Hmap HO1), <- (Hmap HO2), E.
    - intros k. apply option_eq. intros v.
      change k with (addr_bytes (mkAddress k)). by rewrite !Hmap, E. }
  rewrite <- Hiff. destruct (decide (root (trie s1') = root (trie s2'))) as [E|Hne].
  - destruct (represents_subset 20 _ _ _ _ Hr1 Hr2 E) as [?|H12]; [by left|].
    destruct (represents_subset 20 _ _ _ _ Hr2 Hr1 (eq_sym E)) as [?|H21]; [by left|].
    right. split; [|done]. intros _. by apply (anti_symm (⊆)).
  - right. split; [done|]. intros Hm. rewrite Hm in Hr1. by eapply represents_root.
Qed.
End storage.

(** ** A concrete store *)
Module Sample.
Import TrieProps.Sample.
#[local] Existing Instance plain_json.
#[local] Existing Instance plain_crypto.
#[local] Instance account_json : ToVec AccountState := fun acc =>
  Some [nonce acc; U256.as_u64 (balance acc)].
#[local] Existing Instance canonical_order.

Definition addr (n : Z) : Address := mkAddress (replicate 19 7 ++ [n]).
Lemma addr_wf n : is_byte n -> wf_addr (addr n).
Proof. intros Hn. split; [done|]. apply Forall_app. split; [by repeat constructor|by constructor]. Qed.
Definition rich (n : Z) : AccountState := mkAccountState 0 (U256.from_u64 n) HASH_ZERO HASH_ZERO.
Definition store : StateDb := set_account (set_account new_db (addr 1) (rich 5)) (addr 2) (rich 6).
(** The same accounts, written the other way round *)
Definition store' : StateDb := set_account (set_account new_db (addr 2) (rich 6)) (addr 1) (rich 5).

Lemma store_reach : reach_db store.
Proof.
  eapply rtc_l; [apply (step_set_account _ (addr 1) (rich 5)), addr_wf; by compute|].
  apply rtc_once, (step_set_account _ (addr 2) (rich 6)), addr_wf. by compute.
Qed.
Lemma store_wf : wf_accounts store.
Proof.
  intros a acc. simpl. rewrite !lookup_insert_Some, lookup_empty.
  intros [[<- _]|[_ [[<- _]|[_ [=]]]]]; apply addr_wf; by compute.
Qed.
Lemma store_wf' : wf_accounts store'.
Proof.
  intros a acc. simpl. rewrite !lookup_insert_Some, lookup_empty.
  intros [[<- _]|[_ [[<- _]|[_ [=]]]]]; apply addr_wf; by compute.
Qed.

Example store_commits : get (trie (commit store).1) (addr_bytes (addr 2)) = Ok (Some [0; 6]).
Proof. by vm_compute. Qed.

Lemma commit_writes_accounts_witness :
  exists s', commit store = (s', Ok (state_root s')) /\ accounts s' = accounts store /\
    forall a, wf_addr a -> get (trie s') (addr_bytes a) =
      match accounts store !! a with
      | Some acc => Ok (Some (encode_account acc))
      | None => get (trie store) (addr_bytes a)
      end.
Proof.
  destruct (commit_writes_accounts store store_reach) as [C|R]; [destruct (plain_clash_free C)|exact R].
Defined.

Lemma deleted_account_stays_committed_witness :
  exists s1 s2 root, commit store = (s1, Ok root) /\
    commit (delete_account s1 (addr 1)) = (s2, Ok root) /\ account_exists s2 (addr 1) = false /\
    get (trie s2) (addr_bytes (addr 1)) = Ok (Some (encode_account (rich 5))).
Proof.
  destruct (deleted_account_stays_committed store (addr 1) (rich 5) store_reach) as [C|R];
    [reflexivity|destruct (plain_clash_free C)|exact R].
Defined.

Lemma committed_run (HO : HashOrder) s : is_Some (match (commit (H2 := HO) s).2 with Ok r => Some r | _ => None end) ->
  exists r, commit (H2 := HO) s = ((commit (H2 := HO) s).1, Ok r).
Proof. destruct (commit s) as [t [r| | |]]; simpl; intros [? [=]]. by exists r. Qed.
Lemma state_root_is_order_free_witness : exists r1 r2,
  (commit (H2 := canonical_order) store).2 = Ok r1 /\
  (commit (H2 := reversed_order) store').2 = Ok r2 /\
  (r1 = r2 <-> encode_account <$> accounts store = encode_account <$> accounts store').
Proof.
  destruct (committed_run canonical_order store ltac:(eexists; by vm_compute)) as [r1 E1].
  destruct (committed_run reversed_order store' ltac:(eexists; by vm_compute)) as [r2 E2].
  exists r1, r2. rewrite E1, E2. split; [reflexivity|]. split; [reflexivity|].
  destruct (state_root_is_order_free canonical_order reversed_order store store' _ _ r1 r2
    store_wf store_wf' eq_refl eq_refl E1 E2) as [C|R]; [destruct (plain_clash_free C)|exact R].
Defined.
End Sample.
