(* ===== verification/CheckpointProps.v ===== *)
(** * Checkpoints: the manager's tables and reverting (theorems about checkpoint.rs) *)
From stdpp Require Import base numbers list gmap strings sorting.
From Stdlib Require Import ZArith Lia Sorted.
From S2P Require Import Prelude Types Crypto Slices Trie Storage Checkpoint.
#[local] Open Scope Z_scope.

(** ** The manager's invariant *)
Section manager.
Context `{HO : HashOrder}.

(** One call.  Identifiers do not wrap: a run makes fewer than 2^64 checkpoints. *)
Inductive manager_step : CheckpointManager -> CheckpointManager -> Prop :=
  | step_create m vertex_hash state_root changes parent_vertices m' id :
      next_id m + 1 < B64 ->
      create_checkpoint m vertex_hash state_root changes parent_vertices = (m', id) ->
      manager_step m m'
  | step_finalize m id m' o : finalize id m = (m', o) -> manager_step m m'.
Definition reach_manager : CheckpointManager -> Prop := rtc manager_step new_manager.

Record manager_ok (m : CheckpointManager) : Prop := {
  ok_stored : forall id cp, checkpoints m !! id = Some cp ->
    cp_id cp = id /\ finalized_checkpoint m <= id < next_id m /\ 0 < id /\
    Forall (fun p => 0 < p < id) (cp_parents cp);
  ok_vertex : forall h id, vertex_to_checkpoint m !! h = Some id ->
    exists cp, checkpoints m !! id = Some cp /\ cp_vertex_hash cp = h;
  ok_finalized : 0 <= finalized_checkpoint m < next_id m /\
    (finalized_checkpoint m = 0 \/ is_Some (checkpoints m !! finalized_checkpoint m))
}.

(** *** Pruning *)
Definition remove_all (m : CheckpointManager) (removed : list (CheckpointId * Hash)) :=
  foldl (fun m removed =>
      mkManager (base.delete removed.1 (checkpoints m))
        (base.delete removed.2 (vertex_to_checkpoint m)) (next_id m) (finalized_checkpoint m))
    m removed.
Lemma remove_all_spec removed m :
  (forall id cp, checkpoints (remove_all m removed) !! id = Some cp <->
     checkpoints m !! id = Some cp /\ (id ∉ removed.*1)) /\
  (forall h id, vertex_to_checkpoint (remove_all m removed) !! h = Some id <->
     vertex_to_checkpoint m !! h = Some id /\ (h ∉ removed.*2)) /\
  next_id (remove_all m removed) = next_id m /\
  finalized_checkpoint (remove_all m removed) = finalized_checkpoint m.
Proof.
  revert m. induction removed as [|[i g] removed IH]; intros m.
  - split_and!; [..|done|done]; intros; simpl; (split; [|by intros []]);
      intros; (split; [done|apply not_elem_of_nil]).
  - destruct (IH (mkManager (base.delete i (checkpoints m))
      (base.delete g (vertex_to_checkpoint m)) (next_id m) (finalized_checkpoint m))) as (H1 & H2 & H3 & H4).
    split_and!; [| |done|done]; intros; simpl;
      [rewrite H1|rewrite H2]; simpl; rewrite lookup_delete_Some, not_elem_of_cons; naive_solver.
Qed.
Lemma prune_before_spec m b :
  (forall id cp, checkpoints (prune_before m b) !! id = Some cp <->
     checkpoints m !! id = Some cp /\ b <= id) /\
  (forall h id, vertex_to_checkpoint (prune_before m b) !! h = Some id <->
     vertex_to_checkpoint m !! h = Some id /\
     forall id' cp, checkpoints m !! id' = Some cp -> cp_vertex_hash cp = h -> b <= id') /\
  next_id (prune_before m b) = next_id m /\
  finalized_checkpoint (prune_before m b) = finalized_checkpoint m.
Proof.
  set (removed := (fun entry => (entry.1, cp_vertex_hash entry.2))
    <$> filter (fun entry => entry.1 < b) (entries (checkpoints m))).
  assert (Hin : forall id h, (id, h) ∈ removed <->
    exists cp, checkpoints m !! id = Some cp /\ cp_vertex_hash cp = h /\ id < b).
  { intros id h. unfold removed. rewrite list_elem_of_fmap. split.
    - intros ([i cp] & [= -> ->] & [? Hi%elem_of_entries]%list_elem_of_filter). by eauto.
    - intros (cp & Hc & <- & ?). exists (id, cp). split; [done|]. apply list_elem_of_filter.
      split; [done|by apply elem_of_entries]. }
  destruct (remove_all_spec removed m) as (H1 & H2 & H3 & H4).
  change (prune_before m b) with (remove_all m removed). split_and!; [| |done|done].
  - intros id cp. rewrite H1. split; intros [Hc Hn]; (split; [done|]).
    + destruct (Z.le_gt_cases b id); [done|]. destruct Hn. apply list_elem_of_fmap.
      exists (id, cp_vertex_hash cp). split; [done|]. apply Hin. eauto with lia.
    + intros ([i g] & -> & (cp' & ? & _ & ?)%Hin)%list_elem_of_fmap. simpl in Hn. lia.
  - intros h id. rewrite H2. split; intros [Hc Hn]; (split; [done|]).
    + intros id' cp Hcp Hh. destruct (Z.le_gt_cases b id'); [done|]. destruct Hn.
      apply list_elem_of_fmap. exists (id', h). split; [done|]. apply Hin. eauto with lia.
    + intros ([i g] & E & (cp' & Hcp & Hh & ?)%Hin)%list_elem_of_fmap. simpl in E. subst g.
      specialize (Hn i cp' Hcp Hh). lia.
Qed.

Lemma create_ok m vertex_hash state_root changes parents m' id : manager_ok m ->
  next_id m + 1 < B64 -> create_checkpoint m vertex_hash state_root changes parents = (m', id) ->
  manager_ok m'.
Proof.
  intros [Hs Hv [Hf Hd]] Hb [= <- <-].
  assert (Hn : next_id m +! 1 = next_id m + 1) by (apply add64_small; lia). split; simpl.
  - rewrite Hn. intros i cp. rewrite lookup_insert_Some. intros [[<- <-]|[_ Hc]].
    + split_and!; [done|lia..|]. apply Forall_forall. intros p Hp. simpl in Hp.
      apply list_elem_of_omap in Hp as (h & _ & Hh). apply Hv in Hh as (cp & Hc & _).
      destruct (Hs _ _ Hc) as (_ & ? & ? & _). lia.
    + destruct (Hs i cp Hc) as (? & ? & ? & ?). split_and!; (done || lia).
  - intros h i. rewrite lookup_insert_Some. intros [[<- <-]|[Hne Hh]].
    + eexists. split; [by rewrite lookup_insert_eq|done].
    + destruct (Hv h i Hh) as (cp & Hc & ?). exists cp. split; [|done].
      rewrite lookup_insert_ne; [done|]. destruct (Hs _ _ Hc) as (_ & ? & _). lia.
  - rewrite Hn. split; [lia|]. destruct Hd as [?|[cp Hc]]; [by left|right].
    rewrite lookup_insert_ne by lia. by exists cp.
Qed.
Lemma finalize_ok m id m' o : manager_ok m -> finalize id m = (m', o) -> manager_ok m'.
Proof.
  intros [Hs Hv [Hf Hd]]. unfold finalize. case_bool_decide as Hc; [by intros [= <- _]|].
  destruct (checkpoints m !! id) as [cp|] eqn:Hid; [|done]. intros [= <- _].
  destruct (prune_before_spec (mkManager (checkpoints m) (vertex_to_checkpoint m) (next_id m) id) id)
    as (H1 & H2 & H3 & H4). destruct (Hs id cp Hid) as (_ & ? & ? & _).
  split; rewrite ?H3, ?H4; simpl in *.
  - intros i c [Hi ?]%H1. destruct (Hs i c Hi) as (? & ? & ? & ?). split_and!; (done || lia).
  - intros h i [Hh Hkeep]%H2. destruct (Hv h i Hh) as (c & Hi & ?). exists c. split; [|done].
    apply H1. split; [done|by eapply Hkeep].
  - split; [lia|]. right. exists cp. apply H1. split; [done|lia].
Qed.
Lemma reach_manager_ok m : reach_manager m -> manager_ok m.
Proof.
  revert m. refine (rtc_ind_r _ new_manager _ _).
  - split; simpl; [by intros ? ? ?..|split; [lia|by left]].
  - intros m m' _ Hstep Hok. destruct Hstep; [by eapply create_ok|by eapply finalize_ok].
Qed.

(** Finalization on every reachable manager.  An unknown identifier is
    refused and nothing changes.  A known one is never below the finalized one;
    exactly the checkpoints below it go, and a vertex loses its entry exactly
    when some pruned checkpoint was made for the same vertex, also when its
    newest checkpoint stays. *)
Theorem finalize_exact m id : reach_manager m ->
  (checkpoints m !! id = None /\ finalize id m = (m, Err (CheckpointErr "Checkpoint not found"))) \/
  (exists m', finalize id m = (m', Ok ()) /\ finalized m <= finalized m' /\ finalized m' = id /\
     next_id m' = next_id m /\
     (forall i cp, get_checkpoint m' i = Some cp <-> get_checkpoint m i = Some cp /\ id <= i) /\
     (forall h cp, get_checkpoint_for_vertex m' h = Some cp <->
        get_checkpoint_for_vertex m h = Some cp /\
        forall i c, get_checkpoint m i = Some c -> cp_vertex_hash c = h -> id <= i)).
Proof.
  intros Hr. destruct (reach_manager_ok m Hr) as [Hs Hv [Hf Hd]].
  unfold finalize. case_bool_decide as Hc; [by left|right].
  destruct (checkpoints m !! id) as [cp|] eqn:Hid; [|done].
  destruct (prune_before_spec (mkManager (checkpoints m) (vertex_to_checkpoint m) (next_id m) id) id)
    as (H1 & H2 & H3 & H4). simpl in *. destruct (Hs id cp Hid) as (_ & ? & _).
  eexists. split; [done|]. unfold finalized. rewrite H3, H4. split_and!; [lia|done|done|done|].
  intros h c. unfold get_checkpoint_for_vertex, get_checkpoint. rewrite !bind_Some. split.
  - intros (i & [Hh Hk]%H2 & [Hi _]%H1). split; [by eauto|done].
  - intros [(i & Hh & Hi) Hk]. exists i. split; [by apply H2|]. apply H1. split; [done|].
    destruct (Hv h i Hh) as (c' & ? & ?). by eapply Hk.
Qed.

(** *** The chain to the finalized checkpoint *)
Definition below (m : CheckpointManager) (current : CheckpointId) : gmap CheckpointId Checkpoint :=
  filter (fun entry => entry.1 <= current) (checkpoints m).
Lemma below_shrinks m current cp p : checkpoints m !! current = Some cp -> p < current ->
  (size (below m p) < size (below m current))%nat.
Proof.
  intros Hc Hp. apply map_subset_size. split.
  - apply map_subseteq_spec. intros i c. unfold below. rewrite !map_lookup_filter_Some. simpl.
    intros [? ?]. split; [done|lia].
  - intros Hsub. rewrite map_subseteq_spec in Hsub. specialize (Hsub current cp).
    unfold below in Hsub. rewrite !map_lookup_filter_Some in Hsub. simpl in Hsub.
    destruct Hsub as [_ ?]; [split; [done|lia]|lia].
Qed.

(** What [chain] is, newest first: each entry the first parent of the one before *)
Inductive descends (m : CheckpointManager) : CheckpointId -> list CheckpointId -> Prop :=
  | descends_done current : current <= finalized m -> descends m current []
  | descends_unknown current : finalized m < current -> get_checkpoint m current = None ->
      descends m current [current]
  | descends_step current cp chain : finalized m < current -> get_checkpoint m current = Some cp ->
      descends m (default 0 (head (cp_parents cp))) chain -> descends m current (current :: chain).

Lemma chain_loop_spec m fuel current acc : manager_ok m -> (size (below m current) < fuel)%nat ->
  exists chain, chain_loop fuel m current acc = Some (acc ++ chain)%list /\ descends m current chain.
Proof.
  intros Hok. revert current acc. induction fuel as [|fuel IH]; intros current acc Hf; [lia|].
  cbn [chain_loop]. case Z.ltb_spec; intros Hlt.
  - destruct (get_checkpoint m current) as [cp|] eqn:Hc.
    + assert (Hp : default 0 (head (cp_parents cp)) < current).
      { destruct (ok_stored m Hok _ _ Hc) as (_ & _ & ? & Hp). destruct (cp_parents cp) as [|p ps]; simpl; [lia|].
        apply Forall_cons in Hp as [? _]. lia. }
      destruct (IH (default 0 (head (cp_parents cp))) (acc ++ [current])%list) as (chain & -> & Hd).
      { pose proof (below_shrinks m current cp _ Hc Hp). lia. }
      exists (current :: chain). rewrite <- (assoc_L app). split; [done|by econstructor].
    + exists [current]. split; [done|by constructor].
  - exists []. rewrite app_nil_r. split; [done|by constructor].
Qed.
Lemma descends_sorted m current chain : manager_ok m -> descends m current chain ->
  StronglySorted Z.lt (rev chain) /\ Forall (fun id => finalized m < id <= current) chain.
Proof.
  intros Hok Hd. induction Hd as [current Hle|current Hlt Hn|current cp chain Hlt Hc Hd [IHs IHf]].
  - split; constructor.
  - split; repeat constructor; lia.
  - assert (Hp : default 0 (head (cp_parents cp)) < current).
    { destruct (ok_stored m Hok _ _ Hc) as (_ & _ & ? & Hp). destruct (cp_parents cp) as [|p ps]; simpl; [lia|].
      apply Forall_cons in Hp as [? _]. lia. }
    split.
    + simpl. apply StronglySorted_app_2; [|done|by repeat constructor].
      intros x y Hx Hy. apply list_elem_of_singleton in Hy as ->.
      rewrite list_elem_of_In, <- in_rev, <- list_elem_of_In in Hx. rewrite Forall_forall in IHf. apply IHf in Hx. lia.
    + constructor; [lia|]. eapply Forall_impl; [exact IHf|]. simpl. intros. lia.
Qed.

(** [get_chain_to_finalized] ends on every reachable manager, and returns
    the chain of first parents from [from] down to the finalized checkpoint,
    strictly increasing, every identifier above the finalized one. *)
Theorem chain_terminates m from : reach_manager m ->
  exists chain, get_chain_to_finalized m from = Some (rev chain) /\ descends m from chain /\
    StronglySorted Z.lt (rev chain) /\ Forall (fun id => finalized m < id <= from) (rev chain).
Proof.
  intros Hr. pose proof (reach_manager_ok m Hr) as Hok.
  destruct (chain_loop_spec m (S (size (checkpoints m))) from [] Hok) as (chain & E & Hd).
  { apply Nat.lt_succ_r, map_subseteq_size, map_filter_subseteq. }
  exists chain. unfold get_chain_to_finalized. rewrite E. split; [done|]. split; [done|].
  destruct (descends_sorted m from chain Hok Hd) as [? Hf]. split; [done|]. by apply Forall_rev.
Qed.
End manager.

(** ** Reverting *)
Section revert.
Context `{CL : CryptoLib}.

(** Two codes with one digest, or a code whose digest is the empty one *)
Definition code_clash : Prop :=
  (exists x y, x <> y /\ keccak x = keccak y) \/ exists x, mkHash (keccak x) = HASH_ZERO.

(** Code is stored under its digest, and an account's digest is stored. *)
Record code_ok (s : StateDb) : Prop := {
  code_keyed : forall h bytes, code s !! h = Some bytes -> h = mkHash (keccak bytes);
  code_named : forall a acc, accounts s !! a = Some acc ->
    code_hash acc = HASH_ZERO \/ is_Some (code s !! code_hash acc)
}.

(** What the getters show of a state; a code may differ after a clash. *)
Record same_view (s t : StateDb) : Prop := {
  view_balance : forall a, get_balance s a = get_balance t a;
  view_nonce : forall a, get_nonce s a = get_nonce t a;
  view_code : forall a, code_clash \/ get_code s a = get_code t a;
  view_storage : forall a k, get_storage s a k = get_storage t a k
}.
#[global] Instance same_view_equivalence : Equivalence same_view.
Proof.
  split.
  - intros s. split; by auto.
  - intros s t [? ? Hc ?]. split; auto. intros a. destruct (Hc a); auto.
  - intros s t u [Hb1 Hn1 Hc1 Hs1] [Hb2 Hn2 Hc2 Hs2]. split; intros a.
    + by rewrite Hb1.
    + by rewrite Hn1.
    + destruct (Hc1 a) as [?| ->]; [by left|apply Hc2].
    + intros k. by rewrite Hs1.
Qed.

Lemma db_account_set s a acc b :
  get_account (set_account s a acc) b = if decide (a = b) then acc else get_account s b.
Proof.
  unfold get_account. simpl. case_decide as E; [subst; by rewrite lookup_insert_eq|].
  by rewrite lookup_insert_ne.
Qed.
Lemma get_code_set_account s a acc b : code_hash acc = code_hash (get_account s a) ->
  get_code (set_account s a acc) b = get_code s b.
Proof.
  intros E. unfold get_code. rewrite db_account_set. simpl. case_decide; [|done]. subst. by rewrite E.
Qed.
Lemma get_code_set_code s a bytes b : code_ok s ->
  code_clash \/ get_code (set_code s a bytes) b = if decide (a = b) then bytes else get_code s b.
Proof.
  intros [Hk Hn]. unfold get_code, set_code. rewrite db_account_set. simpl.
  case_decide as E; [right; by rewrite lookup_insert_eq|].
  change (get_account (mkStateDb _ _ _ _) b) with (get_account s b).
  destruct (decide (mkHash (keccak bytes) = code_hash (get_account s b))) as [Eh|Hne];
    [|right; by rewrite lookup_insert_ne].
  rewrite Eh, lookup_insert_eq. unfold get_account in *.
  destruct (accounts s !! b) as [acc|] eqn:Hb; simpl in *; [|left; right; by eexists].
  destruct (Hn b acc Hb) as [Hz|[old Hold]]; [left; right; exists bytes; congruence|].
  rewrite Hold. simpl. destruct (decide (bytes = old)) as [->|?]; [by right|].
  left; left. exists bytes, old. split; [done|]. apply Hk in Hold. congruence.
Qed.

Lemma set_account_code_ok s a acc : code_ok s -> code_hash acc = code_hash (get_account s a) ->
  code_ok (set_account s a acc).
Proof.
  intros [Hk Hn] E. split; [done|]. intros b x. simpl. rewrite lookup_insert_Some.
  intros [[<- <-]|[_ Hb]]; [|by eapply Hn]. rewrite E. unfold get_account.
  destruct (accounts s !! a) as [y|] eqn:Ha; simpl; [by eapply Hn|by left].
Qed.
Lemma set_code_code_ok s a bytes : code_ok s -> code_ok (set_code s a bytes).
Proof.
  intros [Hk Hn]. split; simpl.
  - intros h x. rewrite lookup_insert_Some. intros [[<- <-]|[_ ?]]; [done|by apply Hk].
  - intros b acc. rewrite lookup_insert_Some. intros [[<- <-]|[_ Hb]]; simpl.
    + right. by rewrite lookup_insert_eq.
    + destruct (Hn b acc Hb) as [?|Hs]; [by left|right]. by apply lookup_insert_is_Some'; right.
Qed.

(** Creations and deletions of accounts are excluded: see [Sample]. *)
Definition plain_change (c : StateChange) : Prop :=
  match c with AccountCreated _ | AccountDeleted _ _ _ => False | _ => True end.
(** The change was recorded against the state: its old value is the one there. *)
Definition recorded (s : StateDb) (change : StateChange) : Prop :=
  match change with
  | BalanceChange a old_value _ => get_balance s a = old_value
  | NonceChange a old_value _ => get_nonce s a = old_value
  | CodeChange a old_code _ => get_code s a = old_code
  | StorageChange a key old_value _ => get_storage s a key = old_value
  | AccountCreated _ | AccountDeleted _ _ _ => False
  end.
Fixpoint all_recorded (s : StateDb) (changes : list StateChange) : Prop :=
  match changes with
  | [] => True
  | change :: changes => recorded s change /\ all_recorded (apply_change s change) changes
  end.
Lemma recorded_plain s c : recorded s c -> plain_change c.
Proof. by destruct c. Qed.

Lemma revert_code_ok s c : plain_change c -> code_ok s -> code_ok (revert_change s c).
Proof.
  intros Hp Hok. destruct c; simpl in *; try done;
    try first [by apply set_account_code_ok | by apply set_code_code_ok].
  unfold set_storage. case_bool_decide; by destruct Hok.
Qed.

Lemma db_storage_set s a k v b l :
  get_storage (set_storage s a k v) b l = if decide ((a, k) = (b, l)) then v else get_storage s b l.
Proof.
  unfold get_storage, set_storage. case_bool_decide as Hz; simpl; case_decide as E.
  - rewrite E, lookup_delete_eq. by subst.
  - by rewrite lookup_delete_ne.
  - by rewrite E, lookup_insert_eq.
  - by rewrite lookup_insert_ne.
Qed.

(** The getters after a reverted change: the old value, elsewhere as before *)
Definition old_view (s : StateDb) (c : StateChange) (t : StateDb) : Prop :=
  (forall a, get_balance t a = match c with
     | BalanceChange b v _ => if decide (b = a) then v else get_balance s a | _ => get_balance s a end) /\
  (forall a, get_nonce t a = match c with
     | NonceChange b v _ => if decide (b = a) then v else get_nonce s a | _ => get_nonce s a end) /\
  (forall a, code_clash \/ get_code t a = match c with
     | CodeChange b v _ => if decide (b = a) then v else get_code s a | _ => get_code s a end) /\
  (forall a k, get_storage t a k = match c with
     | StorageChange b l v _ => if decide ((b, l) = (a, k)) then v else get_storage s a k
     | _ => get_storage s a k end).
(** The change that writes the old value is the change read backwards. *)
Definition backwards (c : StateChange) : StateChange :=
  match c with
  | BalanceChange a o n => BalanceChange a n o
  | NonceChange a o n => NonceChange a n o
  | CodeChange a o n => CodeChange a n o
  | StorageChange a k o n => StorageChange a k n o
  | c => c
  end.
Lemma apply_backwards s c : plain_change c -> apply_change s c = revert_change s (backwards c).
Proof. by destruct c. Qed.

Lemma revert_view s c : plain_change c -> code_ok s -> old_view s c (revert_change s c).
Proof.
  intros Hp Hok. unfold old_view.
  destruct c as [b v w|b v w|b v w|b l v w| |]; simpl; try done; split_and!; intros a; try intros k;
    unfold get_balance, get_nonce, set_balance, set_nonce, set_code;
    rewrite ?db_account_set; try (right; by apply get_code_set_account);
    try (case_decide; subst; done); try done.
  - by apply get_code_set_code.
  - unfold get_account, set_storage. by case_bool_decide.
  - unfold get_account, set_storage. by case_bool_decide.
  - right. unfold get_code, get_account, set_storage. by case_bool_decide.
  - apply db_storage_set.
Qed.

Lemma revert_compat s t c : plain_change c -> code_ok s -> code_ok t -> same_view s t ->
  same_view (revert_change s c) (revert_change t c).
Proof.
  intros Hp Hs Ht [Vb Vn Vc Vs].
  destruct (revert_view s c Hp Hs) as (Sb & Sn & Sc & Ss), (revert_view t c Hp Ht) as (Tb & Tn & Tc & Ts).
  split; intros a.
  - rewrite Sb, Tb. destruct c; try case_decide; done.
  - rewrite Sn, Tn. destruct c; try case_decide; done.
  - destruct (Sc a) as [?| ->]; [by left|]. destruct (Tc a) as [?| ->]; [by left|].
    destruct c; try case_decide; by auto.
  - intros k. rewrite Ss, Ts. destruct c; try case_decide; done.
Qed.
Lemma revert_applied s c : recorded s c -> code_ok s ->
  same_view (revert_change (apply_change s c) c) s.
Proof.
  intros Hr Hok. pose proof (recorded_plain s c Hr) as Hp.
  assert (Hb : plain_change (backwards c)) by by destruct c.
  rewrite apply_backwards by done.
  destruct (revert_view s (backwards c) Hb Hok) as (Sb & Sn & Sc & Ss).
  destruct (revert_view _ c Hp (revert_code_ok s _ Hb Hok)) as (Tb & Tn & Tc & Ts).
  split; intros a.
  - rewrite Tb, Sb. destruct c; simpl in *; try case_decide; subst; done.
  - rewrite Tn, Sn. destruct c; simpl in *; try case_decide; subst; done.
  - destruct (Tc a) as [?| ->]; [by left|]. destruct (Sc a) as [?|E]; [by left|].
    right. destruct c; simpl in *; try case_decide; subst; done.
  - intros k. rewrite Ts, Ss. destruct c; simpl in *; try case_decide; simplify_eq; done.
Qed.

Lemma revert_all s changes : all_recorded s changes -> code_ok s ->
  code_ok (foldl apply_change s changes) /\
  (forall t, code_ok t -> same_view t (foldl apply_change s changes) ->
   same_view (foldl revert_change t (rev changes)) s /\ code_ok (foldl revert_change t (rev changes))).
Proof.
  revert s. induction changes as [|c changes IH]; intros s Hr Hok; [done|].
  destruct Hr as [Hc Hr]. pose proof (recorded_plain s c Hc) as Hp.
  assert (Hok1 : code_ok (apply_change s c)).
  { rewrite apply_backwards by done. apply revert_code_ok; [by destruct c|done]. }
  destruct (IH _ Hr Hok1) as [Hok2 Hback]. split; [done|].
  intros t Ht Hv. destruct (Hback t Ht Hv) as [Hv' Ht'].
  simpl. rewrite foldl_app. simpl. split; [|by apply revert_code_ok].
  rewrite <- (revert_applied s c) by done. by apply revert_compat.
Qed.

(** C34: Reverting a checkpoint undoes it.  When the changes of a checkpoint
    were recorded against the state (each old value is the one the changes
    before it leave) and none creates or deletes an account, applying and then
    reverting it gives back every balance, nonce, code and storage slot, unless
    two codes share a digest. *)
Theorem revert_undoes_apply m id cp s : get_checkpoint m id = Some cp ->
  code_ok s -> all_recorded s (cp_changes cp) ->
  exists s1 s2, apply_checkpoint m id s = (s1, Ok ()) /\
    revert_checkpoint m id s1 = (s2, Ok ()) /\ same_view s2 s.
Proof.
  intros Hc Hok Hr. destruct (revert_all s (cp_changes cp) Hr Hok) as [Hok1 Hback].
  unfold apply_checkpoint, revert_checkpoint. rewrite Hc.
  eexists _, _. split; [done|]. split; [done|]. by apply (Hback _ Hok1).
Qed.
End revert.

(** ** Concrete managers and states *)
Module Sample.
#[local] Existing Instance canonical_order.
(** An injective digest that is never the empty one *)
#[local] Instance tagged_crypto : CryptoLib := {|
  blake3 := fun l => l;
  keccak := fun l => 1 :: l;
  key_ok := fun _ => true;
  sig_ok := fun _ => true;
  verify_prehash := fun _ _ _ => true;
  verify_msg := fun _ _ _ => true;
  recover_prehash := fun _ sig _ => Some sig;
  sign_prehash := fun key _ => Some (key, 0);
  sign_msg := fun key _ => key;
  secret_ok := fun _ => true;
  public_point := fun key => key;
  public_compressed := fun key => key;
  hex_encode := fun _ => ""
|}.
Lemma tagged_clash_free : ~ code_clash.
Proof. intros [(x & y & Hne & [= E])|[x [=]]]. by apply Hne. Qed.

Definition h (n : Z) : Hash := mkHash (replicate 32 n).
Definition addr (n : Z) : Address := mkAddress (replicate 20 n).
Definition fund : list StateChange :=
  [BalanceChange (addr 1) U256.ZERO (U256.from_u64 5); NonceChange (addr 1) 0 1;
   CodeChange (addr 1) [] [96; 1]; StorageChange (addr 1) U256.ONE U256.ZERO U256.ONE;
   BalanceChange (addr 1) (U256.from_u64 5) (U256.from_u64 4)].
(** Three vertices in a row, and a second checkpoint for the first *)
Definition m1 : CheckpointManager := (create_checkpoint new_manager (h 1) (h 0) fund []).1.
Definition m2 : CheckpointManager := (create_checkpoint m1 (h 2) (h 0) [] [h 1]).1.
Definition m3 : CheckpointManager := (create_checkpoint m2 (h 3) (h 0) [] [h 2; h 1]).1.
Definition m4 : CheckpointManager := (create_checkpoint m3 (h 1) (h 0) [] [h 3]).1.
Lemma m4_reach : reach_manager m4.
Proof.
  unfold reach_manager. eapply rtc_l; [by apply (step_create new_manager (h 1) (h 0) fund [] m1 1)|].
  eapply rtc_l; [by apply (step_create m1 (h 2) (h 0) [] [h 1] m2 2)|].
  eapply rtc_l; [by apply (step_create m2 (h 3) (h 0) [] [h 2; h 1] m3 3)|].
  by apply rtc_once, (step_create m3 (h 1) (h 0) [] [h 3] m4 4).
Qed.

Example chain_of_m4 : get_chain_to_finalized m4 4 = Some [1; 2; 3; 4].
Proof. by vm_compute. Qed.
(** Pruning checkpoint 1 takes vertex 1's newer checkpoint 4 out of the map. *)
Example newer_checkpoint_lost : let m := (finalize 2 m4).1 in
  is_Some (get_checkpoint m 4) /\ get_checkpoint_for_vertex m (h 1) = None.
Proof. split; [eexists|]; by vm_compute. Qed.

Lemma finalize_exact_witness :
  (checkpoints m4 !! 2 = None /\
   finalize 2 m4 = (m4, Err (CheckpointErr "Checkpoint not found"))) \/
  (exists m', finalize 2 m4 = (m', Ok ()) /\ finalized m4 <= finalized m' /\ finalized m' = 2 /\
     next_id m' = next_id m4 /\
     (forall i cp, get_checkpoint m' i = Some cp <-> get_checkpoint m4 i = Some cp /\ 2 <= i) /\
     (forall v cp, get_checkpoint_for_vertex m' v = Some cp <->
        get_checkpoint_for_vertex m4 v = Some cp /\
        forall i c, get_checkpoint m4 i = Some c -> cp_vertex_hash c = v -> 2 <= i)).
Proof. apply (finalize_exact m4 2 m4_reach). Defined.

Lemma chain_terminates_witness :
  exists chain, get_chain_to_finalized m4 4 = Some (rev chain) /\ descends m4 4 chain /\
    StronglySorted Z.lt (rev chain) /\ Forall (fun id => finalized m4 < id <= 4) (rev chain).
Proof. apply (chain_terminates m4 4 m4_reach). Defined.

Lemma new_db_code_ok : code_ok new_db.
Proof. by split. Qed.
Lemma fund_recorded : all_recorded new_db fund.
Proof. by vm_compute. Qed.
Lemma revert_undoes_apply_witness : exists s1 s2, apply_checkpoint m1 1 new_db = (s1, Ok ()) /\
  revert_checkpoint m1 1 s1 = (s2, Ok ()) /\ same_view s2 new_db.
Proof.
  apply (revert_undoes_apply m1 1 (mkCheckpoint 1 (h 1) (h 0) fund []) new_db);
    [reflexivity|exact new_db_code_ok|exact fund_recorded].
Defined.

(** Reverting leaves an account that did not exist, with the digest of the
    empty code instead of none, so it no longer counts as empty. *)
Definition back : StateDb := (revert_checkpoint m1 1 (apply_checkpoint m1 1 new_db).1).1.
Example revert_leaves_account : account_exists new_db (addr 1) = false /\
  account_exists back (addr 1) = true /\ is_empty new_db (addr 1) = true /\
  is_empty back (addr 1) = false.
Proof. by vm_compute. Qed.
(** Reverting a deletion restores balance and nonce, not code and storage. *)
Definition contract : StateDb := foldl apply_change new_db fund.
Definition removal : StateChange := AccountDeleted (addr 1) (U256.from_u64 4) 1.
Example revert_deletion_loses : let s := revert_change (apply_change contract removal) removal in
  get_balance s (addr 1) = get_balance contract (addr 1) /\
  get_code contract (addr 1) = [96; 1] /\ get_code s (addr 1) = [] /\
  get_storage contract (addr 1) U256.ONE = U256.ONE /\ get_storage s (addr 1) U256.ONE = U256.ZERO.
Proof. by vm_compute. Qed.
End Sample.
