(* ===== verification/Iso8583.v ===== *)
(** * Card messages (crates/nexus-iso: iso8583.rs, the errors of lib.rs)

    The bitmaps are [u64]s, an element identifier is a [u8], the elements are a
    hash table.  [1u64 << n] masks [n] in the release profile; a read position
    is a [nat] (fields are at most 999 bytes, it does not overflow). *)
From stdpp Require Import base numbers list gmap strings sorting.
From Stdlib Require Import ZArith Lia.
From S2P Require Import Prelude Slices Text.
#[local] Open Scope Z_scope.

Inductive IsoError :=
  | XmlParseError (msg : string)
  | InvalidFormat (msg : string)
  | MissingField (msg : string)
  | ValidationFailed (msg : string)
  | UnknownMessageType (msg : string)
  | EncodingError (msg : string)
  | RoutingFailed (msg : string)
  | ComplianceFailed (msg : string).

Inductive MessageType :=
  | AuthorizationRequest | AuthorizationResponse
  | FinancialRequest | FinancialResponse
  | ReversalRequest | ReversalResponse
  | NetworkManagementRequest | NetworkManagementResponse.

Definition from_code (code : Z) : option MessageType :=
  if code =? 0x0100 then Some AuthorizationRequest
  else if code =? 0x0110 then Some AuthorizationResponse
  else if code =? 0x0200 then Some FinancialRequest
  else if code =? 0x0210 then Some FinancialResponse
  else if code =? 0x0400 then Some ReversalRequest
  else if code =? 0x0410 then Some ReversalResponse
  else if code =? 0x0800 then Some NetworkManagementRequest
  else if code =? 0x0810 then Some NetworkManagementResponse
  else None.
Definition to_code (t : MessageType) : Z :=
  match t with
  | AuthorizationRequest => 0x0100
  | AuthorizationResponse => 0x0110
  | FinancialRequest => 0x0200
  | FinancialResponse => 0x0210
  | ReversalRequest => 0x0400
  | ReversalResponse => 0x0410
  | NetworkManagementRequest => 0x0800
  | NetworkManagementResponse => 0x0810
  end.

Record Iso8583Message := mkMessage {
  mti : MessageType;
  primary_bitmap : Z;
  secondary_bitmap : option Z;
  elements : gmap Z (list Z)
}.
Definition new_message (t : MessageType) : Iso8583Message := mkMessage t 0 None ∅.

(** [1u64 << n] *)
Definition bit64 (n : Z) : Z := Z.shiftl 1 (n mod 64).
(** [(bitmap >> n) & 1 == 1] *)
Definition bit_set (bitmap n : Z) : bool := Z.land (Z.shiftr bitmap n) 1 =? 1.

Definition set_element (msg : Iso8583Message) (id : Z) (value : list Z) : Iso8583Message :=
  let msg :=
    if id <=? 64
    then mkMessage (mti msg) (Z.lor (primary_bitmap msg) (bit64 (64 - id)))
           (secondary_bitmap msg) (elements msg)
    else
      let msg :=
        match secondary_bitmap msg with
        | None => mkMessage (mti msg) (Z.lor (primary_bitmap msg) (bit64 63)) (Some 0) (elements msg)
        | Some _ => msg
        end in
      mkMessage (mti msg) (primary_bitmap msg)
        (Some (Z.lor (default 0 (secondary_bitmap msg)) (bit64 ((128 - id) mod 256)))) (elements msg) in
  mkMessage (mti msg) (primary_bitmap msg) (secondary_bitmap msg) (<[id := value]> (elements msg)).

Definition get_element (msg : Iso8583Message) (id : Z) : option (list Z) := elements msg !! id.
Definition get_element_string (msg : Iso8583Message) (id : Z) : option (list Z) :=
  v ← elements msg !! id; from_utf8 v.

(** ** Field accessors *)
Definition pan (msg : Iso8583Message) : option (list Z) := get_element_string msg 2.
Definition processing_code (msg : Iso8583Message) : option (list Z) := get_element_string msg 3.
Definition amount (msg : Iso8583Message) : option Z :=
  s ← get_element_string msg 4; parse_uint 10 (B64 - 1) s.
Definition stan (msg : Iso8583Message) : option (list Z) := get_element_string msg 11.
Definition local_time (msg : Iso8583Message) : option (list Z) := get_element_string msg 12.
Definition local_date (msg : Iso8583Message) : option (list Z) := get_element_string msg 13.
Definition expiration_date (msg : Iso8583Message) : option (list Z) := get_element_string msg 14.
Definition pos_entry_mode (msg : Iso8583Message) : option (list Z) := get_element_string msg 22.
Definition card_sequence_number (msg : Iso8583Message) : option (list Z) := get_element_string msg 23.
Definition acquiring_institution_id (msg : Iso8583Message) : option (list Z) := get_element_string msg 32.
Definition track2_data (msg : Iso8583Message) : option (list Z) := get_element_string msg 35.
Definition retrieval_reference (msg : Iso8583Message) : option (list Z) := get_element_string msg 37.
Definition authorization_code (msg : Iso8583Message) : option (list Z) := get_element_string msg 38.
Definition response_code (msg : Iso8583Message) : option (list Z) := get_element_string msg 39.
Definition terminal_id (msg : Iso8583Message) : option (list Z) := get_element_string msg 41.
Definition merchant_id (msg : Iso8583Message) : option (list Z) := get_element_string msg 42.
Definition merchant_name (msg : Iso8583Message) : option (list Z) := get_element_string msg 43.
Definition currency_code (msg : Iso8583Message) : option (list Z) := get_element_string msg 49.
Definition emv_data (msg : Iso8583Message) : option (list Z) := get_element msg 55.

(** ** Field encodings *)
Inductive FieldEncoding :=
  | Fixed (len : nat)
  | LlVar (max : nat)
  | LllVar (max : nat).

(** The ranges of the table *)
Definition field_range (id : Z) : option FieldEncoding :=
  if (57 <=? id) && (id <=? 63) then Some (LllVar 999)
  else if (68 <=? id) && (id <=? 75) then Some (Fixed 10)
  else if (76 <=? id) && (id <=? 84) then Some (Fixed 10)
  else if (85 <=? id) && (id <=? 90) then Some (Fixed 10)
  else if (92 <=? id) && (id <=? 95) then Some (Fixed 2)
  else if (105 <=? id) && (id <=? 107) then Some (LllVar 999)
  else if (108 <=? id) && (id <=? 110) then Some (LllVar 999)
  else if (111 <=? id) && (id <=? 119) then Some (LllVar 999)
  else if (120 <=? id) && (id <=? 122) then Some (LllVar 999)
  else if (123 <=? id) && (id <=? 125) then Some (LllVar 999)
  else None.
Definition field_encoding (id : Z) : option FieldEncoding :=
  match id with
  | 1 => Some (Fixed 8) | 2 => Some (LlVar 19) | 3 => Some (Fixed 6) | 4 => Some (Fixed 12)
  | 5 => Some (Fixed 12) | 6 => Some (Fixed 12) | 7 => Some (Fixed 10) | 8 => Some (Fixed 8)
  | 9 => Some (Fixed 8) | 10 => Some (Fixed 8) | 11 => Some (Fixed 6) | 12 => Some (Fixed 6)
  | 13 => Some (Fixed 4) | 14 => Some (Fixed 4) | 15 => Some (Fixed 4) | 16 => Some (Fixed 4)
  | 17 => Some (Fixed 4) | 18 => Some (Fixed 4) | 19 => Some (Fixed 3) | 20 => Some (Fixed 3)
  | 21 => Some (Fixed 3) | 22 => Some (Fixed 3) | 23 => Some (Fixed 3) | 24 => Some (Fixed 3)
  | 25 => Some (Fixed 2) | 26 => Some (Fixed 2) | 27 => Some (Fixed 1) | 28 => Some (Fixed 9)
  | 29 => Some (Fixed 9) | 30 => Some (Fixed 9) | 31 => Some (Fixed 9) | 32 => Some (LlVar 11)
  | 33 => Some (LlVar 11) | 34 => Some (LlVar 28) | 35 => Some (LlVar 37) | 36 => Some (LllVar 104)
  | 37 => Some (Fixed 12) | 38 => Some (Fixed 6) | 39 => Some (Fixed 2) | 40 => Some (Fixed 3)
  | 41 => Some (Fixed 8) | 42 => Some (Fixed 15) | 43 => Some (Fixed 40) | 44 => Some (LlVar 25)
  | 45 => Some (LlVar 76) | 46 => Some (LllVar 999) | 47 => Some (LllVar 999) | 48 => Some (LllVar 999)
  | 49 => Some (Fixed 3) | 50 => Some (Fixed 3) | 51 => Some (Fixed 3) | 52 => Some (Fixed 8)
  | 53 => Some (Fixed 16) | 54 => Some (LllVar 120) | 55 => Some (LllVar 999) | 56 => Some (LllVar 999)
  | 64 => Some (Fixed 8) | 65 => Some (Fixed 8) | 66 => Some (Fixed 1) | 67 => Some (Fixed 2)
  | 91 => Some (Fixed 1) | 96 => Some (Fixed 8) | 97 => Some (Fixed 17) | 98 => Some (Fixed 25)
  | 99 => Some (LlVar 11) | 100 => Some (LlVar 11) | 101 => Some (LlVar 17) | 102 => Some (LlVar 28)
  | 103 => Some (LlVar 28) | 104 => Some (LllVar 100) | 126 => Some (LllVar 999) | 127 => Some (LllVar 999)
  | 128 => Some (Fixed 8)
  | _ => field_range id
  end.

Definition field_error (id : Z) (what : string) : IsoError :=
  InvalidFormat ("Field " +:+ show id +:+ ": " +:+ what).
Definition unknown_field (id : Z) : IsoError := InvalidFormat ("Unknown field id: " +:+ show id).
Definition too_long (id : Z) (len max : nat) : IsoError :=
  field_error id ("value length " +:+ show (Z.of_nat len) +:+ " exceeds max " +:+ show (Z.of_nat max)).

Definition encode_field (id : Z) (value : list Z) : outcome IsoError (list Z) :=
  match field_encoding id with
  | Some (Fixed len) =>
      let copy_len := Nat.min (length value) len in
      Ok (take copy_len value ++ replicate (len - copy_len) 32)%list
  | Some (LlVar max) =>
      if (max <? length value)%nat then Err (too_long id (length value) max)
      else Ok (pad0 2 (decimal (Z.of_nat (length value))) ++ value)%list
  | Some (LllVar max) =>
      if (max <? length value)%nat then Err (too_long id (length value) max)
      else Ok (pad0 3 (decimal (Z.of_nat (length value))) ++ value)%list
  | None => Err (unknown_field id)
  end.

(** The variable-length branches differ in the width [w] of the prefix. *)
Definition decode_var (id : Z) (w : nat) (data : list Z) (pos : nat) (name : string)
    : outcome IsoError (list Z * nat) :=
  if (length data <? pos + w)%nat then Err (field_error id ("missing " +:+ name +:+ " prefix"))
  else
    prefix ← slice data pos (pos + w);
    len_str ← ok_or (field_error id ("invalid " +:+ name +:+ " prefix")) (from_utf8 prefix);
    len ← ok_or (field_error id ("non-numeric " +:+ name +:+ " prefix"))
            (parse_uint 10 (B64 - 1) len_str);
    let len := Z.to_nat len in
    let pos := (pos + w)%nat in
    if (length data <? pos + len)%nat then Err (field_error id "data shorter than declared length")
    else
      value ← slice data pos (pos + len);
      Ok (value, pos + len)%nat.

(** The value and the new position *)
Definition decode_field (id : Z) (data : list Z) (pos : nat) : outcome IsoError (list Z * nat) :=
  match field_encoding id with
  | Some (Fixed len) =>
      if (length data <? pos + len)%nat then Err (field_error id "unexpected end of data")
      else
        value ← slice data pos (pos + len);
        Ok (value, pos + len)%nat
  | Some (LlVar _) => decode_var id 2 data pos "LL"
  | Some (LllVar _) => decode_var id 3 data pos "LLL"
  | None => Err (unknown_field id)
  end.

(** ** Parsing *)

(** [first..=first + n - 1] *)
Definition bits (first : Z) (n : nat) : list Z := (fun i => first + Z.of_nat i) <$> seq 0 n.

(** The body of both loops: a bit that is skipped or not set reads nothing. *)
Definition decode_bit (bitmap top skip : Z) (data : list Z)
    (state : gmap Z (list Z) * nat) (bit : Z) : outcome IsoError (gmap Z (list Z) * nat) :=
  if bit =? skip then Ok state
  else if bit_set bitmap (top - bit) then
    '(value, pos) ← decode_field bit data state.2;
    Ok (<[bit := value]> state.1, pos)
  else Ok state.

Definition parse_mti (data : list Z) : outcome IsoError (Z * nat) :=
  first ← index_at data 0;
  if is_ascii_digit first then
    bytes ← slice data 0 4;
    mti_str ← ok_or (InvalidFormat "Invalid MTI") (from_utf8 bytes);
    code ← ok_or (InvalidFormat "Invalid MTI value") (parse_uint 16 65535 mti_str);
    Ok (code, 4%nat)
  else
    second ← index_at data 1;
    Ok (from_be_bytes [first; second], 2%nat).

Definition parse_iso8583 (data : list Z) : outcome IsoError Iso8583Message :=
  if (length data <? 10)%nat then Err (InvalidFormat "Message too short") else
  '(mti_code, pos) ← parse_mti data;
  mti ← ok_or (UnknownMessageType (string_of (pad0 4 (hex_upper mti_code)))) (from_code mti_code);
  if (length data <? pos + 8)%nat then Err (InvalidFormat "Missing primary bitmap") else
  primary ← slice data pos (pos + 8);
  let primary := from_be_bytes primary in
  let pos := (pos + 8)%nat in
  let has_secondary := bit_set primary 63 in
  '(secondary, pos) ←
    (if has_secondary then
       if (length data <? pos + 8)%nat then Err (InvalidFormat "Missing secondary bitmap")
       else
         bytes ← slice data pos (pos + 8);
         Ok (Some (from_be_bytes bytes), pos + 8)%nat
     else Ok (None, pos));
  '(elements, pos) ← for_each (decode_bit primary 64 1 data) (bits 1 64) (∅, pos);
  '(elements, pos) ←
    match secondary with
    | Some secondary => for_each (decode_bit secondary 128 65 data) (bits 65 64) (elements, pos)
    | None => Ok (elements, pos)
    end;
  Ok (mkMessage mti primary secondary elements).

(** ** Serialization *)
Section serialize.
Context `{HashOrder}.

Definition encode_element (msg : Iso8583Message) (data : list Z) (id : Z)
    : outcome IsoError (list Z) :=
  match elements msg !! id with
  | Some value => encoded ← encode_field id value; Ok (data ++ encoded)%list
  | None => Ok data
  end.

Definition serialize_iso8583 (msg : Iso8583Message) : outcome IsoError (list Z) :=
  let data := pad0 4 (hex_upper (to_code (mti msg))) in
  let data := (data ++ to_be_bytes 8 (primary_bitmap msg))%list in
  let data :=
    match secondary_bitmap msg with
    | Some secondary => (data ++ to_be_bytes 8 secondary)%list
    | None => data
    end in
  let field_ids := merge_sort Z.le (keys (elements msg)) in
  for_each (encode_element msg) field_ids data.
End serialize.

(** ** Authorization messages *)
Definition create_auth_request (pan : list Z) (amount : Z) (currency terminal_id merchant_id : list Z)
    : Iso8583Message :=
  let msg := new_message AuthorizationRequest in
  let msg := set_element msg 2 pan in
  let msg := set_element msg 3 (bytes_of "000000") in
  let msg := set_element msg 4 (pad0 12 (decimal amount)) in
  let msg := set_element msg 11 (bytes_of "000001") in
  let msg := set_element msg 22 (bytes_of "012") in
  let msg := set_element msg 41 terminal_id in
  let msg := set_element msg 42 merchant_id in
  set_element msg 49 currency.

(** [if let Some(v) = request.get_element(id) { msg.set_element(id, v.clone()) }] *)
Definition copy_element (request : Iso8583Message) (id : Z) (msg : Iso8583Message) : Iso8583Message :=
  match get_element request id with
  | Some value => set_element msg id value
  | None => msg
  end.
Definition create_auth_response (request : Iso8583Message) (response_code auth_code : list Z)
    : Iso8583Message :=
  let msg := new_message AuthorizationResponse in
  let msg := copy_element request 2 msg in
  let msg := copy_element request 4 msg in
  let msg := copy_element request 11 msg in
  let msg := set_element msg 38 auth_code in
  set_element msg 39 response_code.
