(* ===== verification/Iso8583Props.v ===== *)
(** * The card message codec (theorems about iso8583.rs) *)
From stdpp Require Import base numbers list gmap strings sorting.
From Stdlib Require Import ZArith Lia.
From S2P Require Import Prelude Slices Text Iso8583.
#[local] Open Scope Z_scope.

(** ** Slices of a concatenation *)
Lemma slice_app {E A} (pre mid rest : list A) :
  @slice E A (pre ++ mid ++ rest) (length pre) (length pre + length mid) = Ok mid.
Proof.
  rewrite slice_ok by (rewrite ?length_app; lia).
  rewrite drop_app_length. replace (length pre + length mid - length pre)%nat with (length mid) by lia.
  by rewrite take_app_length.
Qed.
Lemma slice_at {E A} (v pre mid rest : list A) a b : v = (pre ++ mid ++ rest)%list ->
  a = length pre -> b = (length pre + length mid)%nat -> @slice E A v a b = Ok mid.
Proof. intros -> -> ->. apply slice_app. Qed.

(** ** Bits *)
Lemma bit_set_testbit b n : bit_set b n = Z.testbit b n.
Proof.
  unfold bit_set. change 1 with (Z.ones 1). rewrite Z.land_ones by lia. change (2 ^ 1) with 2.
  rewrite Z.testbit_odd, Zmod_odd. by destruct (Z.odd _).
Qed.
Lemma bit64_testbit n k : 0 <= n < 64 -> 0 <= k -> Z.testbit (bit64 n) k = (n =? k).
Proof.
  intros Hn Hk. unfold bit64. rewrite Z.mod_small, Z.shiftl_1_l by lia. apply Z.pow2_bits_eqb. lia.
Qed.
Lemma bit64_range n : is_u64 (bit64 n).
Proof.
  unfold bit64, is_u64. rewrite Z.shiftl_1_l. pose proof (Z.mod_pos_bound n 64).
  split; [apply Z.pow_nonneg; lia|]. change B64 with (2 ^ 64). apply Z.pow_lt_mono_r; lia.
Qed.
Lemma lor_range a b : is_u64 a -> is_u64 b -> is_u64 (Z.lor a b).
Proof.
  unfold is_u64. intros [Ha Ha'] [Hb Hb']. split; [by apply Z.lor_nonneg|].
  destruct (Z.eq_dec (Z.lor a b) 0) as [->|Hne]; [lia|].
  change B64 with (2 ^ 64) in *. apply Z.log2_lt_pow2; [pose proof (proj2 (Z.lor_nonneg a b)); lia|].
  rewrite Z.log2_lor by done. apply Z.max_lub_lt.
  - destruct (Z.eq_dec a 0) as [->|]; [done|]. apply Z.log2_lt_pow2; lia.
  - destruct (Z.eq_dec b 0) as [->|]; [done|]. apply Z.log2_lt_pow2; lia.
Qed.

(** ** One field *)

Lemma field_range_none id : 128 < id -> field_range id = None.
Proof.
  intros Hid. unfold field_range.
  assert (Hr : forall lo hi, hi <= 128 -> (lo <=? id) && (id <=? hi) = false).
  { intros lo hi ?. apply andb_false_iff. right. apply Z.leb_gt. lia. }
  by rewrite !Hr by lia.
Qed.

(** Identifiers with an encoding, and the widths of length prefixes *)
Lemma field_encoding_some id enc : field_encoding id = Some enc ->
  1 <= id <= 128 /\
  match enc with
  | Fixed len => (len <= 40)%nat
  | LlVar max => (max <= 99)%nat
  | LllVar max => (max <= 999)%nat
  end.
Proof.
  intros H.
  assert (Hr : 1 <= id <= 128).
  { destruct id as [|p|p]; [by vm_compute in H| |by destruct p].
    do 8 (destruct p as [p|p|]; try lia); try discriminate H;
      cbn [field_encoding] in H; by rewrite field_range_none in H by lia. }
  split; [done|]. revert enc H.
  assert (Hall : forallb (fun i => match field_encoding i with
    | Some (Fixed len) => len <=? 40 | Some (LlVar max) => max <=? 99
    | Some (LllVar max) => max <=? 999 | None => true end)%nat (bits 1 128) = true) by by vm_compute.
  rewrite forallb_forall in Hall. intros enc H. specialize (Hall id). rewrite H in Hall.
  assert (Hin : In id (bits 1 128)).
  { unfold bits. apply in_map_iff. exists (Z.to_nat (id - 1)). split; [lia|]. apply in_seq. lia. }
  specialize (Hall Hin). destruct enc; by apply Nat.leb_le.
Qed.

(** What of a value is on the wire *)
Definition wire (id : Z) (value : list Z) : list Z :=
  match field_encoding id with
  | Some (Fixed len) => take len value ++ replicate (len - length value) 32
  | _ => value
  end.
Definition fits (id : Z) (value : list Z) : Prop :=
  match field_encoding id with
  | Some (Fixed _) => True
  | Some (LlVar max) | Some (LllVar max) => (length value <= max)%nat
  | None => False
  end.
#[export] Instance fits_dec id value : Decision (fits id value).
Proof. unfold fits. destruct (field_encoding id) as [[]|]; apply _. Defined.

Lemma encode_field_ok id value : fits id value <-> exists e, encode_field id value = Ok e.
Proof.
  unfold fits, encode_field. destruct (field_encoding id) as [[len|max|max]|].
  - split; [by eexists|done].
  - case Nat.ltb_spec; split; try lia; by (intros [? ?] || eexists).
  - case Nat.ltb_spec; split; try lia; by (intros [? ?] || eexists).
  - split; [done|by intros [? ?]].
Qed.

Lemma decode_var_prefix id w name n pre value rest : (0 < w)%nat -> (w <= 3)%nat ->
  Z.of_nat (length value) < 10 ^ Z.of_nat w -> n = length pre ->
  decode_var id w (pre ++ (pad0 w (decimal (Z.of_nat (length value))) ++ value) ++ rest) n name =
  Ok (value, (n + (w + length value))%nat).
Proof.
  intros Hw Hw3 Hl ->. set (p := pad0 w (decimal (Z.of_nat (length value)))).
  assert (Hp : length p = w) by (apply pad0_decimal_length; lia).
  assert (Hw10 : 10 ^ Z.of_nat w <= 10 ^ 3) by (apply Z.pow_le_mono_r; lia).
  unfold decode_var. rewrite (proj2 (Nat.ltb_ge _ _)) by (rewrite !length_app, Hp; lia).
  rewrite (slice_at _ pre p (value ++ rest)%list) by (rewrite ?Hp, <- ?(assoc_L app); done).
  cbn [mbind outcome_bind]. unfold from_utf8.
  rewrite ascii_is_utf8 by (apply decimal_ascii; lia). cbn [ok_or mbind outcome_bind].
  unfold p. rewrite parse_pad0_decimal by lia. cbn [ok_or mbind outcome_bind]. fold p.
  rewrite Nat2Z.id. rewrite (proj2 (Nat.ltb_ge _ _)) by (rewrite !length_app, Hp; lia).
  rewrite (slice_at _ (pre ++ p)%list value rest)
    by (rewrite ?length_app, ?Hp, <- ?(assoc_L app); (done || lia)).
  cbn [mbind outcome_bind]. do 2 f_equal. lia.
Qed.

(** The round trip of one field, in any surroundings *)
Lemma decode_encode_field id value e pre rest : encode_field id value = Ok e ->
  decode_field id (pre ++ e ++ rest) (length pre) = Ok (wire id value, (length pre + length e)%nat).
Proof.
  unfold encode_field, decode_field, wire. intros He.
  destruct (field_encoding id) as [[len|max|max]|] eqn:Hf; [..|done];
    apply field_encoding_some in Hf as [_ Hmax].
  - injection He as <-.
    assert (E : (take (Nat.min (length value) len) value ++ replicate (len - Nat.min (length value) len) 32)%list
      = (take len value ++ replicate (len - length value) 32)%list).
    { destruct (Nat.le_gt_cases (length value) len).
      - rewrite Nat.min_l, !take_ge by lia. done.
      - rewrite Nat.min_r by lia. do 2 f_equal. lia. }
    rewrite E. set (w := (take len value ++ replicate (len - length value) 32)%list).
    assert (Hw : length w = len) by (unfold w; rewrite length_app, length_take, length_replicate; lia).
    rewrite (proj2 (Nat.ltb_ge _ _)) by (rewrite !length_app, Hw; lia).
    rewrite (slice_at _ pre w rest) by (rewrite ?Hw; done). by rewrite Hw.
  - destruct (Nat.ltb_spec max (length value)); [done|]. injection He as <-.
    rewrite decode_var_prefix by (simpl; lia). rewrite length_app, pad0_decimal_length; [done|lia|simpl; lia].
  - destruct (Nat.ltb_spec max (length value)); [done|]. injection He as <-.
    rewrite decode_var_prefix by (simpl; lia). rewrite length_app, pad0_decimal_length; [done|lia|simpl; lia].
Qed.

(** ** The fields of a bitmap *)
Abbreviation Elements := (gmap Z (list Z)).

Definition enc_bit (m : Elements) (bit : Z) : list Z :=
  match m !! bit with
  | Some value => match encode_field bit value with Ok e => e | _ => [] end
  | None => []
  end.
Definition enc_bits (m : Elements) (l : list Z) : list Z := concat (enc_bit m <$> l).
(** What reading the bits [l] adds *)
Definition read_bit (m : Elements) (acc : Elements) (bit : Z) : Elements :=
  match m !! bit with Some value => <[bit := wire bit value]> acc | None => acc end.
Definition wires (m : Elements) : Elements := map_imap (fun id value => Some (wire id value)) m.

Lemma read_bit_none m acc bit : m !! bit = None -> read_bit m acc bit = acc.
Proof. intros E. unfold read_bit. by rewrite E. Qed.
Lemma read_bit_some m acc bit value : m !! bit = Some value ->
  read_bit m acc bit = <[bit := wire bit value]> acc.
Proof. intros E. unfold read_bit. by rewrite E. Qed.
Lemma enc_bits_app m l1 l2 : enc_bits m (l1 ++ l2) = (enc_bits m l1 ++ enc_bits m l2)%list.
Proof. unfold enc_bits. by rewrite fmap_app, concat_app. Qed.

(** The bitmap shows the elements among the bits [l]. *)
Definition shows (bitmap top skip : Z) (m : Elements) (l : list Z) : Prop :=
  forall bit, bit ∈ l ->
    if decide (bit = skip) then m !! bit = None
    else bit_set bitmap (top - bit) = bool_decide (is_Some (m !! bit)).
Definition all_fit (m : Elements) : Prop := forall id value, m !! id = Some value -> fits id value.

Lemma decode_bits bitmap top skip m l acc pre rest : all_fit m -> shows bitmap top skip m l ->
  for_each (decode_bit bitmap top skip (pre ++ enc_bits m l ++ rest)) l (acc, length pre) =
  Ok (foldl (read_bit m) acc l, (length pre + length (enc_bits m l))%nat).
Proof.
  intros Hfit. revert acc pre. induction l as [|bit l IH]; intros acc pre Hs; [by rewrite Nat.add_0_r|].
  assert (Hs' : shows bitmap top skip m l) by (intros b Hb; apply Hs; by right).
  specialize (Hs bit (list_elem_of_here _ _)).
  assert (Hnext : forall acc', for_each (decode_bit bitmap top skip (pre ++ enc_bits m (bit :: l) ++ rest)) l
    (acc', (length pre + length (enc_bit m bit))%nat) =
    Ok (foldl (read_bit m) acc' l, (length pre + length (enc_bits m (bit :: l)))%nat)).
  { intros acc'. pose proof (IH acc' (pre ++ enc_bit m bit)%list Hs') as IH'.
    change (enc_bits m (bit :: l)) with (enc_bit m bit ++ enc_bits m l)%list.
    rewrite !length_app in IH'. rewrite <- !(assoc_L app) in IH'.
    rewrite length_app, <- (assoc_L app), Nat.add_assoc. exact IH'. }
  cbn [for_each]. unfold decode_bit at 2. destruct (Z.eqb_spec bit skip) as [->|Hne].
  - rewrite decide_True in Hs by done. cbn [mbind outcome_bind].
    specialize (Hnext acc). unfold enc_bit in Hnext. rewrite Hs, Nat.add_0_r in Hnext.
    rewrite Hnext. cbn [foldl]. by rewrite (read_bit_none m acc skip).
  - rewrite decide_False in Hs by done. rewrite Hs. destruct (m !! bit) as [value|] eqn:Hm.
    + rewrite bool_decide_eq_true_2 by by eexists.
      destruct (proj1 (encode_field_ok bit value) (Hfit _ _ Hm)) as [e He].
      assert (Ee : enc_bit m bit = e) by (unfold enc_bit; by rewrite Hm, He).
      assert (Hd : decode_field bit (pre ++ enc_bits m (bit :: l) ++ rest) (length pre) =
        Ok (wire bit value, (length pre + length (enc_bit m bit))%nat)).
      { change (enc_bits m (bit :: l)) with (enc_bit m bit ++ enc_bits m l)%list.
        rewrite <- (assoc_L app), Ee. by apply decode_encode_field. }
      cbn [fst snd]. rewrite Hd. cbn [mbind outcome_bind]. rewrite Hnext.
      cbn [foldl]. by rewrite (read_bit_some m acc bit value).
    + rewrite bool_decide_eq_false_2 by by intros [].
      cbn [mbind outcome_bind]. specialize (Hnext acc). unfold enc_bit in Hnext. rewrite Hm, Nat.add_0_r in Hnext.
      rewrite Hnext. cbn [foldl]. by rewrite (read_bit_none m acc bit).
Qed.

Lemma read_bits_lookup m l acc k :
  foldl (read_bit m) acc l !! k =
  if decide (k ∈ l) then match m !! k with Some v => Some (wire k v) | None => acc !! k end
  else acc !! k.
Proof.
  revert acc. induction l as [|bit l IH]; intros acc; cbn [foldl].
  - by rewrite decide_False by apply not_elem_of_nil.
  - rewrite IH. clear IH.
    assert (E : read_bit m acc bit !! k = if decide (k = bit)
      then match m !! k with Some v => Some (wire k v) | None => acc !! k end else acc !! k).
    { unfold read_bit. case_decide as Hk; [subst; destruct (m !! bit); [by rewrite lookup_insert_eq|done]|].
      destruct (m !! bit); [by rewrite lookup_insert_ne|done]. }
    rewrite E. destruct (decide (k ∈ bit :: l)) as [Hin|Hout].
    + apply elem_of_cons in Hin as [->|Hin]; [rewrite (decide_True (P := bit = bit)) by done|rewrite (decide_True (P := k ∈ l)) by done];
        repeat case_decide; by destruct (m !! _).
    + apply not_elem_of_cons in Hout as [H1 H2]. by rewrite !decide_False by done.
Qed.
Lemma elem_of_bits first n k : k ∈ bits first n <-> first <= k < first + Z.of_nat n.
Proof.
  unfold bits. rewrite list_elem_of_fmap. split.
  - intros (i & -> & Hi%elem_of_seq). lia.
  - intros Hk. exists (Z.to_nat (k - first)). rewrite elem_of_seq. lia.
Qed.
Lemma read_all m : (forall id, is_Some (m !! id) -> 1 <= id <= 128) ->
  foldl (read_bit m) (foldl (read_bit m) ∅ (bits 1 64)) (bits 65 64) = wires m.
Proof.
  intros Hd. apply map_eq. intros k. unfold wires. rewrite map_lookup_imap, !read_bits_lookup, lookup_empty.
  destruct (m !! k) as [v|] eqn:Hm; simpl; [|by repeat case_decide].
  specialize (Hd k (mk_is_Some _ _ Hm)).
  destruct (decide (k ∈ bits 65 64)) as [|H1]; [done|]. destruct (decide (k ∈ bits 1 64)) as [|H2]; [done|].
  rewrite elem_of_bits in H1, H2. lia.
Qed.

(** ** The fields in the order of [serialize_iso8583] *)
Lemma StronglySorted_filter {A} (R : relation A) (P : A -> Prop) `{!forall x, Decision (P x)} (l : list A) :
  StronglySorted R l -> StronglySorted R (filter P l).
Proof.
  induction 1 as [|x l Hs IH Hx]; [constructor|]. rewrite filter_cons. case_decide; [|done].
  constructor; [done|]. apply Forall_forall. intros y [_ Hy]%list_elem_of_filter.
  by rewrite Forall_forall in Hx; apply Hx.
Qed.
Lemma sorted_ids `{HashOrder} (m : Elements) : (forall id, is_Some (m !! id) -> 1 <= id <= 128) ->
  merge_sort Z.le (keys m) = filter (fun k => is_Some (m !! k)) (bits 1 128).
Proof.
  intros Hd. apply (StronglySorted_unique Z.le).
  - apply (StronglySorted_merge_sort Z.le).
  - apply StronglySorted_filter.
    assert (Hf : forallb (fun i => i <=? 128) (bits 1 128) = true) by by vm_compute.
    clear Hf. vm_compute. repeat (constructor; [|by repeat constructor]); constructor.
  - rewrite merge_sort_Permutation. unfold keys. rewrite entries_perm.
    apply NoDup_Permutation; [apply NoDup_fst_map_to_list| |].
    + apply NoDup_filter. unfold bits. apply NoDup_fmap; [intros ? ? ?; lia|apply NoDup_seq].
    + intros k. rewrite list_elem_of_filter, elem_of_bits, list_elem_of_fmap. split.
      * intros ([k' v] & -> & Hk%elem_of_map_to_list). simpl.
        pose proof (Hd k' (mk_is_Some _ _ Hk)). split; [by eexists|lia].
      * intros [[v Hv] _]. exists (k, v). split; [done|]. by apply elem_of_map_to_list.
Qed.
Lemma enc_bits_filter m l : enc_bits m (filter (fun k => is_Some (m !! k)) l) = enc_bits m l.
Proof.
  induction l as [|k l IH]; [done|]. rewrite filter_cons. case_decide as Hk.
  - change (enc_bit m k ++ enc_bits m (filter (fun k => is_Some (m !! k)) l) = enc_bit m k ++ enc_bits m l)%list.
    by rewrite IH.
  - rewrite IH. change (enc_bits m l = enc_bit m k ++ enc_bits m l)%list. unfold enc_bit.
    apply eq_None_not_Some in Hk. by rewrite Hk.
Qed.
Lemma encode_elements msg l data : all_fit (elements msg) ->
  for_each (encode_element msg) l data = Ok (data ++ enc_bits (elements msg) l)%list.
Proof.
  intros Hfit. revert data. induction l as [|id l IH]; intros data; [by rewrite app_nil_r|].
  cbn [for_each]. change (enc_bits (elements msg) (id :: l)) with
    (enc_bit (elements msg) id ++ enc_bits (elements msg) l)%list.
  unfold encode_element at 2, enc_bit. destruct (elements msg !! id) as [v|] eqn:Hv.
  - destruct (proj1 (encode_field_ok id v) (Hfit _ _ Hv)) as [e ->]. cbn [mbind outcome_bind].
    rewrite IH. by rewrite <- (assoc_L app).
  - cbn [mbind outcome_bind]. by rewrite IH.
Qed.

(** ** Messages and their bitmaps *)

(** The data elements: not the bits 1 and 65, which announce bitmaps *)
Definition is_element (id : Z) : Prop := 2 <= id <= 128 /\ id <> 65.

(** A message built by [new] and [set_element] *)
Inductive built_msg : Iso8583Message -> Prop :=
  | built_new t : built_msg (new_message t)
  | built_set msg id value : built_msg msg -> is_element id -> built_msg (set_element msg id value).

Record wf_msg (msg : Iso8583Message) : Prop := {
  wf_ids : forall id, is_Some (elements msg !! id) -> is_element id;
  wf_primary : is_u64 (primary_bitmap msg);
  wf_secondary : forall s, secondary_bitmap msg = Some s -> is_u64 s;
  wf_indicator : bit_set (primary_bitmap msg) 63 = bool_decide (is_Some (secondary_bitmap msg));
  wf_low : forall id, 2 <= id <= 64 ->
    bit_set (primary_bitmap msg) (64 - id) = bool_decide (is_Some (elements msg !! id));
  wf_high : forall id, 66 <= id <= 128 ->
    match secondary_bitmap msg with
    | Some s => bit_set s (128 - id) = bool_decide (is_Some (elements msg !! id))
    | None => elements msg !! id = None
    end
}.

Lemma new_message_wf t : wf_msg (new_message t).
Proof.
  split; simpl.
  - intros id [v Hv]. by rewrite lookup_empty in Hv.
  - done.
  - done.
  - done.
  - intros id Hid. rewrite lookup_empty, bit_set_testbit. by rewrite Z.bits_0.
  - intros id Hid. apply lookup_empty.
Qed.
(** The elements after [set_element], as the bitmaps must show them *)
Lemma shown_insert (m : gmap Z (list Z)) (id : Z) (value : list Z) (k : Z) :
  bool_decide (is_Some (<[id := value]> m !! k)) =
  (id =? k) || bool_decide (is_Some (m !! k)).
Proof.
  destruct (Z.eqb_spec id k) as [->|Hne]; simpl.
  - rewrite lookup_insert_eq. by apply bool_decide_eq_true_2.
  - by rewrite lookup_insert_ne.
Qed.
Lemma set_bit_shown b n k : 0 <= n < 64 -> 0 <= k ->
  bit_set (Z.lor b (bit64 n)) k = bit_set b k || (n =? k).
Proof. intros. rewrite !bit_set_testbit, Z.lor_spec, bit64_testbit by lia. done. Qed.

Lemma set_low_wf msg id value : wf_msg msg -> 2 <= id <= 64 -> wf_msg (set_element msg id value).
Proof.
  intros [Hi Hp Hs Hind Hl Hh] Hid. unfold set_element. rewrite (proj2 (Z.leb_le _ _)) by lia.
  split; simpl.
  - intros k. destruct (Z.eq_dec id k) as [->|Hne]; [unfold is_element; lia|].
    rewrite lookup_insert_ne by done. apply Hi.
  - apply lor_range; [done|apply bit64_range].
  - done.
  - rewrite set_bit_shown by lia. rewrite Hind. rewrite (proj2 (Z.eqb_neq _ _)) by lia. apply orb_false_r.
  - intros k Hk. rewrite set_bit_shown, shown_insert, Hl by lia. rewrite orb_comm. f_equal.
    destruct (Z.eqb_spec (64 - id) (64 - k)), (Z.eqb_spec id k); (done || lia).
  - intros k Hk. specialize (Hh k Hk). destruct (secondary_bitmap msg).
    + by rewrite lookup_insert_ne by lia.
    + by rewrite lookup_insert_ne by lia.
Qed.
Lemma set_high_wf msg id value : wf_msg msg -> 66 <= id <= 128 -> wf_msg (set_element msg id value).
Proof.
  intros [Hi Hp Hs Hind Hl Hh] Hid. unfold set_element. rewrite (proj2 (Z.leb_gt _ _)) by lia.
  set (p := match secondary_bitmap msg with None => Z.lor (primary_bitmap msg) (bit64 63) | Some _ => primary_bitmap msg end).
  set (s := default 0 (secondary_bitmap msg)).
  assert (E : match secondary_bitmap msg with
    | None => mkMessage (mti msg) (Z.lor (primary_bitmap msg) (bit64 63)) (Some 0) (elements msg)
    | Some _ => msg end = mkMessage (mti msg) p (Some s) (elements msg)).
  { unfold p, s. destruct msg as [t p' [s'|] e]; done. }
  rewrite E. cbn [mti primary_bitmap secondary_bitmap elements default from_option].
  assert (Hsr : is_u64 s) by (unfold s; destruct (secondary_bitmap msg); [by apply Hs|by compute]).
  assert (Hpb : forall k, 0 <= k < 63 -> bit_set p k = bit_set (primary_bitmap msg) k).
  { intros k Hk. unfold p. destruct (secondary_bitmap msg); [done|]. rewrite set_bit_shown by lia.
    rewrite (proj2 (Z.eqb_neq _ _)) by lia. apply orb_false_r. }
  split; simpl.
  - intros k. destruct (Z.eq_dec id k) as [->|Hne]; [unfold is_element; lia|].
    rewrite lookup_insert_ne by done. apply Hi.
  - unfold p. destruct (secondary_bitmap msg); [done|]. apply lor_range; [done|apply bit64_range].
  - intros s' [= <-]. apply lor_range; [done|apply bit64_range].
  - unfold p. destruct (secondary_bitmap msg); [by rewrite Hind|]. rewrite set_bit_shown by lia. apply orb_true_r.
  - intros k Hk. rewrite Hpb, shown_insert, Hl by lia. by rewrite (proj2 (Z.eqb_neq _ _)) by lia.
  - intros k Hk. rewrite Z.mod_small, set_bit_shown, shown_insert by lia.
    assert (Hold : bit_set s (128 - k) = bool_decide (is_Some (elements msg !! k))).
    { specialize (Hh k Hk). unfold s. destruct (secondary_bitmap msg); [done|]. rewrite Hh. simpl.
      rewrite bit_set_testbit. apply Z.bits_0. }
    rewrite Hold, orb_comm. f_equal.
    destruct (Z.eqb_spec (128 - id) (128 - k)), (Z.eqb_spec id k); (done || lia).
Qed.

(** C40: In every message built by [new] and by [set_element] with the data
    elements 2 to 128 other than 65 (which [set_element] does not check) the
    bitmaps show exactly the elements that are present, bit 1 announces the secondary bitmap
    exactly when there is one, and both bitmaps are 64-bit words. *)
Theorem bitmaps_show_elements msg : built_msg msg -> wf_msg msg.
Proof.
  induction 1 as [t|msg id value _ IH [Hid Hne]]; [apply new_message_wf|].
  destruct (Z.le_gt_cases id 64); [apply set_low_wf|apply set_high_wf]; (done || lia).
Qed.

(** ** The round trip *)
Lemma wf_shows_low msg : wf_msg msg -> shows (primary_bitmap msg) 64 1 (elements msg) (bits 1 64).
Proof.
  intros Hwf bit Hb%elem_of_bits. case_decide as E.
  - subst bit. destruct (elements msg !! 1) eqn:H1; [|done].
    destruct (wf_ids msg Hwf 1) as [? _]; [by eexists|lia].
  - apply (wf_low msg Hwf). lia.
Qed.
Lemma wf_shows_high msg s : wf_msg msg -> secondary_bitmap msg = Some s ->
  shows s 128 65 (elements msg) (bits 65 64).
Proof.
  intros Hwf Hs bit Hb%elem_of_bits. case_decide as E.
  - subst bit. destruct (elements msg !! 65) eqn:H1; [|done].
    destruct (wf_ids msg Hwf 65) as [_ ?]; [by eexists|done].
  - pose proof (wf_high msg Hwf bit) as Hh. rewrite Hs in Hh. apply Hh. lia.
Qed.

Definition mti_bytes (t : MessageType) : list Z := pad0 4 (hex_upper (to_code t)).
Lemma mti_bytes_length t : length (mti_bytes t) = 4%nat.
Proof. by destruct t. Qed.
Lemma from_to_code t : from_code (to_code t) = Some t.
Proof. by destruct t. Qed.
Lemma parse_mti_bytes t rest : parse_mti (mti_bytes t ++ rest) = Ok (to_code t, 4%nat).
Proof.
  unfold parse_mti.
  assert (Hs : @slice IsoError _ (mti_bytes t ++ rest) 0 4 = Ok (mti_bytes t))
    by (apply (slice_at _ [] (mti_bytes t) rest); [done|done|by rewrite mti_bytes_length]).
  assert (Hi : exists b, @index_at IsoError _ (mti_bytes t ++ rest) 0 = Ok b /\ is_ascii_digit b = true)
    by (destruct t; eexists; by vm_compute).
  destruct Hi as (b & -> & Hb). cbn [mbind outcome_bind]. rewrite Hb, Hs. cbn [mbind outcome_bind].
  by destruct t.
Qed.

Section codec.
Context `{HO : HashOrder}.

(** The bytes of a message whose fields fit *)
Definition message_bytes (msg : Iso8583Message) : list Z :=
  (mti_bytes (mti msg) ++ to_be_bytes 8 (primary_bitmap msg) ++
   default [] (to_be_bytes 8 <$> secondary_bitmap msg) ++ enc_bits (elements msg) (bits 1 128))%list.

Lemma serialize_fits msg : wf_msg msg -> all_fit (elements msg) ->
  serialize_iso8583 msg = Ok (message_bytes msg).
Proof.
  intros Hwf Hfit. unfold serialize_iso8583. rewrite encode_elements by done.
  rewrite sorted_ids by (intros id [? _]%(wf_ids msg Hwf); lia). rewrite enc_bits_filter.
  unfold message_bytes. fold (mti_bytes (mti msg)).
  destruct (secondary_bitmap msg); simpl; by rewrite <- ?(assoc_L app).
Qed.

Lemma parse_header msg rest : wf_msg msg ->
  let pre := (mti_bytes (mti msg) ++ to_be_bytes 8 (primary_bitmap msg))%list in
  parse_iso8583 (pre ++ default [] (to_be_bytes 8 <$> secondary_bitmap msg) ++ rest) =
  let data := (pre ++ default [] (to_be_bytes 8 <$> secondary_bitmap msg) ++ rest)%list in
  let pos := (12 + match secondary_bitmap msg with Some _ => 8 | None => 0 end)%nat in
  '(elements, pos) ← for_each (decode_bit (primary_bitmap msg) 64 1 data) (bits 1 64) (∅, pos);
  '(elements, pos) ←
    match secondary_bitmap msg with
    | Some secondary => for_each (decode_bit secondary 128 65 data) (bits 65 64) (elements, pos)
    | None => Ok (elements, pos)
    end;
  Ok (mkMessage (mti msg) (primary_bitmap msg) (secondary_bitmap msg) elements).
Proof.
  intros Hwf pre. set (data := (pre ++ default [] (to_be_bytes 8 <$> secondary_bitmap msg) ++ rest)%list).
  assert (Hpre : length pre = 12%nat)
    by (unfold pre; rewrite length_app, mti_bytes_length, to_be_bytes_length; done).
  unfold parse_iso8583.
  assert (Hlen : (12 <= length data)%nat) by (unfold data; rewrite length_app, Hpre; lia).
  rewrite (proj2 (Nat.ltb_ge _ _)) by lia.
  assert (Em : parse_mti data = Ok (to_code (mti msg), 4%nat))
    by (unfold data, pre; rewrite <- !(assoc_L app); apply parse_mti_bytes).
  rewrite Em. cbn [mbind outcome_bind]. rewrite from_to_code. cbn [ok_or mbind outcome_bind].
  rewrite (proj2 (Nat.ltb_ge _ _)) by lia.
  rewrite (slice_at data (mti_bytes (mti msg)) (to_be_bytes 8 (primary_bitmap msg))
    (default [] (to_be_bytes 8 <$> secondary_bitmap msg) ++ rest)%list 4 (4 + 8));
    [|by unfold data, pre; rewrite <- !(assoc_L app)|by rewrite mti_bytes_length
     |by rewrite mti_bytes_length, to_be_bytes_length].
  cbn [mbind outcome_bind]. rewrite from_to_be_bytes by apply (wf_primary msg Hwf).
  rewrite (wf_indicator msg Hwf). destruct (secondary_bitmap msg) as [s|] eqn:Hs.
  - rewrite bool_decide_eq_true_2 by by eexists. cbn [fmap option_fmap option_map default from_option id] in *.
    assert (Hl2 : (20 <= length data)%nat)
      by (unfold data; rewrite !length_app, Hpre, to_be_bytes_length; lia).
    rewrite (proj2 (Nat.ltb_ge _ _)) by lia.
    rewrite (slice_at data pre (to_be_bytes 8 s) rest);
      [|by unfold data|by rewrite Hpre|by rewrite Hpre, to_be_bytes_length].
    cbn [mbind outcome_bind]. rewrite from_to_be_bytes by apply (wf_secondary msg Hwf s Hs). done.
  - rewrite bool_decide_eq_false_2 by by intros []. done.
Qed.

(** What a parser finds after the wire: fixed fields padded or cut to length *)
Definition on_wire (msg : Iso8583Message) : Iso8583Message :=
  mkMessage (mti msg) (primary_bitmap msg) (secondary_bitmap msg) (wires (elements msg)).

Lemma parse_message_bytes msg : wf_msg msg -> all_fit (elements msg) ->
  parse_iso8583 (message_bytes msg) = Ok (on_wire msg).
Proof.
  intros Hwf Hfit.
  set (sec := default [] (to_be_bytes 8 <$> secondary_bitmap msg)).
  set (pre := (mti_bytes (mti msg) ++ to_be_bytes 8 (primary_bitmap msg))%list).
  set (low := enc_bits (elements msg) (bits 1 64)). set (high := enc_bits (elements msg) (bits 65 64)).
  assert (E : message_bytes msg = (pre ++ sec ++ low ++ high)%list).
  { unfold message_bytes, pre, low, high. change (bits 1 128) with (bits 1 64 ++ bits 65 64)%list.
    rewrite enc_bits_app. by rewrite <- !(assoc_L app). }
  rewrite E. unfold pre, sec. rewrite parse_header by done. fold pre sec. cbv zeta.
  assert (Hpos : (12 + match secondary_bitmap msg with Some _ => 8 | None => 0 end)%nat = length (pre ++ sec)).
  { unfold pre, sec. rewrite !length_app, mti_bytes_length, to_be_bytes_length.
    destruct (secondary_bitmap msg); simpl; by rewrite ?to_be_bytes_length. }
  assert (Hlow : for_each (decode_bit (primary_bitmap msg) 64 1 (pre ++ sec ++ low ++ high)) (bits 1 64)
      (∅, length (pre ++ sec)) =
    Ok (foldl (read_bit (elements msg)) ∅ (bits 1 64), (length (pre ++ sec) + length low)%nat))
    by (rewrite (assoc_L app pre sec); apply decode_bits; [done|by apply wf_shows_low]).
  rewrite Hpos, Hlow. cbn [mbind outcome_bind].
  assert (Hall : foldl (read_bit (elements msg)) (foldl (read_bit (elements msg)) ∅ (bits 1 64)) (bits 65 64)
    = wires (elements msg)) by (apply read_all; intros id [? _]%(wf_ids msg Hwf); lia).
  unfold on_wire. destruct (secondary_bitmap msg) as [s|] eqn:Hs.
  - assert (Hhigh : forall acc, for_each (decode_bit s 128 65 (pre ++ sec ++ low ++ high)) (bits 65 64)
        (acc, (length (pre ++ sec) + length low)%nat) =
      Ok (foldl (read_bit (elements msg)) acc (bits 65 64),
          (length ((pre ++ sec) ++ low) + length high)%nat)).
    { intros acc. rewrite <- length_app, (assoc_L app pre sec), (assoc_L app (pre ++ sec)).
      rewrite <- (app_nil_r high) at 1. apply decode_bits; [done|by apply wf_shows_high]. }
    rewrite Hhigh. cbn [mbind outcome_bind]. by rewrite Hall.
  - cbn [mbind outcome_bind]. do 2 f_equal. rewrite <- Hall. apply map_eq. intros k.
    rewrite (read_bits_lookup _ (bits 65 64)). case_decide as Hk; [|done].
    apply elem_of_bits in Hk. destruct (elements msg !! k) as [v|] eqn:Hv; [|done].
    destruct (wf_ids msg Hwf k) as [? ?]; [by eexists|].
    pose proof (wf_high msg Hwf k) as Hh. rewrite Hs in Hh. rewrite Hh in Hv by lia. done.
Qed.

(** C13: Round trip.  A message built by [new] and by [set_element] with the data
    elements 2 to 128 other than 65 (which [set_element] does not check; see
    [Sample.element_65_shifts]) serializes exactly when every variable-length field is within its maximum, and the
    parser then gives it back, bitmaps and all, with every fixed-length field
    padded with spaces or cut to its length; when a field is too long both
    functions return, serialization with an error. *)
Theorem serialize_then_parse msg : built_msg msg ->
  (all_fit (elements msg) /\ exists data, serialize_iso8583 msg = Ok data /\
     parse_iso8583 data = Ok (on_wire msg)) \/
  ((exists id value, elements msg !! id = Some value /\ ~ fits id value) /\
   exists e, serialize_iso8583 msg = Err e).
Proof.
  intros Hb. pose proof (bitmaps_show_elements msg Hb) as Hwf.
  destruct (decide (map_Forall fits (elements msg))) as [Hfit|Hno].
  - left. split; [done|]. exists (message_bytes msg).
    split; [by apply serialize_fits|by apply parse_message_bytes].
  - right. apply map_not_Forall in Hno as (id & value & Hv & Hno); [|apply _].
    split; [by eauto|]. unfold serialize_iso8583.
    assert (Hin : id ∈ merge_sort Z.le (keys (elements msg))).
    { rewrite merge_sort_Permutation. unfold keys. apply list_elem_of_fmap. exists (id, value).
      split; [done|]. by apply elem_of_entries. }
    revert Hin. generalize (merge_sort Z.le (keys (elements msg))). intros l.
    match goal with |- context [for_each _ l ?d] => generalize d end.
    induction l as [|k l IH]; intros d Hin; [by apply elem_of_nil in Hin|].
    cbn [for_each]. destruct (encode_element msg d k) as [d'|e| |] eqn:He.
    + cbn [mbind outcome_bind]. apply IH. apply elem_of_cons in Hin as [->|]; [|done].
      unfold encode_element in He. rewrite Hv in He. apply bind_Ok_iff in He as (enc & He & _).
      destruct Hno. apply encode_field_ok. by eauto.
    + by exists e.
    + unfold encode_element, encode_field in He. repeat case_match; simplify_eq.
    + unfold encode_element, encode_field in He. repeat case_match; simplify_eq.
Qed.

(** A message whose fixed-length fields have their length and whose
    variable-length fields fit comes back equal from the wire. *)
Theorem exact_round_trip msg : built_msg msg ->
  (forall id value, elements msg !! id = Some value -> fits id value /\ wire id value = value) ->
  exists data, serialize_iso8583 msg = Ok data /\ parse_iso8583 data = Ok msg.
Proof.
  intros Hb Hexact. pose proof (bitmaps_show_elements msg Hb) as Hwf.
  assert (Hfit : all_fit (elements msg)) by (intros id v Hv; by apply (Hexact id v)).
  exists (message_bytes msg). split; [by apply serialize_fits|].
  rewrite parse_message_bytes by done. f_equal. unfold on_wire. destruct msg as [t p s m]. simpl in *. f_equal.
  apply map_eq. intros k. unfold wires. rewrite map_lookup_imap.
  destruct (m !! k) as [v|] eqn:Hv; simpl; [|done]. f_equal. by apply (Hexact k v).
Qed.
End codec.

(** ** The parser on any input *)
Definition returns {E A} (o : outcome E A) : Prop :=
  match o with Ok _ | Err _ => True | _ => False end.
Lemma returns_bind {E A B} (o : outcome E A) (f : A -> outcome E B) :
  returns o -> (forall a, o = Ok a -> returns (f a)) -> returns (mbind f o).
Proof. destruct o; simpl; auto. Qed.
Lemma returns_ok_or {E A} (e : E) (o : option A) : returns (ok_or e o).
Proof. by destruct o. Qed.
Lemma returns_slice {E A} (v : list A) a b : (a <= b)%nat -> (b <= length v)%nat ->
  returns (@slice E A v a b).
Proof. intros. by rewrite slice_ok. Qed.
Lemma returns_index {E A} (v : list A) i : (i < length v)%nat -> returns (@index_at E A v i).
Proof. intros [x Hx]%lookup_lt_is_Some_2. by rewrite (index_at_ok _ _ _ Hx). Qed.
Lemma returns_for_each {E S X} (body : S -> X -> outcome E S) xs s :
  (forall s x, returns (body s x)) -> returns (for_each body xs s).
Proof.
  intros Hb. revert s. induction xs as [|x xs IH]; intros s; [done|]. cbn [for_each].
  by apply returns_bind.
Qed.
#[local] Hint Resolve returns_ok_or returns_slice returns_index : nexus.

Lemma decode_var_returns id w data pos name : returns (decode_var id w data pos name).
Proof.
  unfold decode_var. case Nat.ltb_spec; [done|]. intros.
  apply returns_bind; [apply returns_slice; lia|]. intros prefix _.
  apply returns_bind; [apply returns_ok_or|]. intros l _.
  apply returns_bind; [apply returns_ok_or|]. intros n _.
  case Nat.ltb_spec; [done|]. intros. apply returns_bind; [apply returns_slice; lia|done].
Qed.
Lemma decode_field_returns id data pos : returns (decode_field id data pos).
Proof.
  unfold decode_field. destruct (field_encoding id) as [[len|max|max]|]; [..|done];
    [|apply decode_var_returns..].
  case Nat.ltb_spec; [done|]. intros. apply returns_bind; [apply returns_slice; lia|done].
Qed.
Lemma decode_bit_returns bitmap top skip data state bit :
  returns (decode_bit bitmap top skip data state bit).
Proof.
  unfold decode_bit. case (bit =? skip); [done|]. case (bit_set _ _); [|done].
  apply returns_bind; [apply decode_field_returns|]. by intros [].
Qed.
Lemma parse_mti_returns data : (10 <= length data)%nat -> returns (parse_mti data).
Proof.
  intros. unfold parse_mti. apply returns_bind; [apply returns_index; lia|]. intros b _.
  case (is_ascii_digit b).
  - apply returns_bind; [apply returns_slice; lia|]. intros l _.
    apply returns_bind; [apply returns_ok_or|]. intros s _.
    by apply returns_bind; [apply returns_ok_or|].
  - by apply returns_bind; [apply returns_index; lia|].
Qed.
Lemma parse_returns data : returns (parse_iso8583 data).
Proof.
  unfold parse_iso8583. case Nat.ltb_spec; [done|]. intros.
  apply returns_bind; [by apply parse_mti_returns|]. intros [code pos] _.
  apply returns_bind; [apply returns_ok_or|]. intros t _.
  case Nat.ltb_spec; [done|]. intros. apply returns_bind; [apply returns_slice; lia|]. intros p _.
  cbv zeta. apply returns_bind.
  - case (bit_set _ _); [|done]. case Nat.ltb_spec; [done|]. intros.
    by apply returns_bind; [apply returns_slice; lia|].
  - intros [sec pos'] _. apply returns_bind; [apply returns_for_each, decode_bit_returns|].
    intros [m pos''] _. apply returns_bind; [|by intros []].
    destruct sec; [apply returns_for_each, decode_bit_returns|done].
Qed.

(** What a parsed value can be *)
Definition decoded (id : Z) (value : list Z) : Prop :=
  match field_encoding id with
  | Some (Fixed len) => length value = len
  | Some (LlVar _) => (length value <= 99)%nat
  | Some (LllVar _) => (length value <= 999)%nat
  | None => False
  end.
Lemma digit_of_range b d : digit_of 10 b = Some d -> 0 <= d < 10.
Proof.
  unfold digit_of, is_ascii_digit, is_ascii_upper, is_ascii_lower.
  intros H. repeat case_match; simplify_eq; lia.
Qed.
Lemma parse_digits_bound max acc l n : 0 <= acc -> parse_digits 10 max acc l = Some n ->
  0 <= n < (acc + 1) * 10 ^ Z.of_nat (length l).
Proof.
  revert acc. induction l as [|b l IH]; intros acc Ha H; simpl in H; [simplify_eq; simpl; lia|].
  destruct (digit_of 10 b) as [d|] eqn:Hd; simpl in H; [|done]. apply digit_of_range in Hd.
  destruct (_ <=? max); [|done]. apply IH in H; [|lia]. cbn [length].
  rewrite Nat2Z.inj_succ, Z.pow_succ_r by lia.
  pose proof (Z.pow_pos_nonneg 10 (Z.of_nat (length l))). nia.
Qed.
Lemma parse_uint_bound max l w n : (length l <= w)%nat -> parse_uint 10 max l = Some n ->
  0 <= n < 10 ^ Z.of_nat w.
Proof.
  intros Hl H.
  assert (Hb : forall l', (length l' <= w)%nat -> parse_digits 10 max 0 l' = Some n -> 0 <= n < 10 ^ Z.of_nat w).
  { intros l' Hl' H'. apply parse_digits_bound in H' as [? Hn]; [|lia]. split; [done|].
    pose proof (Z.pow_le_mono_r 10 (Z.of_nat (length l')) (Z.of_nat w)). lia. }
  destruct l as [|b l]; [done|]. unfold parse_uint in H. case_match; [|by eapply Hb].
  destruct l; [done|]. eapply Hb; [|exact H]. simpl in *. lia.
Qed.
Lemma slice_length {E A} (v : list A) a b r : @slice E A v a b = Ok r -> length r = (b - a)%nat.
Proof.
  unfold slice. case_decide; [|done]. intros [= <-]. rewrite length_take, length_drop. lia.
Qed.
Lemma decode_var_decoded id w data pos name value pos' :
  decode_var id w data pos name = Ok (value, pos') -> Z.of_nat (length value) < 10 ^ Z.of_nat w.
Proof.
  unfold decode_var. case Nat.ltb_spec; [done|]. intros _ H.
  apply bind_Ok_iff in H as (prefix & Hp & H). apply slice_length in Hp.
  apply bind_Ok_iff in H as (s & Hs & H). apply bind_Ok_iff in H as (n & Hn & H).
  assert (s = prefix) as -> by (unfold from_utf8 in Hs; destruct (is_utf8 prefix); simplify_eq/=; done).
  destruct (parse_uint 10 (B64 - 1) prefix) as [n'|] eqn:Hu; simplify_eq/=.
  apply (parse_uint_bound _ _ w) in Hu; [|lia].
  destruct (Nat.ltb_spec (length data) (pos + w + Z.to_nat n)); [done|].
  apply bind_Ok_iff in H as (v & Hv & H). simplify_eq. apply slice_length in Hv. lia.
Qed.
Lemma decode_field_decoded id data pos value pos' :
  decode_field id data pos = Ok (value, pos') -> decoded id value.
Proof.
  unfold decode_field, decoded. destruct (field_encoding id) as [[len|max|max]|]; [..|done].
  - case Nat.ltb_spec; [done|]. intros _ H. apply bind_Ok_iff in H as (v & Hv & H).
    simplify_eq. apply slice_length in Hv. lia.
  - intros H%decode_var_decoded. simpl in H. lia.
  - intros H%decode_var_decoded. simpl in H. lia.
Qed.

(** The elements after a loop over the bits [l] *)
Lemma decode_bits_elements bitmap top skip data l acc pos acc' pos' :
  for_each (decode_bit bitmap top skip data) l (acc, pos) = Ok (acc', pos') ->
  (forall k, is_Some (acc' !! k) <->
     is_Some (acc !! k) \/ (k ∈ l /\ k <> skip /\ bit_set bitmap (top - k) = true)) /\
  ((forall k v, acc !! k = Some v -> decoded k v) -> forall k v, acc' !! k = Some v -> decoded k v).
Proof.
  revert acc pos. induction l as [|bit l IH]; intros acc pos H.
  - simpl in H. simplify_eq. split; [|done]. intros k. rewrite elem_of_nil. naive_solver.
  - cbn [for_each] in H. apply bind_Ok_iff in H as ([acc1 pos1] & H1 & H).
    apply IH in H as [Hk Hd]. clear IH. unfold decode_bit in H1.
    assert (Hcase : (acc1 = acc /\ (bit = skip \/ bit_set bitmap (top - bit) = false)) \/
      (exists v, acc1 = <[bit := v]> acc /\ decoded bit v /\ bit <> skip /\ bit_set bitmap (top - bit) = true)).
    { destruct (Z.eqb_spec bit skip); [left; by simplify_eq; auto|].
      destruct (bit_set bitmap (top - bit)) eqn:Eb; [right|left; by simplify_eq; auto].
      apply bind_Ok_iff in H1 as ([v p] & Hv & H1). simplify_eq. exists v.
      split_and!; [done|by eapply decode_field_decoded|done..]. }
    destruct Hcase as [[-> Hskip]|(v & -> & Hdec & Hne & Hset)].
    + split; [|done]. intros k. rewrite Hk, elem_of_cons. naive_solver congruence.
    + split.
      * intros k. rewrite Hk, elem_of_cons, lookup_insert_is_Some'. naive_solver.
      * intros Hacc. apply Hd. intros k x. rewrite lookup_insert_Some. naive_solver.
Qed.
Lemma from_be_bytes_u64 l : length l = 8%nat -> Forall is_byte l -> is_u64 (from_be_bytes l).
Proof.
  intros Hl Hb. unfold from_be_bytes, is_u64.
  pose proof (from_le_bytes_range (rev l) (Forall_rev Hb)) as Hr. rewrite length_rev, Hl in Hr.
  exact Hr.
Qed.
Lemma slice_bytes {E} (v : list Z) a b r : Forall is_byte v -> @slice E Z v a b = Ok r -> Forall is_byte r.
Proof. unfold slice. case_decide; [|done]. intros Hv [= <-]. by apply Forall_take, Forall_drop. Qed.

Lemma parse_wf data msg : Forall is_byte data -> parse_iso8583 data = Ok msg ->
  wf_msg msg /\ forall id v, elements msg !! id = Some v -> decoded id v.
Proof.
  intros Hdata H. unfold parse_iso8583 in H. destruct (_ <? 10)%nat; [done|].
  apply bind_Ok_iff in H as ([code pos] & _ & H). apply bind_Ok_iff in H as (t & _ & H).
  destruct (_ <? _)%nat; [done|]. apply bind_Ok_iff in H as (pb & Hpb & H). cbv zeta in H.
  pose proof (slice_length _ _ _ _ Hpb) as Hpl. apply slice_bytes in Hpb; [|done].
  assert (Hp : is_u64 (from_be_bytes pb)) by (apply from_be_bytes_u64; [lia|done]).
  apply bind_Ok_iff in H as ([sec pos1] & Hsec & H).
  assert (Hs : bit_set (from_be_bytes pb) 63 = bool_decide (is_Some sec) /\
    forall s, sec = Some s -> is_u64 s).
  { destruct (bit_set _ _).
    - destruct (_ <? _)%nat; [done|]. apply bind_Ok_iff in Hsec as (sb & Hsb & E). simplify_eq.
      pose proof (slice_length _ _ _ _ Hsb) as Hsl. apply slice_bytes in Hsb; [|done].
      split; [by rewrite bool_decide_eq_true_2|]. intros s [= <-]. apply from_be_bytes_u64; [lia|done].
    - simplify_eq. split; [by rewrite bool_decide_eq_false_2 by by intros []|done]. }
  destruct Hs as [Hind Hsu].
  apply bind_Ok_iff in H as ([m1 pos2] & H1 & H). apply decode_bits_elements in H1 as [Hk1 Hd1].
  apply bind_Ok_iff in H as ([m2 pos3] & H2 & H). simplify_eq.
  assert (Hd0 : forall k v, m1 !! k = Some v -> decoded k v)
    by (apply Hd1; intros k v; by rewrite lookup_empty).
  assert (Hlow : forall k, is_Some (m1 !! k) <-> 2 <= k <= 64 /\ bit_set (from_be_bytes pb) (64 - k) = true).
  { intros k. rewrite Hk1, lookup_empty, elem_of_bits. split.
    - intros [[? ?]|(? & ? & ?)]; [done|]. split; [lia|done].
    - intros [? ?]. right. split_and!; (done || lia). }
  assert (Hm2 : (forall k v, m2 !! k = Some v -> decoded k v) /\
    forall k, is_Some (m2 !! k) <-> is_Some (m1 !! k) \/
      (66 <= k <= 128 /\ match sec with Some s => bit_set s (128 - k) = true | None => False end)).
  { destruct sec as [s|]; [|injection H2 as -> _; split; [exact Hd0|]; intros k; split;
      [by left|by intros [?|[_ []]]]].
    apply decode_bits_elements in H2 as [Hk2 Hd2]. split; [by apply Hd2|].
    intros k. rewrite Hk2, elem_of_bits. split.
    - intros [?|(? & ? & ?)]; [by left|right]. split; [lia|done].
    - intros [?|[? ?]]; [by left|right]. split_and!; (done || lia). }
  destruct Hm2 as [Hd2 Hk2]. split; [|done]. split; simpl; [|done|done|done| |].
  - intros id [[? _]%Hlow|[? _]]%Hk2; unfold is_element; lia.
  - intros id Hid. apply Bool.eq_true_iff_eq. rewrite bool_decide_eq_true, Hk2, Hlow.
    split; [intros ?; left; split; [lia|done]|intros [[_ ?]|[? _]]; [done|lia]].
  - intros id Hid. destruct sec as [s|].
    + apply Bool.eq_true_iff_eq. rewrite bool_decide_eq_true, Hk2, Hlow.
      split; [intros ?; right; split; [lia|done]|intros [[? _]|[_ ?]]; [lia|done]].
    + apply eq_None_not_Some. rewrite Hk2, Hlow. intros [[? _]|[_ []]]. lia.
Qed.

(** The parser is total: on any bytes it returns a message or an error,
    never a panic, and the bitmaps of a message it returns show exactly its
    elements, whose lengths are those of their fields; the maximum of a
    variable-length field is not checked, only its prefix bounds it. *)
Theorem parse_is_total data : Forall is_byte data ->
  (exists msg, parse_iso8583 data = Ok msg /\ wf_msg msg /\
     forall id v, elements msg !! id = Some v -> decoded id v) \/
  (exists e, parse_iso8583 data = Err e).
Proof.
  intros Hd. pose proof (parse_returns data) as Hr.
  destruct (parse_iso8583 data) as [msg|e| |] eqn:E; [left|right; by eexists|done..].
  exists msg. split; [done|]. by apply (parse_wf data).
Qed.

(** ** Authorization messages *)
Lemma auth_request_built pan amount currency terminal merchant :
  built_msg (create_auth_request pan amount currency terminal merchant).
Proof. unfold create_auth_request. repeat (apply built_set; [|unfold is_element; lia]). constructor. Qed.

(** The elements of a request *)
Definition request_elements (pan : list Z) (amount : Z) (currency terminal merchant : list Z) :
    gmap Z (list Z) :=
  <[49 := currency]> (<[42 := merchant]> (<[41 := terminal]> (<[22 := bytes_of "012"]>
    (<[11 := bytes_of "000001"]> (<[4 := pad0 12 (decimal amount)]>
      (<[3 := bytes_of "000000"]> (<[2 := pan]> ∅))))))).
Lemma auth_request_elements pan amount currency terminal merchant :
  elements (create_auth_request pan amount currency terminal merchant) =
  request_elements pan amount currency terminal merchant.
Proof. done. Qed.

(** An authorization request survives the wire.  With a card number of at
    most 19 bytes and an amount below 10^12, whatever the other arguments, it
    serializes, and the parsed message has the card number and the amount of
    the request.  (An amount of 10^12 or more is cut: see [Sample].) *)
Theorem auth_request_round_trip `{HashOrder} card minor currency terminal merchant :
  (length card <= 19)%nat -> is_utf8 card = true -> 0 <= minor < 10 ^ 12 ->
  exists data msg,
    serialize_iso8583 (create_auth_request card minor currency terminal merchant) = Ok data /\
    parse_iso8583 data = Ok msg /\ mti msg = AuthorizationRequest /\
    pan msg = Some card /\ amount msg = Some minor.
Proof.
  intros Hpan Hutf Ham.
  set (msg := create_auth_request card minor currency terminal merchant).
  pose proof (auth_request_built card minor currency terminal merchant) as Hb. fold msg in Hb.
  assert (Hfit : all_fit (elements msg)).
  { intros id v. unfold msg. rewrite auth_request_elements. unfold request_elements.
    rewrite !lookup_insert_Some, lookup_empty. intros H'.
    repeat (destruct H' as [[<- <-]|[_ H']]; [unfold fits; simpl; (done || exact Hpan)|]). done. }
  destruct (serialize_then_parse msg Hb) as [[_ (data & Es & Ep)]|[(id & v & Hv & Hno) _]];
    [|by destruct Hno; apply Hfit].
  exists data, (on_wire msg). split; [done|]. split; [done|]. split; [done|].
  assert (Hw : forall id v, elements msg !! id = Some v -> elements (on_wire msg) !! id = Some (wire id v)).
  { intros id v Hv. change (elements (on_wire msg)) with (wires (elements msg)).
    unfold wires. by rewrite map_lookup_imap, Hv. }
  split.
  - unfold pan, get_element_string. rewrite (Hw 2 card) by done. simpl. unfold wire, from_utf8. simpl.
    by rewrite Hutf.
  - unfold amount, get_element_string. rewrite (Hw 4 (pad0 12 (decimal minor))) by done.
    cbn [mbind option_bind].
    assert (Hl : length (pad0 12 (decimal minor)) = 12%nat) by (apply pad0_decimal_length; simpl; lia).
    assert (Hwire : wire 4 (pad0 12 (decimal minor)) = pad0 12 (decimal minor)).
    { unfold wire. cbn [field_encoding]. rewrite take_ge, Hl by lia. apply app_nil_r. }
    rewrite Hwire. unfold from_utf8. rewrite ascii_is_utf8 by (apply decimal_ascii; lia).
    cbn [mbind option_bind]. apply parse_pad0_decimal; lia.
Qed.

(** ** Concrete messages *)
Module Sample.
#[local] Existing Instance canonical_order.
Definition card : list Z := bytes_of "4111111111111111".
(** The request of the test in iso8583.rs *)
Definition request : Iso8583Message :=
  create_auth_request card 10000 (bytes_of "840") (bytes_of "TERM0001") (bytes_of "MERCHANT001").
Lemma request_built : built_msg request.
Proof. apply auth_request_built. Qed.

Example request_reads : pan request = Some card /\ amount request = Some 10000.
Proof. by vm_compute. Qed.
Example response_reads :
  let r := create_auth_response request (bytes_of "00") (bytes_of "123456") in
  response_code r = Some (bytes_of "00") /\ authorization_code r = Some (bytes_of "123456").
Proof. by vm_compute. Qed.

Definition sent (msg : Iso8583Message) : option Iso8583Message :=
  match serialize_iso8583 msg with
  | Ok data => match parse_iso8583 data with Ok m => Some m | _ => None end
  | _ => None
  end.
(** A merchant identifier of 11 bytes comes back with four spaces. *)
Example merchant_padded : (m ← sent request; merchant_id m) = Some (bytes_of "MERCHANT001    ").
Proof. by vm_compute. Qed.
(** An amount of thirteen digits loses the last one. *)
Example amount_cut :
  (m ← sent (create_auth_request card 1234567890123 (bytes_of "840") [] []); amount m) = Some 123456789012.
Proof. by vm_compute. Qed.
(** Element 65 is written, but the parser takes its bit for the indicator of a
    third bitmap and skips it: the next field is read from its bytes. *)
Example element_65_shifts :
  let msg := set_element (set_element (new_message FinancialRequest) 65 (bytes_of "ABCDEFGH")) 66 (bytes_of "7") in
  (m ← sent msg; get_element m 66) = Some (bytes_of "A").
Proof. by vm_compute. Qed.
(** A card number longer than its field is parsed, and cannot be serialized. *)
Definition long_card : list Z :=
  (bytes_of "0100" ++ to_be_bytes 8 (bit64 62) ++ bytes_of "20" ++ replicate 20 52)%list.
Example long_card_parsed : exists m, parse_iso8583 long_card = Ok m /\ pan m = Some (replicate 20 52) /\
  serialize_iso8583 m = Err (too_long 2 20 19).
Proof. eexists. split; [by vm_compute|]. split; by vm_compute. Qed.
(** A sign is accepted as the first character of a length prefix. *)
Example signed_prefix : exists m,
  parse_iso8583 (bytes_of "0100" ++ to_be_bytes 8 (bit64 62) ++ bytes_of "+512345") = Ok m /\
  pan m = Some (bytes_of "12345").
Proof. eexists. split; by vm_compute. Qed.

Lemma bitmaps_show_elements_witness : wf_msg request.
Proof. apply (bitmaps_show_elements request request_built). Defined.
Lemma serialize_then_parse_witness :
  (all_fit (elements request) /\ exists data, serialize_iso8583 request = Ok data /\
     parse_iso8583 data = Ok (on_wire request)) \/
  ((exists id value, elements request !! id = Some value /\ ~ fits id value) /\
   exists e, serialize_iso8583 request = Err e).
Proof. apply (serialize_then_parse request request_built). Defined.

Definition exact : Iso8583Message :=
  create_auth_request card 10000 (bytes_of "840") (bytes_of "TERM0001") (bytes_of "MERCHANT0000001").
Lemma exact_fields id value : elements exact !! id = Some value -> fits id value /\ wire id value = value.
Proof.
  intros Hv.
  assert (Hall : map_Forall (fun id v => bool_decide (fits id v) && bool_decide (wire id v = v) = true) (elements exact))
    by (apply (bool_decide_unpack _); by vm_compute).
  specialize (Hall id value Hv). simpl in Hall. apply andb_true_iff in Hall as [H1 H2].
  split; [exact (bool_decide_eq_true_1 _ H1)|exact (bool_decide_eq_true_1 _ H2)].
Qed.
Lemma exact_round_trip_witness :
  exists data, serialize_iso8583 exact = Ok data /\ parse_iso8583 data = Ok exact.
Proof.
  apply (exact_round_trip exact); [exact (auth_request_built _ _ _ _ _)|exact exact_fields].
Defined.

Lemma long_card_bytes : Forall is_byte long_card.
Proof.
  apply Forall_app; split; [vm_compute; repeat constructor; discriminate|].
  apply Forall_app; split; [apply Forall_rev, to_le_bytes_byte|].
  apply Forall_app; split; [vm_compute; repeat constructor; discriminate|].
  apply Forall_replicate. split; [discriminate|reflexivity].
Qed.
Lemma parse_is_total_witness :
  (exists msg, parse_iso8583 long_card = Ok msg /\ wf_msg msg /\
     forall id v, elements msg !! id = Some v -> decoded id v) \/
  (exists e, parse_iso8583 long_card = Err e).
Proof. apply (parse_is_total long_card long_card_bytes). Defined.

Lemma auth_request_round_trip_witness : exists data msg,
  serialize_iso8583 (create_auth_request card 10000 (bytes_of "840") [] []) = Ok data /\
  parse_iso8583 data = Ok msg /\ mti msg = AuthorizationRequest /\
  pan msg = Some card /\ amount msg = Some 10000.
Proof.
  apply (auth_request_round_trip card 10000 (bytes_of "840") [] []);
    [vm_compute; repeat constructor|reflexivity|split; [discriminate|reflexivity]].
Defined.
End Sample.
