(* ===== verification/IsoValidators.v ===== *)
(** * Financial identifiers and currencies (crates/nexus-iso: validators.rs,
    currency.rs)

    Text is bytes; [to_uppercase] is modelled on ASCII text.  The regex crate is
    a parameter ([RegexLib]), called with the patterns of the source.  Amounts
    are converted on the doubles of Float. *)
From stdpp Require Import base numbers list gmap strings.
From Stdlib Require Import ZArith Lia.
From S2P Require Import Prelude Slices Text Float Iso8583.
#[local] Open Scope Z_scope.

(** [Regex::new(pattern).unwrap().is_match(text)] *)
Class RegexLib := is_match : string -> list Z -> bool.

Definition IBAN_REGEX : string := "^[A-Z]{2}[0-9]{2}[A-Z0-9]{4}[0-9]{7}([A-Z0-9]?){0,16}$".
Definition BIC_REGEX : string := "^[A-Z]{4}[A-Z]{2}[A-Z0-9]{2}([A-Z0-9]{3})?$".
Definition LEI_REGEX : string := "^[A-Z0-9]{4}00[A-Z0-9]{12}[0-9]{2}$".

Definition to_uppercase (s : list Z) : list Z := ascii_upper <$> s.

(** ** ISO 7064 mod 97-10 *)

(** [c.to_string()] of a digit, [((c as u8) - b'A' + 10).to_string()] of another *)
Definition expand (c : Z) : list Z :=
  if is_ascii_digit c then [c] else decimal ((c - 65 + 10) mod 256).
Definition numeric (s : list Z) : list Z := concat (expand <$> s).

(** [chunks(7)] *)
Fixpoint chunks7 (fuel : nat) (l : list Z) : list (list Z) :=
  match fuel with
  | O => []
  | S fuel => match l with [] => [] | _ => take 7 l :: chunks7 fuel (drop 7 l) end
  end.
(** [remainder = format!("{}{}", remainder, s).parse().unwrap() % 97] *)
Definition mod97_step (remainder : Z) (chunk : list Z) : outcome IsoError Z :=
  num ← unwrap (parse_uint 10 (B64 - 1) (decimal remainder ++ chunk)%list);
  Ok (num mod 97).
Definition mod97 (numeric : list Z) : outcome IsoError Z :=
  for_each mod97_step (chunks7 (length numeric) numeric) 0.

(** ** IBAN *)
Definition country_table : list (string * nat) :=
  [("AD", 24); ("AE", 23); ("AL", 28); ("AT", 20); ("AZ", 28); ("BA", 20);
   ("BE", 16); ("BG", 22); ("BH", 22); ("BI", 27); ("BR", 29); ("BY", 28);
   ("CH", 21); ("CR", 22); ("CY", 28); ("CZ", 24); ("DE", 22); ("DJ", 27);
   ("DK", 18); ("DO", 28); ("EE", 20); ("EG", 29); ("ES", 24); ("FI", 18);
   ("FK", 18); ("FO", 18); ("FR", 27); ("GB", 22); ("GE", 22); ("GI", 23);
   ("GL", 18); ("GR", 27); ("GT", 28); ("HR", 21); ("HU", 28); ("IE", 22);
   ("IL", 23); ("IQ", 23); ("IS", 26); ("IT", 27); ("JO", 30); ("KW", 30);
   ("KZ", 20); ("LB", 28); ("LC", 32); ("LI", 21); ("LT", 20); ("LU", 20);
   ("LV", 21); ("LY", 25); ("MC", 27); ("MD", 24); ("ME", 22); ("MK", 19);
   ("MN", 20); ("MR", 27); ("MT", 31); ("MU", 30); ("NI", 32); ("NL", 18);
   ("NO", 15); ("OM", 23); ("PK", 24); ("PL", 28); ("PS", 29); ("PT", 25);
   ("QA", 29); ("RO", 24); ("RS", 22); ("RU", 33); ("SA", 24); ("SC", 31);
   ("SD", 18); ("SE", 24); ("SI", 19); ("SK", 24); ("SM", 27); ("SO", 23);
   ("ST", 25); ("SV", 28); ("TL", 23); ("TN", 24); ("TR", 26); ("UA", 29);
   ("VA", 22); ("VG", 24); ("XK", 20)]%nat.
Definition country_lengths : gmap (list Z) nat :=
  list_to_map ((fun entry => (bytes_of entry.1, entry.2)) <$> country_table).

(** [if let Some(&expected_len) = country_lengths.get(country)] *)
Definition country_length_ok (country : list Z) (len : nat) : bool :=
  match country_lengths !! country with
  | Some expected_len => bool_decide (len = expected_len)
  | None => true
  end.

Section validators.
Context `{RegexLib}.

Definition validate_iban (iban : list Z) : outcome IsoError () :=
  let iban := to_uppercase (filter (fun c => c <> 32 /\ c <> 45) iban) in
  if negb (is_match IBAN_REGEX iban) then Err (ValidationFailed "Invalid IBAN format") else
  country ← slice iban 0 2;
  if negb (country_length_ok country (length iban))
  then
    let expected_len := default 0%nat (country_lengths !! country) in
    Err (ValidationFailed ("IBAN length mismatch for " +:+ string_of country +:+ ": expected "
           +:+ show (Z.of_nat expected_len) +:+ ", got " +:+ show (Z.of_nat (length iban))))
  else
    tail ← slice_from iban 4;
    head ← slice iban 0 4;
    remainder ← mod97 (numeric (tail ++ head)%list);
    if negb (remainder =? 1) then Err (ValidationFailed "Invalid IBAN checksum") else Ok ().

(** ** BIC *)
Definition VALID_CODES : list string :=
  ["AD"; "AE"; "AF"; "AG"; "AL"; "AM"; "AO"; "AR"; "AT"; "AU"; "AZ"; "BA";
   "BB"; "BD"; "BE"; "BF"; "BG"; "BH"; "BI"; "BJ"; "BM"; "BN"; "BO"; "BR";
   "BS"; "BT"; "BW"; "BY"; "BZ"; "CA"; "CD"; "CF"; "CG"; "CH"; "CI"; "CL";
   "CM"; "CN"; "CO"; "CR"; "CU"; "CV"; "CY"; "CZ"; "DE"; "DJ"; "DK"; "DM";
   "DO"; "DZ"; "EC"; "EE"; "EG"; "ER"; "ES"; "ET"; "FI"; "FJ"; "FR"; "GA";
   "GB"; "GD"; "GE"; "GH"; "GM"; "GN"; "GQ"; "GR"; "GT"; "GW"; "GY"; "HK";
   "HN"; "HR"; "HT"; "HU"; "ID"; "IE"; "IL"; "IN"; "IQ"; "IR"; "IS"; "IT";
   "JM"; "JO"; "JP"; "KE"; "KG"; "KH"; "KI"; "KM"; "KN"; "KP"; "KR"; "KW";
   "KZ"; "LA"; "LB"; "LC"; "LI"; "LK"; "LR"; "LS"; "LT"; "LU"; "LV"; "LY";
   "MA"; "MC"; "MD"; "ME"; "MG"; "MK"; "ML"; "MM"; "MN"; "MO"; "MR"; "MT";
   "MU"; "MV"; "MW"; "MX"; "MY"; "MZ"; "NA"; "NE"; "NG"; "NI"; "NL"; "NO";
   "NP"; "NR"; "NZ"; "OM"; "PA"; "PE"; "PG"; "PH"; "PK"; "PL"; "PT"; "PW";
   "PY"; "QA"; "RO"; "RS"; "RU"; "RW"; "SA"; "SB"; "SC"; "SD"; "SE"; "SG";
   "SI"; "SK"; "SL"; "SM"; "SN"; "SO"; "SR"; "SS"; "ST"; "SV"; "SY"; "SZ";
   "TD"; "TG"; "TH"; "TJ"; "TL"; "TM"; "TN"; "TO"; "TR"; "TT"; "TV"; "TW";
   "TZ"; "UA"; "UG"; "US"; "UY"; "UZ"; "VA"; "VC"; "VE"; "VN"; "VU"; "WS";
   "XK"; "YE"; "ZA"; "ZM"; "ZW"].
Definition is_valid_country_code (code : list Z) : bool :=
  bool_decide (code ∈ bytes_of <$> VALID_CODES).

Definition validate_bic (bic : list Z) : outcome IsoError () :=
  let bic := to_uppercase bic in
  if negb (is_match BIC_REGEX bic) then Err (ValidationFailed "Invalid BIC format") else
  country ← slice bic 4 6;
  if negb (is_valid_country_code country)
  then Err (ValidationFailed ("Invalid country code in BIC: " +:+ string_of country))
  else Ok ().

(** ** LEI *)
Definition validate_lei (lei : list Z) : outcome IsoError () :=
  let lei := to_uppercase lei in
  if bool_decide (length lei <> 20%nat)
  then Err (ValidationFailed ("LEI must be 20 characters, got " +:+ show (Z.of_nat (length lei)))) else
  if negb (is_match LEI_REGEX lei) then Err (ValidationFailed "Invalid LEI format") else
  remainder ← mod97 (numeric lei);
  if negb (remainder =? 1) then Err (ValidationFailed "Invalid LEI checksum") else Ok ().

(** ** Card numbers *)

(** One pass of the Luhn loop over the digits from the right *)
Definition luhn_step (state : Z * bool) (c : Z) : Z * bool :=
  let '(sum, double) := state in
  let digit := c - 48 in
  let digit := if double : bool then let d := digit * 2 in if 9 <? d then d - 9 else d else digit in
  (sum + digit, negb double).
Definition luhn_sum (card : list Z) : Z := (foldl luhn_step (0, false) (rev card)).1.

Definition validate_card_number (card : list Z) : outcome IsoError () :=
  let card := filter is_ascii_digit card in
  if (length card <? 13)%nat || (19 <? length card)%nat
  then Err (ValidationFailed ("Card number must be 13-19 digits, got " +:+ show (Z.of_nat (length card))))
  else if negb (luhn_sum card mod 10 =? 0)
  then Err (ValidationFailed "Invalid card number checksum")
  else Ok ().

(** [card[0..n].parse().ok()?]: the slice panics when it is out of range. *)
Definition prefix_number (card : list Z) (n : nat) : outcome IsoError (option Z) :=
  prefix ← slice card 0 n; Ok (parse_uint 10 (2 ^ 32 - 1) prefix).
Definition in_inclusive (lo hi x : Z) : bool := (lo <=? x) && (x <=? hi).

Definition get_card_network (card : list Z) : outcome IsoError (option string) :=
  let card := filter is_ascii_digit card in
  if (length card <? 6)%nat then Ok None else
  prefix2 ← prefix_number card 2;
  prefix4 ← prefix_number card 4;
  prefix6 ← prefix_number card 6;
  match prefix2, prefix4, prefix6 with
  | Some prefix2, Some prefix4, Some _ =>
      if starts_with card [52] then Ok (Some "Visa")
      else if in_inclusive 51 55 prefix2 || in_inclusive 2221 2720 prefix4 then Ok (Some "Mastercard")
      else if (prefix2 =? 34) || (prefix2 =? 37) then Ok (Some "American Express")
      else if (prefix4 =? 6011) || (prefix2 =? 65) then Ok (Some "Discover")
      else
        prefix3 ← prefix_number card 3;
        match prefix3 with
        | None => Ok None
        | Some prefix3 =>
            if in_inclusive 644 649 prefix3 then Ok (Some "Discover")
            else if in_inclusive 3528 3589 prefix4 then Ok (Some "JCB")
            else if in_inclusive 300 305 prefix3 || (prefix2 =? 36) || (prefix2 =? 38)
            then Ok (Some "Diners Club")
            else if prefix2 =? 62 then Ok (Some "UnionPay")
            else Ok None
        end
  | _, _, _ => Ok None
  end.

(** [IdentifierValidator::validate] *)
Definition validate (identifier_type value : list Z) : outcome IsoError () :=
  let kind := to_uppercase identifier_type in
  if bool_decide (kind = bytes_of "IBAN") then validate_iban value
  else if bool_decide (kind = bytes_of "BIC") || bool_decide (kind = bytes_of "SWIFT") then validate_bic value
  else if bool_decide (kind = bytes_of "LEI") then validate_lei value
  else if bool_decide (kind = bytes_of "PAN") || bool_decide (kind = bytes_of "CARD")
  then validate_card_number value
  else Err (UnknownMessageType ("Unknown identifier type: " +:+ string_of identifier_type)).
End validators.

(** ** Currencies *)
Record Currency := mkCurrency {
  cur_code : string;
  cur_numeric : string;
  cur_decimals : Z;
  cur_name : string
}.
Definition currencies : list Currency :=
  [mkCurrency "AED" "784" 2 "UAE Dirham"; mkCurrency "AUD" "036" 2 "Australian Dollar";
   mkCurrency "BRL" "986" 2 "Brazilian Real"; mkCurrency "CAD" "124" 2 "Canadian Dollar";
   mkCurrency "CHF" "756" 2 "Swiss Franc"; mkCurrency "CNY" "156" 2 "Chinese Yuan";
   mkCurrency "EUR" "978" 2 "Euro"; mkCurrency "GBP" "826" 2 "British Pound";
   mkCurrency "HKD" "344" 2 "Hong Kong Dollar"; mkCurrency "INR" "356" 2 "Indian Rupee";
   mkCurrency "JPY" "392" 0 "Japanese Yen"; mkCurrency "KRW" "410" 0 "South Korean Won";
   mkCurrency "MXN" "484" 2 "Mexican Peso"; mkCurrency "NOK" "578" 2 "Norwegian Krone";
   mkCurrency "NZD" "554" 2 "New Zealand Dollar"; mkCurrency "PLN" "985" 2 "Polish Zloty";
   mkCurrency "RUB" "643" 2 "Russian Ruble"; mkCurrency "SEK" "752" 2 "Swedish Krona";
   mkCurrency "SGD" "702" 2 "Singapore Dollar"; mkCurrency "THB" "764" 2 "Thai Baht";
   mkCurrency "TRY" "949" 2 "Turkish Lira"; mkCurrency "USD" "840" 2 "US Dollar";
   mkCurrency "ZAR" "710" 2 "South African Rand"; mkCurrency "XBT" "000" 8 "Bitcoin";
   mkCurrency "XET" "000" 18 "Ethereum"].
Definition CURRENCIES : gmap (list Z) Currency :=
  list_to_map ((fun c => (bytes_of (cur_code c), c)) <$> currencies).

Definition get_currency (code : list Z) : option Currency := CURRENCIES !! to_uppercase code.
(** [values().find(...)]: in the order of the hash table *)
Definition get_currency_by_numeric `{HashOrder} (numeric : list Z) : option Currency :=
  snd <$> list_find (fun c => bytes_of (cur_numeric c) = numeric) (values CURRENCIES).
Definition is_valid_currency (code : list Z) : bool :=
  bool_decide (is_Some (CURRENCIES !! to_uppercase code)).

(** [10_f64.powi(c.decimals as i32)] *)
Definition unit_of (c : Currency) : f64 := f_powi (f_of 10) (cur_decimals c).
Definition minor_to_major (amount : Z) (currency : list Z) : option f64 :=
  c ← get_currency currency;
  Some (f_div (f_of amount) (unit_of c)).
Definition major_to_minor (amount : f64) (currency : list Z) : option Z :=
  c ← get_currency currency;
  Some (f_to_i64 (f_round (f_mul amount (unit_of c)))).
Definition format_amount (amount : Z) (currency : list Z) : option (list Z) :=
  c ← get_currency currency;
  let major := f_div (f_of amount) (unit_of c) in
  Some (f_display (Z.to_nat (cur_decimals c)) major ++ 32 :: bytes_of (cur_code c))%list.
