(* ===== verification/IsoValidatorsProps.v ===== *)
(** * Check digits (theorems about validators.rs and currency.rs) *)
From stdpp Require Import base numbers list gmap strings.
From Stdlib Require Import ZArith Lia.
From Stdlib Require Import Floats.SpecFloat.
From S2P Require Import Prelude Slices Text Float Iso8583 IsoValidators.
#[local] Open Scope Z_scope.

(** ** The remainder loop *)
Definition is_digit (b : Z) : Prop := 48 <= b <= 57.
(** The number that a text of digits denotes *)
Definition value (l : list Z) : Z := number 10 ((fun b => b - 48) <$> l) 0.

Lemma number_linear b l acc : number b l acc = acc * b ^ Z.of_nat (length l) + number b l 0.
Proof.
  revert acc. induction l as [|d l IH]; intros acc; [unfold number; simpl; lia|].
  change (number b (d :: l) acc) with (number b l (acc * b + d)).
  change (number b (d :: l) 0) with (number b l (0 * b + d)).
  rewrite (IH (acc * b + d)), (IH (0 * b + d)). cbn [length].
  rewrite Nat2Z.inj_succ, Z.pow_succ_r by lia. lia.
Qed.
Lemma number_range b l : 2 <= b -> Forall (is_digit_value b) l ->
  0 <= number b l 0 < b ^ Z.of_nat (length l).
Proof.
  intros Hb Hl. induction Hl as [|d l [? ?] _ IH]; [unfold number; simpl; lia|].
  change (number b (d :: l) 0) with (number b l (0 * b + d)). rewrite number_linear. cbn [length].
  rewrite Nat2Z.inj_succ, Z.pow_succ_r by lia.
  pose proof (Z.pow_pos_nonneg b (Z.of_nat (length l))). nia.
Qed.
Lemma value_app l1 l2 : value (l1 ++ l2) = value l1 * 10 ^ Z.of_nat (length l2) + value l2.
Proof. unfold value. rewrite fmap_app, number_app, number_linear. by rewrite length_fmap. Qed.
Lemma digits_values l : Forall is_digit l -> Forall (is_digit_value 10) ((fun b => b - 48) <$> l).
Proof. intros Hl. apply Forall_fmap. eapply Forall_impl; [exact Hl|]. unfold is_digit, is_digit_value. simpl. lia. Qed.
Lemma digits_of_values l : Forall is_digit l -> (fun d => 48 + d) <$> ((fun b => b - 48) <$> l) = l.
Proof.
  intros Hl. rewrite <- list_fmap_compose. rewrite <- (list_fmap_id l) at 2.
  apply list_fmap_ext. intros i x _. simpl. lia.
Qed.

Lemma mod97_step_exact r chunk : 0 <= r < 97 -> Forall is_digit chunk -> (length chunk <= 7)%nat ->
  mod97_step r chunk = Ok ((r * 10 ^ Z.of_nat (length chunk) + value chunk) mod 97).
Proof.
  intros Hr Hc Hl. unfold mod97_step, decimal.
  rewrite <- (digits_of_values chunk Hc) at 1. rewrite <- fmap_app.
  assert (Hd : Forall (is_digit_value 10) (digits 20 10 r ++ ((fun b => b - 48) <$> chunk)))
    by (apply Forall_app; split; [apply digits_range; lia|by apply digits_values]).
  assert (Hv : number 10 (digits 20 10 r ++ ((fun b => b - 48) <$> chunk)) 0 =
      r * 10 ^ Z.of_nat (length chunk) + value chunk).
  { rewrite number_app, digits_number, number_linear, length_fmap; [done|lia|].
    change (10 ^ Z.of_nat 20) with 100000000000000000000. lia. }
  assert (Hb : 0 <= value chunk < 10 ^ Z.of_nat (length chunk)).
  { unfold value. rewrite <- (length_fmap (fun b => b - 48) chunk).
    apply number_range; [lia|by apply digits_values]. }
  assert (Hp : 1 <= 10 ^ Z.of_nat (length chunk) <= 10 ^ 7).
  { split; [pose proof (Z.pow_pos_nonneg 10 (Z.of_nat (length chunk))); lia|apply Z.pow_le_mono_r; lia]. }
  rewrite parse_uint_digits; [|intros E; apply app_nil in E as [E _]; by apply digits_nonempty in E; [|lia]|done].
  rewrite parse_digits_number; [by rewrite Hv|done|lia|]. rewrite Hv. nia.
Qed.

Lemma chunks7_loop fuel l r : (length l <= fuel)%nat -> 0 <= r < 97 -> Forall is_digit l ->
  for_each mod97_step (chunks7 fuel l) r = Ok ((r * 10 ^ Z.of_nat (length l) + value l) mod 97).
Proof.
  revert l r. induction fuel as [|fuel IH]; intros l r Hf Hr Hl.
  - destruct l; [|simpl in Hf; lia]. simpl. f_equal. unfold value, number. simpl.
    rewrite Z.mod_small; lia.
  - destruct l as [|b l']; [simpl; f_equal; unfold value, number; simpl; rewrite Z.mod_small; lia|].
    set (l := b :: l') in *. change (chunks7 (S fuel) l) with (take 7 l :: chunks7 fuel (drop 7 l)).
    cbn [for_each]. rewrite mod97_step_exact; [|done|by apply Forall_take|rewrite length_take; lia].
    cbn [mbind outcome_bind]. rewrite IH.
    + f_equal.
      assert (Ev : value l = value (take 7 l) * 10 ^ Z.of_nat (length (drop 7 l)) + value (drop 7 l))
        by by rewrite <- value_app, take_drop.
      assert (El : Z.of_nat (length l) = Z.of_nat (length (take 7 l)) + Z.of_nat (length (drop 7 l)))
        by (rewrite <- Nat2Z.inj_add, <- length_app, take_drop; done).
      rewrite Ev, El, Z.pow_add_r by lia.
      rewrite Z.add_mod, Z.mul_mod_idemp_l, <- Z.add_mod by lia. f_equal. lia.
    + rewrite length_drop. unfold l. simpl in *. lia.
    + apply Z.mod_pos_bound. lia.
    + by apply Forall_drop.
Qed.
(** The chunked loop is exact: on every text of decimal digits, however
    long, it returns without panic the remainder of the denoted number by 97. *)
Theorem mod97_is_remainder l : Forall is_digit l -> mod97 l = Ok (value l mod 97).
Proof.
  intros Hl. unfold mod97. rewrite chunks7_loop; [|lia..|done]. done.
Qed.

(** ** The number of an identifier *)
Definition is_alnum (c : Z) : Prop := 48 <= c <= 57 \/ 65 <= c <= 90.
Lemma expand_digits c : is_alnum c -> Forall is_digit (expand c).
Proof.
  intros Hc. unfold expand, is_ascii_digit. destruct (_ && _) eqn:E.
  - repeat constructor; lia.
  - unfold decimal. apply Forall_fmap. eapply Forall_impl; [apply digits_range; [lia|apply Z.mod_pos_bound; lia]|].
    intros d [? ?]. unfold is_digit. simpl. lia.
Qed.
Lemma numeric_digits s : Forall is_alnum s -> Forall is_digit (numeric s).
Proof.
  intros Hs. unfold numeric. apply Forall_concat, Forall_fmap.
  eapply Forall_impl; [exact Hs|]. intros c Hc. by apply expand_digits.
Qed.
Lemma numeric_app s1 s2 : numeric (s1 ++ s2) = (numeric s1 ++ numeric s2)%list.
Proof. unfold numeric. by rewrite fmap_app, concat_app. Qed.

Section validators.
Context `{RX : RegexLib}.

(** What the documentation of the patterns gives of a match *)
Definition iban_pattern_sound : Prop := forall s, is_match IBAN_REGEX s = true ->
  Forall is_alnum s /\ (15 <= length s <= 31)%nat.
Definition lei_pattern_sound : Prop := forall s, is_match LEI_REGEX s = true -> Forall is_alnum s.

(** The text that is checked, and the number its check digits close *)
Definition iban_text (iban : list Z) : list Z :=
  to_uppercase (filter (fun c => c <> 32 /\ c <> 45) iban).
Definition iban_number (s : list Z) : Z := value (numeric (drop 4 s ++ take 4 s)).
Definition iban_length_ok (s : list Z) : Prop :=
  forall len, country_lengths !! take 2 s = Some len -> length s = len.
#[global] Instance iban_length_ok_dec s : Decision (iban_length_ok s).
Proof.
  unfold iban_length_ok. destruct (country_lengths !! take 2 s) as [len|].
  - destruct (decide (length s = len)); [left|right]; naive_solver.
  - by left.
Defined.

(** IBAN validation decides exactly the standard's conditions, on any text:
    it accepts when the format matches, the length is the country's (if the
    country is in the table) and the number with the first four characters
    moved to the end is 1 modulo 97; otherwise it returns an error, never a
    panic. *)
Theorem validate_iban_exact iban : iban_pattern_sound ->
  let s := iban_text iban in
  (validate_iban iban = Ok () <->
     is_match IBAN_REGEX s = true /\ iban_length_ok s /\ iban_number s mod 97 = 1) /\
  (validate_iban iban = Ok () \/ exists msg, validate_iban iban = Err (ValidationFailed msg)).
Proof.
  intros Hrx s. unfold validate_iban. fold (iban_text iban). fold s.
  destruct (is_match IBAN_REGEX s) eqn:Hm; cbn [negb]; [|split; [naive_solver|by right; eexists]].
  destruct (Hrx s Hm) as [Ha Hl].
  rewrite (slice_ok s 0 2), (slice_ok s 0 4) by lia. cbn [mbind outcome_bind].
  rewrite !Nat.sub_0_r, !drop_0.
  assert (Hlen : country_length_ok (take 2 s) (length s) = true <-> iban_length_ok s).
  { unfold country_length_ok, iban_length_ok.
    destruct (country_lengths !! take 2 s); [rewrite bool_decide_eq_true|]; naive_solver. }
  destruct (country_length_ok (take 2 s) (length s)); cbn [negb].
  - rewrite slice_from_ok by lia. cbn [mbind outcome_bind].
    rewrite mod97_is_remainder
      by (apply numeric_digits, Forall_app; split; [by apply Forall_drop|by apply Forall_take]).
    cbn [mbind outcome_bind]. fold (iban_number s).
    destruct (Z.eqb_spec (iban_number s mod 97) 1) as [E|E]; cbn [negb].
    + split; [|by left]. split; [|done]. intros _. split_and!; [done|by apply Hlen|done].
    + split; [|right; by eexists]. split; [done|]. by intros (_ & _ & ?).
  - split; [|right; by eexists]. split; [done|]. intros (_ & ?%Hlen & _). done.
Qed.

(** Saint Lucia, Nicaragua and Russia: their lengths of 32 and 33 exceed what
    the pattern matches, so no IBAN of theirs is accepted. *)
Lemma long_ibans_refused iban : iban_pattern_sound ->
  take 2 (iban_text iban) ∈ [bytes_of "LC"; bytes_of "NI"; bytes_of "RU"] -> validate_iban iban <> Ok ().
Proof.
  intros Hrx Hc Hok. apply (validate_iban_exact iban Hrx) in Hok as (Hm & Hlen & _).
  destruct (Hrx _ Hm) as [_ Hl]. unfold iban_length_ok in Hlen.
  apply elem_of_cons in Hc as [E|Hc]; [specialize (Hlen 32%nat); rewrite E in Hlen; by specialize (Hlen eq_refl); lia|].
  apply elem_of_cons in Hc as [E|Hc]; [specialize (Hlen 32%nat); rewrite E in Hlen; by specialize (Hlen eq_refl); lia|].
  apply list_elem_of_singleton in Hc as E.
  specialize (Hlen 33%nat). rewrite E in Hlen. specialize (Hlen eq_refl). lia.
Qed.

(** ** What the check digits of an LEI detect *)
Lemma validate_lei_ok lei : lei_pattern_sound -> validate_lei lei = Ok () ->
  let s := to_uppercase lei in
  length s = 20%nat /\ Forall is_alnum s /\ value (numeric s) mod 97 = 1.
Proof.
  intros Hrx. unfold validate_lei. case_bool_decide as Hl; [done|].
  destruct (is_match LEI_REGEX (to_uppercase lei)) eqn:Hm; cbn [negb]; [|done].
  apply Hrx in Hm. rewrite mod97_is_remainder by by apply numeric_digits. cbn [mbind outcome_bind].
  destruct (Z.eqb_spec (value (numeric (to_uppercase lei)) mod 97) 1); [|done].
  intros _. split_and!; [|done..]. destruct (decide (length (to_uppercase lei) = 20%nat)); [done|].
  by destruct Hl.
Qed.
Lemma validate_lei_total lei : lei_pattern_sound ->
  validate_lei lei = Ok () \/ exists msg, validate_lei lei = Err (ValidationFailed msg).
Proof.
  intros Hrx. unfold validate_lei. case_bool_decide; [by right; eexists|].
  destruct (is_match LEI_REGEX (to_uppercase lei)) eqn:Hm; cbn [negb]; [|by right; eexists].
  apply Hrx in Hm. rewrite mod97_is_remainder by by apply numeric_digits. cbn [mbind outcome_bind].
  destruct (_ =? 1); [by left|by right; eexists].
Qed.
End validators.

(** Ten is invertible modulo 97. *)
Lemma mod97_cancel x k : (x * 10 ^ Z.of_nat k) mod 97 = 0 -> x mod 97 = 0.
Proof.
  revert x. induction k as [|k IH]; intros x Hx; [by rewrite Z.mul_1_r in Hx|].
  rewrite Nat2Z.inj_succ, Z.pow_succ_r in Hx by lia.
  apply (IH x). apply Z.mod_divide in Hx as [q Hq]; [|lia]. apply Z.mod_divide; [lia|].
  exists (68 * q - 7 * (x * 10 ^ Z.of_nat k)). lia.
Qed.
(** Two texts that differ in the middle have remainders that differ with it. *)
Lemma value_middle pre m1 m2 post : length m1 = length m2 ->
  value (pre ++ m1 ++ post) mod 97 = value (pre ++ m2 ++ post) mod 97 ->
  (value m1 - value m2) mod 97 = 0.
Proof.
  intros Hl Hv. apply (mod97_cancel _ (length post)).
  rewrite !value_app, !length_app, Hl in Hv.
  set (p := value pre * 10 ^ Z.of_nat (length m2 + length post)) in Hv.
  set (t := 10 ^ Z.of_nat (length post)) in *.
  apply Z.mod_divide; [lia|].
  pose proof (Z.div_mod (p + (value m1 * t + value post)) 97 ltac:(lia)) as E1.
  pose proof (Z.div_mod (p + (value m2 * t + value post)) 97 ltac:(lia)) as E2.
  rewrite Hv in E1.
  exists ((p + (value m1 * t + value post)) / 97 - (p + (value m2 * t + value post)) / 97). lia.
Qed.

(** Two characters that expand to as many digits: both digits, or both letters *)
Definition same_class (c1 c2 : Z) : Prop :=
  (48 <= c1 <= 57 /\ 48 <= c2 <= 57) \/ (65 <= c1 <= 90 /\ 65 <= c2 <= 90).
Definition char_value (c : Z) : Z := if is_ascii_digit c then c - 48 else c - 55.
Definition width (c : Z) : nat := if is_ascii_digit c then 1 else 2.
Lemma letter_numeric : forallb (fun n =>
  let c := Z.of_nat n in (value (expand c) =? char_value c) && (length (expand c) =? width c)%nat)
  (seq 48 10 ++ seq 65 26) = true.
Proof. by vm_compute. Qed.
Lemma expand_value c : is_alnum c -> value (expand c) = char_value c /\ length (expand c) = width c.
Proof.
  intros Hc. pose proof letter_numeric as H. rewrite forallb_forall in H.
  specialize (H (Z.to_nat c)). cbv zeta in H. rewrite Z2Nat.id in H by (destruct Hc; lia).
  assert (Hin : In (Z.to_nat c) (seq 48 10 ++ seq 65 26)).
  { apply in_app_iff. rewrite !in_seq. destruct Hc; lia. }
  apply H in Hin. apply andb_true_iff in Hin as [H1 H2]. split; [by apply Z.eqb_eq|by apply Nat.eqb_eq].
Qed.
Lemma same_class_alnum c1 c2 : same_class c1 c2 ->
  is_alnum c1 /\ is_alnum c2 /\ width c1 = width c2 /\ Z.abs (char_value c1 - char_value c2) <= 25 /\
  (char_value c1 = char_value c2 -> c1 = c2).
Proof.
  unfold same_class, is_alnum, width, char_value, is_ascii_digit.
  intros [[? ?]|[? ?]]; repeat case_match; lia.
Qed.
(** Of two valid identifiers none is a small change of the other. *)
Lemma lei_pair_injective `{RegexLib} pre a b a' b' post : lei_pattern_sound ->
  same_class a a' -> same_class b b' ->
  (a = a' \/ b = b' \/ (a' = b /\ b' = a)) ->
  to_uppercase (pre ++ [a; b] ++ post) = (pre ++ [a; b] ++ post)%list ->
  to_uppercase (pre ++ [a'; b'] ++ post) = (pre ++ [a'; b'] ++ post)%list ->
  validate_lei (pre ++ [a; b] ++ post) = Ok () -> validate_lei (pre ++ [a'; b'] ++ post) = Ok () ->
  a = a' /\ b = b'.
Proof.
  intros Hrx Ha Hb Hcase U1 U2 V1 V2.
  apply validate_lei_ok in V1 as (_ & _ & V1); [|done]. apply validate_lei_ok in V2 as (_ & _ & V2); [|done].
  rewrite U1 in V1. rewrite U2 in V2. rewrite <- V2 in V1. rewrite !numeric_app in V1.
  destruct (same_class_alnum _ _ Ha) as (A1 & A2 & Aw & Ab & Ai), (same_class_alnum _ _ Hb) as (B1 & B2 & Bw & Bb & Bi).
  destruct (expand_value a A1) as [Va La], (expand_value a' A2) as [Va' La'],
    (expand_value b B1) as [Vb Lb], (expand_value b' B2) as [Vb' Lb'].
  assert (Hn : forall x y, numeric [x; y] = (expand x ++ expand y)%list)
    by (intros; unfold numeric; simpl; by rewrite app_nil_r).
  rewrite !Hn in V1. apply value_middle in V1; [|rewrite !length_app; lia].
  rewrite !value_app, Va, Va', Vb, Vb', Lb, Lb', <- Bw in V1.
  set (t := 10 ^ Z.of_nat (width b)) in V1.
  assert (Ht : t = 10 \/ t = 100) by (unfold t, width; destruct (is_ascii_digit b); by auto).
  apply Z.mod_divide in V1 as [q V1]; [|lia].
  destruct Hcase as [->|[->|[-> ->]]]; destruct Ht as [Ht|Ht]; rewrite Ht in V1; clear Ht t;
    first [assert (b = b') by (apply Bi; lia); by subst|assert (a = a') by (apply Ai; lia); by subst
          |assert (a = b) by (apply Ai; lia); by subst].
Qed.

(** The check digits of an LEI detect every substitution of one character
    by another of its class (digit or capital letter) and every transposition
    of two neighbours of one class: such a change of a valid identifier,
    written in capitals, is refused with an error. *)
Theorem lei_check_detects_errors `{RegexLib} pre a b a' b' post : lei_pattern_sound ->
  same_class a a' -> same_class b b' -> (a, b) <> (a', b') ->
  (a = a' \/ b = b' \/ (a' = b /\ b' = a)) ->
  to_uppercase (pre ++ [a; b] ++ post) = (pre ++ [a; b] ++ post)%list ->
  to_uppercase (pre ++ [a'; b'] ++ post) = (pre ++ [a'; b'] ++ post)%list ->
  validate_lei (pre ++ [a; b] ++ post) = Ok () ->
  exists msg, validate_lei (pre ++ [a'; b'] ++ post) = Err (ValidationFailed msg).
Proof.
  intros Hrx Ha Hb Hne Hcase U1 U2 V1.
  destruct (validate_lei_total (pre ++ [a'; b'] ++ post) Hrx) as [V2|E]; [|done].
  destruct Hne. by destruct (lei_pair_injective pre a b a' b' post) as [-> ->].
Qed.

(** ** What the Luhn digit detects *)
Definition weigh (double : bool) (c : Z) : Z :=
  let digit := c - 48 in
  if double then let d := digit * 2 in if 9 <? d then d - 9 else d else digit.
(** The sum over digits from the right, the first doubled when [double] holds *)
Fixpoint luhn_from (double : bool) (l : list Z) : Z :=
  match l with
  | [] => 0
  | c :: l => weigh double c + luhn_from (negb double) l
  end.
Fixpoint parity (double : bool) (l : list Z) : bool :=
  match l with [] => double | _ :: l => parity (negb double) l end.

Lemma luhn_fold sum double l :
  foldl luhn_step (sum, double) l = (sum + luhn_from double l, parity double l).
Proof.
  revert sum double. induction l as [|c l IH]; intros sum double; simpl; [by rewrite Z.add_0_r|].
  rewrite IH. unfold weigh. by rewrite Z.add_assoc.
Qed.
Lemma luhn_from_app double l1 l2 :
  luhn_from double (l1 ++ l2) = luhn_from double l1 + luhn_from (parity double l1) l2.
Proof. revert double. induction l1 as [|c l1 IH]; intros double; simpl; [done|]. rewrite IH. lia. Qed.
Lemma parity_eq double l1 l2 : length l1 = length l2 -> parity double l1 = parity double l2.
Proof.
  revert double l2. induction l1 as [|c l1 IH]; intros double [|c' l2] Hl; try done.
  simpl in *. apply IH. lia.
Qed.
(** The contribution of two neighbours [a b], the right one doubled or not *)
Definition pair_sum (double : bool) (a b : Z) : Z := weigh double b + weigh (negb double) a.
Lemma luhn_sum_pair (pre post : list Z) : exists s double, forall x y,
  luhn_sum (pre ++ [x; y] ++ post) = s + pair_sum double x y.
Proof.
  exists (luhn_from false (rev post) + luhn_from (parity false (rev post)) (rev pre)), (parity false (rev post)).
  intros x y. unfold luhn_sum. rewrite luhn_fold. cbn [fst].
  rewrite !rev_app_distr. simpl. rewrite <- (assoc_L app), !luhn_from_app. cbn [luhn_from parity app].
  rewrite negb_involutive. unfold pair_sum. lia.
Qed.

Definition code_digits : list Z := (fun n => Z.of_nat n) <$> seq 48 10.
Lemma elem_of_digits c : is_digit c -> c ∈ code_digits.
Proof.
  intros Hc. unfold code_digits. apply list_elem_of_fmap. exists (Z.to_nat c).
  unfold is_digit in Hc. split; [lia|]. apply elem_of_seq. lia.
Qed.
(** Every pair of digits, against every single change and transposition of it *)
Lemma pairs_checked : forallb (fun double => forallb (fun a => forallb (fun b => forallb (fun x =>
    implb ((pair_sum double a b - pair_sum double x b) mod 10 =? 0) (a =? x)
    && implb ((pair_sum double a b - pair_sum double a x) mod 10 =? 0) (b =? x))
    code_digits
  && implb ((pair_sum double a b - pair_sum double b a) mod 10 =? 0)
       ((a =? b) || ((a =? 48) && (b =? 57)) || ((a =? 57) && (b =? 48))))
  code_digits) code_digits) [true; false] = true.
Proof. by vm_compute. Qed.
Lemma pair_detects double a b x : is_digit a -> is_digit b -> is_digit x ->
  ((pair_sum double a b - pair_sum double x b) mod 10 = 0 -> a = x) /\
  ((pair_sum double a b - pair_sum double a x) mod 10 = 0 -> b = x) /\
  ((pair_sum double a b - pair_sum double b a) mod 10 = 0 ->
   a = b \/ (a = 48 /\ b = 57) \/ (a = 57 /\ b = 48)).
Proof.
  intros Ha Hb Hx. apply elem_of_digits, list_elem_of_In in Ha, Hb, Hx.
  pose proof pairs_checked as H. rewrite forallb_forall in H.
  specialize (H double ltac:(destruct double; simpl; auto)). rewrite forallb_forall in H.
  specialize (H a Ha). rewrite forallb_forall in H. specialize (H b Hb).
  apply andb_true_iff in H as [H1 H2]. rewrite forallb_forall in H1. specialize (H1 x Hx).
  apply andb_true_iff in H1 as [H0 H1].
  split_and!; intros E; apply Z.eqb_eq in E.
  - rewrite E in H0. simpl in H0. lia.
  - rewrite E in H1. simpl in H1. lia.
  - rewrite E in H2. simpl in H2. lia.
Qed.

Lemma digits_filtered l : Forall is_digit l -> filter is_ascii_digit l = l.
Proof.
  intros Hl. apply list_filter_all. intros c Hc. rewrite Forall_forall in Hl. apply Hl in Hc.
  unfold is_ascii_digit, is_digit in *. apply Is_true_true. lia.
Qed.
Lemma validate_card_ok card : Forall is_digit card -> validate_card_number card = Ok () ->
  (13 <= length card <= 19)%nat /\ luhn_sum card mod 10 = 0.
Proof.
  intros Hd. unfold validate_card_number. rewrite digits_filtered by done.
  destruct (_ || _) eqn:El; [done|]. destruct (Z.eqb_spec (luhn_sum card mod 10) 0); [|done].
  intros _. apply orb_false_iff in El as [E1%Nat.ltb_ge E2%Nat.ltb_ge]. by split.
Qed.

Lemma validate_card_total card : Forall is_digit card -> (13 <= length card <= 19)%nat ->
  validate_card_number card = Ok () \/
  validate_card_number card = Err (ValidationFailed "Invalid card number checksum").
Proof.
  intros Hd Hl. unfold validate_card_number. rewrite digits_filtered by done.
  rewrite (proj2 (Nat.ltb_ge _ _)), (proj2 (Nat.ltb_ge _ _)) by lia.
  cbn [orb]. destruct (_ =? 0); [by left|by right].
Qed.
Lemma luhn_pair_injective pre a b a' b' post :
  Forall is_digit (pre ++ [a; b] ++ post) -> is_digit a' -> is_digit b' ->
  (a = a' \/ b = b' \/ (a' = b /\ b' = a /\ ~ (a = 48 /\ b = 57) /\ ~ (a = 57 /\ b = 48))) ->
  validate_card_number (pre ++ [a; b] ++ post) = Ok () ->
  validate_card_number (pre ++ [a'; b'] ++ post) = Ok () -> a = a' /\ b = b'.
Proof.
  intros Hd Ha' Hb' Hcase V1 V2. pose proof Hd as Hd'.
  apply Forall_app in Hd' as [Hpre [[Ha [Hb _]%Forall_cons]%Forall_cons Hpost]%Forall_app].
  apply validate_card_ok in V1 as [_ V1]; [|done].
  apply validate_card_ok in V2 as [_ V2];
    [|apply Forall_app; split; [done|]; by repeat apply Forall_cons_2].
  destruct (luhn_sum_pair pre post) as (s & double & Hs). rewrite !Hs in *.
  assert (E : (pair_sum double a b - pair_sum double a' b') mod 10 = 0).
  { replace (pair_sum double a b - pair_sum double a' b')
      with ((s + pair_sum double a b) - (s + pair_sum double a' b')) by lia.
    by rewrite Zminus_mod, V1, V2. }
  destruct Hcase as [<-|[<-|(-> & -> & Hno & Hno')]].
  - destruct (pair_detects double a b b') as (_ & H & _); [done..|]. by split; [|apply H].
  - destruct (pair_detects double a b a') as (H & _ & _); [done..|]. by split; [apply H|].
  - destruct (pair_detects double a b a) as (_ & _ & H); [done..|]. destruct (H E) as [?|[?|?]]; [by subst|done..].
Qed.

(** The check digit of a card number detects every substitution of one
    digit and every transposition of neighbours other than 0 and 9: such a
    change of a valid number is refused for its checksum. *)
Theorem luhn_detects_errors pre a b a' b' post :
  Forall is_digit (pre ++ [a; b] ++ post) -> is_digit a' -> is_digit b' -> (a, b) <> (a', b') ->
  (a = a' \/ b = b' \/ (a' = b /\ b' = a /\ ~ (a = 48 /\ b = 57) /\ ~ (a = 57 /\ b = 48))) ->
  validate_card_number (pre ++ [a; b] ++ post) = Ok () ->
  validate_card_number (pre ++ [a'; b'] ++ post) = Err (ValidationFailed "Invalid card number checksum").
Proof.
  intros Hd Ha' Hb' Hne Hcase V1.
  destruct (validate_card_total (pre ++ [a'; b'] ++ post)) as [V2|V2].
  - apply Forall_app in Hd as [Hpre [_ Hpost]%Forall_app].
    apply Forall_app; split; [done|]. by repeat apply Forall_cons_2.
  - apply validate_card_ok in V1 as [Hl _]; [|done]. revert Hl. by rewrite !length_app.
  - destruct Hne. by destruct (luhn_pair_injective pre a b a' b' post) as [-> ->].
  - done.
Qed.

(** ** Currency conversions *)
Lemma currency_known code c : get_currency code = Some c -> c ∈ currencies.
Proof.
  unfold get_currency, CURRENCIES. intros Hc%elem_of_list_to_map_2.
  apply list_elem_of_fmap in Hc as (c' & [= _ ->] & Hc). exact Hc.
Qed.
Lemma currency_decimals c : c ∈ currencies -> cur_decimals c ∈ [0; 2; 8; 18].
Proof.
  intros Hc. assert (Hall : Forall (fun c => cur_decimals c ∈ [0; 2; 8; 18]) currencies).
  { unfold currencies. repeat constructor; cbn [cur_decimals]; set_solver. }
  rewrite Forall_forall in Hall. by apply Hall.
Qed.
Lemma unit_exact c : c ∈ currencies -> 0 <= cur_decimals c /\ exactly (unit_of c) (10 ^ cur_decimals c).
Proof.
  intros Hc%currency_decimals. unfold unit_of, exactly.
  repeat (apply elem_of_cons in Hc as [->|Hc]); [..|by apply not_elem_of_nil in Hc];
    (split; [lia|]); eexists _, _; (split; [vm_compute; reflexivity|]); (split; [lia|]); (split; [lia|reflexivity]).
Qed.

Lemma decimal_big_value n : 0 <= n -> Forall is_digit (decimal_big n) /\ value (decimal_big n) = n.
Proof.
  intros Hn. unfold decimal_big. set (fuel := S _). split.
  - apply Forall_fmap. eapply Forall_impl; [by apply digits_range|]. unfold is_digit_value, is_digit. cbn. lia.
  - unfold value. rewrite <- list_fmap_compose. rewrite (list_fmap_ext _ id).
    + rewrite list_fmap_id. apply digits_number; [lia|]. split; [done|].
      destruct (decide (n = 0)) as [->|Hne]; [done|]. destruct (Z.log2_spec n) as [_ Hl]; [lia|].
      eapply Z.lt_le_trans; [exact Hl|]. unfold fuel. rewrite Nat2Z.inj_succ, Z2Nat.id by apply Z.log2_nonneg.
      apply Z.pow_le_mono_l. lia.
    + intros i x _. cbn. lia.
Qed.
Lemma decimal_big_length n w : (0 < w)%nat -> 0 <= n < 10 ^ Z.of_nat w -> (length (decimal_big n) <= w)%nat.
Proof. intros Hw Hn. unfold decimal_big. rewrite length_fmap. by apply digits_length. Qed.
Lemma pad0_value w l : value (pad0 w l) = value l.
Proof. unfold pad0. rewrite value_app. unfold value at 1. rewrite fmap_replicate. cbn. by rewrite <- (app_nil_r (replicate _ _)), number_zeros. Qed.

(** The text of a fixed number of decimals denotes the number. *)
Lemma fixed_value d n : 0 <= n -> exists whole cents,
  fixed d n = (whole ++ if (d =? 0)%nat then [] else 46 :: cents)%list /\
  Forall is_digit whole /\ Forall is_digit cents /\ length cents = d /\
  value whole * 10 ^ Z.of_nat d + value cents = n.
Proof.
  intros Hn. set (k := 10 ^ Z.of_nat d). assert (Hk : 0 < k) by (unfold k; lia).
  destruct (decimal_big_value (n / k)) as [D1 V1]; [by apply Z.div_pos|].
  destruct (decimal_big_value (n mod k)) as [D2 V2]; [by apply Z.mod_pos_bound|].
  pose proof (Z.mod_pos_bound n k Hk) as Hm. pose proof (Z.div_mod n k) as Hdm.
  exists (decimal_big (n / k)), (if (d =? 0)%nat then [] else pad0 d (decimal_big (n mod k))).
  unfold fixed. fold k. destruct (Nat.eqb_spec d 0) as [->|Hd].
  - split; [done|]. split; [done|]. split; [constructor|]. split; [done|]. rewrite V1. cbn. change k with 1 in *. lia.
  - split; [done|]. split; [done|]. split.
    + apply Forall_app. split; [|done]. apply Forall_replicate. unfold is_digit. lia.
    + split; [apply pad0_length, decimal_big_length; [lia|done]|]. rewrite pad0_value, V1, V2. lia.
Qed.

Lemma f_to_i64_exact s a M E : Zpos M = a * 2 ^ (- E) -> E <= 0 -> 0 < a < 2 ^ 53 ->
  f_to_i64 (S754_finite s M E) = cond_Zopp s a.
Proof.
  intros HM HE Ha. unfold f_to_i64. assert (Hn : (if 0 <=? E then Zpos M * 2 ^ E else Zpos M / 2 ^ (- E)) = a).
  { destruct (Z.leb_spec 0 E); [assert (E = 0) as -> by lia; cbn in *; lia|]. rewrite HM. apply Z.div_mul. lia. }
  rewrite Hn. destruct s; cbn [cond_Zopp]; lia.
Qed.
Lemma round_near s a x : 0 < a < 2 ^ 51 -> nearly x s 1 a -> f_to_i64 (f_round x) = cond_Zopp s a.
Proof.
  intros Ha (M & E & -> & HE & Hn). cbn [f_round]. rewrite Z.mul_1_r in Hn.
  rewrite (scaled_away_near M E a HE Hn).
  destruct (f_of_exact s a) as (Ma & Ea & Hf & _ & Ra & Hae); [lia|].
  assert (Hb : binary_normalize 53 1024 (cond_Zopp s a) 0 s = f_of (cond_Zopp s a)).
  { unfold f_of. destruct s, a; cbn; try done; lia. }
  rewrite Hb, Hf. apply f_to_i64_exact; [done|lia|lia].
Qed.

(** C39: Amounts of less than [2^51] minor units are converted without loss: to
    major units and back is the identity, and the text is the sign, the whole
    units, a point and exactly as many digits as the currency has decimals,
    which together denote the amount. *)
Theorem currency_amounts_are_exact code c a : get_currency code = Some c -> Z.abs a < 2 ^ 51 ->
  exists x text whole cents, minor_to_major a code = Some x /\ major_to_minor x code = Some a /\
    format_amount a code = Some text /\
    text = (signed (a <? 0) (whole ++ if cur_decimals c =? 0 then [] else 46 :: cents)
             ++ 32 :: bytes_of (cur_code c))%list /\
    Forall is_digit whole /\ Forall is_digit cents /\ Z.of_nat (length cents) = cur_decimals c /\
    value whole * 10 ^ cur_decimals c + value cents = Z.abs a.
Proof.
  intros Hc Ha. destruct (unit_exact c (currency_known _ _ Hc)) as [Hd Hu].
  unfold minor_to_major, major_to_minor, format_amount. rewrite Hc. cbn [mbind option_bind].
  set (d := Z.to_nat (cur_decimals c)). destruct (fixed_value d (Z.abs a)) as (whole & cents & Hf & Hw & Hce & Hl & Hv); [lia|].
  assert (Hk : Z.of_nat d = cur_decimals c) by lia. rewrite Hk in Hv.
  exists (f_div (f_of a) (unit_of c)). eexists. exists whole, cents. split; [done|].
  assert (Hdz : (cur_decimals c =? 0) = (d =? 0)%nat) by (destruct (Z.eqb_spec (cur_decimals c) 0), (Nat.eqb_spec d 0); lia).
  rewrite Hdz, <- Hf.
  enough (f_to_i64 (f_round (f_mul (f_div (f_of a) (unit_of c)) (unit_of c))) = a /\
          f_display d (f_div (f_of a) (unit_of c)) = signed (a <? 0) (fixed d (Z.abs a))) as [H1 ->].
  { rewrite H1. split; [done|]. split; [done|]. split; [done|]. split; [done|]. split; [done|]. split; [lia|done]. }
  destruct (decide (a = 0)) as [->|Hne].
  { destruct Hu as (Mu & Eu & -> & _). split; reflexivity. }
  assert (Hs : a = cond_Zopp (a <? 0) (Z.abs a)) by (destruct (Z.ltb_spec a 0); cbn; lia).
  destruct (quotient_near (a <? 0) (Z.abs a) (10 ^ cur_decimals c) (unit_of c)) as [H1 H2]; [lia|lia|done|].
  rewrite <- Hs in H1, H2. split.
  - rewrite (round_near _ (Z.abs a) _ ltac:(lia) H2). by rewrite <- Hs.
  - destruct H1 as (M & E & -> & HE & Hn). cbn [f_display]. f_equal. f_equal. rewrite Hk. by apply scaled_even_near.
Qed.

(** ** Concrete identifiers *)
Module Sample.

(** A concrete reading of the patterns *)
Definition is_alnum_b (c : Z) : bool := is_ascii_digit c || is_ascii_upper c.
Definition all_in (p : Z -> bool) (l : list Z) : bool := forallb p l.
#[local] Instance patterns : RegexLib := fun pattern s =>
  if bool_decide (pattern = IBAN_REGEX) then
    (15 <=? length s)%nat && (length s <=? 31)%nat && all_in is_ascii_upper (take 2 s)
    && all_in is_ascii_digit (take 2 (drop 2 s)) && all_in is_alnum_b (take 4 (drop 4 s))
    && all_in is_ascii_digit (take 7 (drop 8 s)) && all_in is_alnum_b s
  else if bool_decide (pattern = LEI_REGEX) then
    (length s =? 20)%nat && all_in is_alnum_b s && bool_decide (take 2 (drop 4 s) = [48; 48])
    && all_in is_ascii_digit (drop 18 s)
  else
    ((length s =? 8)%nat || (length s =? 11)%nat) && all_in is_ascii_upper (take 6 s) && all_in is_alnum_b s.
Lemma all_alnum s : all_in is_alnum_b s = true -> Forall is_alnum s.
Proof.
  intros H. apply Forall_forall. intros c Hc. unfold all_in in H. rewrite forallb_forall in H.
  apply list_elem_of_In, H in Hc. unfold is_alnum_b, is_ascii_digit, is_ascii_upper, is_alnum in *. lia.
Qed.
Lemma patterns_iban : iban_pattern_sound.
Proof.
  intros s H. unfold is_match, patterns in H. rewrite bool_decide_eq_true_2 in H by done.
  rewrite !andb_true_iff in H. destruct H as [[[[[[H1 H2] _] _] _] _] H3].
  split; [by apply all_alnum|]. apply Nat.leb_le in H1, H2. lia.
Qed.
Lemma patterns_lei : lei_pattern_sound.
Proof.
  intros s H. unfold is_match, patterns in H. rewrite bool_decide_eq_false_2, bool_decide_eq_true_2 in H by done.
  rewrite !andb_true_iff in H. destruct H as [[[_ H] _] _]. by apply all_alnum.
Qed.

(** The identifiers of the tests in validators.rs *)
Example ibans : validate_iban (bytes_of "DE89 3704 0044 0532 0130 00") = Ok () /\
  validate_iban (bytes_of "gb82west12345698765432") = Ok () /\
  validate_iban (bytes_of "DE89370400440532013001") = Err (ValidationFailed "Invalid IBAN checksum").
Proof. by vm_compute. Qed.
Example cards : validate_card_number (bytes_of "4111 1111 1111 1111") = Ok () /\
  get_card_network (bytes_of "6011111111111117") = Ok (Some "Discover") /\
  get_card_network (bytes_of "378282246310005") = Ok (Some "American Express").
Proof. by vm_compute. Qed.
(** A country that is not in the table is not refused. *)
Example unknown_country : validate_iban (bytes_of "XX46370400440532013000") = Ok ().
Proof. by vm_compute. Qed.
(** Two currencies have the numeric code 000: which is found depends on the
    order of the hash table. *)
Example numeric_is_ambiguous :
  cur_code <$> get_currency_by_numeric (H := canonical_order) (bytes_of "000") <>
  cur_code <$> get_currency_by_numeric (H := reversed_order) (bytes_of "000").
Proof. by vm_compute. Qed.

Lemma mod97_is_remainder_witness : mod97 (bytes_of "12345678901234567890123") = Ok (value (bytes_of "12345678901234567890123") mod 97).
Proof.
  apply (mod97_is_remainder (bytes_of "12345678901234567890123")).
  vm_compute. repeat constructor; discriminate.
Defined.
Lemma validate_iban_exact_witness :
  let iban := bytes_of "DE89370400440532013000" in
  let s := iban_text iban in
  (validate_iban iban = Ok () <->
     is_match IBAN_REGEX s = true /\ iban_length_ok s /\ iban_number s mod 97 = 1) /\
  (validate_iban iban = Ok () \/ exists msg, validate_iban iban = Err (ValidationFailed msg)).
Proof. apply (validate_iban_exact (bytes_of "DE89370400440532013000") patterns_iban). Defined.

(** The identifier of the test, cut before its check digits *)
Definition lei_prefix : list Z := bytes_of "529900W18LQJJN6SJ".
Lemma lei_check_detects_errors_witness :
  exists msg, validate_lei (lei_prefix ++ [53; 51] ++ [54]) = Err (ValidationFailed msg).
Proof.
  apply (lei_check_detects_errors lei_prefix 51 51 53 51 [54] patterns_lei);
    [left; split; split; discriminate|left; split; split; discriminate|discriminate|right; left; reflexivity
    |reflexivity|reflexivity|reflexivity].
Defined.
Lemma luhn_detects_errors_witness :
  validate_card_number (bytes_of "411111111111" ++ [49; 50] ++ bytes_of "11") =
  Err (ValidationFailed "Invalid card number checksum").
Proof.
  apply (luhn_detects_errors (bytes_of "411111111111") 49 49 49 50 (bytes_of "11"));
    [vm_compute; repeat constructor; discriminate|split; discriminate|split; discriminate|discriminate
    |left; reflexivity|reflexivity].
Defined.
Lemma currency_amounts_are_exact_witness :
  Z.abs (-123456) < 2 ^ 51 /\ exists x, minor_to_major (-123456) (bytes_of "usd") = Some x /\
    major_to_minor x (bytes_of "usd") = Some (-123456) /\
    format_amount (-123456) (bytes_of "usd") = Some (bytes_of "-1234.56 USD").
Proof.
  split; [lia|].
  destruct (currency_amounts_are_exact (bytes_of "usd") (mkCurrency "USD" "840" 2 "US Dollar") (-123456))
    as (x & text & whole & cents & Hx & Hb & _); [vm_compute; reflexivity|lia|].
  exists x. split; [exact Hx|]. split; [exact Hb|]. vm_compute. reflexivity.
Defined.
(** Above [2^53] an amount is no double: one unit is lost on the way to the
    text and back; a currency with 18 decimals reaches this below one
    hundredth of a unit. *)
Lemma large_amounts_are_misprinted :
  format_amount (2 ^ 53 + 1) (bytes_of "JPY") = Some (bytes_of "9007199254740992 JPY") /\
  (minor_to_major (2 ^ 53 + 1) (bytes_of "JPY") ≫= fun x => major_to_minor x (bytes_of "JPY")) = Some (2 ^ 53) /\
  format_amount 1000000000000000001 (bytes_of "XET") = Some (bytes_of "1.000000000000000000 XET").
Proof. vm_compute. repeat split. Qed.
End Sample.
