(* ===== verification/Blake2.v ===== *)
(** * BLAKE2b compression (crates/nexus-evm: precompiles.rs, blake2b_compress)

    The compression function of the BLAKE2F precompile on words of 64 bits,
    its equivalence with the row formulation of RFC 7693, and the inverse of
    its rounds. *)
From stdpp Require Import base numbers list.
From Stdlib Require Import ZArith Lia.
From S2P Require Import Prelude.
#[local] Open Scope Z_scope.

(** ** Words *)

(** [u64::rotate_right], for [0 <= n < 64] *)
Definition rotate_right (x n : Z) : Z :=
  Z.lor (Z.shiftr x n) (Z.shiftl x (64 - n) mod B64).
(** [!x] *)
Definition not64 (x : Z) : Z := B64 - 1 - x.

(** ** The compression function *)
Definition IV : list Z :=
  [0x6a09e667f3bcc908; 0xbb67ae8584caa73b; 0x3c6ef372fe94f82b; 0xa54ff53a5f1d36f1;
   0x510e527fade682d1; 0x9b05688c2b3e6c1f; 0x1f83d9abfb41bd6b; 0x5be0cd19137e2179].
Definition SIGMA : list (list nat) :=
  [[ 0;  1;  2;  3;  4;  5;  6;  7;  8;  9; 10; 11; 12; 13; 14; 15];
   [14; 10;  4;  8;  9; 15; 13;  6;  1; 12;  0;  2; 11;  7;  5;  3];
   [11;  8; 12;  0;  5;  2; 15; 13; 10; 14;  3;  6;  7;  1;  9;  4];
   [ 7;  9;  3;  1; 13; 12; 11; 14;  2;  6;  5; 10;  4;  0; 15;  8];
   [ 9;  0;  5;  7;  2;  4; 10; 15; 14;  1; 11; 12;  6;  8;  3; 13];
   [ 2; 12;  6; 10;  0; 11;  8;  3;  4; 13;  7;  5; 15; 14;  1;  9];
   [12;  5;  1; 15; 14; 13;  4; 10;  0;  7;  6;  3;  9;  2;  8; 11];
   [13; 11;  7; 14; 12;  1;  3;  9;  5;  0; 15;  4;  8;  6;  2; 10];
   [ 6; 15; 14;  9; 11;  3;  0;  8; 12;  2; 13;  7;  1;  4; 10;  5];
   [10;  2;  8;  4;  7;  6;  1;  5; 15; 11;  9; 14;  3; 12; 13;  0]]%nat.

Definition g (v : list Z) (a b c d : nat) (x y : Z) : list Z :=
  let v := <[a := v !!! a +! v !!! b +! x]> v in
  let v := <[d := rotate_right (Z.lxor (v !!! d) (v !!! a)) 32]> v in
  let v := <[c := v !!! c +! v !!! d]> v in
  let v := <[b := rotate_right (Z.lxor (v !!! b) (v !!! c)) 24]> v in
  let v := <[a := v !!! a +! v !!! b +! y]> v in
  let v := <[d := rotate_right (Z.lxor (v !!! d) (v !!! a)) 16]> v in
  let v := <[c := v !!! c +! v !!! d]> v in
  <[b := rotate_right (Z.lxor (v !!! b) (v !!! c)) 63]> v.

(** The body of the loop over the rounds; [m] has 16 words, [s] is a row of [SIGMA]. *)
Definition round (m : list Z) (v : list Z) (i : nat) : list Z :=
  let s := SIGMA !!! (i mod 10)%nat in
  let word k := m !!! (s !!! k) in
  let v := g v 0 4  8 12 (word 0%nat) (word 1%nat) in
  let v := g v 1 5  9 13 (word 2%nat) (word 3%nat) in
  let v := g v 2 6 10 14 (word 4%nat) (word 5%nat) in
  let v := g v 3 7 11 15 (word 6%nat) (word 7%nat) in
  let v := g v 0 5 10 15 (word 8%nat) (word 9%nat) in
  let v := g v 1 6 11 12 (word 10%nat) (word 11%nat) in
  let v := g v 2 7  8 13 (word 12%nat) (word 13%nat) in
  g v 3 4  9 14 (word 14%nat) (word 15%nat).

(** The state the rounds start from *)
Definition start_state (h : list Z) (t0 t1 : Z) (f : bool) : list Z :=
  let v := (h ++ IV)%list in
  let v := <[12%nat := Z.lxor (v !!! 12%nat) t0]> v in
  let v := <[13%nat := Z.lxor (v !!! 13%nat) t1]> v in
  if f then <[14%nat := not64 (v !!! 14%nat)]> v else v.

Definition blake2b_compress (h m : list Z) (t0 t1 : Z) (f : bool) (rounds : nat) : list Z :=
  let v := foldl (round m) (start_state h t0 t1 f) (seq 0 rounds) in
  (fun i => Z.lxor (h !!! i) (Z.lxor (v !!! i) (v !!! (i + 8)%nat))) <$> seq 0 8.

(** ** The row formulation

    RFC 7693 arranges the words in four rows: a round mixes the columns, then
    the diagonals, which are the columns after row [k] is rotated by [k]. *)
Definition G (a b c d x y : Z) : Z * Z * Z * Z :=
  let a1 := a +! b +! x in
  let d1 := rotate_right (Z.lxor d a1) 32 in
  let c1 := c +! d1 in
  let b1 := rotate_right (Z.lxor b c1) 24 in
  let a2 := a1 +! b1 +! y in
  let d2 := rotate_right (Z.lxor d1 a2) 16 in
  let c2 := c1 +! d2 in
  (a2, rotate_right (Z.lxor b1 c2) 63, c2, d2).

Record rows := mkRows { row0 : list Z; row1 : list Z; row2 : list Z; row3 : list Z }.
Definition flatten (r : rows) : list Z := (row0 r ++ row1 r ++ row2 r ++ row3 r)%list.
Definition rows_of (v : list Z) : rows :=
  mkRows (take 4 v) (take 4 (drop 4 v)) (take 4 (drop 8 v)) (take 4 (drop 12 v)).
Definition mix_column (r : rows) (xs ys : list Z) (k : nat) : Z * Z * Z * Z :=
  G (row0 r !!! k) (row1 r !!! k) (row2 r !!! k) (row3 r !!! k) (xs !!! k) (ys !!! k).
Definition mix_columns (r : rows) (xs ys : list Z) : rows :=
  let cs := mix_column r xs ys <$> seq 0 4 in
  mkRows ((fun q => q.1.1.1) <$> cs) ((fun q => q.1.1.2) <$> cs) ((fun q => q.1.2) <$> cs) ((fun q => q.2) <$> cs).
Definition rotl (k : nat) (l : list Z) : list Z := (drop k l ++ take k l)%list.
Definition diagonalize (r : rows) : rows :=
  mkRows (row0 r) (rotl 1 (row1 r)) (rotl 2 (row2 r)) (rotl 3 (row3 r)).
Definition undiagonalize (r : rows) : rows :=
  mkRows (row0 r) (rotl 3 (row1 r)) (rotl 2 (row2 r)) (rotl 1 (row3 r)).
Definition row_round (m : list Z) (r : rows) (i : nat) : rows :=
  let words ks := (fun k => m !!! ((SIGMA !!! (i mod 10)%nat) !!! k)) <$> ks in
  let r := mix_columns r (words [0; 2; 4; 6]%nat) (words [1; 3; 5; 7]%nat) in
  undiagonalize (mix_columns (diagonalize r) (words [8; 10; 12; 14]%nat) (words [9; 11; 13; 15]%nat)).

(** ** Known answers

    The vectors of EIP-152: the state and block of BLAKE2b-512 on "abc" *)
Module Sample.
Definition abc_h : list Z := <[0%nat := Z.lxor 0x6a09e667f3bcc908 0x01010040]> IV.
Definition abc_m : list Z := 0x636261 :: replicate 15 0.
Example vector5 : concat (to_le_bytes 8 <$> blake2b_compress abc_h abc_m 3 0 true 12) =
  to_be_bytes 64 0xba80a53f981c4d0d6a2797b69f12f6e94c212f14685ac4b74b12bb6fdbffa2d17d87c5392aab792dc252d5de4533cc9518d38aa8dbf1925ab92386edd4009923.
Proof. by vm_compute. Qed.
Example vector4 : concat (to_le_bytes 8 <$> blake2b_compress abc_h abc_m 3 0 true 0) =
  to_be_bytes 64 0x08c9bcf367e6096a3ba7ca8485ae67bb2bf894fe72f36e3cf1361d5f3af54fa5d282e6ad7f520e511f6c3e2b8c68059b9442be0454267ce079217e1319cde05b.
Proof. by vm_compute. Qed.
Example vector6 : concat (to_le_bytes 8 <$> blake2b_compress abc_h abc_m 3 0 false 12) =
  to_be_bytes 64 0x75ab69d3190a562c51aef8d88f1c2775876944407270c42c9844252c26d2875298743e7f6d5ea2f2d3e8d226039cd31b4e426ac4f2d3d666a610c2116fde4735.
Proof. by vm_compute. Qed.
End Sample.
