(* ===== verification/Blake2Props.v ===== *)
(** * BLAKE2b compression: theorems

    The rounds are those of RFC 7693 in rows, they permute the states, and
    what a compression without rounds returns. *)
From stdpp Require Import base numbers list.
From Stdlib Require Import ZArith Lia.
From S2P Require Import Prelude Blake2.
#[local] Open Scope Z_scope.

(** ** Rotation *)
Lemma word_bits x i : is_u64 x -> 64 <= i -> Z.testbit x i = false.
Proof.
  intros Hx Hi. destruct (Z.eq_dec x 0) as [->|Hx0]; [apply Z.bits_0|].
  apply Z.bits_above_log2; [unfold is_u64 in Hx; lia|].
  assert (Z.log2 x < 64); [|lia]. apply Z.log2_lt_pow2; [unfold is_u64 in *; lia|]. apply Hx.
Qed.
Lemma rotate_right_bit x n i : is_u64 x -> 0 < n < 64 -> 0 <= i ->
  Z.testbit (rotate_right x n) i = (i <? 64) && Z.testbit x ((i + n) mod 64).
Proof.
  intros Hx Hn Hi. unfold rotate_right.
  rewrite Z.lor_spec, Z.shiftr_spec by done.
  change B64 with (2 ^ 64). rewrite Z.testbit_mod_pow2 by lia.
  rewrite Z.shiftl_spec by done.
  destruct (Z.ltb_spec i 64); cbn [andb].
  - destruct (Z.lt_ge_cases (i + n) 64).
    + rewrite Z.mod_small by lia. rewrite (Z.testbit_neg_r x (i - (64 - n))) by lia. apply orb_false_r.
    + rewrite (word_bits x (i + n)) by (done || lia). cbn [orb].
      f_equal. rewrite <- (Z_mod_plus_full (i + n) (-1) 64), Z.mod_small; lia.
  - rewrite (word_bits x (i + n)) by (done || lia). done.
Qed.
Lemma rotate_right_word x n : is_u64 x -> 0 < n < 64 -> is_u64 (rotate_right x n).
Proof.
  intros Hx Hn. assert (Hr : 0 <= rotate_right x n).
  { unfold rotate_right. apply Z.lor_nonneg. split; [apply Z.shiftr_nonneg; unfold is_u64 in Hx; lia|].
    apply Z.mod_pos_bound. lia. }
  split; [done|]. change B64 with (2 ^ 64).
  destruct (Z.eq_dec (rotate_right x n) 0) as [->|Hx0]; [lia|].
  apply Z.log2_lt_pow2; [lia|].
  destruct (Z.lt_ge_cases (Z.log2 (rotate_right x n)) 64) as [|Hl]; [done|].
  pose proof (Z.bit_log2 (rotate_right x n) ltac:(lia)) as Hb.
  rewrite rotate_right_bit in Hb by (done || lia).
  rewrite (proj2 (Z.ltb_ge _ _) Hl) in Hb. done.
Qed.
Lemma rotate_right_back x n : is_u64 x -> 0 < n < 64 ->
  rotate_right (rotate_right x n) (64 - n) = x.
Proof.
  intros Hx Hn. apply Z.bits_inj'. intros i Hi.
  rewrite rotate_right_bit by (try apply rotate_right_word; done || lia).
  destruct (Z.ltb_spec i 64) as [Hi'|Hi']; cbn [andb]; [|by rewrite word_bits].
  pose proof (Z.mod_pos_bound (i + (64 - n)) 64 ltac:(lia)) as Hm.
  rewrite rotate_right_bit by (done || lia).
  rewrite (proj2 (Z.ltb_lt _ _)) by lia. cbn [andb]. f_equal.
  rewrite Zplus_mod_idemp_l. replace (i + (64 - n) + n) with (i + 1 * 64) by lia.
  rewrite Z_mod_plus_full. apply Z.mod_small. lia.
Qed.
Lemma lxor_word x y : is_u64 x -> is_u64 y -> is_u64 (Z.lxor x y).
Proof.
  intros Hx Hy. split; [apply Z.lxor_nonneg; unfold is_u64 in *; lia|].
  change B64 with (2 ^ 64). destruct (Z.eq_dec (Z.lxor x y) 0) as [->|H0]; [lia|].
  assert (0 <= Z.lxor x y) by (apply Z.lxor_nonneg; unfold is_u64 in *; lia).
  apply Z.log2_lt_pow2; [lia|].
  destruct (Z.lt_ge_cases (Z.log2 (Z.lxor x y)) 64) as [|Hl]; [done|].
  pose proof (Z.bit_log2 (Z.lxor x y) ltac:(lia)) as Hb.
  rewrite Z.lxor_spec, !word_bits in Hb by done. done.
Qed.
Lemma lxor_cancel x y : Z.lxor (Z.lxor x y) y = x.
Proof. by rewrite Z.lxor_assoc, Z.lxor_nilpotent, Z.lxor_0_r. Qed.
Lemma add_sub_cancel x y : is_u64 x -> (x +! y) -! y = x.
Proof.
  intros Hx. unfold add64, sub64. rewrite Zminus_mod_idemp_l.
  replace (x + y - y) with x by lia. by apply Z.mod_small.
Qed.
Lemma sub_add_cancel x y : is_u64 x -> (x -! y) +! y = x.
Proof.
  intros Hx. unfold add64, sub64. rewrite Zplus_mod_idemp_l.
  replace (x - y + y) with x by lia. by apply Z.mod_small.
Qed.
#[export] Hint Resolve rotate_right_word lxor_word : nexus.

(** ** The quarter round and its inverse *)
Definition G_inv (a b c d x y : Z) : Z * Z * Z * Z :=
  let b1 := Z.lxor (rotate_right b 1) c in
  let c1 := c -! d in
  let d1 := Z.lxor (rotate_right d 48) a in
  let a1 := a -! y -! b1 in
  let b0 := Z.lxor (rotate_right b1 40) c1 in
  let d0 := Z.lxor (rotate_right d1 32) a1 in
  (a1 -! x -! b0, b0, c1 -! d1, d0).

Definition words4 (q : Z * Z * Z * Z) : Prop :=
  is_u64 q.1.1.1 /\ is_u64 q.1.1.2 /\ is_u64 q.1.2 /\ is_u64 q.2.
Definition on4 {A} (f : Z -> Z -> Z -> Z -> A) (q : Z * Z * Z * Z) : A := f q.1.1.1 q.1.1.2 q.1.2 q.2.

#[local] Ltac words := repeat first
  [ assumption | apply add64_range | apply sub64_range | apply lxor_word
  | apply rotate_right_word; [|lia] ].
Lemma G_words a b c d x y : words4 (a, b, c, d) -> words4 (G a b c d x y).
Proof. intros (Ha & Hb & Hc & Hd). unfold words4, G; cbn [fst snd] in *. split_and!; words. Qed.
Lemma G_inv_words a b c d x y : words4 (a, b, c, d) -> words4 (G_inv a b c d x y).
Proof. intros (Ha & Hb & Hc & Hd). unfold words4, G_inv; cbn [fst snd] in *. split_and!; words. Qed.

Lemma add_sub_sub x y z : is_u64 x -> (x +! y +! z) -! z -! y = x.
Proof. intros. rewrite add_sub_cancel by apply add64_range. by apply add_sub_cancel. Qed.
Lemma sub_add_add x y z : is_u64 x -> (x -! y -! z) +! z +! y = x.
Proof. intros. rewrite sub_add_cancel by apply sub64_range. by apply sub_add_cancel. Qed.
Lemma rotate_cancel x y n k : is_u64 x -> is_u64 y -> 0 < n < 64 -> k = 64 - n ->
  Z.lxor (rotate_right (rotate_right (Z.lxor x y) n) k) y = x.
Proof. intros ? ? ? ->. rewrite rotate_right_back by (done || by apply lxor_word). apply lxor_cancel. Qed.
Lemma rotate_cancel' x y n k : is_u64 x -> is_u64 y -> 0 < n < 64 -> k = 64 - n ->
  rotate_right (Z.lxor (Z.lxor (rotate_right x k) y) y) n = x.
Proof.
  intros ? ? ? ->. rewrite lxor_cancel.
  rewrite <- (rotate_right_back x (64 - n)) at 2 by (done || lia). do 2 f_equal. lia.
Qed.

Lemma G_inv_G a b c d x y : words4 (a, b, c, d) ->
  on4 (fun a b c d => G_inv a b c d x y) (G a b c d x y) = (a, b, c, d).
Proof.
  intros (Ha & Hb & Hc & Hd). unfold on4, G; cbn [fst snd] in *.
  set (a1 := a +! b +! x). set (d1 := rotate_right (Z.lxor d a1) 32). set (c1 := c +! d1).
  set (b1 := rotate_right (Z.lxor b c1) 24). set (a2 := a1 +! b1 +! y).
  set (d2 := rotate_right (Z.lxor d1 a2) 16). set (c2 := c1 +! d2).
  assert (Ha1 : is_u64 a1) by words. assert (Hd1 : is_u64 d1) by (unfold d1; words).
  assert (Hc1 : is_u64 c1) by words. assert (Hb1 : is_u64 b1) by (unfold b1; words).
  assert (Ha2 : is_u64 a2) by words. assert (Hc2 : is_u64 c2) by words.
  unfold G_inv.
  rewrite (rotate_cancel b1 c2 63 1) by done.
  replace (Z.lxor (rotate_right d2 48) a2) with d1 by (symmetry; by apply (rotate_cancel d1 a2 16 48)).
  replace (c2 -! d2) with c1 by (symmetry; by apply add_sub_cancel).
  replace (a2 -! y -! b1) with a1 by (unfold a2; by rewrite add_sub_sub).
  replace (Z.lxor (rotate_right b1 40) c1) with b by (symmetry; by apply (rotate_cancel b c1 24 40)).
  replace (Z.lxor (rotate_right d1 32) a1) with d by (symmetry; by apply (rotate_cancel d a1 32 32)).
  replace (c1 -! d1) with c by (symmetry; by apply add_sub_cancel).
  f_equal. unfold a1. by rewrite add_sub_sub.
Qed.
Lemma G_G_inv a b c d x y : words4 (a, b, c, d) ->
  on4 (fun a b c d => G a b c d x y) (G_inv a b c d x y) = (a, b, c, d).
Proof.
  intros (Ha & Hb & Hc & Hd). unfold on4, G_inv; cbn [fst snd] in *.
  set (b1 := Z.lxor (rotate_right b 1) c). set (c1 := c -! d). set (d1 := Z.lxor (rotate_right d 48) a).
  set (a1 := a -! y -! b1). set (b0 := Z.lxor (rotate_right b1 40) c1).
  set (d0 := Z.lxor (rotate_right d1 32) a1).
  assert (Hb1 : is_u64 b1) by (unfold b1; words). assert (Hd1 : is_u64 d1) by (unfold d1; words).
  assert (Ha1 : is_u64 a1) by words. assert (Hc1 : is_u64 c1) by words.
  unfold G.
  replace (a1 -! x -! b0 +! b0 +! x) with a1 by (symmetry; by apply sub_add_add).
  replace (rotate_right (Z.lxor d0 a1) 32) with d1
    by (symmetry; unfold d0; by apply (rotate_cancel' d1 a1 32 32)).
  replace (c1 -! d1 +! d1) with c1 by (symmetry; by apply sub_add_cancel).
  replace (rotate_right (Z.lxor b0 c1) 24) with b1
    by (symmetry; unfold b0; by apply (rotate_cancel' b1 c1 24 40)).
  replace (a1 +! b1 +! y) with a by (symmetry; unfold a1; by apply sub_add_add).
  replace (rotate_right (Z.lxor d1 a) 16) with d
    by (symmetry; unfold d1; by apply (rotate_cancel' d a 16 48)).
  replace (c1 +! d) with c by (symmetry; unfold c1; by apply sub_add_cancel).
  do 3 f_equal. unfold b1. by apply (rotate_cancel' b c 63 1).
Qed.

(** ** Rows of words *)
Definition wf_row (l : list Z) : Prop := length l = 4%nat /\ Forall is_u64 l.
Definition wf_rows (r : rows) : Prop :=
  wf_row (row0 r) /\ wf_row (row1 r) /\ wf_row (row2 r) /\ wf_row (row3 r).
Definition words16 (v : list Z) : Prop := length v = 16%nat /\ Forall is_u64 v.

Definition unmix_column (r : rows) (xs ys : list Z) (k : nat) : Z * Z * Z * Z :=
  G_inv (row0 r !!! k) (row1 r !!! k) (row2 r !!! k) (row3 r !!! k) (xs !!! k) (ys !!! k).
Definition of_columns (cs : list (Z * Z * Z * Z)) : rows :=
  mkRows ((fun q => q.1.1.1) <$> cs) ((fun q => q.1.1.2) <$> cs) ((fun q => q.1.2) <$> cs) ((fun q => q.2) <$> cs).
Definition unmix_columns (r : rows) (xs ys : list Z) : rows := of_columns (unmix_column r xs ys <$> seq 0 4).
Definition unrow_round (m : list Z) (r : rows) (i : nat) : rows :=
  let words ks := (fun k => m !!! ((SIGMA !!! (i mod 10)%nat) !!! k)) <$> ks in
  let r := undiagonalize (unmix_columns (diagonalize r) (words [8; 10; 12; 14]%nat) (words [9; 11; 13; 15]%nat)) in
  unmix_columns r (words [0; 2; 4; 6]%nat) (words [1; 3; 5; 7]%nat).

Ltac open_row l H :=
  destruct H as [? H]; destruct l as [|? [|? [|? [|? [|? ?]]]]]; try done;
  rewrite !Forall_cons in H; destruct H as (? & ? & ? & ? & _).
Ltac open_rows H :=
  destruct H as (H0 & H1 & H2 & H3);
  match type of H0 with wf_row (row0 ?r) =>
    destruct r as [l0 l1 l2 l3]; cbn [row0 row1 row2 row3] in *;
    open_row l0 H0; open_row l1 H1; open_row l2 H2; open_row l3 H3
  end.

Lemma of_columns_wf q0 q1 q2 q3 : words4 q0 -> words4 q1 -> words4 q2 -> words4 q3 ->
  wf_rows (of_columns [q0; q1; q2; q3]).
Proof.
  intros (?&?&?&?) (?&?&?&?) (?&?&?&?) (?&?&?&?).
  unfold wf_rows, wf_row, of_columns; cbn. split_and!; [done| |done| |done| |done|];
    repeat (apply Forall_cons_2; [done|]); apply Forall_nil_2.
Qed.
Lemma mix_columns_wf r xs ys : wf_rows r -> wf_rows (mix_columns r xs ys).
Proof.
  intros H. open_rows H. apply of_columns_wf; apply G_words; by split_and!.
Qed.
Lemma unmix_columns_wf r xs ys : wf_rows r -> wf_rows (unmix_columns r xs ys).
Proof.
  intros H. open_rows H. apply of_columns_wf; apply G_inv_words; by split_and!.
Qed.
Lemma diagonalize_wf r : wf_rows r -> wf_rows (diagonalize r).
Proof.
  intros H. open_rows H. unfold wf_rows, wf_row; cbn. split_and!; [done| |done| |done| |done|];
    repeat (apply Forall_cons_2; [done|]); apply Forall_nil_2.
Qed.
Lemma undiagonalize_wf r : wf_rows r -> wf_rows (undiagonalize r).
Proof.
  intros H. open_rows H. unfold wf_rows, wf_row; cbn. split_and!; [done| |done| |done| |done|];
    repeat (apply Forall_cons_2; [done|]); apply Forall_nil_2.
Qed.
Lemma undiagonalize_diagonalize r : wf_rows r -> undiagonalize (diagonalize r) = r.
Proof. intros H. by open_rows H. Qed.
Lemma diagonalize_undiagonalize r : wf_rows r -> diagonalize (undiagonalize r) = r.
Proof. intros H. by open_rows H. Qed.
#[export] Hint Resolve mix_columns_wf unmix_columns_wf diagonalize_wf undiagonalize_wf : nexus.

Lemma unmix_mix r xs ys : wf_rows r -> unmix_columns (mix_columns r xs ys) xs ys = r.
Proof.
  intros H. open_rows H. unfold mix_columns, unmix_columns, unmix_column, mix_column.
  cbn [seq fmap list_fmap row0 row1 row2 row3 lookup_total list_lookup_total].
  pose proof (G_inv_G z z3 z7 z11 (xs !!! 0%nat) (ys !!! 0%nat) ltac:(by split_and!)) as E0.
  pose proof (G_inv_G z0 z4 z8 z12 (xs !!! 1%nat) (ys !!! 1%nat) ltac:(by split_and!)) as E1.
  pose proof (G_inv_G z1 z5 z9 z13 (xs !!! 2%nat) (ys !!! 2%nat) ltac:(by split_and!)) as E2.
  pose proof (G_inv_G z2 z6 z10 z14 (xs !!! 3%nat) (ys !!! 3%nat) ltac:(by split_and!)) as E3.
  unfold on4 in *. by rewrite E0, E1, E2, E3.
Qed.
Lemma mix_unmix r xs ys : wf_rows r -> mix_columns (unmix_columns r xs ys) xs ys = r.
Proof.
  intros H. open_rows H. unfold mix_columns, unmix_columns, unmix_column, mix_column, of_columns.
  cbn [seq fmap list_fmap row0 row1 row2 row3 lookup_total list_lookup_total].
  pose proof (G_G_inv z z3 z7 z11 (xs !!! 0%nat) (ys !!! 0%nat) ltac:(by split_and!)) as E0.
  pose proof (G_G_inv z0 z4 z8 z12 (xs !!! 1%nat) (ys !!! 1%nat) ltac:(by split_and!)) as E1.
  pose proof (G_G_inv z1 z5 z9 z13 (xs !!! 2%nat) (ys !!! 2%nat) ltac:(by split_and!)) as E2.
  pose proof (G_G_inv z2 z6 z10 z14 (xs !!! 3%nat) (ys !!! 3%nat) ltac:(by split_and!)) as E3.
  unfold on4 in *. by rewrite E0, E1, E2, E3.
Qed.

Lemma row_round_wf m r i : wf_rows r -> wf_rows (row_round m r i).
Proof. intros. unfold row_round. auto with nexus. Qed.
Lemma unrow_round_wf m r i : wf_rows r -> wf_rows (unrow_round m r i).
Proof. intros. unfold unrow_round. auto with nexus. Qed.
#[export] Hint Resolve row_round_wf unrow_round_wf : nexus.
Lemma unrow_row m r i : wf_rows r -> unrow_round m (row_round m r i) i = r.
Proof.
  intros H. unfold row_round, unrow_round.
  rewrite diagonalize_undiagonalize, unmix_mix, undiagonalize_diagonalize, unmix_mix; auto with nexus.
Qed.
Lemma row_unrow m r i : wf_rows r -> row_round m (unrow_round m r i) i = r.
Proof.
  intros H. unfold row_round, unrow_round.
  rewrite mix_unmix, diagonalize_undiagonalize, mix_unmix, undiagonalize_diagonalize; auto with nexus.
Qed.

(** ** The state of sixteen words and its rows *)
Lemma rows_of_wf v : words16 v -> wf_rows (rows_of v).
Proof.
  intros [Hl Hv]. unfold wf_rows, wf_row, rows_of; cbn.
  rewrite !length_take, !length_drop. split_and!; try lia; repeat first [apply Forall_take|apply Forall_drop]; done.
Qed.
Lemma flatten_words r : wf_rows r -> words16 (flatten r).
Proof.
  intros ((L0 & F0) & (L1 & F1) & (L2 & F2) & (L3 & F3)). unfold words16, flatten.
  rewrite !length_app, !Forall_app. split_and!; [lia|done..].
Qed.
Ltac open16 v H :=
  do 16 (destruct v as [|? v]; [discriminate H|]); destruct v; [|discriminate H].
Lemma flatten_rows_of v : length v = 16%nat -> flatten (rows_of v) = v.
Proof. intros H. by open16 v H. Qed.
Lemma rows_of_flatten r : wf_rows r -> rows_of (flatten r) = r.
Proof. intros H. by open_rows H. Qed.

(** [g] on the columns, then on the diagonals *)
Definition index_columns (v : list Z) (xs ys : list Z) : list Z :=
  let v := g v 0 4  8 12 (xs !!! 0%nat) (ys !!! 0%nat) in
  let v := g v 1 5  9 13 (xs !!! 1%nat) (ys !!! 1%nat) in
  let v := g v 2 6 10 14 (xs !!! 2%nat) (ys !!! 2%nat) in
  g v 3 7 11 15 (xs !!! 3%nat) (ys !!! 3%nat).
Definition index_diagonals (v : list Z) (xs ys : list Z) : list Z :=
  let v := g v 0 5 10 15 (xs !!! 0%nat) (ys !!! 0%nat) in
  let v := g v 1 6 11 12 (xs !!! 1%nat) (ys !!! 1%nat) in
  let v := g v 2 7  8 13 (xs !!! 2%nat) (ys !!! 2%nat) in
  g v 3 4  9 14 (xs !!! 3%nat) (ys !!! 3%nat).
(** The four words that [g] writes *)
Definition put (v : list Z) (a b c d : nat) (q : Z * Z * Z * Z) : list Z :=
  <[b := q.1.1.2]> (<[c := q.1.2]> (<[d := q.2]> (<[a := q.1.1.1]> v))).
Lemma g_put v a b c d x y : length v = 16%nat ->
  (a < 16)%nat -> (b < 16)%nat -> (c < 16)%nat -> (d < 16)%nat -> NoDup [a; b; c; d] ->
  g v a b c d x y = put v a b c d (G (v !!! a) (v !!! b) (v !!! c) (v !!! d) x y).
Proof.
  intros Hl Ha Hb Hc Hd Hn.
  rewrite !NoDup_cons in Hn. destruct Hn as (Na & Nb & Nc & _).
  apply not_elem_of_cons in Na as [Nab [Nac [Nad _]%not_elem_of_cons]%not_elem_of_cons],
    Nb as [Nbc [Nbd _]%not_elem_of_cons], Nc as [Ncd _].
  unfold g, put, G; cbn [fst snd].
  repeat first [rewrite list_lookup_total_insert_eq by (rewrite ?length_insert; lia)
               |rewrite list_lookup_total_insert_ne by congruence].
  apply list_eq. intros i.
  destruct (decide (i = b)) as [->|Hib]; [by rewrite !list_lookup_insert_eq by (rewrite ?length_insert; lia)|].
  rewrite !(list_lookup_insert_ne _ b i) by done.
  destruct (decide (i = c)) as [->|Hic]; [by rewrite !list_lookup_insert_eq by (rewrite ?length_insert; lia)|].
  rewrite !(list_lookup_insert_ne _ c i) by done.
  destruct (decide (i = d)) as [->|Hid]; [by rewrite !list_lookup_insert_eq by (rewrite ?length_insert; lia)|].
  rewrite !(list_lookup_insert_ne _ d i) by done.
  destruct (decide (i = a)) as [->|Hia]; [by rewrite !list_lookup_insert_eq by (rewrite ?length_insert; lia)|].
  by rewrite !list_lookup_insert_ne by done.
Qed.
Lemma put_length v a b c d q : length (put v a b c d q) = length v.
Proof. unfold put. by rewrite !length_insert. Qed.

Ltac distinct := apply (bool_decide_unpack _); exact I.
(** One call of [g] on a state of sixteen known words *)
Ltac mix a b c d :=
  rewrite (g_put _ a b c d) by first [reflexivity|lia|distinct];
  cbn [lookup_total list_lookup_total];
  let q := fresh "q" in
  match goal with |- context [put ?v a b c d ?r] => remember r as q; unfold put; cbn [insert list_insert] end.
Lemma columns_mixed v xs ys : length v = 16%nat ->
  index_columns v xs ys = flatten (mix_columns (rows_of v) xs ys).
Proof.
  intros Hl. open16 v Hl. unfold index_columns. cbv zeta.
  mix 0%nat 4%nat 8%nat 12%nat. mix 1%nat 5%nat 9%nat 13%nat.
  mix 2%nat 6%nat 10%nat 14%nat. mix 3%nat 7%nat 11%nat 15%nat.
  subst. reflexivity.
Qed.
Lemma diagonals_mixed v xs ys : length v = 16%nat ->
  index_diagonals v xs ys =
  flatten (undiagonalize (mix_columns (diagonalize (rows_of v)) xs ys)).
Proof.
  intros Hl. open16 v Hl. unfold index_diagonals. cbv zeta.
  mix 0%nat 5%nat 10%nat 15%nat. mix 1%nat 6%nat 11%nat 12%nat.
  mix 2%nat 7%nat 8%nat 13%nat. mix 3%nat 4%nat 9%nat 14%nat.
  subst. reflexivity.
Qed.

(** A mixed state has rows of four words whatever the words. *)
Lemma flatten_columns_length r xs ys : length (flatten (mix_columns r xs ys)) = 16%nat.
Proof. done. Qed.
Lemma rows_of_flatten_columns r xs ys : rows_of (flatten (mix_columns r xs ys)) = mix_columns r xs ys.
Proof. done. Qed.

(** ** Sequences of rounds *)
Lemma rows_fold_wf m idx r : wf_rows r -> wf_rows (foldl (row_round m) r idx).
Proof. revert r. induction idx as [|i idx IH]; intros r Hr; simpl; auto with nexus. Qed.
Lemma unrow_rows m idx r : wf_rows r ->
  foldl (unrow_round m) (foldl (row_round m) r idx) (rev idx) = r.
Proof.
  revert r. induction idx as [|i idx IH]; intros r Hr; simpl; [done|].
  rewrite foldl_app, IH by auto with nexus. simpl. by apply unrow_row.
Qed.
Lemma unrows_wf m idx r : wf_rows r -> wf_rows (foldl (unrow_round m) r idx).
Proof. revert r. induction idx as [|i idx IH]; intros r Hr; simpl; auto with nexus. Qed.
Lemma row_unrows m idx r : wf_rows r ->
  foldl (row_round m) (foldl (unrow_round m) r (rev idx)) idx = r.
Proof.
  revert r. induction idx as [|i idx IH]; intros r Hr; simpl; [done|].
  rewrite foldl_app. simpl. rewrite row_unrow by by apply unrows_wf. by apply IH.
Qed.

Lemma round_rows m v i : length v = 16%nat -> round m v i = flatten (row_round m (rows_of v) i).
Proof.
  intros Hl. unfold row_round. cbv zeta.
  set (s := SIGMA !!! (i mod 10)%nat).
  match goal with |- _ = flatten (undiagonalize (mix_columns (diagonalize (mix_columns _ ?xs ?ys)) ?xs' ?ys')) =>
    assert (E : round m v i = index_diagonals (index_columns v xs ys) xs' ys') end.
  { unfold round, index_diagonals, index_columns. cbv zeta. fold s.
    cbn [fmap list_fmap lookup_total list_lookup_total]. reflexivity. }
  rewrite E, columns_mixed by done. rewrite diagonals_mixed by apply flatten_columns_length.
  by rewrite rows_of_flatten_columns.
Qed.
Lemma round_words m v i : words16 v -> words16 (round m v i).
Proof. intros Hv. rewrite round_rows by apply Hv. by apply flatten_words, row_round_wf, rows_of_wf. Qed.
Lemma rounds_words m v idx : words16 v -> words16 (foldl (round m) v idx).
Proof. revert v. induction idx as [|i idx IH]; intros v Hv; [done|]. by apply IH, round_words. Qed.

(** The rounds of the source, which mix sixteen indexed words in place,
    are those of RFC 7693 on four rows: every column, then every diagonal,
    whatever the state, the block and the sequence of rounds. *)
Theorem rounds_are_rows m v idx : words16 v ->
  foldl (round m) v idx = flatten (foldl (row_round m) (rows_of v) idx).
Proof.
  revert v. induction idx as [|i idx IH]; intros v Hv; simpl; [by rewrite flatten_rows_of by apply Hv|].
  rewrite IH by by apply round_words. rewrite round_rows by apply Hv.
  by rewrite rows_of_flatten by by apply row_round_wf, rows_of_wf.
Qed.

(** The rounds lose nothing: for every block and sequence of rounds they
    permute the states of sixteen words, with the inverse that runs the inverse
    quarter rounds backwards. *)
Theorem rounds_are_invertible m idx v : words16 v ->
  let unmix v := flatten (foldl (unrow_round m) (rows_of v) (rev idx)) in
  words16 (foldl (round m) v idx) /\ unmix (foldl (round m) v idx) = v /\ foldl (round m) (unmix v) idx = v.
Proof.
  intros Hv unmix. split; [by apply rounds_words|]. pose proof (rows_of_wf v Hv) as Hr.
  split.
  - unfold unmix. rewrite rounds_are_rows by done.
    rewrite rows_of_flatten by (apply rows_fold_wf; done).
    rewrite <- (flatten_rows_of v) at 2 by apply Hv. f_equal. by apply unrow_rows.
  - unfold unmix. rewrite rounds_are_rows by by apply flatten_words, unrows_wf.
    rewrite rows_of_flatten by by apply unrows_wf.
    rewrite <- (flatten_rows_of v) at 2 by apply Hv. f_equal. by apply row_unrows.
Qed.

Lemma lxor_back x y : Z.lxor x (Z.lxor x y) = y.
Proof. by rewrite <- Z.lxor_assoc, Z.lxor_nilpotent, Z.lxor_0_l. Qed.

(** A compression without rounds forgets the state it is given: every
    state of eight words gives the same result. *)
Theorem no_rounds_forget h m t0 t1 f : length h = 8%nat ->
  blake2b_compress h m t0 t1 f 0 =
    [0x6a09e667f3bcc908; 0xbb67ae8584caa73b; 0x3c6ef372fe94f82b; 0xa54ff53a5f1d36f1;
     Z.lxor 0x510e527fade682d1 t0; Z.lxor 0x9b05688c2b3e6c1f t1;
     if f then not64 0x1f83d9abfb41bd6b else 0x1f83d9abfb41bd6b; 0x5be0cd19137e2179].
Proof.
  intros Hl. do 8 (destruct h as [|? h]; [discriminate Hl|]). destruct h; [|discriminate Hl].
  unfold blake2b_compress, start_state. cbn [seq foldl].
  destruct f; cbn [app insert list_insert lookup_total list_lookup_total fmap list_fmap IV Nat.add];
    rewrite !lxor_back; reflexivity.
Qed.

Module Sample.
Lemma start_words : words16 (start_state Blake2.Sample.abc_h 3 0 true).
Proof. split; [done|]. apply (bool_decide_unpack _). vm_compute. done. Qed.
Lemma rounds_are_rows_witness :
  let v := start_state Blake2.Sample.abc_h 3 0 true in
  foldl (round Blake2.Sample.abc_m) v (seq 0 12) =
  flatten (foldl (row_round Blake2.Sample.abc_m) (rows_of v) (seq 0 12)).
Proof. apply rounds_are_rows, start_words. Defined.
Lemma rounds_are_invertible_witness :
  let v := start_state Blake2.Sample.abc_h 3 0 true in
  flatten (foldl (unrow_round Blake2.Sample.abc_m) (rows_of (foldl (round Blake2.Sample.abc_m) v (seq 0 12)))
    (rev (seq 0 12))) = v.
Proof.
  destruct (rounds_are_invertible Blake2.Sample.abc_m (seq 0 12) _ start_words) as (_ & E & _). exact E.
Defined.
Lemma no_rounds_forget_witness :
  blake2b_compress Blake2.Sample.abc_h Blake2.Sample.abc_m 0 0 false 0 = IV.
Proof. apply (no_rounds_forget Blake2.Sample.abc_h). reflexivity. Defined.
End Sample.
