(* ===== verification/Precompiles.v ===== *)
(** * Precompiled contracts (crates/nexus-evm: precompiles.rs)

    The gas, the argument parsing and the result of every precompiled contract,
    and the table of the executor.  The digests (sha2, ripemd, sha3), ECDSA
    recovery (k256), arbitrary-precision integers (num-bigint) and the curve
    (ark-bn254) are third-party crates: [DigestLib], [CryptoLib], [BigUintLib]
    and [Bn254].  BLAKE2b is in [Blake2]. *)
From stdpp Require Import base numbers list gmap strings.
From Stdlib Require Import ZArith Lia.
From S2P Require Import Prelude Types Crypto EvmState Gas Receipt Executor Slices Blake2.
#[local] Open Scope Z_scope.

(** ** Parameters *)
Class DigestLib := {
  sha256_digest : list Z -> list Z;
  ripemd160_digest : list Z -> list Z
}.
(** [num_bigint::BigUint] *)
Class BigUintLib := {
  BigUint : Type;
  from_bytes_be : list Z -> BigUint;
  to_bytes_be : BigUint -> list Z;
  bits : BigUint -> Z;
  modpow : BigUint -> BigUint -> BigUint -> BigUint
}.
(** [ark_bn254]: fields, affine points, and the group operations between
    [into_group] and [into_affine] *)
Class Bn254 := {
  Fq : Type; Fq2 : Type; Fr : Type; G1 : Type; G2 : Type;
  fq_from_be_bytes_mod_order : list Z -> Fq;
  fr_from_be_bytes_mod_order : list Z -> Fr;
  fq_is_zero : Fq -> bool;
  into_bigint : Fq -> list Z;
  fq2_new : Fq -> Fq -> Fq2;
  fq2_is_zero : Fq2 -> bool;
  g1_zero : G1; g1_new_unchecked : Fq -> Fq -> G1;
  g1_is_on_curve : G1 -> bool; g1_is_zero : G1 -> bool; g1_x : G1 -> Fq; g1_y : G1 -> Fq;
  g2_zero : G2; g2_new_unchecked : Fq2 -> Fq2 -> G2;
  g2_is_on_curve : G2 -> bool; g2_is_zero : G2 -> bool;
  g1_add : G1 -> G1 -> G1;
  g1_mul : G1 -> Fr -> G1;
  multi_pairing_is_zero : list G1 -> list G2 -> bool
}.

(** ** Buffers *)

(** [v.len()] as an integer *)
Definition len {A} (v : list A) : Z := Z.of_nat (length v).
(** [v[a..b]] with [usize] bounds *)
Definition slice_z (v : list Z) (a b : Z) : outcome EvmError (list Z) :=
  if (a <=? b) && (b <=? len v) then Ok (take (Z.to_nat (b - a)) (drop (Z.to_nat a) v)) else Panic.
(** [vec![0u8; n]]: more than [isize::MAX] bytes panic. *)
Definition zeroed (n : Z) : outcome EvmError (list Z) :=
  if n <=? 2 ^ 63 - 1 then Ok (replicate (Z.to_nat n) 0) else Panic.
(** A copy into a zeroed buffer of [n] bytes, as far as it fits *)
Definition pad_to (n : nat) (input : list Z) : list Z :=
  (take n input ++ replicate (n - length input) 0)%list.
(** [output[31] = 1] in 32 zero bytes *)
Definition word_true : list Z := (replicate 31 0 ++ [1])%list.
Definition word_false : list Z := replicate 32 0.

Definition ok (output : list Z) (gas_used : Z) : outcome EvmError PrecompileResult :=
  Ok {| pr_output := output; pr_gas_used := gas_used |}.
Definition error (msg : string) : outcome EvmError PrecompileResult := Err (PrecompileError msg).

(** ** Addresses *)
Definition addr (n : Z) : Address := mkAddress (replicate 18 0 ++ [Z.shiftr n 8 mod 256; n mod 256]).

Definition PRECOMPILE_START : Z := 0x01.
Definition PRECOMPILE_END : Z := 0x09.
Definition NEXUS_PRECOMPILE_START : Z := 0x100.
Definition NEXUS_PRECOMPILE_END : Z := 0x110.
Definition is_precompile (a : Address) : bool :=
  let bytes := addr_bytes a in
  if existsb (fun b => negb (b =? 0)) (take 18 bytes) then false
  else
    let val := Z.lor (Z.shiftl (bytes !!! 18%nat) 8) (bytes !!! 19%nat) in
    ((PRECOMPILE_START <=? val) && (val <=? PRECOMPILE_END))
    || ((NEXUS_PRECOMPILE_START <=? val) && (val <=? NEXUS_PRECOMPILE_END)).

(** ** 0x01 to 0x04 *)
Section digests.
Context `{CryptoLib} `{DigestLib}.

Definition ecrecover_inner (input : list Z) (schedule : GasSchedule)
    : outcome EvmError PrecompileResult :=
  hash ← slice input 0 32;
  v ← index_at input 63;
  r ← slice input 64 96;
  s ← slice input 96 128;
  let nothing := ok word_false (Gas.ecrecover schedule) in
  match (if v =? 27 then Some 0 else if v =? 28 then Some 1 else None) with
  | None => nothing
  | Some recovery_id =>
      let sig_bytes := (r ++ s)%list in
      if negb (sig_ok sig_bytes) then nothing
      else
        match recover_prehash hash sig_bytes recovery_id with
        | None => nothing
        | Some pubkey_bytes =>
            tail ← slice_from pubkey_bytes 1;
            let pubkey_hash := keccak tail in
            ok (replicate 12 0 ++ take 20 (drop 12 pubkey_hash)) (Gas.ecrecover schedule)
        end
  end.
Definition ecrecover : PrecompileFn := fun input gas_limit schedule =>
  if gas_limit <? Gas.ecrecover schedule then Err (OutOfGas (Gas.ecrecover schedule) gas_limit)
  else if (length input <? 128)%nat then ecrecover_inner (pad_to 128 input) schedule
  else ecrecover_inner input schedule.

Definition sha256 : PrecompileFn := fun input gas_limit schedule =>
  let words := (len input +! 31) / 32 in
  let gas := sha256_base schedule +! words *! sha256_word schedule in
  if gas_limit <? gas then Err (OutOfGas gas gas_limit)
  else ok (sha256_digest input) gas.
Definition ripemd160 : PrecompileFn := fun input gas_limit schedule =>
  let words := (len input +! 31) / 32 in
  let gas := ripemd160_base schedule +! words *! ripemd160_word schedule in
  if gas_limit <? gas then Err (OutOfGas gas gas_limit)
  else ok (replicate 12 0 ++ ripemd160_digest input) gas.
Definition identity : PrecompileFn := fun input gas_limit schedule =>
  let words := (len input +! 31) / 32 in
  let gas := identity_base schedule +! words *! identity_word schedule in
  if gas_limit <? gas then Err (OutOfGas gas gas_limit)
  else ok input gas.
End digests.

(** ** 0x05: MODEXP *)

(** The last eight bytes, as one word *)
Definition u256_from_be_bytes (bytes : list Z) : Z :=
  foldl (fun result ib => Z.lor result (Z.shiftl ib.2 (Z.of_nat ib.1 * 8))) 0
    (imap (fun i b => (i, b)) (take 8 (rev bytes))).

(** [b.leading_zeros()] of a byte that is not zero *)
Definition leading_zeros8 (b : Z) : Z := 7 - Z.log2 b.
Fixpoint highest_bit_index (bytes : list Z) : Z :=
  match bytes with
  | [] => 0
  | b :: bytes =>
      if negb (b =? 0) then len bytes * 8 + (7 - leading_zeros8 b) else highest_bit_index bytes
  end.

Definition mult_complexity (max_len : Z) : Z :=
  if max_len <=? 64 then max_len *! max_len
  else if max_len <=? 1024
  then sat_sub64 ((max_len *! max_len) / 4 +! 96 *! max_len) 3072
  else sat_sub64 ((max_len *! max_len) / 16 +! 480 *! max_len) 199680.

(** The first 32 bytes of the exponent, as far as the input has them *)
Definition exp_view (base_len exp_len : Z) (input : list Z) : outcome EvmError (list Z) :=
  let exp_start := 96 +! base_len in
  let exp_view_len := Z.min exp_len 32 in
  if exp_start +! exp_view_len <=? len input then slice_z input exp_start (exp_start +! exp_view_len)
  else if exp_start <? len input then slice_z input exp_start (len input)
  else Ok [].

Definition modexp_gas (base_len exp_len mod_len : Z) (input : list Z) : outcome EvmError Z :=
  let max_len := Z.max base_len mod_len in
  exp_view ← exp_view base_len exp_len input;
  let highest_bit := highest_bit_index exp_view in
  let adjusted :=
    if exp_len <=? 32 then highest_bit else 8 *! (exp_len - 32) +! highest_bit in
  Ok (Z.max ((mult_complexity max_len *! Z.max adjusted 1) / 3) 200).

Definition read_slice (data : list Z) (offset n : Z) : outcome EvmError (list Z) :=
  out ← zeroed n;
  let available := sat_sub64 (len data) offset in
  let copy_len := Z.min available n in
  src ← slice_z data offset (offset +! copy_len);
  Ok (src ++ drop (Z.to_nat copy_len) out)%list.

Section modexp.
Context `{BigUintLib}.

Definition modexp : PrecompileFn := fun input gas_limit _ =>
  if (length input <? 96)%nat then ok [] 200 else
  base_bytes ← slice input 0 32;
  exp_bytes ← slice input 32 64;
  mod_bytes ← slice input 64 96;
  let base_len := u256_from_be_bytes base_bytes in
  let exp_len := u256_from_be_bytes exp_bytes in
  let mod_len := u256_from_be_bytes mod_bytes in
  gas ← modexp_gas base_len exp_len mod_len input;
  if gas_limit <? gas then Err (OutOfGas gas gas_limit)
  else if mod_len =? 0 then ok [] gas
  else
    let data := if (96 <? length input)%nat then drop 96 input else [] in
    base ← read_slice data 0 base_len;
    exp ← read_slice data base_len exp_len;
    modulus ← read_slice data (base_len +! exp_len) mod_len;
    let mod_n := from_bytes_be modulus in
    if bits mod_n =? 0 then (output ← zeroed mod_len; ok output gas)
    else
      let result_bytes := to_bytes_be (modpow (from_bytes_be base) (from_bytes_be exp) mod_n) in
      output ← zeroed mod_len;
      if len result_bytes <=? mod_len
      then ok (take (Z.to_nat (mod_len - len result_bytes)) output ++ result_bytes) gas
      else ok (drop (Z.to_nat (len result_bytes - mod_len)) result_bytes) gas.
End modexp.

(** ** 0x06 to 0x08: the curve *)
Section bn254.
Context `{Bn254}.

Definition bn254_fq_from_be (bytes : list Z) : option Fq := Some (fq_from_be_bytes_mod_order bytes).
Definition bn254_fr_from_be (bytes : list Z) : Fr := fr_from_be_bytes_mod_order bytes.
(** The four limbs, least significant first, to 32 bytes *)
Definition bn254_fq_to_be (f : Fq) : list Z := concat (to_be_bytes 8 <$> rev (into_bigint f)).

Definition parse_g1 (data : list Z) : option G1 :=
  if (length data <? 64)%nat then None else
  x ← bn254_fq_from_be (take 32 data);
  y ← bn254_fq_from_be (take 32 (drop 32 data));
  if fq_is_zero x && fq_is_zero y then Some g1_zero
  else
    let p := g1_new_unchecked x y in
    if g1_is_on_curve p then Some p else None.
Definition serialize_g1 (p : G1) : list Z :=
  if g1_is_zero p then replicate 64 0
  else (bn254_fq_to_be (g1_x p) ++ bn254_fq_to_be (g1_y p))%list.
Definition parse_g2 (data : list Z) : option G2 :=
  if (length data <? 128)%nat then None else
  x_c1 ← bn254_fq_from_be (take 32 data);
  x_c0 ← bn254_fq_from_be (take 32 (drop 32 data));
  y_c1 ← bn254_fq_from_be (take 32 (drop 64 data));
  y_c0 ← bn254_fq_from_be (take 32 (drop 96 data));
  let x := fq2_new x_c0 x_c1 in
  let y := fq2_new y_c0 y_c1 in
  if fq2_is_zero x && fq2_is_zero y then Some g2_zero
  else
    let p := g2_new_unchecked x y in
    if g2_is_on_curve p then Some p else None.

Definition bn_add : PrecompileFn := fun input gas_limit schedule =>
  if gas_limit <? Gas.bn_add schedule then Err (OutOfGas (Gas.bn_add schedule) gas_limit) else
  let padded := pad_to 128 input in
  p1 ← ok_or (PrecompileError "BN_ADD: invalid G1 point p1") (parse_g1 (take 64 padded));
  p2 ← ok_or (PrecompileError "BN_ADD: invalid G1 point p2") (parse_g1 (drop 64 padded));
  ok (serialize_g1 (g1_add p1 p2)) (Gas.bn_add schedule).
Definition bn_mul : PrecompileFn := fun input gas_limit schedule =>
  if gas_limit <? Gas.bn_mul schedule then Err (OutOfGas (Gas.bn_mul schedule) gas_limit) else
  let padded := pad_to 96 input in
  p ← ok_or (PrecompileError "BN_MUL: invalid G1 point") (parse_g1 (take 64 padded));
  let scalar := bn254_fr_from_be (drop 64 padded) in
  ok (serialize_g1 (g1_mul p scalar)) (Gas.bn_mul schedule).

(** One pair; the identity on either side is skipped *)
Definition pairing_step (input : list Z) (points : list G1 * list G2) (i : nat)
    : outcome EvmError (list G1 * list G2) :=
  chunk ← slice input (i * 192) ((i + 1) * 192);
  p1 ← ok_or (PrecompileError "BN_PAIRING: invalid G1 point") (parse_g1 (take 64 chunk));
  p2 ← ok_or (PrecompileError "BN_PAIRING: invalid G2 point") (parse_g2 (drop 64 chunk));
  if g1_is_zero p1 || g2_is_zero p2 then Ok points
  else Ok (points.1 ++ [p1], points.2 ++ [p2])%list.
Definition bn_pairing : PrecompileFn := fun input gas_limit schedule =>
  if negb (length input mod 192 =? 0)%nat
  then error "BN_PAIRING: input not multiple of 192 bytes"
  else
    let num_pairs := (length input / 192)%nat in
    let gas := bn_pairing_base schedule +! Z.of_nat num_pairs *! bn_pairing_point schedule in
    if gas_limit <? gas then Err (OutOfGas gas gas_limit)
    else
      '(g1_points, g2_points) ← for_each (pairing_step input) (seq 0 num_pairs) ([], []);
      ok (if multi_pairing_is_zero g1_points g2_points then word_true else word_false) gas.
End bn254.

(** ** 0x09: BLAKE2F *)
Definition words_le (bytes : list Z) (first n : nat) : list Z :=
  (fun i => from_le_bytes (take 8 (drop (first + i * 8) bytes))) <$> seq 0 n.
Definition blake2f : PrecompileFn := fun input gas_limit schedule =>
  if negb (length input =? 213)%nat
  then error "Invalid BLAKE2F input length: expected 213 bytes" else
  f_byte ← index_at input 212;
  if negb (f_byte =? 0) && negb (f_byte =? 1)
  then error "Invalid BLAKE2F f flag: must be 0 or 1" else
  let rounds := from_be_bytes (take 4 input) in
  let gas := Z.max (sat_mul64 rounds (blake2f_round schedule)) 1 in
  if gas_limit <? gas then Err (OutOfGas gas gas_limit)
  else
    let h := words_le input 4 8 in
    let m := words_le input 68 16 in
    let t0 := from_le_bytes (take 8 (drop 196 input)) in
    let t1 := from_le_bytes (take 8 (drop 204 input)) in
    let h := blake2b_compress h m t0 t1 (f_byte =? 1) (Z.to_nat rounds) in
    ok (concat (to_le_bytes 8 <$> h)) gas.

(** ** NexusChain's own contracts *)
Definition zkp_verify : PrecompileFn := fun input gas_limit schedule =>
  if (length input <? 224)%nat then error "Invalid ZKP input length" else
  let num_inputs := (len input - 192 - 32) / 32 in
  let gas := zkp_verify_base schedule +! num_inputs *! zkp_verify_per_input schedule in
  if gas_limit <? gas then Err (OutOfGas gas gas_limit) else ok word_true gas.

Definition zkp_batch_verify : PrecompileFn := fun input gas_limit schedule =>
  if (length input <? 4)%nat then error "Invalid batch verify input" else
  let num_proofs := from_be_bytes (take 4 input) in
  let gas := (zkp_verify_base schedule *! num_proofs *! 60) / 100 in
  if gas_limit <? gas then Err (OutOfGas gas gas_limit) else ok word_true gas.

Definition iso20022_parse : PrecompileFn := fun input gas_limit schedule =>
  let gas := iso20022_parse_base schedule +! len input *! iso20022_parse_per_byte schedule in
  if gas_limit <? gas then Err (OutOfGas gas gas_limit) else ok (replicate 256 0) gas.

Definition iso20022_validate : PrecompileFn := fun input gas_limit schedule =>
  let gas := iso20022_parse_base schedule +! (len input / 2) *! iso20022_parse_per_byte schedule in
  if gas_limit <? gas then Err (OutOfGas gas gas_limit) else ok word_true gas.

Definition dag_get_vertex : PrecompileFn := fun input gas_limit _ =>
  if (length input <? 32)%nat then error "Invalid vertex hash" else
  let gas := 1000 in
  if gas_limit <? gas then Err (OutOfGas gas gas_limit) else ok (replicate 128 0) gas.

Definition poseidon_hash `{CryptoLib} : PrecompileFn := fun input gas_limit _ =>
  let num_inputs := (len input +! 31) / 32 in
  let gas := 500 +! num_inputs *! 100 in
  if gas_limit <? gas then Err (OutOfGas gas gas_limit) else ok (keccak input) gas.

(** ** The table *)
Section table.
Context `{CryptoLib} `{DigestLib} `{BigUintLib} `{Bn254}.

Definition precompile_table : list (Z * PrecompileFn) :=
  [(0x01, ecrecover); (0x02, sha256); (0x03, ripemd160); (0x04, identity); (0x05, modexp);
   (0x06, bn_add); (0x07, bn_mul); (0x08, bn_pairing); (0x09, blake2f);
   (0x100, zkp_verify); (0x101, zkp_batch_verify); (0x102, iso20022_parse);
   (0x103, iso20022_validate); (0x104, dag_get_vertex); (0x105, poseidon_hash)].
Definition get_precompiles : gmap Address PrecompileFn :=
  list_to_map ((fun entry => (addr entry.1, entry.2)) <$> precompile_table).

(** [Executor::new]: an executor with this table *)
Definition nexus_executor (s : StateDb) (e : EvmEnv) : Executor := new_executor get_precompiles s e.
End table.
