(* ===== verification/PrecompilesProps.v ===== *)
(** * Precompiled contracts: theorems

    What every contract of the table does with its gas limit, what MODEXP,
    ECRECOVER and BLAKE2F compute, and what a call of MODEXP through the
    executor can do to the caller's balance. *)
From stdpp Require Import base numbers list gmap strings.
From Stdlib Require Import ZArith Lia.
From S2P Require Import Prelude Types U256Facts Crypto Transaction EvmState Gas Receipt Executor.
From S2P Require Import Slices Blake2 Precompiles.
#[local] Open Scope Z_scope.

(** ** Buffers *)
Lemma slice_z_ok v a b : 0 <= a <= b -> b <= len v ->
  slice_z v a b = Ok (take (Z.to_nat (b - a)) (drop (Z.to_nat a) v)).
Proof.
  intros Ha Hb. unfold slice_z. rewrite (proj2 (Z.leb_le a b)), (proj2 (Z.leb_le b (len v))) by lia. done.
Qed.
Lemma zeroed_ok n : n < 2 ^ 63 -> zeroed n = Ok (replicate (Z.to_nat n) 0).
Proof. intros Hn. unfold zeroed. by rewrite (proj2 (Z.leb_le _ _)) by lia. Qed.
Lemma pad_to_length n input : length (pad_to n input) = n.
Proof. unfold pad_to. rewrite length_app, length_take, length_replicate. lia. Qed.
Lemma pad_to_long n input : (n <= length input)%nat -> pad_to n input = take n input.
Proof. intros. unfold pad_to. replace (n - length input)%nat with 0%nat by lia. apply app_nil_r. Qed.
Lemma pad_to_bytes n input : Forall is_byte input -> Forall is_byte (pad_to n input).
Proof.
  intros. apply Forall_app. split; [by apply Forall_take|]. apply Forall_replicate. unfold is_byte. lia.
Qed.

(** Bytes past the end read as zero, but not past the start. *)
Lemma read_slice_ok data offset n : 0 <= offset <= len data -> 0 <= n < 2 ^ 63 -> offset + n < B64 ->
  read_slice data offset n = Ok (pad_to (Z.to_nat n) (drop (Z.to_nat offset) data)).
Proof.
  intros Ho Hn Hs. unfold read_slice. rewrite zeroed_ok by lia. cbn [mbind outcome_bind].
  unfold sat_sub64. rewrite Z.max_l by lia.
  rewrite add64_small by lia. rewrite slice_z_ok by lia. cbn [mbind outcome_bind].
  f_equal. unfold pad_to. rewrite length_drop, drop_replicate. unfold len in *. f_equal.
  - replace (offset + Z.min (Z.of_nat (length data) - offset) n - offset)
      with (Z.min (Z.of_nat (length data) - offset) n) by lia.
    destruct (Z.le_ge_cases (Z.of_nat (length data) - offset) n).
    + rewrite Z.min_l by lia. rewrite !take_ge; [done|rewrite length_drop; lia..].
    + by rewrite Z.min_r by lia.
  - f_equal. lia.
Qed.
Lemma read_slice_panic data offset n : len data < offset < B64 -> 0 <= n ->
  read_slice data offset n = Panic.
Proof.
  intros Ho Hn. unfold read_slice. destruct (zeroed n) as [out| | |] eqn:E; [|unfold zeroed in E; by case_match..].
  cbn [mbind outcome_bind]. unfold sat_sub64. rewrite Z.max_r by lia. rewrite Z.min_l by lia.
  unfold slice_z, add64. rewrite Z.add_0_r, Z.mod_small by (unfold len in *; lia).
  rewrite (proj2 (Z.leb_gt offset (len data))), andb_false_r by lia. done.
Qed.

(** ** Numbers *)
Lemma lor_shift x b k : 0 <= k -> 0 <= x < 2 ^ k -> 0 <= b -> Z.lor x (Z.shiftl b k) = x + b * 2 ^ k.
Proof.
  intros Hk Hx Hb. rewrite Z.shiftl_mul_pow2 by done. symmetry.
  rewrite <- Z.lxor_lor, Z.add_nocarry_lxor; [done| |]; apply Z.bits_inj'; intros i Hi;
    rewrite Z.land_spec, Z.bits_0, Z.mul_pow2_bits by done;
    destruct (Z.lt_ge_cases i k); [rewrite (Z.testbit_neg_r b) by lia; apply andb_false_r| |
      rewrite (Z.testbit_neg_r b) by lia; apply andb_false_r|].
  all: rewrite <- (Z.mod_small x (2 ^ k)) by done; by rewrite Z.mod_pow2_bits_high by lia.
Qed.
Lemma fold_words l k x : Forall is_byte l -> 0 <= x < 2 ^ (Z.of_nat k * 8) ->
  foldl (fun result ib => Z.lor result (Z.shiftl ib.2 (Z.of_nat ib.1 * 8))) x
    (imap (fun i b => ((k + i)%nat, b)) l) = x + from_le_bytes l * 2 ^ (Z.of_nat k * 8).
Proof.
  intros Hl. revert k x. induction Hl as [|b l Hb Hl IH]; intros k x Hx; [simpl; lia|].
  rewrite imap_cons. cbn [foldl fst snd from_le_bytes]. rewrite Nat.add_0_r.
  rewrite lor_shift by (unfold is_byte in Hb; lia).
  erewrite imap_ext; [rewrite (IH (S k))|].
  - rewrite Nat2Z.inj_succ, Z.mul_succ_l, Z.pow_add_r by lia. lia.
  - rewrite Nat2Z.inj_succ, Z.mul_succ_l, Z.pow_add_r by lia. unfold is_byte in Hb. nia.
  - intros i y _. simpl. f_equal. lia.
Qed.
Lemma from_le_bytes_app l1 l2 :
  from_le_bytes (l1 ++ l2) = from_le_bytes l1 + 256 ^ len l1 * from_le_bytes l2.
Proof.
  induction l1 as [|b l1 IH]; [unfold len; simpl; lia|].
  simpl. rewrite IH. unfold len. cbn [length]. rewrite Nat2Z.inj_succ, Z.pow_succ_r by lia. lia.
Qed.
Lemma be_value_app l1 l2 :
  from_be_bytes (l1 ++ l2) = from_be_bytes l1 * 256 ^ len l2 + from_be_bytes l2.
Proof. unfold from_be_bytes, len. rewrite rev_app_distr, from_le_bytes_app. unfold len. rewrite length_rev. lia. Qed.
Lemma from_be_bytes_range l : Forall is_byte l -> 0 <= from_be_bytes l < 256 ^ len l.
Proof. intros Hl. unfold from_be_bytes, len. rewrite <- length_rev. by apply from_le_bytes_range, Forall_rev. Qed.
(** Two byte strings of one length with the same value are equal. *)
Lemma from_be_bytes_inj l1 l2 : Forall is_byte l1 -> Forall is_byte l2 -> length l1 = length l2 ->
  from_be_bytes l1 = from_be_bytes l2 -> l1 = l2.
Proof. intros H1 H2 Hl Hv. by rewrite <- (to_from_be_bytes l1), <- (to_from_be_bytes l2), Hl, Hv. Qed.
(** The low eight bytes of the number *)
Lemma low_word bytes : Forall is_byte bytes ->
  u256_from_be_bytes bytes = from_be_bytes bytes mod B64.
Proof.
  intros Hb. unfold u256_from_be_bytes, from_be_bytes.
  pose proof (Forall_rev Hb) as Hr. set (l := rev bytes) in *. clearbody l. clear Hb bytes.
  pose proof (fold_words (take 8 l) 0 0 ltac:(by apply Forall_take) ltac:(lia)) as E.
  cbn [Nat.add] in E. rewrite E, Z.mul_1_r, Z.add_0_l. clear E.
  rewrite <- (take_drop 8 l) at 2.
  rewrite from_le_bytes_app. pose proof (from_le_bytes_range (take 8 l) ltac:(by apply Forall_take)) as Hrange.
  unfold len. rewrite length_take in *.
  destruct (Nat.le_gt_cases (length l) 8).
  - rewrite (drop_ge l) by lia. simpl from_le_bytes. rewrite Z.mul_0_r, Z.add_0_r, Z.mod_small; [done|].
    split; [lia|]. eapply Z.lt_le_trans; [apply Hrange|]. change B64 with (256 ^ 8). apply Z.pow_le_mono_r; lia.
  - rewrite Nat.min_l in * by lia. change (256 ^ Z.of_nat 8) with B64 in *.
    rewrite Z.mul_comm, Z_mod_plus_full. by rewrite Z.mod_small.
Qed.

(** The bit length less one, zero for zero *)
Lemma highest_bit_log2 bytes : Forall is_byte bytes ->
  highest_bit_index bytes = Z.log2 (from_be_bytes bytes).
Proof.
  induction 1 as [|b bytes Hb Hl IH]; [done|]. cbn [highest_bit_index].
  change (b :: bytes) with ([b] ++ bytes)%list. rewrite be_value_app.
  pose proof (from_be_bytes_range bytes Hl) as Hr. change (from_be_bytes [b]) with (b + 256 * 0).
  rewrite Z.mul_0_r, Z.add_0_r. destruct (Z.eqb_spec b 0) as [->|Hb0]; cbn [negb].
  - by rewrite Z.mul_0_l, Z.add_0_l.
  - unfold leading_zeros8. unfold is_byte in Hb. replace 256 with (2 ^ 8) in * by done.
    assert (Hlen : 0 <= len bytes) by (unfold len; lia).
    rewrite <- Z.pow_mul_r in * by lia.
    symmetry. apply Z.log2_unique; [pose proof (Z.log2_nonneg b); lia|].
    pose proof (Z.log2_spec b ltac:(lia)) as [Hlo Hhi].
    replace (len bytes * 8 + (7 - (7 - Z.log2 b))) with (Z.log2 b + 8 * len bytes) by lia.
    rewrite <- Z.add_succ_l, !Z.pow_add_r by (try apply Z.log2_nonneg; pose proof (Z.log2_nonneg b); lia).
    nia.
Qed.

(** ** The gas of MODEXP *)

(** No width is exceeded: the lengths are those of an input that can exist. *)
Definition real_lengths (base_len exp_len mod_len : Z) : Prop :=
  0 <= base_len /\ 0 <= exp_len /\ 0 <= mod_len /\ 96 + base_len + exp_len + mod_len < 2 ^ 63.
Lemma exp_view_ok base_len exp_len input : 0 <= base_len -> 0 <= exp_len ->
  96 + base_len + exp_len < 2 ^ 63 -> len input < 2 ^ 63 ->
  exp_view base_len exp_len input =
    Ok (take (Z.to_nat (Z.min exp_len 32)) (drop (Z.to_nat (96 + base_len)) input)).
Proof.
  intros Hb He Hs Hl. unfold exp_view. rewrite (add64_small 96), add64_small by lia.
  destruct (Z.leb_spec (96 + base_len + Z.min exp_len 32) (len input)).
  - rewrite slice_z_ok by lia. do 3 f_equal. lia.
  - destruct (Z.ltb_spec (96 + base_len) (len input)).
    + rewrite slice_z_ok by lia. f_equal. unfold len in *. rewrite !take_ge; [done|rewrite length_drop; lia..].
    + rewrite drop_ge by (unfold len in *; lia). by rewrite take_nil.
Qed.

(** ** Gas *)

(** What a contract may answer to a gas limit *)
Definition within_limit (gas_limit : Z) (r : outcome EvmError PrecompileResult) : Prop :=
  match r with
  | Ok result => 0 <= pr_gas_used result <= gas_limit
  | Err (OutOfGas used limit) => limit = gas_limit /\ gas_limit < used
  | Err (PrecompileError _) => True
  | _ => False
  end.
Lemma within_if gas_limit gas r : 0 <= gas -> (0 <= gas <= gas_limit -> within_limit gas_limit r) ->
  within_limit gas_limit (if gas_limit <? gas then Err (OutOfGas gas gas_limit) else r).
Proof. intros Hg Hr. destruct (Z.ltb_spec gas_limit gas); [done|by apply Hr]. Qed.
Lemma within_bind {A} gas_limit (o : option A) msg f :
  (forall a, o = Some a -> within_limit gas_limit (f a)) ->
  within_limit gas_limit (ok_or (PrecompileError msg) o ≫= f).
Proof. intros Hf. destruct o; [by apply Hf|done]. Qed.
(** The fixed prices are not negative. *)
Definition schedule_ok (s : GasSchedule) : Prop :=
  0 <= Gas.ecrecover s /\ 0 <= Gas.bn_add s /\ 0 <= Gas.bn_mul s.
Lemma add64_nonneg a b : 0 <= a +! b.
Proof. apply add64_range. Qed.
#[local] Hint Resolve add64_nonneg : nexus.

Section gas.
Context `{CL : CryptoLib} `{DL : DigestLib} `{BL : BigUintLib} `{BN : Bn254}.
Implicit Types (input : list Z) (gas_limit : Z) (schedule : GasSchedule).

(** The documentation of [to_encoded_point(false)]: 65 bytes *)
Definition sec1_points : Prop := forall digest sig id p, recover_prehash digest sig id = Some p -> length p = 65%nat.

(** The address of the recovered key, or zero *)
Definition recovered (p : list Z) : list Z :=
  let v := default 0 (p !! 63%nat) in
  let sig := (take 32 (drop 64 p) ++ take 32 (drop 96 p))%list in
  match (if v =? 27 then Some 0 else if v =? 28 then Some 1 else None) with
  | None => word_false
  | Some id =>
      if sig_ok sig then
        match recover_prehash (take 32 p) sig id with
        | Some key => (replicate 12 0 ++ take 20 (drop 12 (keccak (drop 1 key))))%list
        | None => word_false
        end
      else word_false
  end.
Lemma ecrecover_inner_exact input schedule : sec1_points -> (128 <= length input)%nat ->
  ecrecover_inner input schedule = ok (recovered (pad_to 128 input)) (Gas.ecrecover schedule).
Proof.
  intros Hp Hl. rewrite pad_to_long by done. unfold ecrecover_inner, recovered.
  rewrite (slice_ok input 0 32), (slice_ok input 64 96), (slice_ok input 96 128) by lia.
  destruct (lookup_lt_is_Some_2 input 63) as [v Hv]; [lia|].
  rewrite (index_at_ok input 63 v Hv). cbn [mbind outcome_bind].
  rewrite lookup_take_lt, Hv by lia. cbn [default from_option]. unfold Datatypes.id.
  rewrite !skipn_firstn_comm, !take_take, drop_0. simpl (_ - _)%nat. simpl (_ `min` _)%nat.
  destruct (if v =? 27 then Some 0 else if v =? 28 then Some 1 else None) as [rid|]; [|done].
  destruct (sig_ok _); cbn [negb]; [|done].
  destruct (recover_prehash _ _ _) as [key|] eqn:E; [|done].
  rewrite slice_from_ok by (apply Hp in E; lia). done.
Qed.

(** ECRECOVER on any bytes returns, for its fixed price and never an error
    once that is paid, the address of the key recovered from the first 128
    bytes, padded with zeros, or zero. *)
Theorem ecrecover_exact input gas_limit schedule : sec1_points ->
  ecrecover input gas_limit schedule =
    if gas_limit <? Gas.ecrecover schedule then Err (OutOfGas (Gas.ecrecover schedule) gas_limit)
    else ok (recovered (pad_to 128 input)) (Gas.ecrecover schedule).
Proof.
  intros Hp. unfold ecrecover. destruct (gas_limit <? _); [done|].
  destruct (Nat.ltb_spec (length input) 128).
  - rewrite ecrecover_inner_exact by (rewrite ?pad_to_length; done || lia).
    by rewrite (pad_to_long 128 (pad_to 128 input)), take_ge by (rewrite pad_to_length; lia).
  - by rewrite ecrecover_inner_exact by (done || lia).
Qed.
(** Only the last byte of the 32 that hold [v] is looked at. *)
Lemma ecrecover_ignores_v_padding p q : length p = 128%nat -> length q = 128%nat ->
  take 32 p = take 32 q -> drop 63 p = drop 63 q -> recovered p = recovered q.
Proof.
  intros Lp Lq Hh Ht. unfold recovered. rewrite Hh.
  assert (E : forall k, (63 <= k)%nat -> drop k p = drop k q).
  { intros k Hk. replace k with (63 + (k - 63))%nat by lia. by rewrite <- !drop_drop, Ht. }
  assert (Ev : p !! 63%nat = q !! 63%nat).
  { rewrite <- (Nat.add_0_r 63), <- !lookup_drop. by rewrite Ht. }
  by rewrite Ev, (E 64%nat), (E 96%nat) by lia.
Qed.

(** ** MODEXP *)

(** The documentation of [BigUint]: what the number is of which the bytes,
    the bit length and the power are *)
Record biguint_laws (val : BigUint -> Z) : Prop := {
  val_from_bytes l : Forall is_byte l -> val (from_bytes_be l) = from_be_bytes l;
  to_bytes_val n : from_be_bytes (to_bytes_be n) = val n;
  to_bytes_byte n : Forall is_byte (to_bytes_be n);
  to_bytes_minimal n k : (0 < k)%nat -> val n < 256 ^ Z.of_nat k -> (length (to_bytes_be n) <= k)%nat;
  bits_zero n : bits n = 0 <-> val n = 0;
  val_modpow b e m : val m <> 0 -> val (modpow b e m) = val b ^ val e mod val m
}.

Lemma zeros_value k : from_be_bytes (replicate k 0) = 0.
Proof.
  induction k as [|k IH]; [done|]. change (replicate (S k) 0) with ([0] ++ replicate k 0)%list.
  rewrite be_value_app, IH. done.
Qed.
Lemma zeros_bytes k : Forall is_byte (replicate k 0).
Proof. apply Forall_replicate. unfold is_byte. lia. Qed.
(** Left padding to [k] bytes *)
Lemma pad_left bytes k : Forall is_byte bytes -> (length bytes <= k)%nat ->
  (replicate (k - length bytes) 0 ++ bytes)%list = to_be_bytes k (from_be_bytes bytes).
Proof.
  intros Hb Hl. apply from_be_bytes_inj.
  - apply Forall_app. split; [apply zeros_bytes|done].
  - apply Forall_rev, to_le_bytes_byte.
  - rewrite length_app, length_replicate, to_be_bytes_length. lia.
  - rewrite be_value_app, zeros_value, Z.mul_0_l, Z.add_0_l. symmetry. apply from_to_be_bytes.
    pose proof (from_be_bytes_range bytes Hb) as Hr. unfold len in Hr. split; [lia|].
    eapply Z.lt_le_trans; [apply Hr|]. apply Z.pow_le_mono_r; lia.
Qed.

(** The three lengths an input declares, and the operands after them *)
Definition base_len_of input := u256_from_be_bytes (take 32 input).
Definition exp_len_of input := u256_from_be_bytes (take 32 (drop 32 input)).
Definition mod_len_of input := u256_from_be_bytes (take 32 (drop 64 input)).
Definition operand (input : list Z) (offset n : Z) : Z :=
  from_be_bytes (pad_to (Z.to_nat n) (drop (Z.to_nat (96 + offset)) input)).
Definition modexp_value input : Z :=
  let base := operand input 0 (base_len_of input) in
  let exp := operand input (base_len_of input) (exp_len_of input) in
  let modulus := operand input (base_len_of input + exp_len_of input) (mod_len_of input) in
  if modulus =? 0 then 0 else base ^ exp mod modulus.

Lemma modexp_power val base exp modulus k gas : biguint_laws val ->
  Forall is_byte base -> Forall is_byte exp -> Forall is_byte modulus ->
  length modulus = Z.to_nat k -> 0 < k < 2 ^ 63 ->
  let mod_n := from_bytes_be modulus in
  (if bits mod_n =? 0 then (output ← zeroed k; ok output gas)
   else
     let result_bytes := to_bytes_be (modpow (from_bytes_be base) (from_bytes_be exp) mod_n) in
     output ← zeroed k;
     if len result_bytes <=? k
     then ok (take (Z.to_nat (k - len result_bytes)) output ++ result_bytes) gas
     else ok (drop (Z.to_nat (len result_bytes - k)) result_bytes) gas) =
  ok (to_be_bytes (Z.to_nat k)
       (if from_be_bytes modulus =? 0 then 0
        else from_be_bytes base ^ from_be_bytes exp mod from_be_bytes modulus)) gas.
Proof.
  intros L Hb He Hm Hl Hk mod_n. rewrite zeroed_ok by lia. cbn [mbind outcome_bind].
  assert (Hval : val mod_n = from_be_bytes modulus) by by apply (val_from_bytes _ L).
  pose proof (from_be_bytes_range modulus Hm) as Hr. unfold len in Hr. rewrite Hl in Hr.
  destruct (Z.eqb_spec (bits mod_n) 0) as [Hz|Hz].
  - apply (bits_zero _ L) in Hz. rewrite Hval in Hz. rewrite Hz. cbn [Z.eqb].
    f_equal. pose proof (pad_left [] (Z.to_nat k) ltac:(constructor) ltac:(simpl; lia)) as E.
    rewrite app_nil_r, Nat.sub_0_r in E. done.
  - rewrite (bits_zero _ L), Hval in Hz. rewrite (proj2 (Z.eqb_neq _ _)) by done.
    set (result := to_bytes_be _).
    assert (Hres : from_be_bytes result = from_be_bytes base ^ from_be_bytes exp mod from_be_bytes modulus).
    { unfold result. rewrite (to_bytes_val _ L), (val_modpow _ L) by by rewrite Hval.
      by rewrite !(val_from_bytes _ L), Hval by done. }
    assert (Hlen : (length result <= Z.to_nat k)%nat).
    { unfold result. apply (to_bytes_minimal _ L); [lia|]. rewrite <- (to_bytes_val _ L). fold result.
      rewrite Hres. pose proof (Z.mod_pos_bound (from_be_bytes base ^ from_be_bytes exp) (from_be_bytes modulus)). lia. }
    unfold len. rewrite (proj2 (Z.leb_le _ _)) by lia.
    rewrite take_replicate, <- Hres, <- pad_left by (done || apply (to_bytes_byte _ L)).
    do 3 f_equal. lia.
Qed.

Lemma modexp_gas_ok bl el ml input : real_lengths bl el ml -> len input < 2 ^ 63 ->
  exists cost, modexp_gas bl el ml input = Ok cost /\ 200 <= cost.
Proof.
  intros (Hb & He & Hm & Hs) Hl. unfold modexp_gas. rewrite exp_view_ok by lia.
  cbn [mbind outcome_bind]. eexists. split; [done|]. lia.
Qed.
(** Reading the operands panics exactly when the input ends before the modulus. *)
Lemma read_operands {A} (data : list Z) bl el ml (f : list Z -> list Z -> list Z -> outcome EvmError A) :
  real_lengths bl el ml -> len data < 2 ^ 63 ->
  (base ← read_slice data 0 bl; exp ← read_slice data bl el; modulus ← read_slice data (bl +! el) ml;
   f base exp modulus) =
  if len data <? bl + el then Panic
  else f (pad_to (Z.to_nat bl) data) (pad_to (Z.to_nat el) (drop (Z.to_nat bl) data))
         (pad_to (Z.to_nat ml) (drop (Z.to_nat (bl + el)) data)).
Proof.
  intros (Hb & He & Hm & Hs) Hl. assert (0 <= len data) by (unfold len; lia).
  rewrite (read_slice_ok data 0 bl) by lia. cbn [mbind outcome_bind]. rewrite drop_0.
  rewrite add64_small by lia.
  destruct (Z.ltb_spec (len data) bl).
  { rewrite (read_slice_panic data bl el) by lia. by rewrite (proj2 (Z.ltb_lt _ _)) by lia. }
  rewrite (read_slice_ok data bl el) by lia. cbn [mbind outcome_bind].
  destruct (Z.ltb_spec (len data) (bl + el)).
  - by rewrite read_slice_panic by lia.
  - by rewrite read_slice_ok by lia.
Qed.

(** C38: MODEXP on an input of at least 96 bytes whose lengths no memory
    exceeds: it costs at least 200; once that is paid it returns the power
    modulo the modulus, left-padded to the modulus's length (zero for a zero
    modulus), with the modulus padded by zeros when the input ends inside it;
    and it panics, instead of padding, when the input ends before the modulus;
    for a modulus of length zero it returns nothing. *)
Theorem modexp_exact val input gas_limit schedule : biguint_laws val -> Forall is_byte input ->
  96 <= len input < 2 ^ 63 -> real_lengths (base_len_of input) (exp_len_of input) (mod_len_of input) ->
  exists cost, modexp_gas (base_len_of input) (exp_len_of input) (mod_len_of input) input = Ok cost /\
    200 <= cost /\
    modexp input gas_limit schedule =
      if gas_limit <? cost then Err (OutOfGas cost gas_limit)
      else if mod_len_of input =? 0 then ok [] cost
      else if len input <? 96 + base_len_of input + exp_len_of input then Panic
      else ok (to_be_bytes (Z.to_nat (mod_len_of input)) (modexp_value input)) cost.
Proof.
  intros L Hbytes Hl Hr. assert (96 <= length input)%nat by (unfold len in Hl; lia).
  destruct (modexp_gas_ok _ _ _ input Hr ltac:(lia)) as (cost & Hc & Hcost).
  exists cost. split_and!; [done..|]. unfold modexp.
  rewrite (proj2 (Nat.ltb_ge _ _)) by lia.
  rewrite (slice_ok input 0 32), (slice_ok input 32 64), (slice_ok input 64 96) by lia.
  cbn [mbind outcome_bind]. rewrite drop_0. simpl (_ - _)%nat.
  fold (base_len_of input) (exp_len_of input) (mod_len_of input). rewrite Hc. cbn [mbind outcome_bind].
  destruct (gas_limit <? cost); [done|]. destruct (Z.eqb_spec (mod_len_of input) 0) as [|Hm]; [done|].
  replace (if (96 <? length input)%nat then drop 96 input else []) with (drop 96 input)
    by (destruct (Nat.ltb_spec 96 (length input)); [done|]; by rewrite drop_ge by lia).
  assert (Hd : len (drop 96 input) = len input - 96) by (unfold len; rewrite length_drop; lia).
  rewrite read_operands by (done || lia). rewrite Hd.
  destruct Hr as (Hb & He & Hm0 & Hs).
  destruct (Z.ltb_spec (len input - 96) (base_len_of input + exp_len_of input)) as [Hs'|Hs'];
    [by rewrite (proj2 (Z.ltb_lt _ _)) by lia|]. rewrite (proj2 (Z.ltb_ge _ _)) by lia.
  erewrite (modexp_power val) by
    first [done|apply pad_to_length|lia|repeat first [apply pad_to_bytes|apply Forall_drop]; done].
  unfold modexp_value, operand. rewrite !drop_drop.
  replace (96 + Z.to_nat (base_len_of input))%nat with (Z.to_nat (96 + base_len_of input)) by lia.
  replace (96 + Z.to_nat (base_len_of input + exp_len_of input))%nat
    with (Z.to_nat (96 + (base_len_of input + exp_len_of input))) by lia.
  done.
Qed.

(** ** Every contract of the table *)
Definition may_panic (gas_limit : Z) (r : outcome EvmError PrecompileResult) : Prop :=
  r = Panic \/ within_limit gas_limit r.
Definition panics_or {A} (P : A -> Prop) (o : outcome EvmError A) : Prop :=
  match o with Ok a => P a | Panic => True | _ => False end.
Lemma may_panic_bind {A} gas_limit (o : outcome EvmError A) f :
  panics_or (fun a => may_panic gas_limit (f a)) o -> may_panic gas_limit (o ≫= f).
Proof. destruct o; simpl; [done|done| |done]. by left. Qed.
Lemma panics_or_weaken {A} (P Q : A -> Prop) o : (forall a, P a -> Q a) -> panics_or P o -> panics_or Q o.
Proof. destruct o; simpl; auto. Qed.
Lemma slice_z_panics v a b : panics_or (fun _ => True) (slice_z v a b).
Proof. unfold slice_z. by case_match. Qed.
Lemma zeroed_panics n : panics_or (fun _ => True) (zeroed n).
Proof. unfold zeroed. by case_match. Qed.
Lemma modexp_gas_panics bl el ml input : panics_or (fun gas => 200 <= gas) (modexp_gas bl el ml input).
Proof.
  unfold modexp_gas.
  assert (Hv : panics_or (fun _ => True) (exp_view bl el input)).
  { unfold exp_view. destruct (_ <=? len input); [apply slice_z_panics|].
    destruct (_ <? len input); [apply slice_z_panics|done]. }
  destruct (exp_view bl el input); [|done..]. simpl. lia.
Qed.
Lemma read_slice_panics data offset n : panics_or (fun _ => True) (read_slice data offset n).
Proof.
  unfold read_slice. pose proof (zeroed_panics n). destruct (zeroed n); [|done..].
  cbn [mbind outcome_bind].
  match goal with |- context [slice_z ?v ?a ?b] => pose proof (slice_z_panics v a b); by destruct (slice_z v a b) end.
Qed.
Lemma modexp_limit input gas_limit schedule : (96 <= length input)%nat ->
  may_panic gas_limit (modexp input gas_limit schedule).
Proof.
  intros Hl. unfold modexp. rewrite (proj2 (Nat.ltb_ge _ _)) by lia.
  rewrite (slice_ok input 0 32), (slice_ok input 32 64), (slice_ok input 64 96) by lia.
  cbn [mbind outcome_bind].
  apply may_panic_bind. eapply panics_or_weaken, modexp_gas_panics. intros gas Hg.
  destruct (Z.ltb_spec gas_limit gas); [by right|].
  assert (Hok : forall out, within_limit gas_limit (ok out gas)) by (intros; cbv beta in *; simpl; lia).
  destruct (_ =? 0); [by right|].
  do 3 (apply may_panic_bind; eapply panics_or_weaken, read_slice_panics; intros ? _).
  destruct (_ =? 0); apply may_panic_bind; eapply panics_or_weaken, zeroed_panics; intros ? _; [by right|].
  destruct (_ <=? _); by right.
Qed.

Lemma pairing_step_error input points i : (i < length input / 192)%nat ->
  match pairing_step input points i with Ok _ | Err (PrecompileError _) => True | _ => False end.
Proof.
  intros Hi. unfold pairing_step.
  pose proof (Nat.Div0.mul_div_le (length input) 192). rewrite slice_ok by lia.
  cbn [mbind outcome_bind]. destruct (parse_g1 _); [|done]. cbn [ok_or mbind outcome_bind].
  destruct (parse_g2 _); [|done]. cbn [ok_or mbind outcome_bind]. by destruct (_ || _).
Qed.
Lemma pairing_loop_error input idx points : (forall i, i ∈ idx -> (i < length input / 192)%nat) ->
  match for_each (pairing_step input) idx points with Ok _ | Err (PrecompileError _) => True | _ => False end.
Proof.
  revert points. induction idx as [|i idx IH]; intros points Hi; [done|]. simpl.
  pose proof (pairing_step_error input points i (Hi i (list_elem_of_here _ _))) as Hs.
  destruct (pairing_step input points i) as [points'|[]| |]; try done.
  apply IH. intros j Hj. by apply Hi, list_elem_of_further.
Qed.

Lemma pairing_limit input gas_limit schedule : within_limit gas_limit (bn_pairing input gas_limit schedule).
Proof.
  unfold bn_pairing. destruct (_ =? 0)%nat; cbn [negb]; [|done].
  apply within_if; [apply add64_nonneg|]. intros Hg.
  pose proof (pairing_loop_error input (seq 0 (length input / 192)) ([], [])
    ltac:(intros i Hi%elem_of_seq; lia)) as Hp.
  by destruct (for_each _ _ _) as [[ps qs]|[]| |].
Qed.
Lemma blake2f_limit input gas_limit schedule : within_limit gas_limit (blake2f input gas_limit schedule).
Proof.
  unfold blake2f. destruct (Nat.eqb_spec (length input) 213) as [Hl|]; cbn [negb]; [|done].
  destruct (lookup_lt_is_Some_2 input 212) as [f Hf]; [lia|].
  rewrite (index_at_ok input 212 f Hf). cbn [mbind outcome_bind].
  destruct (_ && _); [done|]. apply within_if; [lia|done].
Qed.

Lemma table_lookup a f : get_precompiles !! a = Some f -> exists n, a = addr n /\ (n, f) ∈ precompile_table.
Proof.
  intros Hf. unfold get_precompiles in Hf. apply elem_of_list_to_map_2, list_elem_of_fmap in Hf as ([n g] & [= -> ->] & Hin).
  eauto.
Qed.

(** Gas of the whole table, on any bytes and schedule: a contract answers
    within its gas limit, or refuses with a message or with the gas it would
    need, which is more than the limit.  Only MODEXP departs from this: it may
    panic, and on fewer than 96 bytes it charges 200 whatever the limit. *)
Theorem precompiles_respect_limit a f input gas_limit schedule : sec1_points -> schedule_ok schedule ->
  get_precompiles !! a = Some f ->
  within_limit gas_limit (f input gas_limit schedule) \/
  (a = addr 5 /\ (96 <= length input)%nat /\ f input gas_limit schedule = Panic) \/
  (a = addr 5 /\ (length input < 96)%nat /\ f input gas_limit schedule = ok [] 200).
Proof.
  intros Hp (He & Ha & Hm) (n & -> & Hin)%table_lookup. unfold precompile_table in Hin.
  repeat (apply elem_of_cons in Hin as [[= -> ->]|Hin]); [..|by apply elem_of_nil in Hin].
  - left. rewrite ecrecover_exact by done. by apply within_if.
  - left. apply within_if; [apply add64_nonneg|done].
  - left. apply within_if; [apply add64_nonneg|done].
  - left. apply within_if; [apply add64_nonneg|done].
  - destruct (Nat.le_gt_cases 96 (length input)) as [Hl|Hl].
    + destruct (modexp_limit input gas_limit schedule Hl) as [E|E]; [right; left|left]; done.
    + do 2 right. split_and!; [done..|]. unfold modexp. by rewrite (proj2 (Nat.ltb_lt _ _)).
  - left. apply within_if; [done|]. intros ?. by do 2 (apply within_bind; intros ? _).
  - left. apply within_if; [done|]. intros ?. by apply within_bind; intros ? _.
  - left. apply pairing_limit.
  - left. apply blake2f_limit.
  - left. unfold zkp_verify. case_match; [done|]. apply within_if; [apply add64_nonneg|done].
  - left. unfold zkp_batch_verify. case_match; [done|].
    apply within_if; [apply Z.div_pos; [apply mul64_range|lia]|done].
  - left. apply within_if; [apply add64_nonneg|done].
  - left. apply within_if; [apply add64_nonneg|done].
  - left. unfold dag_get_vertex. case_match; [done|]. by apply within_if.
  - left. apply within_if; [apply add64_nonneg|done].
Qed.

(** The table is within the ranges of [is_precompile]. *)
Lemma table_in_range a f : get_precompiles !! a = Some f -> is_precompile a = true.
Proof.
  intros (n & -> & Hin)%table_lookup. unfold precompile_table in Hin.
  repeat (apply elem_of_cons in Hin as [[= -> ->]|Hin]); [done..|by apply elem_of_nil in Hin].
Qed.
End gas.

(** ** BLAKE2F *)
Lemma words_le_from pre ws post first s : Forall is_u64 ws -> length pre = (first + s * 8)%nat ->
  (fun i => from_le_bytes (take 8 (drop (first + i * 8) (pre ++ concat (to_le_bytes 8 <$> ws) ++ post))))
    <$> seq s (length ws) = ws.
Proof.
  intros Hws. revert pre s. induction Hws as [|w ws Hw Hws IH]; intros pre s Hl; [done|].
  cbn [length]. rewrite <- cons_seq, !fmap_cons. cbn [concat]. f_equal.
  - rewrite <- Hl, drop_app_length, <- (assoc_L app).
    rewrite take_app_le, take_ge by (rewrite to_le_bytes_length; lia). by apply from_to_le_bytes.
  - specialize (IH (pre ++ to_le_bytes 8 w)%list (S s)).
    rewrite <- !(assoc_L app), length_app, to_le_bytes_length in IH. rewrite <- (assoc_L app). apply IH. lia.
Qed.
Lemma words_le_read pre ws post first n : Forall is_u64 ws -> length pre = first -> length ws = n ->
  words_le (pre ++ concat (to_le_bytes 8 <$> ws) ++ post) first n = ws.
Proof. intros Hws Hf <-. apply (words_le_from pre ws post first 0); [done|lia]. Qed.
Lemma concat_words_length ws : length (concat (to_le_bytes 8 <$> ws)) = (length ws * 8)%nat.
Proof. induction ws as [|w ws IH]; [done|]. rewrite fmap_cons. cbn [concat length]. rewrite length_app, to_le_bytes_length, IH. lia. Qed.

Definition blake2f_input (rounds : Z) (h m : list Z) (t0 t1 f : Z) : list Z :=
  (to_be_bytes 4 rounds ++ concat (to_le_bytes 8 <$> h) ++ concat (to_le_bytes 8 <$> m)
   ++ concat (to_le_bytes 8 <$> [t0; t1]) ++ [f])%list.

(** BLAKE2F reads the input of EIP-152: on the encoding of rounds, state,
    block, offset and final flag it charges one unit of gas per round (at
    least one) and returns the compression of exactly these; any other length
    or flag is refused. *)
Theorem blake2f_computes rounds h m t0 t1 f gas_limit schedule :
  0 <= rounds < 2 ^ 32 -> length h = 8%nat -> Forall is_u64 h -> length m = 16%nat -> Forall is_u64 m ->
  is_u64 t0 -> is_u64 t1 ->
  let input := blake2f_input rounds h m t0 t1 f in
  let cost := Z.max (sat_mul64 rounds (blake2f_round schedule)) 1 in
  blake2f input gas_limit schedule =
    if negb (f =? 0) && negb (f =? 1) then error "Invalid BLAKE2F f flag: must be 0 or 1"
    else if gas_limit <? cost then Err (OutOfGas cost gas_limit)
    else ok (concat (to_le_bytes 8 <$> blake2b_compress h m t0 t1 (f =? 1) (Z.to_nat rounds))) cost.
Proof.
  intros Hr Lh Hh Lm Hm Ht0 Ht1 input cost.
  assert (E1 : words_le input 4 8 = h).
  { apply (words_le_read (to_be_bytes 4 rounds)); [done|apply to_be_bytes_length|done]. }
  assert (E2 : words_le input 68 16 = m).
  { unfold input, blake2f_input. rewrite (assoc_L app (to_be_bytes 4 rounds)).
    apply words_le_read; [done| |done]. rewrite length_app, to_be_bytes_length, concat_words_length. lia. }
  assert (E3 : words_le input 196 2 = [t0; t1]).
  { unfold input, blake2f_input.
    rewrite (assoc_L app (to_be_bytes 4 rounds)), (assoc_L app _ (concat (to_le_bytes 8 <$> m))).
    apply (words_le_read _ [t0; t1]); [by repeat apply Forall_cons_2| |done].
    rewrite !length_app, to_be_bytes_length, !concat_words_length. lia. }
  assert (E4 : input !! 212%nat = Some f).
  { unfold input, blake2f_input. rewrite !(assoc_L app).
    apply list_lookup_middle. rewrite !length_app, to_be_bytes_length, !concat_words_length. simpl. lia. }
  assert (E5 : from_be_bytes (take 4 input) = rounds).
  { unfold input, blake2f_input. rewrite take_app_le, take_ge by (rewrite to_be_bytes_length; lia).
    by apply from_to_be_bytes. }
  assert (E0 : length input = 213%nat).
  { unfold input, blake2f_input. by rewrite !length_app, to_be_bytes_length, !concat_words_length, Lh, Lm. }
  clearbody input. unfold words_le in E3. injection E3 as E6 E7.
  unfold blake2f. rewrite E0. cbn [Nat.eqb negb].
  rewrite (index_at_ok input 212 f E4). cbn [mbind outcome_bind]. by rewrite E1, E2, E5, E6, E7.
Qed.

(** ** Concrete calls *)
Module Sample.
(** [toy_crypto] with points of 65 bytes *)
#[local] Instance point_crypto : CryptoLib := {|
  blake3 := pad32; keccak := pad32; key_ok := fun _ => true; sig_ok := fun _ => true;
  verify_prehash := fun _ _ _ => true; verify_msg := fun _ _ _ => true;
  recover_prehash := fun _ sig _ => Some (4 :: pad_to 64 sig);
  sign_prehash := fun key _ => Some (key, 0); sign_msg := fun key _ => key;
  secret_ok := fun _ => true; public_point := fun key => 4 :: key; public_compressed := fun key => key;
  hex_encode := fun _ => EmptyString
|}.
#[local] Instance toy_digests : DigestLib := {|
  sha256_digest := fun l => to_be_bytes 32 (sumZ l);
  ripemd160_digest := fun l => to_be_bytes 20 (sumZ l)
|}.
(** Arbitrary-precision integers are [N]. *)
Definition n_bytes (n : N) : list Z := to_be_bytes (Z.to_nat (Z.log2 (Z.of_N n) / 8) + 1) (Z.of_N n).
#[local] Instance n_biguint : BigUintLib := {|
  BigUint := N;
  from_bytes_be := fun l => Z.to_N (from_be_bytes l);
  to_bytes_be := n_bytes;
  bits := fun n => Z.of_N (N.size n);
  modpow := fun b e m => N.modulo (N.pow b e) m
|}.
(** A group of one element *)
#[local] Instance trivial_curve : Bn254 := {|
  Fq := (); Fq2 := (); Fr := (); G1 := (); G2 := ();
  fq_from_be_bytes_mod_order := fun _ => (); fr_from_be_bytes_mod_order := fun _ => ();
  fq_is_zero := fun _ => true; into_bigint := fun _ => [0; 0; 0; 0];
  fq2_new := fun _ _ => (); fq2_is_zero := fun _ => true;
  g1_zero := (); g1_new_unchecked := fun _ _ => (); g1_is_on_curve := fun _ => true;
  g1_is_zero := fun _ => true; g1_x := fun _ => (); g1_y := fun _ => ();
  g2_zero := (); g2_new_unchecked := fun _ _ => (); g2_is_on_curve := fun _ => true;
  g2_is_zero := fun _ => true; g1_add := fun _ _ => (); g1_mul := fun _ _ => ();
  multi_pairing_is_zero := fun _ _ => true
|}.

Lemma n_size_bytes (n : Z) : 0 <= n -> n < 256 ^ (Z.log2 n / 8 + 1).
Proof.
  intros Hn. destruct (Z.eq_dec n 0) as [->|]; [done|].
  pose proof (Z.log2_spec n ltac:(lia)) as [_ Hlt]. eapply Z.lt_le_trans; [apply Hlt|].
  pose proof (Z.log2_nonneg n). pose proof (Z.div_mod (Z.log2 n) 8 ltac:(lia)).
  pose proof (Z.mod_pos_bound (Z.log2 n) 8 ltac:(lia)).
  assert (0 <= Z.log2 n / 8) by (apply Z.div_pos; lia).
  change 256 with (2 ^ 8). rewrite <- Z.pow_mul_r by lia. apply Z.pow_le_mono_r; lia.
Qed.
Lemma n_laws : biguint_laws Z.of_N.
Proof.
  split.
  - intros l Hl. simpl. rewrite Z2N.id; [done|]. by apply from_be_bytes_range.
  - intros n. simpl. unfold n_bytes. apply from_to_be_bytes.
    pose proof (n_size_bytes (Z.of_N n) ltac:(lia)) as H.
    assert (0 <= Z.log2 (Z.of_N n) / 8) by (apply Z.div_pos; [apply Z.log2_nonneg|lia]).
    rewrite Nat2Z.inj_add, Z2Nat.id by done. lia.
  - intros n. simpl. unfold n_bytes, to_be_bytes. apply Forall_rev, to_le_bytes_byte.
  - intros n k Hk Hn. simpl. unfold n_bytes. rewrite to_be_bytes_length.
    destruct (Z.eq_dec (Z.of_N n) 0) as [E|E]; [rewrite E; simpl; lia|].
    change 256 with (2 ^ 8) in Hn. rewrite <- Z.pow_mul_r in Hn by lia.
    apply Z.log2_lt_pow2 in Hn; [|lia].
    assert (Z.log2 (Z.of_N n) / 8 < Z.of_nat k) by (apply Z.div_lt_upper_bound; lia). lia.
  - intros n. simpl. destruct n; simpl; lia.
  - intros b e m Hm. simpl. rewrite N2Z.inj_mod, N2Z.inj_pow. done.
Qed.

(** The lengths of the operands, then the operands *)
Definition modexp_input (bl el ml : Z) (operands : list Z) : list Z :=
  (to_be_bytes 32 bl ++ to_be_bytes 32 el ++ to_be_bytes 32 ml ++ operands)%list.
Example three_squared : modexp (modexp_input 1 1 1 [3; 2; 5]) 200 berlin = ok [4] 200.
Proof. by vm_compute. Qed.
(** Missing operands are not read as zeros. *)
Example truncated_input_panics : modexp (modexp_input 1 1 1 []) 200 berlin = Panic.
Proof. by vm_compute. Qed.
(** A modulus of 2^63 bytes costs 200 by wrapping, and cannot be allocated. *)
Example huge_modulus_panics : modexp (modexp_input 0 0 (2 ^ 63) [1]) 200 berlin = Panic.
Proof. by vm_compute. Qed.
(** A length of 2^64 is read as zero. *)
Example length_cut : modexp (modexp_input 1 1 (2 ^ 64) [3; 2; 5]) 200 berlin = ok [] 200.
Proof. by vm_compute. Qed.
Example short_input_ignores_limit : modexp [] 0 berlin = ok [] 200.
Proof. done. Qed.
(** EIP-2565, which the comment names, squares the number of 8-byte words and
    divides by 3; the code has the complexity of EIP-198. *)
Definition eip2565_complexity (max_len : Z) : Z := ((max_len + 7) / 8) ^ 2.
Example eip2565_differs : mult_complexity 64 = 64 * eip2565_complexity 64.
Proof. done. Qed.
(** The two tests for precompiled addresses disagree with the table. *)
Example ranges_disagree : is_precompile (addr 0x106) = true /\ get_precompiles !! addr 0x106 = None /\
  Crypto.is_precompile (addr 0x100) = false /\ is_Some (get_precompiles !! addr 0x100).
Proof.
  split_and!; [reflexivity..|].
  exists zkp_verify. reflexivity.
Qed.
(** Any 224 bytes are a valid proof. *)
Example any_proof_verifies : zkp_verify (replicate 224 0) 100000 berlin = ok word_true 100000.
Proof. by vm_compute. Qed.

Lemma points_ok : sec1_points.
Proof. intros digest sig rid p [= <-]. cbn [length]. by rewrite pad_to_length. Qed.
Lemma berlin_ok : schedule_ok berlin.
Proof. by split_and!. Qed.
Lemma ecrecover_exact_witness : ecrecover [1; 2; 3] 3000 berlin = ok (recovered (pad_to 128 [1; 2; 3])) 3000.
Proof. exact (ecrecover_exact [1; 2; 3] 3000 berlin points_ok). Defined.
Lemma modexp_exact_witness :
  let input := modexp_input 1 1 2 [3; 7; 1] in
  exists cost, modexp_gas (base_len_of input) (exp_len_of input) (mod_len_of input) input = Ok cost /\
    200 <= cost /\ modexp input 1000 berlin =
      if 1000 <? cost then Err (OutOfGas cost 1000)
      else if mod_len_of input =? 0 then ok [] cost
      else if len input <? 96 + base_len_of input + exp_len_of input then Panic
      else ok (to_be_bytes (Z.to_nat (mod_len_of input)) (modexp_value input)) cost.
Proof.
  apply (modexp_exact (BL := n_biguint) Z.of_N (modexp_input 1 1 2 [3; 7; 1]) 1000 berlin n_laws).
  - apply (bool_decide_unpack _). vm_compute. exact I.
  - split; [discriminate|reflexivity].
  - split_and!; [discriminate|discriminate|discriminate|reflexivity].
Defined.
Example modexp_sample_value : modexp_value (modexp_input 1 1 2 [3; 7; 1]) = 3 ^ 7 mod 256.
Proof. by vm_compute. Qed.
Lemma precompiles_respect_limit_witness :
  within_limit 17 (identity [1; 2; 3] 17 berlin) \/
  (addr 4 = addr 5 /\ (96 <= 3)%nat /\ identity [1; 2; 3] 17 berlin = Panic) \/
  (addr 4 = addr 5 /\ (3 < 96)%nat /\ identity [1; 2; 3] 17 berlin = ok [] 200).
Proof.
  apply (precompiles_respect_limit (addr 4) identity [1; 2; 3] 17 berlin points_ok berlin_ok). reflexivity.
Defined.
Lemma blake2f_computes_witness :
  blake2f (blake2f_input 12 Blake2.Sample.abc_h Blake2.Sample.abc_m 3 0 1) 12 berlin =
  ok (concat (to_le_bytes 8 <$> blake2b_compress Blake2.Sample.abc_h Blake2.Sample.abc_m 3 0 true 12)) 12.
Proof.
  apply (blake2f_computes 12 Blake2.Sample.abc_h Blake2.Sample.abc_m 3 0 1 12 berlin);
    first [done|apply (bool_decide_unpack _); vm_compute; exact I].
Defined.
End Sample.
