(* ===== verification/PrecompileCalls.v ===== *)
(** * Calls to precompiled contracts through the executor

    The executor with its own table: what a transaction to a precompiled
    contract costs and moves, and the refund that MODEXP makes wrap. *)
From stdpp Require Import base numbers list gmap strings.
From Stdlib Require Import ZArith Lia.
From S2P Require Import Prelude Types U256Facts Crypto Transaction EvmState EvmStateProps Gas Receipt Executor.
From S2P Require Import ExecutorProps Slices Precompiles PrecompilesProps.
Import U256Facts.
#[local] Open Scope Z_scope.

Section calls.
Context `{CL : CryptoLib} `{RL : RevmLib} `{DL : DigestLib} `{BL : BigUintLib} `{BN : Bn254}.

(** [execute] on a precompiled contract: the value moves, then the contract runs. *)
Lemma execute_precompile x tx sender to intrinsic f j : tx_to tx = Some to -> find_precompile x to = Some f ->
  execute x tx sender intrinsic j =
    (_ ← transfer sender to (value tx);
     lift (r ← f (data tx) (gas_limit tx -! intrinsic) (gas_schedule x);
           Ok (exec_success (pr_gas_used r) 0 (pr_output r) []))) j.
Proof.
  intros Hto Hpre. unfold execute. rewrite Hto. unfold execute_call. rewrite Hpre.
  unfold mbind, M_bind, lift. destruct (transfer sender to (value tx) j) as [j' []]; [|done..].
  by destruct (f _ _ _).
Qed.

(** C35: An admitted transaction to a precompiled contract of the executor's
    table, other than MODEXP (see [Sample.modexp_call_mints]), at a price that
    reaches the base fee and within the range where fees do not wrap, always
    yields a receipt: the gas is at least the intrinsic gas
    and at most the limit, the receipt is a success exactly when the contract
    answers, and the balances move by the value, the fee for that gas and the
    tip, also when the contract fails. *)
Theorem precompile_call_accounting x tx sender to adm f : sec1_points -> schedule_ok (gas_schedule x) ->
  check_sender x tx = Ok sender -> check_funds x tx sender = Ok adm -> tx_to tx = Some to ->
  exact_fees x tx adm (ex_state x) -> precompiles x = get_precompiles ->
  get_precompiles !! to = Some f -> to <> addr 5 ->
  let answer := f (data tx) (gas_limit tx - at_intrinsic adm) (gas_schedule x) in
  let price := to_Z (at_price adm) in
  exists x' receipt gas, execute_tx tx x = (x', Ok receipt) /\ r_gas_used receipt = gas /\
    at_intrinsic adm <= gas <= gas_limit tx /\
    (r_status receipt = StatusSuccess <-> exists r, answer = Ok r /\ gas = at_intrinsic adm + pr_gas_used r) /\
    (forall b, bal (ex_state x') b = bal (ex_state x) b
       - (if decide (sender = b) then to_Z (value tx) + price * gas else 0)
       + (if decide (to = b) then to_Z (value tx) else 0)
       + (if decide (env_coinbase (env x) = b) then (price - to_Z (env_base_fee (env x))) * gas else 0)).
Proof.
  intros Hpts Hsch Hs Ha Hto Hf Htab Hpre Hne answer price.
  destruct (check_funds_Ok x tx sender adm Ha) as (Es & Hfd & _).
  pose proof (intrinsic_range x tx sender adm Ha) as Hi.
  pose proof (fd_intrinsic _ _ _ Hfd) as Hle. pose proof (ef_limit _ _ _ _ Hf) as Hl. unfold is_u64 in Hi, Hl.
  assert (Hgas : gas_limit tx -! at_intrinsic adm = gas_limit tx - at_intrinsic adm)
    by (apply sub64_small; lia).
  destruct (precompiles_respect_limit to f (data tx) (gas_limit tx - at_intrinsic adm) (gas_schedule x))
    as [Hlim|[[? _]|[? _]]]; [done..| |done|done]. fold answer in Hlim.
  set (R := r ← answer; Ok (exec_success (pr_gas_used r) 0 (pr_output r) [])).
  set (used := match answer with Ok r => at_intrinsic adm + pr_gas_used r | _ => gas_limit tx end).
  destruct (run_direct x tx adm to (ex_state x) R used) as (s' & receipt & Hrun & Hg & Hst & Hch);
    [done|done|apply (fd_balance _ _ _ Hfd)| | | |].
  - intros j _. rewrite Es, (execute_precompile x tx sender to _ f j) by (unfold find_precompile; by rewrite ?Htab).
    by rewrite Hgas.
  - unfold R, used. destruct answer as [r|e| |]; [|done..]. split; [done|]. cbn in Hlim |- *.
    rewrite add64_small, sub64_small by lia. lia.
  - unfold used. destruct answer as [r|e| |]; simpl in Hlim; lia.
  - exists (set_ex_state s' (set_tx_access x sender tx)), receipt, used.
    split; [exact (execute_tx_admitted _ _ _ _ _ _ Hs Ha Hrun)|]. split; [done|].
    split; [unfold used; destruct answer as [r|e| |]; simpl in Hlim; lia|]. split.
    + rewrite Hst. unfold R, used. destruct answer as [r|e| |]; simpl;
        [split; [by exists r|done]|split; [done|by intros (? & ? & _)]|done..].
    + intros b. cbn. rewrite (ch_bal _ _ _ _ _ _ _ Hch). unfold direct_delta, at_. rewrite Es.
      fold price. repeat case_decide; lia.
Qed.
End calls.

(** ** Concrete transactions *)
Module Sample.
Import PrecompilesProps.Sample ExecutorProps.Sample.
#[local] Existing Instances point_crypto toy_digests n_biguint trivial_curve spender.

Definition x : Executor := nexus_executor wealth sample_env.
Definition copy_tx : Transaction :=
  signed Legacy (Some (Precompiles.addr 4)) (U256.from_u64 500) [1; 2; 3] 30000 (U256.from_u64 12).
Definition copy_adm : Admitted_tx :=
  match check_funds x copy_tx (addr 1) with
  | Ok adm => adm
  | _ => mkAdmitted (addr 0) 0 U256.ZERO U256.ZERO U256.ZERO
  end.
Lemma copy_fees : exact_fees x copy_tx copy_adm (ex_state x).
Proof.
  destruct wealth_balances as (Hb & Hs & _).
  assert (Hp : at_price copy_adm = U256.from_u64 12) by (vm_compute; reflexivity).
  split; rewrite ?Hp; done.
Qed.
Lemma copy_checked : check_sender x copy_tx = Ok (addr 1) /\ check_funds x copy_tx (addr 1) = Ok copy_adm.
Proof. split; vm_compute; reflexivity. Qed.
Lemma precompile_call_accounting_witness : exists x' receipt gas,
  execute_tx copy_tx x = (x', Ok receipt) /\ r_gas_used receipt = gas /\ 21048 <= gas <= 30000.
Proof.
  destruct (precompile_call_accounting x copy_tx (addr 1) (Precompiles.addr 4) copy_adm identity)
    as (x' & receipt & gas & Hx & Hg & Hr & _).
  - exact points_ok.
  - exact berlin_ok.
  - exact (proj1 copy_checked).
  - exact (proj2 copy_checked).
  - reflexivity.
  - exact copy_fees.
  - reflexivity.
  - reflexivity.
  - discriminate.
  - exists x', receipt, gas. split; [exact Hx|]. split; [exact Hg|exact Hr].
Defined.

(** A call of MODEXP without data and with no gas to spare: 200 units more than
    the limit are charged, the refund of the rest wraps at 2^64, and the caller
    is credited with almost 2^64 units of gas at its own price. *)
Definition mint_tx : Transaction :=
  signed Legacy (Some (Precompiles.addr 5)) U256.ZERO [] 21000 (U256.from_u64 12).
Example modexp_call_mints : exists x' receipt, execute_tx mint_tx x = (x', Ok receipt) /\
  r_status receipt = StatusSuccess /\ r_gas_used receipt = 21200 /\
  bal (ex_state x') (addr 1) = 1000000 - 12 * 21000 + 12 * (B64 - 200).
Proof.
  exists (fst (execute_tx mint_tx x)).
  destruct (snd (execute_tx mint_tx x)) as [receipt|e| |] eqn:E; [|vm_compute in E; discriminate E..].
  exists receipt. split; [rewrite <- E; apply surjective_pairing|].
  revert E. vm_compute. intros [= <-]. done.
Qed.
End Sample.
