(* ===== verification/ZkField.v ===== *)
(** * The scalar field of BN254 (crates/nexus-zkp)

    nexus-zkp computes in [ark_bn254::Fr], a third-party prime field: a type
    with its operations, [FieldLib].  What its documentation promises is
    [FieldLaws]: a field, [From<u64>] a homomorphism as far as the sources
    use it, and the canonical 32-byte encoding.  [bn254] evaluates the
    definitions at the modulus of the curve; [f17] is an instance small enough
    to prove every law of. *)
From stdpp Require Import base numbers list decidable strings.
From Stdlib Require Import ZArith Lia Field Zmod.
From S2P Require Import Prelude.
#[local] Open Scope Z_scope.

(** [ZkpError] (lib.rs) *)
Inductive ZkpError :=
  | ProofGenerationFailed (s : string)
  | VerificationFailed (s : string)
  | InvalidInput (s : string)
  | SerializationError (s : string)
  | CircuitError (s : string)
  | InvalidCommitment
  | NullifierSpent.
(** [ZkpResult] *)
Abbreviation ZkpResult := (outcome ZkpError).

(** [ZkpConfig] *)
Record ZkpConfig := mkZkpConfig { max_value : Z; range_bits : nat; tree_depth : nat }.
Definition default_zkp_config : ZkpConfig := mkZkpConfig (B64 - 1) 64 32.

Class FieldLib := {
  Fr : Type;
  Fr_eq_dec : EqDecision Fr;
  fzero : Fr;
  fone : Fr;
  fadd : Fr -> Fr -> Fr;
  fmul : Fr -> Fr -> Fr;
  fsub : Fr -> Fr -> Fr;
  fneg : Fr -> Fr;
  (** [Field::inverse]: [None] for zero *)
  finverse : Fr -> option Fr;
  (** [Fr::from(u64)] *)
  from_u64 : Z -> Fr;
  (** [PrimeField::from_le_bytes_mod_order] *)
  from_le_bytes_mod_order : list Z -> Fr;
  (** [serialize_compressed] into 32 bytes, and [deserialize_compressed],
      which refuses an encoding that is not canonical *)
  fr_serialize : Fr -> list Z;
  fr_deserialize : list Z -> option Fr
}.
#[export] Existing Instance Fr_eq_dec.

Declare Scope field_scope.
Delimit Scope field_scope with fr.
Notation "0" := fzero : field_scope.
Notation "1" := fone : field_scope.
Infix "+" := fadd : field_scope.
Infix "*" := fmul : field_scope.
Infix "-" := fsub : field_scope.
Notation "- x" := (fneg x) : field_scope.

(** The inverse where the callers have excluded zero. *)
Definition finv `{FieldLib} (x : Fr) : Fr := default fzero (finverse x).
Definition fdiv `{FieldLib} (x y : Fr) : Fr := fmul x (finv y).

Class FieldLaws `{FieldLib} : Prop := {
  fr_field : field_theory fzero fone fadd fmul fsub fneg fdiv finv (@eq Fr);
  finverse_nonzero : forall x, x <> fzero -> is_Some (finverse x);
  (** [From<u64>] is the homomorphism from the integers *)
  from_u64_0 : from_u64 0 = fzero;
  from_u64_succ : forall n, 0 <= n -> n + 1 < B64 ->
    from_u64 (n + 1) = fadd (from_u64 n) fone;
  (** the modulus exceeds 9 and is 2 or more modulo 5 *)
  from_u64_digit : forall n, 1 <= n <= 9 -> from_u64 n <> fzero;
  fifth_power_inj : forall x y : Fr,
    fmul (fmul (fmul x x) (fmul x x)) x = fmul (fmul (fmul y y) (fmul y y)) y -> x = y;
  (** the canonical encoding *)
  fr_serialize_bytes : forall x, is_bytes 32 (fr_serialize x);
  fr_serialize_deserialize : forall x, fr_deserialize (fr_serialize x) = Some x;
  fr_serialize_mod_order : forall x, from_le_bytes_mod_order (fr_serialize x) = x
}.

Section field.
Context `{FL : FieldLib} {laws : @FieldLaws FL}.
#[local] Open Scope field_scope.

Add Field Fr_field : fr_field.

Lemma from_u64_add a b : (0 <= a)%Z -> (0 <= b)%Z -> (a + b < B64)%Z ->
  from_u64 (a + b) = from_u64 a + from_u64 b.
Proof.
  intros Ha Hb. revert b Hb. refine (natlike_ind _ _ _).
  - intros _. rewrite from_u64_0, Z.add_0_r. ring.
  - intros b Hb IH Hlt. unfold Z.succ in *.
    rewrite Z.add_assoc, !from_u64_succ, IH by lia. ring.
Qed.
Lemma from_u64_1 : from_u64 1 = 1.
Proof. rewrite (from_u64_succ 0), from_u64_0 by lia. ring. Qed.
Lemma fr_serialize_inj x y : fr_serialize x = fr_serialize y -> x = y.
Proof.
  intros E. apply (f_equal fr_deserialize) in E.
  rewrite !fr_serialize_deserialize in E. by simplify_eq.
Qed.
Lemma fadd_cancel (a b c : Fr) : a + b = a + c -> b = c.
Proof.
  intros E. transitivity (a + b - a); [ring|]. rewrite E. ring.
Qed.
Lemma fmul_cancel (a b c : Fr) : a <> 0 -> a * b = a * c -> b = c.
Proof.
  intros Ha E. transitivity (finv a * (a * b)); [by field|]. rewrite E. by field.
Qed.
Lemma fsub_zero (a b : Fr) : a - b = 0 -> a = b.
Proof. intros E. transitivity (a - b + b); [ring|]. rewrite E. ring. Qed.
End field.

(** ** Instances *)
Definition zmod_eq_dec m : EqDecision (Zmod m).
Proof.
  intros x y. destruct (Z.eq_dec (Zmod.unsigned x) (Zmod.unsigned y)) as [E|E].
  - left. by apply Zmod.unsigned_inj.
  - right. congruence.
Defined.

(** The field of integers modulo [m], with the encodings of arkworks. *)
Definition zmod_field (m : Z) : FieldLib := {|
  Fr := Zmod m; Fr_eq_dec := zmod_eq_dec m;
  fzero := Zmod.zero; fone := Zmod.one;
  fadd := Zmod.add; fmul := Zmod.mul; fsub := Zmod.sub; fneg := Zmod.opp;
  finverse x := if zmod_eq_dec m x Zmod.zero then None else Some (Zmod.inv x);
  from_u64 n := Zmod.of_Z m n;
  from_le_bytes_mod_order l := Zmod.of_Z m (from_le_bytes l);
  fr_serialize x := to_le_bytes 32 (Zmod.unsigned x);
  fr_deserialize l :=
    let v := from_le_bytes l in
    if (length l =? 32)%nat && (v <? m) then Some (Zmod.of_Z m v) else None
|}.

(** The scalar field of BN254. *)
Definition bn254_modulus : Z :=
  21888242871839275222246405745257275088548364400416034343698204186575808495617.
Definition bn254 : FieldLib := zmod_field bn254_modulus.

Section zmod.
Context (m : Z) (Hp : Z.prime m) (Hlo : 9 < m) (Hhi : m <= 256 ^ 32).
Context (Hfifth : forall x y : Zmod m,
  Zmod.mul (Zmod.mul (Zmod.mul x x) (Zmod.mul x x)) x =
  Zmod.mul (Zmod.mul (Zmod.mul y y) (Zmod.mul y y)) y -> x = y).

Lemma zmod_inv_spec (x : Zmod m) : @finv (zmod_field m) x = Zmod.inv x.
Proof.
  unfold finv. simpl. destruct (zmod_eq_dec _ _ _) as [E|]; [|done]. simpl. by rewrite E, Zmod.inv_0.
Qed.

Lemma zmod_laws : @FieldLaws (zmod_field m).
Proof.
  pose proof (Zmod.field_theory m Hp) as F. split; cbn -[to_le_bytes from_le_bytes].
  - split; [apply F|apply F| |].
    + intros x y. unfold fdiv. rewrite zmod_inv_spec. apply F.
    + intros x Hx. rewrite zmod_inv_spec. by apply F.
  - intros x Hx. by destruct (zmod_eq_dec _ _ _).
  - apply Zmod.of_Z_0.
  - intros n _ _. by rewrite Zmod.of_Z_add, Zmod.of_Z_1.
  - intros n Hn E. apply (f_equal Zmod.unsigned) in E.
    rewrite Zmod.unsigned_of_Z, Zmod.unsigned_0, Z.mod_small in E by lia. lia.
  - exact Hfifth.
  - intros x. split; [apply to_le_bytes_length|apply to_le_bytes_byte].
  - intros x. pose proof (Zmod.unsigned_pos_bound x ltac:(lia)).
    rewrite to_le_bytes_length, from_to_le_bytes by (change (Z.of_nat 32) with 32; lia).
    simpl. rewrite (proj2 (Z.ltb_lt _ _)) by lia. f_equal. apply Zmod.of_Z_to_Z.
  - intros x. pose proof (Zmod.unsigned_pos_bound x ltac:(lia)).
    rewrite from_to_le_bytes by (change (Z.of_nat 32) with 32; lia). apply Zmod.of_Z_to_Z.
Qed.
End zmod.

Section zmod_power.
Context (m : Z).

(** Injectivity of the fifth power, by enumeration. *)
Definition fifth_powers_differ : bool :=
  let residues := Z.of_nat <$> seq 0 (Z.to_nat m) in
  forallb (fun i => forallb (fun j =>
    (i =? j) || negb (i ^ 5 mod m =? j ^ 5 mod m)) residues) residues.

Lemma fifth_powers_inj : 0 < m -> fifth_powers_differ = true -> forall x y : Zmod m,
  Zmod.mul (Zmod.mul (Zmod.mul x x) (Zmod.mul x x)) x =
  Zmod.mul (Zmod.mul (Zmod.mul y y) (Zmod.mul y y)) y -> x = y.
Proof.
  intros Hm Hd x y E.
  assert (Hp5 : forall u : Zmod m,
    Zmod.mul (Zmod.mul (Zmod.mul u u) (Zmod.mul u u)) u = Zmod.of_Z m (Zmod.unsigned u ^ 5)).
  { intros u. rewrite <- (Zmod.of_Z_to_Z u) at 1 2 3 4 5.
    rewrite <- !Zmod.of_Z_mul. f_equal. ring. }
  assert (Hin : forall u : Zmod m,
    In (Zmod.unsigned u) (Z.of_nat <$> seq 0 (Z.to_nat m))).
  { intros u. pose proof (Zmod.unsigned_pos_bound u Hm).
    apply in_map_iff. exists (Z.to_nat (Zmod.unsigned u)).
    rewrite in_seq. split; lia. }
  rewrite !Hp5 in E. apply Zmod.of_Z_inj in E.
  apply Zmod.unsigned_inj. unfold fifth_powers_differ in Hd.
  rewrite forallb_forall in Hd. specialize (Hd _ (Hin x)).
  rewrite forallb_forall in Hd. specialize (Hd _ (Hin y)).
  rewrite E, Z.eqb_refl, orb_false_r in Hd. by apply Z.eqb_eq.
Qed.
End zmod_power.

(** A field small enough to check every law by computation. *)
Definition f17 : FieldLib := zmod_field 17.
Lemma f17_laws : @FieldLaws f17.
Proof.
  apply zmod_laws; [|lia|lia|by apply fifth_powers_inj; vm_compute].
  split; [lia|]. intros n Hn [k Hk].
  assert (n = 2 \/ n = 3 \/ n = 4 \/ n = 5 \/ n = 6 \/ n = 7 \/ n = 8 \/ n = 9 \/
    n = 10 \/ n = 11 \/ n = 12 \/ n = 13 \/ n = 14 \/ n = 15 \/ n = 16) by lia.
  intuition lia.
Qed.
