(* ===== verification/Poseidon.v ===== *)
(** * Poseidon (crates/nexus-zkp/src/poseidon.rs)

    The permutation over three field elements with the constants the source
    derives, the two hash functions built on it, and the Merkle tree whose
    nodes they hash.  Loops index the state and the tables as the source does,
    so a table of the wrong size panics. *)
From stdpp Require Import base numbers list strings.
From Stdlib Require Import ZArith Lia Field.
From S2P Require Import Prelude Slices Text Types Crypto ZkField.
#[local] Open Scope Z_scope.

(** [slice::chunks(n)] for [n > 0]; fuel: one chunk takes at least one item. *)
Fixpoint chunks_loop {A} (fuel n : nat) (l : list A) : list (list A) :=
  match fuel, l with
  | S fuel, _ :: _ => take n l :: chunks_loop fuel n (drop n l)
  | _, _ => []
  end.
Definition chunks {E A} (n : nat) (l : list A) : outcome E (list (list A)) :=
  if decide (n = 0%nat) then Panic else Ok (chunks_loop (length l) n l).

(** [1 << depth] on [usize]: the shift is masked to six bits. *)
Definition shl_one (depth : nat) : nat := 2 ^ (depth mod 64).

Section poseidon.
Context `{FL : FieldLib} `{CL : CryptoLib}.
#[local] Open Scope field_scope.

Record PoseidonParams := mkParams {
  round_constants : list Fr;
  mds_matrix : list (list Fr);
  full_rounds : nat;
  partial_rounds : nat;
  width : nat
}.

(** [BLAKE3("poseidon_bn254_rc_NNNN") mod r] *)
Definition round_constant (i : nat) : Fr :=
  let domain := (bytes_of "poseidon_bn254_rc_" ++ pad0 4 (decimal (Z.of_nat i)))%list in
  from_le_bytes_mod_order (blake3 domain).

(** [M[i][j] = 1 / (x[i] + y[j])] *)
Definition cauchy_matrix (x y : list Fr) : ZkpResult (list (list Fr)) :=
  mapM (fun xi => mapM (fun yj => unwrap (finverse (xi + yj))) y) x.

(** [PoseidonParams::new_width3] *)
Definition new_width3 : ZkpResult PoseidonParams :=
  let width := 3%nat in
  let full_rounds := 8%nat in
  let partial_rounds := 57%nat in
  let total_constants := ((full_rounds + partial_rounds) * width)%nat in
  let round_constants := round_constant <$> seq 0 total_constants in
  let x := from_u64 <$> [1; 2; 3]%Z in
  let y := from_u64 <$> [4; 5; 6]%Z in
  mds_matrix ← cauchy_matrix x y;
  mret (mkParams round_constants mds_matrix full_rounds partial_rounds width).

Section permutation.
Context (params : PoseidonParams).

Definition sbox (x : Fr) : Fr :=
  let x2 := x * x in
  let x4 := x2 * x2 in
  x4 * x.

Definition mds_mix (state : list Fr) : ZkpResult (list Fr) :=
  let w := width params in
  new_state ← for_each (fun new_state i =>
      for_each (fun new_state j =>
          a ← index_at new_state i;
          row ← index_at (mds_matrix params) i;
          m ← index_at row j;
          s ← index_at state j;
          assign_at new_state i (a + m * s))
        (seq 0 w) new_state)
    (seq 0 w) (replicate w 0);
  (* state.copy_from_slice(&new_state) *)
  if decide (length state = length new_state) then mret new_state else Panic.

(** The loop that adds the round constants, in both kinds of round. *)
Definition add_round_constants (state : list Fr) (rc_idx : nat) : ZkpResult (list Fr * nat) :=
  for_each (fun '(state, rc_idx) i =>
      s ← index_at state i;
      c ← index_at (round_constants params) rc_idx;
      state ← assign_at state i (s + c);
      mret (state, S rc_idx))
    (seq 0 (width params)) (state, rc_idx).

Definition full_round (state : list Fr) (rc_idx : nat) : ZkpResult (list Fr * nat) :=
  '(state, rc_idx) ← add_round_constants state rc_idx;
  state ← for_each (fun state i =>
      s ← index_at state i;
      assign_at state i (sbox s))
    (seq 0 (width params)) state;
  state ← mds_mix state;
  mret (state, rc_idx).

Definition partial_round (state : list Fr) (rc_idx : nat) : ZkpResult (list Fr * nat) :=
  '(state, rc_idx) ← add_round_constants state rc_idx;
  s ← index_at state 0;
  state ← assign_at state 0 (sbox s);
  state ← mds_mix state;
  mret (state, rc_idx).

Definition permute (state : list Fr) : ZkpResult (list Fr) :=
  let half_full := (full_rounds params / 2)%nat in
  r ← for_each (fun '(state, idx) _ => full_round state idx) (seq 0 half_full) (state, 0%nat);
  r ← for_each (fun '(state, idx) _ => partial_round state idx) (seq 0 (partial_rounds params)) r;
  r ← for_each (fun '(state, idx) _ => full_round state idx) (seq 0 half_full) r;
  mret r.1.

(** [Poseidon::hash2] *)
Definition hash2 (a b : Fr) : ZkpResult Fr :=
  state ← permute [from_u64 0; a; b];
  index_at state 0.

(** [Poseidon::hash]: a sponge with one element of capacity.  [width - 1]
    wraps when the width is zero, and the chunk that results is too long. *)
Definition hash (inputs : list Fr) : ZkpResult Fr :=
  if decide (inputs = []) then mret (from_u64 0)
  else
    let rate := (if decide (width params = 0%nat) then length inputs else width params - 1)%nat in
    parts ← chunks rate inputs;
    state ← for_each (fun state chunk =>
        state ← for_each (fun state '(i, input) =>
            s ← index_at state (i + 1)%nat;
            assign_at state (i + 1)%nat (s + input))
          (imap pair chunk) state;
        permute state)
      parts (replicate (width params) (from_u64 0));
    index_at state 0.

(** ** PoseidonMerkle *)

(** [hash_pair] *)
Definition hash_pair (lhs rhs : Fr) : ZkpResult Fr := hash2 lhs rhs.

(** One pass over [current_level.chunks(2)] *)
Fixpoint pair_level (level : list Fr) : ZkpResult (list Fr) :=
  match level with
  | [] => mret []
  | [lhs] => h ← hash_pair lhs (from_u64 0); mret [h]
  | lhs :: rhs :: rest =>
      h ← hash_pair lhs rhs;
      next ← pair_level rest;
      mret (h :: next)
  end.
(** [while current_level.len() > 1]; each pass shortens the level. *)
Fixpoint build_levels (fuel : nat) (level : list Fr) : ZkpResult (list Fr) :=
  match fuel with
  | O => mret level
  | S fuel =>
      if decide (1 < length level)%nat
      then next ← pair_level level; build_levels fuel next
      else mret level
  end.

(** [compute_root] *)
Definition compute_root (depth : nat) (leaves : list Fr) : ZkpResult Fr :=
  if decide (leaves = []) then mret (from_u64 0)
  else
    let target_size := shl_one depth in
    let level := (leaves ++ replicate (target_size - length leaves) (from_u64 0))%list in
    level ← build_levels (length level) level;
    index_at level 0.

(** [verify_proof] *)
Definition verify_proof (depth : nat) (leaf : Fr) (path : list Fr) (path_indices : list bool)
    (root : Fr) : ZkpResult bool :=
  if decide (length path <> depth \/ length path_indices <> depth) then mret false
  else
    current ← for_each (fun current '(sibling, is_right) =>
        if (is_right : bool) then hash_pair sibling current else hash_pair current sibling)
      (zip path path_indices) leaf;
    mret (bool_decide (current = root)).
End permutation.

(** [bytes_to_field], [field_to_bytes] *)
Definition bytes_to_field (bytes : list Z) : Fr := from_le_bytes_mod_order bytes.
Definition field_to_bytes (x : Fr) : list Z := fr_serialize x.
End poseidon.
