(* ===== verification/PoseidonProps.v ===== *)
(** * Poseidon: the permutation permutes, and what the tree binds

    The constants of the source make every round injective: the fifth power
    is, and the Cauchy matrix is invertible.  On top: no index is out of
    range, the two hashes as values, and the Merkle tree's completeness and
    binding, up to a collision of the compression function. *)
From stdpp Require Import base numbers list strings.
From Stdlib Require Import ZArith Lia Field Zmod.
From S2P Require Import Prelude Slices Text Types Crypto ZkField Poseidon.
#[local] Open Scope Z_scope.

Section rounds.
Context `{FL : FieldLib} {laws : @FieldLaws FL} `{CL : CryptoLib}.
#[local] Open Scope field_scope.
Add Field Fr_field_poseidon : fr_field.

(** ** The constants *)
Definition hilbert_row (i : Z) : list Fr := (fun j => finv (from_u64 (i + j))) <$> [4; 5; 6]%Z.

(** The parameters that the source builds. *)
Definition params3 : PoseidonParams :=
  mkParams (round_constant <$> seq 0 195) (hilbert_row <$> [1; 2; 3]%Z) 8 57 3.

Lemma unwrap_inverse {E} (x : Fr) : x <> 0 -> @unwrap E _ (finverse x) = Ok (finv x).
Proof. intros [y Hy]%finverse_nonzero. unfold finv. by rewrite Hy. Qed.

Lemma denominator i j : (1 <= i <= 3)%Z -> (4 <= j <= 6)%Z ->
  @unwrap ZkpError _ (finverse (from_u64 i + from_u64 j)) = Ok (finv (from_u64 (i + j))).
Proof.
  intros Hi Hj. rewrite <- from_u64_add by lia.
  apply unwrap_inverse, from_u64_digit. lia.
Qed.

Lemma new_width3_ok : new_width3 = Ok params3.
Proof.
  unfold new_width3, cauchy_matrix, params3.
  cbn [mapM fmap list_fmap mbind outcome_bind mret outcome_ret hilbert_row].
  rewrite !denominator by lia. reflexivity.
Qed.

(** Small numbers are sums of ones, which [ring] knows. *)
Lemma from_u64_next n m : (0 <= n)%Z -> (m < B64)%Z -> (m = n + 1)%Z ->
  from_u64 m = from_u64 n + 1.
Proof. intros ? ? ->. apply from_u64_succ; lia. Qed.

Lemma small_numbers :
  from_u64 2 = 1 + 1 /\ from_u64 5 = 1 + 1 + 1 + 1 + 1 /\ from_u64 6 = from_u64 5 + 1 /\
  from_u64 7 = from_u64 5 + 1 + 1 /\ from_u64 8 = from_u64 5 + 1 + 1 + 1 /\
  from_u64 9 = from_u64 5 + 1 + 1 + 1 + 1.
Proof.
  rewrite (from_u64_next 8 9), (from_u64_next 7 8), (from_u64_next 6 7), (from_u64_next 5 6),
    (from_u64_next 4 5), (from_u64_next 3 4), (from_u64_next 2 3), (from_u64_next 1 2),
    from_u64_1 by lia.
  repeat split; reflexivity.
Qed.

Definition dot3 (row : list Fr) (a b c : Fr) : Fr :=
  match row with [x; y; z] => 0 + x * a + y * b + z * c | _ => 0 end.
Definition mix3 (a b c : Fr) : list Fr := (fun i => dot3 (hilbert_row i) a b c) <$> [1; 2; 3]%Z.

Lemma mds_mix3 a b c : mds_mix params3 [a; b; c] = Ok (mix3 a b c).
Proof. reflexivity. Qed.

Lemma product_zero (x y : Fr) : x <> 0 -> x * y = 0 -> y = 0.
Proof. intros Hx E. apply (fmul_cancel x); [done|]. rewrite E. ring. Qed.

(** The determinant of the matrix of denominators, cleared, is four. *)
Lemma mix3_kernel a b c :
  mix3 a b c = [0; 0; 0] -> a = 0 /\ b = 0 /\ c = 0.
Proof.
  destruct small_numbers as (E2 & E5 & E6 & E7 & E8 & E9).
  pose proof (from_u64_digit 2 ltac:(lia)) as N2. pose proof (from_u64_digit 5 ltac:(lia)) as N5.
  pose proof (from_u64_digit 6 ltac:(lia)) as N6. pose proof (from_u64_digit 7 ltac:(lia)) as N7.
  pose proof (from_u64_digit 8 ltac:(lia)) as N8. pose proof (from_u64_digit 9 ltac:(lia)) as N9.
  unfold mix3, hilbert_row, dot3. cbn [fmap list_fmap].
  change (from_u64 (1 + 4)) with (from_u64 5). change (from_u64 (1 + 5)) with (from_u64 6).
  change (from_u64 (1 + 6)) with (from_u64 7). change (from_u64 (2 + 4)) with (from_u64 6).
  change (from_u64 (2 + 5)) with (from_u64 7). change (from_u64 (2 + 6)) with (from_u64 8).
  change (from_u64 (3 + 4)) with (from_u64 7). change (from_u64 (3 + 5)) with (from_u64 8).
  change (from_u64 (3 + 6)) with (from_u64 9).
  set (e2 := from_u64 2) in *. set (e5 := from_u64 5) in *. set (e6 := from_u64 6) in *.
  set (e7 := from_u64 7) in *. set (e8 := from_u64 8) in *. set (e9 := from_u64 9) in *.
  clearbody e2 e5 e6 e7 e8 e9.
  intros H. injection H as H1 H2 H3.
  assert (F1 : e6 * e7 * a + e5 * e7 * b + e5 * e6 * c = 0).
  { transitivity (e5 * e6 * e7 * (0 + finv e5 * a + finv e6 * b + finv e7 * c));
      [by field|rewrite H1; ring]. }
  assert (F2 : e7 * e8 * a + e6 * e8 * b + e6 * e7 * c = 0).
  { transitivity (e6 * e7 * e8 * (0 + finv e6 * a + finv e7 * b + finv e8 * c));
      [by field|rewrite H2; ring]. }
  assert (F3 : e8 * e9 * a + e7 * e9 * b + e7 * e8 * c = 0).
  { transitivity (e7 * e8 * e9 * (0 + finv e7 * a + finv e8 * b + finv e9 * c));
      [by field|rewrite H3; ring]. }
  clear H1 H2 H3.
  assert (K : forall x (u v w : Fr),
    e2 * (e2 * x) =
      u * (e6 * e7 * a + e5 * e7 * b + e5 * e6 * c) +
      v * (e7 * e8 * a + e6 * e8 * b + e6 * e7 * c) +
      w * (e8 * e9 * a + e7 * e9 * b + e7 * e8 * c) -> x = 0).
  { intros x u v w E. rewrite F1, F2, F3 in E.
    apply (product_zero e2), (product_zero e2); [done..|]. rewrite E. ring. }
  split; [|split].
  - apply (K a (e6 * e7) (- (e2 * e5 * e7)) (e5 * e6)). subst. ring.
  - apply (K b (- (e2 * e7 * e8)) (e2 * e2 * e6 * e8) (- (e2 * e6 * e7))). subst. ring.
  - apply (K c (e8 * e9) (- (e2 * e7 * e9)) (e7 * e8)). subst. ring.
Qed.

Lemma dot3_sub i a b c a' b' c' :
  dot3 (hilbert_row i) (a - a') (b - b') (c - c') =
  dot3 (hilbert_row i) a b c - dot3 (hilbert_row i) a' b' c'.
Proof. unfold dot3, hilbert_row. cbn [fmap list_fmap]. ring. Qed.

Lemma triple_inj (a b c a' b' c' : Fr) : [a; b; c] = [a'; b'; c'] -> a = a' /\ b = b' /\ c = c'.
Proof. intros E. by injection E. Qed.

Lemma mix3_inj a b c a' b' c' : mix3 a b c = mix3 a' b' c' -> [a; b; c] = [a'; b'; c'].
Proof.
  intros E.
  destruct (mix3_kernel (a - a') (b - b') (c - c')) as (Ha & Hb & Hc).
  - unfold mix3 in *. cbn [fmap list_fmap] in *. rewrite !dot3_sub.
    apply triple_inj in E as (-> & -> & ->). f_equal; [ring|]. f_equal; [ring|]. f_equal. ring.
  - apply fsub_zero in Ha, Hb, Hc. by subst.
Qed.

(** ** One round *)

(** The constant that position [i] of the table holds. *)
Lemma round_constants_lookup i : (i < 195)%nat ->
  round_constants params3 !! i = Some (round_constant i).
Proof.
  intros Hi. cbn [params3 round_constants]. rewrite list_lookup_fmap, lookup_seq_lt by done. done.
Qed.


(** One turn of the loop that adds constants. *)
Lemma add_constant (state : list Fr) k (a : Fr) i (F : list Fr * nat -> ZkpResult (list Fr * nat)) :
  state !! k = Some a -> (i < 195)%nat ->
  ((s ← index_at state k; c ← index_at (round_constants params3) i;
    state ← assign_at state k (s + c); mret (state, S i)) ≫= F) =
  F (<[k := a + round_constant i]> state, S i).
Proof.
  intros Hk Hi. rewrite (index_at_ok _ _ _ Hk). cbn [mbind outcome_bind].
  rewrite (index_at_ok _ _ _ (round_constants_lookup i Hi)). cbn [mbind outcome_bind].
  rewrite assign_at_ok by (by eapply lookup_lt_Some). done.
Qed.

Lemma add_round_constants3 a b c i : (i + 3 <= 195)%nat ->
  add_round_constants params3 [a; b; c] i =
  Ok ([a + round_constant i; b + round_constant (S i); c + round_constant (S (S i))],
      S (S (S i))).
Proof.
  intros Hi. unfold add_round_constants.
  change (seq 0 (width params3)) with [0; 1; 2]%nat. cbn [for_each]. cbv beta iota.
  erewrite add_constant by (done || lia). cbn -[round_constants params3 mbind index_at assign_at round_constant].
  erewrite add_constant by (done || lia). cbn -[round_constants params3 mbind index_at assign_at round_constant].
  erewrite add_constant by (done || lia). done.
Qed.

Lemma sbox_inj (x y : Fr) : sbox x = sbox y -> x = y.
Proof. apply fifth_power_inj. Qed.

Lemma full_round3 a b c i : (i + 3 <= 195)%nat ->
  full_round params3 [a; b; c] i =
  Ok (mix3 (sbox (a + round_constant i)) (sbox (b + round_constant (S i)))
        (sbox (c + round_constant (S (S i)))), S (S (S i))).
Proof. intros Hi. unfold full_round. by rewrite add_round_constants3. Qed.

Lemma partial_round3 a b c i : (i + 3 <= 195)%nat ->
  partial_round params3 [a; b; c] i =
  Ok (mix3 (sbox (a + round_constant i)) (b + round_constant (S i))
        (c + round_constant (S (S i))), S (S (S i))).
Proof. intros Hi. unfold partial_round. by rewrite add_round_constants3. Qed.

(** ** Rounds composed

    A round from table position [i] is an injection of triples that moves the
    position by three. *)
Definition injective_from (f : list Fr -> nat -> ZkpResult (list Fr * nat)) (i j : nat) : Prop :=
  exists g : list Fr -> list Fr,
    (forall s, length s = 3%nat -> f s i = Ok (g s, j) /\ length (g s) = 3%nat) /\
    (forall s s', length s = 3%nat -> length s' = 3%nat -> g s = g s' -> s = s').

Lemma triple (s : list Fr) : length s = 3%nat -> exists a b c, s = [a; b; c].
Proof. destruct s as [|a [|b [|c []]]]; try done. eauto. Qed.

(** A round is injective when it mixes an injective image of the triple. *)
Lemma mixed_injective f i (p q r : Fr -> Fr) :
  (forall a b c, f [a; b; c] i = Ok (mix3 (p a) (q b) (r c), (i + 3)%nat)) ->
  (forall x y, p x = p y -> x = y) -> (forall x y, q x = q y -> x = y) ->
  (forall x y, r x = r y -> x = y) -> injective_from f i (i + 3).
Proof.
  intros Hf Hp Hq Hr.
  exists (fun s => match s with [a; b; c] => mix3 (p a) (q b) (r c) | _ => s end). split.
  - intros s (a & b & c & ->)%triple. by rewrite Hf.
  - intros s s' (a & b & c & ->)%triple (a' & b' & c' & ->)%triple E.
    apply mix3_inj, triple_inj in E as (Ea & Eb & Ec).
    by rewrite (Hp _ _ Ea), (Hq _ _ Eb), (Hr _ _ Ec).
Qed.

Lemma add_const_inj (k x y : Fr) : x + k = y + k -> x = y.
Proof. intros E. apply (fadd_cancel k). transitivity (x + k); [ring|]. rewrite E. ring. Qed.

Lemma full_round_injective i : (i + 3 <= 195)%nat ->
  injective_from (full_round params3) i (i + 3).
Proof.
  intros Hi. eapply mixed_injective.
  { intros a b c. rewrite full_round3 by done. do 2 f_equal. lia. }
  all: intros x y E%sbox_inj; by eapply add_const_inj.
Qed.
Lemma partial_round_injective i : (i + 3 <= 195)%nat ->
  injective_from (partial_round params3) i (i + 3).
Proof.
  intros Hi. eapply (mixed_injective _ _ _ (fun b => b + _) (fun c => c + _)).
  { intros a b c. rewrite partial_round3 by done. do 2 f_equal. lia. }
  { intros x y E%sbox_inj. by eapply add_const_inj. }
  all: intros x y E; by eapply add_const_inj.
Qed.

Lemma injective_comp f h i j k : injective_from f i j -> injective_from h j k ->
  injective_from (fun s i => '(s, i) ← f s i; h s i) i k.
Proof.
  intros (g & Hg & Ig) (g' & Hg' & Ig'). exists (g' ∘ g). split.
  - intros s Hs. destruct (Hg s Hs) as [-> Hl]. by apply Hg'.
  - intros s s' Hs Hs' E. apply Ig; [done..|]. apply Ig'; [by apply Hg..|done].
Qed.

(** The loops repeat one kind of round. *)
Lemma loop_injective f n i xs : length xs = n ->
  (forall i, (i + 3 <= 195)%nat -> injective_from f i (i + 3)) -> (i + 3 * n <= 195)%nat ->
  injective_from (fun s i => for_each (fun '(s, i) (_ : nat) => f s i) xs (s, i)) i (i + 3 * n).
Proof.
  intros Hl Hf. revert i xs Hl. induction n as [|n IH]; intros i [|x xs] Hl Hi; try done.
  - exists (fun s => s). cbn [for_each]. split; [|done]. intros s Hs. split; [|done].
    do 2 f_equal. lia.
  - cbn [for_each]. replace (i + 3 * S n)%nat with (i + 3 + 3 * n)%nat by lia.
    destruct (injective_comp f _ i (i + 3) _ (Hf i ltac:(lia))
      (IH (i + 3)%nat xs ltac:(simpl in Hl; lia) ltac:(lia))) as (g & Hg & Ig).
    exists g. split; [|done]. intros s Hs. destruct (Hg s Hs) as [E Hl']. split; [|done].
    rewrite <- E. by destruct (f s i) as [[]| | |].
Qed.

(** The permutation as a function. *)
Lemma permute_function : exists g : list Fr -> list Fr,
  (forall s, length s = 3%nat -> permute params3 s = Ok (g s) /\ length (g s) = 3%nat) /\
  (forall s s', length s = 3%nat -> length s' = 3%nat -> g s = g s' -> s = s').
Proof.
  pose proof (loop_injective (full_round params3) 4 0 (seq 0 4) eq_refl full_round_injective
    ltac:(lia)) as H1.
  pose proof (loop_injective (partial_round params3) 57 12 (seq 0 57) eq_refl
    partial_round_injective ltac:(lia)) as H2.
  pose proof (loop_injective (full_round params3) 4 183 (seq 0 4) eq_refl full_round_injective
    ltac:(lia)) as H3.
  destruct (injective_comp _ _ _ _ _ H1 (injective_comp _ _ _ _ _ H2 H3)) as (g & Hg & Ig).
  exists g. split; [|done]. intros s Hs. destruct (Hg s Hs) as [E Hl]. split; [|done].
  unfold permute. change (full_rounds params3 / 2)%nat with 4%nat.
  change (partial_rounds params3) with 57%nat.
  destruct (for_each _ (seq 0 4) (s, 0%nat)) as [[s1 i1]| | |]; try done.
  cbn [mbind outcome_bind] in *.
  destruct (for_each _ (seq 0 57) (s1, i1)) as [[s2 i2]| | |]; try done.
  cbn [mbind outcome_bind] in *.
  by rewrite E.
Qed.

(** ** The hashes *)

(** [hash2] is a compression function: it never fails. *)
Definition compress (a b : Fr) : Fr :=
  match hash2 params3 a b with Ok x => x | _ => 0 end.

Lemma hash2_ok a b : hash2 params3 a b = Ok (compress a b).
Proof.
  unfold compress. destruct permute_function as (g & Hg & _).
  unfold hash2. destruct (Hg [from_u64 0; a; b] eq_refl) as [-> Hl].
  cbn [mbind outcome_bind]. destruct (g _) as [|x l]; [done|]. done.
Qed.

Definition absorb (state chunk : list Fr) : ZkpResult (list Fr) :=
  state ← for_each (fun state '(i, input) =>
      s ← index_at state (i + 1)%nat;
      assign_at state (i + 1)%nat (s + input))
    (imap pair chunk) state;
  permute params3 state.

Lemma absorb_one a b c x : absorb [a; b; c] [x] = permute params3 [a; b + x; c].
Proof. reflexivity. Qed.
Lemma absorb_two a b c x y : absorb [a; b; c] [x; y] = permute params3 [a; b + x; c + y].
Proof. reflexivity. Qed.
Lemma absorb_ok s chunk : length s = 3%nat -> (0 < length chunk <= 2)%nat ->
  exists s', absorb s chunk = Ok s' /\ length s' = 3%nat.
Proof.
  intros (a & b & c & ->)%triple Hc. destruct permute_function as (g & Hg & _).
  destruct chunk as [|x [|y []]]; try (simpl in Hc; lia);
    rewrite ?absorb_one, ?absorb_two; eexists; by apply Hg.
Qed.
(** An absent element of the last chunk is a zero. *)
Lemma absorb_zero s x : length s = 3%nat -> absorb s [x; 0] = absorb s [x].
Proof.
  intros (a & b & c & ->)%triple. rewrite absorb_one, absorb_two.
  by replace (c + 0) with c by ring.
Qed.
Lemma absorb_chunks_ok fuel xs s : length s = 3%nat ->
  exists s', for_each absorb (chunks_loop fuel 2 xs) s = Ok s' /\ length s' = 3%nat.
Proof.
  revert xs s. induction fuel as [|fuel IH]; intros [|x xs] s Hs; cbn [chunks_loop for_each]; eauto.
  destruct (absorb_ok s (take 2 (x :: xs)) Hs) as (s' & -> & Hs').
  { rewrite length_take. cbn [length]. lia. }
  by apply IH.
Qed.

Lemma sponge_zero_loop n xs fuel fuel' s : length xs = (2 * n + 1)%nat ->
  (length xs < fuel)%nat -> (length xs <= fuel')%nat -> length s = 3%nat ->
  for_each absorb (chunks_loop fuel 2 (xs ++ [0])) s = for_each absorb (chunks_loop fuel' 2 xs) s.
Proof.
  revert xs fuel fuel' s. induction n as [|n IH]; intros xs fuel fuel' s Hl Hf Hf' Hs.
  - destruct xs as [|x [|]]; try (simpl in Hl; lia). simpl in Hf, Hf'.
    destruct fuel as [|[|fuel]], fuel' as [|fuel']; try lia.
    cbn [app chunks_loop firstn skipn for_each]. rewrite absorb_zero by done.
    by destruct fuel'.
  - destruct xs as [|x [|y xs]]; try (simpl in Hl; lia). simpl in Hl, Hf, Hf'.
    destruct fuel as [|fuel], fuel' as [|fuel']; try lia.
    cbn [app chunks_loop firstn skipn for_each]. rewrite !firstn_O, !skipn_O.
    destruct (absorb_ok s [x; y] Hs ltac:(simpl; lia)) as (s' & -> & Hs'). cbn [mbind outcome_bind].
    apply IH; [lia..|done].
Qed.

Lemma hash_ok xs : xs <> [] ->
  hash params3 xs =
    (s ← for_each absorb (chunks_loop (length xs) 2 xs) [from_u64 0; from_u64 0; from_u64 0];
     index_at s 0).
Proof. intros Hx. unfold hash. by rewrite decide_False by done. Qed.

End rounds.

(** ** The tree

    For any parameters whose compression function never fails. *)
Section tree.
Context `{FL : FieldLib}.
#[local] Open Scope field_scope.
Context (params : PoseidonParams) (compress : Fr -> Fr -> Fr)
  (hash2_ok : forall a b, hash2 params a b = Ok (compress a b)).

Lemma pair_level_ok n level : length level = (2 * n)%nat ->
  exists next, pair_level params level = Ok next /\ length next = n /\
    forall k a b, level !! (2 * k)%nat = Some a -> level !! (2 * k + 1)%nat = Some b ->
      next !! k = Some (compress a b).
Proof.
  revert level. induction n as [|n IH]; intros level Hl.
  - destruct level; [|done]. by exists [].
  - destruct level as [|x [|y level]]; try (simpl in Hl; lia).
    destruct (IH level ltac:(simpl in Hl; lia)) as (next & E & Hn & Hk).
    exists (compress x y :: next). cbn [pair_level]. unfold hash_pair. rewrite hash2_ok, E.
    split; [done|]. split; [simpl; lia|]. intros [|k] a b Ha Hb; [by simplify_eq/=|].
    simpl. apply Hk.
    + by replace (2 * S k)%nat with (S (S (2 * k)))%nat in Ha by lia.
    + by replace (2 * S k + 1)%nat with (S (S (2 * k + 1)))%nat in Hb by lia.
Qed.

(** The fold of [verify_proof], on values. *)
Definition climb (x : Fr) (path : list (Fr * bool)) : Fr :=
  foldl (fun current '(sibling, is_right) =>
    if (is_right : bool) then compress sibling current else compress current sibling) x path.

Lemma climb_ok x path :
  for_each (fun current '(sibling, is_right) =>
    if (is_right : bool) then hash_pair params sibling current
    else hash_pair params current sibling) path x = Ok (climb x path).
Proof.
  revert x. induction path as [|[sib b] path IH]; intros x; [done|].
  cbn [for_each climb foldl]. unfold hash_pair in *.
  destruct b; rewrite hash2_ok; apply IH.
Qed.

Lemma poseidon_verify_proof_spec depth x path bits root :
  verify_proof params depth x path bits root = Ok true <->
  length path = depth /\ length bits = depth /\ climb x (zip path bits) = root.
Proof.
  unfold verify_proof. case_decide as Hd.
  - split; [done|]. intros (? & ? & _). by destruct Hd.
  - rewrite climb_ok. cbn [mbind outcome_bind].
    assert (length path = depth /\ length bits = depth) as [Hp Hb] by lia. split.
    + intros [= E%bool_decide_eq_true]. done.
    + intros (_ & _ & E). by rewrite bool_decide_true.
Qed.

(** The position of a leaf, lowest level first. *)
Definition path_bits (depth i : nat) : list bool := Nat.testbit i <$> seq 0 depth.
Lemma path_bits_succ depth i :
  path_bits (S depth) i = Nat.odd i :: path_bits depth (i / 2).
Proof.
  unfold path_bits. cbn [seq fmap list_fmap]. f_equal.
  rewrite <- fmap_S_seq, <- list_fmap_compose. apply list_fmap_ext. intros _ k _.
  cbn [compose Nat.testbit]. by rewrite Nat.div2_div.
Qed.
Lemma path_bits_length depth i : length (path_bits depth i) = depth.
Proof. unfold path_bits. by rewrite length_fmap, length_seq. Qed.

(** A full level folds to one root, and every leaf has its path. *)
Lemma build_levels_ok depth level fuel : length level = (2 ^ depth)%nat -> (depth <= fuel)%nat ->
  exists root, build_levels params fuel level = Ok [root] /\
    forall i x, level !! i = Some x ->
      exists path, length path = depth /\ climb x (zip path (path_bits depth i)) = root.
Proof.
  revert level fuel. induction depth as [|depth IH]; intros level fuel Hl Hf.
  - destruct level as [|x []]; try done. exists x. split; [by destruct fuel|].
    intros [|i] y; [|done]. intros [= ->]. by exists [].
  - destruct fuel as [|fuel]; [lia|]. rewrite Nat.pow_succ_r' in Hl.
    pose proof (Nat.pow_nonzero 2 depth).
    destruct (pair_level_ok (2 ^ depth) level Hl) as (next & E & Hn & Hk).
    destruct (IH next fuel Hn ltac:(lia)) as (root & Er & Hr).
    exists root. cbn [build_levels]. rewrite decide_True by lia. rewrite E. split; [done|].
    intros i x Hi. pose proof (Nat.div_mod_eq i 2) as Hdm.
    pose proof (lookup_lt_Some _ _ _ Hi) as Hlt.
    assert (exists sib, next !! (i / 2)%nat =
      Some (if Nat.odd i then compress sib x else compress x sib)) as (sib & Hs).
    { destruct (Nat.odd i) eqn:Hodd.
      - apply Nat.odd_spec in Hodd as [k ->].
        destruct (lookup_lt_is_Some_2 level (2 * k)) as [sib Hsib]; [lia|]. exists sib.
        replace ((2 * k + 1) / 2)%nat with k by (apply (Nat.div_unique _ 2 _ 1); lia). by apply Hk.
      - assert (Nat.Even i) as [k ->].
        { apply Nat.even_spec. rewrite <- Nat.negb_odd, Hodd. done. }
        destruct (lookup_lt_is_Some_2 level (2 * k + 1)) as [sib Hsib]; [lia|]. exists sib.
        replace (2 * k / 2)%nat with k by (apply (Nat.div_unique _ 2 _ 0); lia). by apply Hk. }
    destruct (Hr _ _ Hs) as (path & Hp & Hc). exists (sib :: path). split; [simpl; lia|].
    rewrite path_bits_succ. cbn [zip zip_with climb foldl]. rewrite <- Hc. by destruct (Nat.odd i).
Qed.

(** Two pairs of field elements that [hash2] does not tell apart. *)
Definition hash2_collision : Prop :=
  exists a b a' b', (a, b) <> (a', b') /\ hash2 params a b = hash2 params a' b'.
Lemma compress_binds a b a' b' : compress a b = compress a' b' ->
  hash2_collision \/ (a = a' /\ b = b').
Proof.
  intros E. destruct (decide (a = a')) as [->|Ha]; [destruct (decide (b = b')) as [->|Hb]|].
  - by right.
  - left. exists a', b, a', b'. split; [congruence|]. by rewrite !hash2_ok, E.
  - left. exists a, b, a', b'. split; [congruence|]. by rewrite !hash2_ok, E.
Qed.
(** Along the same positions, a root binds the leaf and the siblings. *)
Lemma climb_binds bits x y (p q : list Fr) : length p = length bits -> length q = length bits ->
  climb x (zip p bits) = climb y (zip q bits) -> hash2_collision \/ (x = y /\ p = q).
Proof.
  revert x y p q. induction bits as [|b bits IH]; intros x y [|s p] [|t q] Hp Hq E;
    try (simpl in *; lia).
  - right. split; [exact E|reflexivity].
  - cbn [zip zip_with climb foldl] in E.
    apply IH in E as [?|[E ->]]; [by left| |simpl in *; lia..].
    destruct b; apply compress_binds in E as [?|[-> ->]]; auto.
Qed.


Lemma merkle_facts (laws : @FieldLaws FL) depth leaves :
  (depth < 64)%nat -> leaves <> [] -> (length leaves <= 2 ^ depth)%nat ->
  exists root, compute_root params depth leaves = Ok root /\
    forall i x, (leaves ++ replicate (2 ^ depth - length leaves) 0)%list !! i = Some x ->
      exists path, verify_proof params depth x path (path_bits depth i) root = Ok true /\
        forall y path', verify_proof params depth y path' (path_bits depth i) root = Ok true ->
          hash2_collision \/ (y = x /\ path' = path).
Proof.
  intros Hd Hne Hlen. unfold compute_root, shl_one. rewrite decide_False by done.
  rewrite (Nat.mod_small depth) by done. rewrite from_u64_0.
  set (level := (leaves ++ replicate (2 ^ depth - length leaves) 0)%list).
  assert (Hl : length level = (2 ^ depth)%nat).
  { unfold level. rewrite length_app, length_replicate. lia. }
  destruct (build_levels_ok depth level (length level) Hl) as (root & E & Hr).
  { rewrite Hl. apply Nat.lt_le_incl, Nat.pow_gt_lin_r. lia. }
  exists root. rewrite E. split; [done|]. intros i x Hi.
  destruct (Hr i x Hi) as (path & Hp & Hc). exists path.
  split; [by rewrite poseidon_verify_proof_spec, path_bits_length|].
  intros y q (Hq & _ & Hy)%poseidon_verify_proof_spec.
  destruct (climb_binds (path_bits depth i) y x q path) as [?|?]; auto;
    rewrite ?path_bits_length; congruence.
Qed.
End tree.

(** ** Theorems *)
Section theorems.
Context `{FL : FieldLib} {laws : @FieldLaws FL} `{CL : CryptoLib}.
#[local] Open Scope field_scope.
Add Field Fr_field_theorems : fr_field.

Lemma new_width3_params p : new_width3 = Ok p -> p = params3.
Proof. rewrite new_width3_ok. intros E. by injection E. Qed.

(** C22: the Poseidon permutation of the source permutes.  Its parameters are
    built (no Cauchy denominator vanishes), no round reads past the table of
    constants, and two distinct states are never mapped to one. *)
Theorem poseidon_permutes : exists p, new_width3 = Ok p /\
  (forall s, length s = 3%nat -> exists t, permute p s = Ok t /\ length t = 3%nat) /\
  (forall s s' t, length s = 3%nat -> length s' = 3%nat ->
    permute p s = Ok t -> permute p s' = Ok t -> s = s').
Proof.
  exists params3. split; [apply new_width3_ok|]. destruct permute_function as (g & Hg & Ig). split.
  - intros s Hs. exists (g s). by apply Hg.
  - intros s s' t Hs Hs' E E'. destruct (Hg s Hs) as [Es _], (Hg s' Hs') as [Es' _].
    apply Ig; [done..|]. congruence.
Qed.

(** The sponge does not pad: it returns a value on every list, but a list
    of odd length and the same list with a zero appended always have the same
    hash, and the hash of the empty list is the zero element. *)
Theorem sponge_ignores_trailing_zero p xs : new_width3 = Ok p -> Nat.odd (length xs) = true ->
  (exists h, hash p xs = Ok h /\ hash p (xs ++ [0]) = Ok h) /\ hash p [] = Ok 0.
Proof.
  intros ->%new_width3_params [n Hn]%Nat.odd_spec. split.
  - assert (Hx : xs <> []) by (intros ->; simpl in Hn; lia).
    rewrite !hash_ok by (try done; by destruct xs).
    rewrite (sponge_zero_loop n xs _ (length xs)) by (rewrite ?length_app; simpl; try lia; done).
    destruct (absorb_chunks_ok (length xs) xs [from_u64 0; from_u64 0; from_u64 0] eq_refl)
      as (s & -> & Hs).
    destruct s as [|h s]; [done|]. exists h. done.
  - unfold hash. rewrite decide_True by done. by rewrite from_u64_0.
Qed.

(** The Poseidon Merkle tree is complete and binding.  For at most
    [2^depth] leaves the root is computed, every padded leaf has a path that
    [verify_proof] accepts at the bits of its index, and any other leaf or path
    accepted at those positions exhibits two pairs that [hash2] identifies. *)
Theorem poseidon_merkle_complete_and_binding p depth leaves :
  new_width3 = Ok p -> (depth < 64)%nat -> leaves <> [] -> (length leaves <= 2 ^ depth)%nat ->
  exists root, compute_root p depth leaves = Ok root /\
    forall i x, (leaves ++ replicate (2 ^ depth - length leaves) 0)%list !! i = Some x ->
      exists path, verify_proof p depth x path (path_bits depth i) root = Ok true /\
        forall y path', verify_proof p depth y path' (path_bits depth i) root = Ok true ->
          hash2_collision p \/ (y = x /\ path' = path).
Proof.
  intros ->%new_width3_params. by apply (merkle_facts params3 compress hash2_ok laws).
Qed.
End theorems.

(** ** Evaluations *)
Module Sample.
#[local] Existing Instance f17.
#[local] Existing Instance f17_laws.
#[local] Existing Instance toy_crypto.
#[local] Open Scope field_scope.
Definition fr (n : Z) : @Fr f17 := from_u64 n.

Lemma poseidon_permutes_witness : exists p, @new_width3 f17 toy_crypto = Ok p /\
  permute p [fr 0; fr 1; fr 2] <> permute p [fr 0; fr 2; fr 1].
Proof.
  destruct (poseidon_permutes (FL := f17) (CL := toy_crypto)) as (p & E & Hok & Hinj).
  exists p. split; [done|]. intros Eq.
  destruct (Hok [fr 0; fr 1; fr 2] eq_refl) as (t & Et & _).
  assert (Hne : [fr 0; fr 1; fr 2] = [fr 0; fr 2; fr 1]).
  { apply (Hinj _ _ t); try done. by rewrite <- Eq. }
  by apply (f_equal (fmap Zmod.unsigned)) in Hne.
Defined.

Lemma sponge_ignores_trailing_zero_witness : exists p, @new_width3 f17 toy_crypto = Ok p /\
  exists h, hash p [fr 5] = Ok h /\ hash p [fr 5; 0] = Ok h.
Proof.
  exists params3. split; [apply new_width3_ok|].
  apply (sponge_ignores_trailing_zero params3 [fr 5]); [apply new_width3_ok|reflexivity].
Defined.

Lemma poseidon_merkle_complete_and_binding_witness :
  exists p root path, @new_width3 f17 toy_crypto = Ok p /\
    compute_root p 2 [fr 1; fr 2; fr 3] = Ok root /\
    verify_proof p 2 (fr 3) path [false; true] root = Ok true.
Proof.
  destruct (poseidon_merkle_complete_and_binding params3 2 [fr 1; fr 2; fr 3]
    (new_width3_ok (FL := f17))) as (root & E & Hr); [lia|done|simpl; lia|].
  destruct (Hr 2%nat (fr 3) eq_refl) as (path & Hp & _).
  exists params3, root, path. split; [apply new_width3_ok|]. split; [exact E|exact Hp].
Defined.


(** A tree with more leaves than [2^depth] has the root of a deeper tree. *)
Example overfull_tree_is_deeper :
  match new_width3 with
  | Ok p =>
      match compute_root p 1 [fr 1; fr 2; fr 3], compute_root p 2 [fr 1; fr 2; fr 3] with
      | Ok r1, Ok r2 => Zmod.unsigned r1 =? Zmod.unsigned r2
      | _, _ => false
      end
  | _ => false
  end = true.
Proof. vm_compute. reflexivity. Qed.
End Sample.
