(* ===== verification/Commitment.v ===== *)
(** * Commitments (crates/nexus-zkp/src/commitment.rs)

    Pedersen commitments over the curve BN254, a third-party group whose
    operations are [CurveLib]; notes and their nullifiers; and the accumulator,
    a Merkle tree of commitments kept as a vector of nodes with the root at
    position 1 and the children of node [k] at [2k] and [2k + 1]. *)
From stdpp Require Import base numbers list strings.
From Stdlib Require Import ZArith Lia.
From S2P Require Import Prelude Slices Types Crypto ZkField Poseidon.
#[local] Open Scope Z_scope.

(** The group of the curve in affine form, and random elements of the field
    drawn from a generator. *)
Class CurveLib `{FieldLib} := {
  G1 : Type;
  G1_eq_dec : EqDecision G1;
  g_add : G1 -> G1 -> G1;
  (** [point * scalar] *)
  g_mul : G1 -> Fr -> G1;
  (** [serialize_compressed] of a point, 32 bytes *)
  g_serialize : G1 -> list Z;
  (** the first two points drawn from [ark_std::test_rng()] *)
  test_rng_points : G1 * G1;
  (** the state of a generator, and [Fr::rand] *)
  Rng : Type;
  fr_rand : Rng -> Fr * Rng
}.
#[export] Existing Instance G1_eq_dec.

Section pedersen.
Context `{FL : FieldLib} {CV : @CurveLib FL} `{CL : CryptoLib}.

Record PedersenGenerators := mkGenerators { gen_g : G1; gen_h : G1 }.

Definition generators_new : PedersenGenerators :=
  let '(g, h) := test_rng_points in mkGenerators g h.
Definition commit (gens : PedersenGenerators) (value blinding : Fr) : G1 :=
  let vg := g_mul (gen_g gens) value in
  let rh := g_mul (gen_h gens) blinding in
  g_add vg rh.
Definition generators_verify (gens : PedersenGenerators) (commitment : G1)
    (value blinding : Fr) : bool :=
  let expected := commit gens value blinding in
  bool_decide (commitment = expected).

Record Commitment := mkCommitment { point : G1 }.
Definition commitment_new (gens : PedersenGenerators) (value : Z) (blinding : Fr) : Commitment :=
  let value_fr := from_u64 value in
  mkCommitment (commit gens value_fr blinding).
Definition commitment_new_random (gens : PedersenGenerators) (value : Z) (rng : Rng)
    : Commitment * Fr * Rng :=
  let '(blinding, rng) := fr_rand rng in
  (commitment_new gens value blinding, blinding, rng).
Definition commitment_verify (c : Commitment) (gens : PedersenGenerators) (value : Z)
    (blinding : Fr) : bool :=
  let value_fr := from_u64 value in
  generators_verify gens (point c) value_fr blinding.
Definition commitment_add (c other : Commitment) : Commitment :=
  mkCommitment (g_add (point c) (point other)).
Definition commitment_to_bytes (c : Commitment) : list Z := g_serialize (point c).

(** ** Notes *)
Record Note := mkNote {
  note_value : Z;
  note_commitment : Commitment;
  note_blinding : Fr;
  note_owner : list Z;
  note_nullifier_secret : Fr
}.
Definition note_new (gens : PedersenGenerators) (value : Z) (owner : list Z) (rng : Rng)
    : Note * Rng :=
  let '(blinding, rng) := fr_rand rng in
  let commitment := commitment_new gens value blinding in
  let '(nullifier_secret, rng) := fr_rand rng in
  (mkNote value commitment blinding owner nullifier_secret, rng).
(** [nullifier = hash(commitment || secret)] *)
Definition note_nullifier (n : Note) : list Z :=
  blake3 (commitment_to_bytes (note_commitment n) ++ fr_serialize (note_nullifier_secret n)).
Definition nullifier_secret_bytes (n : Note) : list Z := fr_serialize (note_nullifier_secret n).
Definition blinding_bytes (n : Note) : list Z := fr_serialize (note_blinding n).
End pedersen.

(** ** The accumulator *)
Definition zero32 : list Z := replicate 32 0.

Record CommitmentAccumulator := mkAcc {
  commitments : list (list Z);
  tree : list (list Z);
  depth : nat
}.
(** [MerkleProof]; [true] in [path_indices]: the leaf is on the right *)
Record MerkleProof := mkProof {
  leaf : list Z;
  path : list (list Z);
  path_indices : list bool;
  proof_root : list Z
}.

(** [CommitmentAccumulator::new]: a vector of more than [isize::MAX] bytes is
    a panic of the allocator; the larger of the two has [2 * capacity] nodes of
    32 bytes. *)
Definition acc_new (depth : nat) : ZkpResult CommitmentAccumulator :=
  let capacity := shl_one depth in
  if 2 * Z.of_nat capacity * 32 <? 2 ^ 63
  then mret (mkAcc [] (replicate (2 * capacity) zero32) depth)
  else Panic.

(** [while tree.len() <= i { tree.push(0) }] *)
Definition grow (tree : list (list Z)) (i : nat) : list (list Z) :=
  (tree ++ replicate (S i - length tree) zero32)%list.

Section accumulator.
Context `{CL : CryptoLib}.

(** [if i < tree.len() { tree[i] } else { 0 }] *)
Definition node_or_zero (tree : list (list Z)) (i : nat) : list Z :=
  default zero32 (tree !! i).

(** The loop of [update_tree]; [current] halves until it is 1. *)
Fixpoint update_path (fuel current : nat) (tree : list (list Z)) : ZkpResult (list (list Z)) :=
  match fuel with
  | O => mret tree
  | S fuel =>
      if decide (1 < current)%nat then
        let parent := (current / 2)%nat in
        let lhs := (current - current mod 2)%nat in
        let rhs := (lhs + 1)%nat in
        let left_bytes := node_or_zero tree lhs in
        let right_bytes := node_or_zero tree rhs in
        let tree := grow tree parent in
        tree ← assign_at tree parent (blake3 (left_bytes ++ right_bytes));
        update_path fuel parent tree
      else mret tree
  end.

Definition update_tree (acc : CommitmentAccumulator) (index : nat)
    : ZkpResult CommitmentAccumulator :=
  let leaf_offset := shl_one (depth acc) in
  let tree_index := (leaf_offset + index)%nat in
  let tree := grow (tree acc) tree_index in
  c ← index_at (commitments acc) index;
  tree ← assign_at tree tree_index c;
  tree ← update_path tree_index tree_index tree;
  mret (mkAcc (commitments acc) tree (depth acc)).

(** [add], of the bytes of a commitment *)
Definition acc_add (acc : CommitmentAccumulator) (bytes : list Z)
    : ZkpResult (nat * CommitmentAccumulator) :=
  let index := length (commitments acc) in
  acc ← update_tree (mkAcc (commitments acc ++ [bytes]) (tree acc) (depth acc)) index;
  mret (index, acc).

Definition acc_root (acc : CommitmentAccumulator) : ZkpResult (list Z) :=
  if decide (tree acc = []) then mret zero32 else index_at (tree acc) 1.

(** The loop of [proof] *)
Fixpoint proof_path (n current : nat) (tree : list (list Z)) : list (list Z) * list bool :=
  match n with
  | O => ([], [])
  | S n =>
      let sibling := if decide (current mod 2 = 0)%nat then (current + 1)%nat else (current - 1)%nat in
      let '(path, path_indices) := proof_path n (current / 2) tree in
      (node_or_zero tree sibling :: path,
       bool_decide (current mod 2 = 1)%nat :: path_indices)
  end.

Definition acc_proof (acc : CommitmentAccumulator) (index : nat) : ZkpResult (option MerkleProof) :=
  if decide (length (commitments acc) <= index)%nat then mret None
  else
    let leaf_offset := shl_one (depth acc) in
    let '(path, path_indices) := proof_path (depth acc) (leaf_offset + index) (tree acc) in
    leaf ← index_at (commitments acc) index;
    root ← acc_root acc;
    mret (Some (mkProof leaf path path_indices root)).

(** [MerkleProof::verify] *)
Definition proof_verify (pf : MerkleProof) : bool :=
  let current := foldl (fun current '(sibling, is_right) =>
      if (is_right : bool) then blake3 (sibling ++ current) else blake3 (current ++ sibling))
    (leaf pf) (zip (path pf) (path_indices pf)) in
  bool_decide (current = proof_root pf).

(** [CommitmentAccumulator::verify] *)
Definition acc_verify (acc : CommitmentAccumulator) (pf : MerkleProof) : bool := proof_verify pf.
Definition acc_len (acc : CommitmentAccumulator) : nat := length (commitments acc).
Definition acc_is_empty (acc : CommitmentAccumulator) : bool := bool_decide (commitments acc = []).
End accumulator.
