(* ===== verification/CommitmentProps.v ===== *)
(** * Commitments: opening, hiding and binding; the accumulator's tree

    Pedersen commitments add up, hide the value and bind it up to a discrete
    logarithm.  The accumulator's vector is at every moment the Merkle tree of
    its commitments with empty subtrees left zero, so every proof it gives out
    is accepted; what its [verify] accepts besides. *)
From stdpp Require Import base numbers list strings.
From Stdlib Require Import ZArith Lia Field Zmod.
From S2P Require Import Prelude Slices Types Crypto ZkField Poseidon PoseidonProps Commitment.
#[local] Open Scope Z_scope.

(** What a group of prime order over its scalar field promises. *)
Class CurveLaws `{FL : FieldLib} {CV : @CurveLib FL} : Prop := {
  g_add_comm : forall a b, g_add a b = g_add b a;
  g_add_assoc : forall a b c, g_add a (g_add b c) = g_add (g_add a b) c;
  g_add_cancel : forall a b c, g_add a c = g_add b c -> a = b;
  g_mul_add : forall p a b, g_mul p (fadd a b) = g_add (g_mul p a) (g_mul p b);
  g_mul_mul : forall p a b, g_mul p (fmul a b) = g_mul (g_mul p a) b;
  g_mul_one : forall p, g_mul p fone = p
}.

Section pedersen.
Context `{FL : FieldLib} {laws : @FieldLaws FL} {CV : @CurveLib FL} {claws : @CurveLaws FL CV}.
#[local] Open Scope field_scope.
Add Field Fr_field_commitment : fr_field.

Lemma g_add_swap a b c d : g_add (g_add a b) (g_add c d) = g_add (g_add a c) (g_add b d).
Proof.
  rewrite <- !g_add_assoc. f_equal. rewrite !g_add_assoc. f_equal. apply g_add_comm.
Qed.
Lemma commit_add gens v b v' b' :
  g_add (commit gens v b) (commit gens v' b') = commit gens (v + v') (b + b').
Proof. unfold commit. by rewrite !g_mul_add, g_add_swap. Qed.

(** A Pedersen commitment opens to the value it was made of, and the sum of
    two commitments opens to the sum of the values, under the sum of the
    blinding factors, whenever that sum is a [u64]. *)
Theorem pedersen_homomorphic gens v v' b b' : 0 <= v -> 0 <= v' -> v + v' < B64 ->
  let c := commitment_new gens v b in
  let c' := commitment_new gens v' b' in
  commitment_verify c gens v b = true /\
  commitment_verify (commitment_add c c') gens (v +! v') (b + b') = true.
Proof.
  intros Hv Hv' Hs. unfold commitment_verify, generators_verify. simpl. split.
  - by apply bool_decide_eq_true.
  - apply bool_decide_eq_true. rewrite add64_small by lia.
    by rewrite from_u64_add, commit_add by lia.
Qed.

(** A Pedersen commitment hides and binds.  With generators [g = h * x]
    every commitment opens to every value; and two openings of one commitment
    to different field elements compute the discrete logarithm of [g] to the
    base [h]. *)
Theorem pedersen_hides_and_binds gens c v b v' :
  commitment_verify c gens v b = true ->
  (forall x, gen_g gens = g_mul (gen_h gens) x ->
    exists b', commitment_verify c gens v' b' = true) /\
  (forall b', commitment_verify c gens v' b' = true -> from_u64 v <> from_u64 v' ->
    gen_g gens = g_mul (gen_h gens) (fdiv (b' - b) (from_u64 v - from_u64 v'))).
Proof.
  unfold commitment_verify, generators_verify, commit. rewrite bool_decide_eq_true. intros Hc. split.
  - intros x Hx. exists (b + x * (from_u64 v - from_u64 v')). apply bool_decide_eq_true.
    rewrite Hc, Hx, <- !g_mul_mul, <- !g_mul_add. f_equal. ring.
  - intros b'. rewrite bool_decide_eq_true, Hc. intros E Hne.
    set (g := gen_g gens) in *. set (h := gen_h gens) in *.
    set (w := from_u64 v) in *. set (w' := from_u64 v') in *.
    assert (Hd : w - w' <> 0) by (intros ?%fsub_zero; done).
    assert (Eq : g_mul g (w - w') = g_mul h (b' - b)).
    { apply (g_add_cancel _ _ (g_add (g_mul g w') (g_mul h b))).
      rewrite g_add_assoc, <- g_mul_add. replace (w - w' + w') with w by ring.
      rewrite E, (g_add_comm (g_mul g w') (g_mul h b)), g_add_assoc, <- g_mul_add.
      replace (b' - b + b) with b' by ring. apply g_add_comm. }
    transitivity (g_mul (g_mul g (w - w')) (finv (w - w'))).
    + rewrite <- g_mul_mul. replace ((w - w') * finv (w - w')) with 1 by (by field).
      by rewrite g_mul_one.
    + rewrite Eq, <- g_mul_mul. done.
Qed.
End pedersen.

(** ** The accumulator *)
Section accumulator.
Context `{CL : CryptoLib}.
#[local] Open Scope nat_scope.

(** The node of height [h] and position [i] over the leaves [cs]: zero while
    the subtree is empty. *)
Fixpoint subtree (cs : list (list Z)) (h i : nat) : list Z :=
  if i * 2 ^ h <? length cs then
    match h with
    | O => default zero32 (cs !! i)
    | S h => blake3 (subtree cs h (2 * i) ++ subtree cs h (2 * i + 1))
    end
  else zero32.

(** The nodes of height at most [j] are those of [cs'], the others those of
    [cs]: between two calls both are the commitments. *)
Definition nodes_ok (d j : nat) (cs' cs tree : list (list Z)) : Prop :=
  length tree = 2 ^ S d /\
  forall h i, h <= d -> i < 2 ^ (d - h) ->
    tree !! (2 ^ (d - h) + i) = Some (subtree (if h <=? j then cs' else cs) h i).

Lemma subtree_unchanged cs c h i : i <> length cs / 2 ^ h ->
  subtree (cs ++ [c]) h i = subtree cs h i.
Proof.
  revert i. induction h as [|h IH]; intros i Hi.
  - cbn [subtree]. rewrite Nat.pow_0_r, Nat.mul_1_r, length_app in *. simpl.
    rewrite Nat.div_1_r in Hi.
    destruct (Nat.ltb_spec i (length cs)), (Nat.ltb_spec i (length cs + 1)); try lia; [|done].
    by rewrite lookup_app_l.
  - pose proof (Nat.pow_nonzero 2 h ltac:(lia)) as Hp.
    assert (Hdiv : length cs / 2 ^ S h = length cs / 2 ^ h / 2).
    { rewrite Nat.pow_succ_r', Nat.mul_comm. symmetry. apply Nat.Div0.div_div. }
    assert (Hb : (i * 2 ^ S h <? length (cs ++ [c])) = (i * 2 ^ S h <? length cs)).
    { rewrite length_app. simpl length. apply eq_true_iff_eq. rewrite !Nat.ltb_lt.
      assert (i * 2 ^ S h <> length cs); [|lia]. intros E. apply Hi. rewrite <- E.
      symmetry. apply Nat.div_mul. simpl; lia. }
    cbn [subtree]. rewrite Hb. case_match; [|done].
    rewrite Hdiv in Hi. rewrite !IH; [done|..]; intros E; rewrite <- E in Hi; apply Hi.
    + apply (Nat.div_unique _ 2 _ 1); lia.
    + apply (Nat.div_unique _ 2 _ 0); lia.
Qed.

Lemma pow_split d h : h < d -> 2 ^ (d - h) = 2 * 2 ^ (d - S h).
Proof. intros. replace (d - h) with (S (d - S h)) by lia. apply Nat.pow_succ_r'. Qed.
Lemma div_pow_succ n h : n / 2 ^ S h = n / 2 ^ h / 2.
Proof. rewrite Nat.pow_succ_r', Nat.mul_comm. symmetry. apply Nat.Div0.div_div. Qed.
(** Positions on one level and on two levels. *)
Lemma level_disjoint a b i j : i < 2 ^ a -> j < 2 ^ b -> 2 ^ a + i = 2 ^ b + j -> a = b /\ i = j.
Proof.
  intros Hi Hj E. destruct (Nat.lt_trichotomy a b) as [Hab|[->|Hab]]; [|lia|].
  - pose proof (Nat.pow_le_mono_r 2 (S a) b ltac:(lia) Hab). rewrite Nat.pow_succ_r' in *. lia.
  - pose proof (Nat.pow_le_mono_r 2 (S b) a ltac:(lia) Hab). rewrite Nat.pow_succ_r' in *. lia.
Qed.

Lemma position_lt d h n : h <= d -> n < 2 ^ d -> n / 2 ^ h < 2 ^ (d - h).
Proof.
  intros Hh Hn. apply Nat.Div0.div_lt_upper_bound. rewrite <- Nat.pow_add_r.
  by replace (h + (d - h)) with d by lia.
Qed.
Lemma node_lt d h i : h <= d -> i < 2 ^ (d - h) -> 2 ^ (d - h) + i < 2 ^ S d.
Proof.
  intros Hh Hi. pose proof (Nat.pow_le_mono_r 2 (d - h) d ltac:(lia) ltac:(lia)).
  rewrite (Nat.pow_succ_r' 2 d). lia.
Qed.

(** One turn of [update_path] makes one more level right. *)
Lemma nodes_ok_step d h cs c tree : h < d -> length cs < 2 ^ d ->
  nodes_ok d h (cs ++ [c]) cs tree ->
  let parent := 2 ^ (d - S h) + length cs / 2 ^ S h in
  let tree' := <[parent := blake3 (node_or_zero tree (2 * parent) ++
                                   node_or_zero tree (2 * parent + 1))]> tree in
  nodes_ok d (S h) (cs ++ [c]) cs tree'.
Proof.
  intros Hh Hn [Hl Hk] parent tree'. split; [unfold tree'; by rewrite length_insert|].
  pose proof (Nat.pow_nonzero 2 h ltac:(lia)) as Hp.
  set (q := length cs / 2 ^ S h) in *.
  assert (Hq : q < 2 ^ (d - S h)).
  { apply position_lt; lia. }
  assert (Hpl : parent < length tree).
  { rewrite Hl. apply node_lt; lia. }
  intros k i Hkd Hi. destruct (decide (2 ^ (d - k) + i = parent)) as [E|E].
  - apply level_disjoint in E as [E1 ->]; [|done..]. assert (k = S h) as -> by lia.
    fold parent. unfold tree'. rewrite list_lookup_insert_eq by done. f_equal.
    assert (Hlt : (q * 2 ^ S h <? length (cs ++ [c])) = true).
    { apply Nat.ltb_lt. rewrite length_app. simpl length.
      pose proof (Nat.Div0.mul_div_le (length cs) (2 ^ S h)). fold q in H. lia. }
    rewrite (proj2 (Nat.leb_le (S h) (S h))) by lia. cbn [subtree]. rewrite Hlt.
    pose proof (Hk h (2 * q) ltac:(lia) ltac:(rewrite pow_split by lia; lia)) as K0.
    pose proof (Hk h (2 * q + 1) ltac:(lia) ltac:(rewrite pow_split by lia; lia)) as K1.
    rewrite pow_split in K0, K1 by lia. rewrite Nat.leb_refl in K0, K1.
    unfold node_or_zero, parent.
    replace (2 * (2 ^ (d - S h) + q)) with (2 * 2 ^ (d - S h) + 2 * q) by lia.
    replace (2 * 2 ^ (d - S h) + 2 * q + 1) with (2 * 2 ^ (d - S h) + (2 * q + 1)) by lia.
    by rewrite K0, K1.
  - unfold tree'. rewrite list_lookup_insert_ne by done. rewrite Hk by done. f_equal.
    destruct (Nat.leb_spec k h), (Nat.leb_spec k (S h)); try lia; try done.
    assert (k = S h) as -> by lia. symmetry. apply subtree_unchanged.
    fold q. intros ->. by apply E.
Qed.

Lemma update_path_ok d h cs c tree fuel : h <= d -> d - h <= fuel -> length cs < 2 ^ d ->
  nodes_ok d h (cs ++ [c]) cs tree ->
  exists tree', update_path fuel (2 ^ (d - h) + length cs / 2 ^ h) tree = Ok tree' /\
    nodes_ok d d (cs ++ [c]) cs tree'.
Proof.
  revert h tree. induction fuel as [|fuel IH]; intros h tree Hh Hf Hn Hok; cbn [update_path].
  - replace d with h in * by lia. eauto.
  - destruct (decide (h = d)) as [->|Hhd].
    { rewrite Nat.sub_diag, Nat.div_small by done. rewrite decide_False by (simpl; lia). eauto. }
    set (cur := 2 ^ (d - h) + length cs / 2 ^ h).
    pose proof (Nat.pow_nonzero 2 (d - S h) ltac:(lia)) as Hp.
    rewrite decide_True by (unfold cur; rewrite pow_split; lia).
    assert (Hpar : cur / 2 = 2 ^ (d - S h) + length cs / 2 ^ S h).
    { unfold cur. rewrite pow_split, div_pow_succ by lia. 
      rewrite Nat.mul_comm, Nat.div_add_l by lia. done. }
    assert (Hlhs : cur - cur mod 2 = 2 * (cur / 2)).
    { pose proof (Nat.div_mod_eq cur 2). lia. }
    rewrite Hlhs, Hpar. set (par := 2 ^ (d - S h) + length cs / 2 ^ S h) in *.
    pose proof (nodes_ok_step d h cs c tree ltac:(lia) Hn Hok) as Hstep.
    assert (Hpl : par < length tree).
    { destruct Hok as [-> _]. apply node_lt, position_lt; lia. }
    assert (Hg : grow tree par = tree).
    { unfold grow. replace (S par - length tree) with 0 by lia. apply app_nil_r. }
    rewrite Hg, assign_at_ok by done. cbn [mbind outcome_bind]. apply IH; try lia; done.
Qed.

(** ** Calls *)
Definition acc_ok (d : nat) (cs : list (list Z)) (acc : CommitmentAccumulator) : Prop :=
  commitments acc = cs /\ depth acc = d /\ nodes_ok d d cs cs (tree acc).

Lemma subtree_nil h i : subtree [] h i = zero32.
Proof. by destruct h. Qed.
Lemma acc_new_ok d acc : d < 64 -> acc_new d = Ok acc -> acc_ok d [] acc.
Proof.
  intros Hd. unfold acc_new, shl_one. rewrite Nat.mod_small by done.
  rewrite <- (Nat.pow_succ_r' 2 d). case_match; [|done]. intros E.
  assert (acc = mkAcc [] (replicate (2 ^ S d) zero32) d) as -> by (unfold mret, outcome_ret in E; congruence). split; [done|]. split; [done|].
  cbn [tree]. split; [apply length_replicate|].
  intros h i Hh Hi. rewrite lookup_replicate_2 by (by apply node_lt).
  by case_match; rewrite subtree_nil.
Qed.
Lemma acc_add_ok d cs acc c : d < 64 -> length cs < 2 ^ d -> acc_ok d cs acc ->
  exists acc', acc_add acc c = Ok (length cs, acc') /\ acc_ok d (cs ++ [c]) acc'.
Proof.
  intros Hd Hn (<- & Hda & [Hl Hk]). unfold acc_add, update_tree. cbn [commitments tree depth].
  unfold shl_one. rewrite Hda, Nat.mod_small by done.
  set (cs := commitments acc) in *.
  pose proof (node_lt d 0 (length cs) ltac:(lia) ltac:(by rewrite Nat.sub_0_r)) as Ht.
  rewrite Nat.sub_0_r in Ht.
  assert (Hg : grow (tree acc) (2 ^ d + length cs) = tree acc).
  { unfold grow. replace (_ - _) with 0 by lia. apply app_nil_r. }
  rewrite Hg, (index_at_ok _ _ c) by (by rewrite lookup_app_r, Nat.sub_diag).
  cbn [mbind outcome_bind]. rewrite assign_at_ok by lia. cbn [mbind outcome_bind].
  destruct (update_path_ok d 0 cs c (<[2 ^ d + length cs := c]> (tree acc)) (2 ^ d + length cs))
    as (t & E & Ht').
  - lia.
  - pose proof (Nat.pow_gt_lin_r 2 d). lia.
  - done.
  - split; [by rewrite length_insert|]. intros h i Hh Hi.
    destruct (decide (2 ^ (d - h) + i = 2 ^ d + length cs)) as [E|E].
    + rewrite E, list_lookup_insert_eq by lia.
      apply level_disjoint in E as [E ->]; [|done..]. assert (h = 0) as -> by lia. cbn [subtree Nat.leb].
      rewrite Nat.pow_0_r, Nat.mul_1_r, length_app, (proj2 (Nat.ltb_lt _ _)) by (simpl; lia).
      by rewrite lookup_app_r, Nat.sub_diag.
    + rewrite list_lookup_insert_ne by done. rewrite Hk by done. f_equal.
      rewrite (proj2 (Nat.leb_le _ _)) by done. destruct (Nat.leb_spec h 0); [|done].
      assert (h = 0) as -> by lia. symmetry. apply subtree_unchanged.
      rewrite Nat.pow_0_r, Nat.div_1_r. rewrite Nat.sub_0_r in E. lia.
  - rewrite Nat.sub_0_r, Nat.pow_0_r, Nat.div_1_r in E. rewrite E. cbn [mbind outcome_bind].
    eexists. split; [done|]. split; [done|]. split; [done|]. destruct Ht' as [Hlt Hkt].
    split; [done|]. intros h i Hh Hi. rewrite Hkt by done.
    by rewrite (proj2 (Nat.leb_le h d)).
Qed.

(** The accumulator after a sequence of [add]s. *)
Definition acc_add_all (acc : CommitmentAccumulator) (cs : list (list Z))
    : ZkpResult CommitmentAccumulator :=
  for_each (fun acc c => r ← acc_add acc c; mret r.2) cs acc.
Lemma acc_add_all_ok d cs cs' acc : d < 64 -> length cs + length cs' <= 2 ^ d -> acc_ok d cs acc ->
  exists acc', acc_add_all acc cs' = Ok acc' /\ acc_ok d (cs ++ cs') acc'.
Proof.
  intros Hd. revert cs acc. induction cs' as [|c cs' IH]; intros cs acc Hl Hok.
  - exists acc. by rewrite app_nil_r.
  - simpl in Hl. destruct (acc_add_ok d cs acc c Hd ltac:(lia) Hok) as (acc1 & E & Hok1).
    destruct (IH (cs ++ [c]) acc1) as (acc' & E' & Hok'); [rewrite length_app; simpl; lia|done|].
    exists acc'. unfold acc_add_all in *. cbn [for_each]. rewrite E. cbn [mbind outcome_bind snd].
    rewrite <- app_assoc in Hok'. done.
Qed.

(** ** Proofs *)
Definition climb_bytes (x : list Z) (path : list (list Z * bool)) : list Z :=
  foldl (fun current '(sibling, is_right) =>
    if (is_right : bool) then blake3 (sibling ++ current) else blake3 (current ++ sibling)) x path.

Lemma proof_path_ok d cs tree m i : m <= d -> nodes_ok d d cs cs tree -> i < 2 ^ m ->
  i * 2 ^ (d - m) < length cs ->
  let '(path, bits) := proof_path m (2 ^ m + i) tree in
  length path = m /\ bits = path_bits m i /\ Forall (fun s => exists h j, s = subtree cs h j) path /\
  climb_bytes (subtree cs (d - m) i) (zip path bits) = subtree cs d 0.
Proof.
  intros Hm [Hl Hk]. revert i Hm. induction m as [|m IH]; intros i Hm Hi Hn.
  - cbn [proof_path]. rewrite Nat.sub_0_r. simpl in Hi. by assert (i = 0) as -> by lia.
  - cbn [proof_path]. pose proof (Nat.div_mod_eq i 2) as Hdm.
    pose proof (Nat.mod_upper_bound i 2 ltac:(lia)) as Hmod.
    rewrite Nat.pow_succ_r' in *.
    assert (Hcur : (2 * 2 ^ m + i) / 2 = 2 ^ m + i / 2).
    { rewrite Nat.mul_comm, Nat.div_add_l by lia. done. }
    assert (Hcm : (2 * 2 ^ m + i) mod 2 = i mod 2).
    { rewrite Nat.add_comm, Nat.mul_comm. apply Nat.Div0.mod_add. }
    rewrite Hcur, Hcm.
    assert (Hpow : 2 ^ (d - m) = 2 * 2 ^ (d - S m)) by (apply pow_split; lia).
    specialize (IH (i / 2) ltac:(lia) ltac:(lia)).
    destruct (proof_path m (2 ^ m + i / 2) tree) as [path bits].
    destruct IH as (Hlp & -> & Hsub & Hc); [nia|].
    split; [simpl; lia|]. rewrite path_bits_succ.
    assert (Hodd : bool_decide (i mod 2 = 1) = Nat.odd i).
    { apply eq_true_iff_eq. rewrite bool_decide_eq_true, Nat.odd_spec. split.
      - intros. exists (i / 2). lia.
      - intros [k ->]. rewrite Nat.add_comm, Nat.mul_comm. by rewrite Nat.Div0.mod_add. }
    assert (Hnode : forall j, j < 2 * 2 ^ m ->
      node_or_zero tree (2 * 2 ^ m + j) = subtree cs (d - S m) j).
    { intros j Hj. unfold node_or_zero.
      pose proof (Hk (d - S m) j) as K. replace (d - (d - S m)) with (S m) in K by lia.
      rewrite Nat.pow_succ_r' in K. rewrite K by lia. rewrite (proj2 (Nat.leb_le _ _)) by lia. done. }
    rewrite Hodd. split; [done|]. split.
    { constructor; [|done]. destruct (decide (i mod 2 = 0)).
      - replace (2 * 2 ^ m + i + 1) with (2 * 2 ^ m + (i + 1)) by lia. rewrite Hnode by lia. eauto.
      - replace (2 * 2 ^ m + i - 1) with (2 * 2 ^ m + (i - 1)) by lia. rewrite Hnode by lia. eauto. }
    rewrite <- Hc. cbn [zip zip_with climb_bytes foldl]. unfold climb_bytes. f_equal.
    replace (d - m) with (S (d - S m)) by lia. cbn [subtree].
    rewrite (proj2 (Nat.ltb_lt _ _)); [|rewrite Nat.pow_succ_r'; nia].
    destruct (Nat.odd i).
    + apply bool_decide_eq_true in Hodd. rewrite decide_False by lia.
      replace (2 * 2 ^ m + i - 1) with (2 * 2 ^ m + 2 * (i / 2)) by lia.
      rewrite Hnode by lia. by replace (2 * (i / 2) + 1) with i by lia.
    + apply bool_decide_eq_false in Hodd. rewrite decide_True by lia.
      replace (2 * 2 ^ m + i + 1) with (2 * 2 ^ m + (2 * (i / 2) + 1)) by lia.
      rewrite Hnode by lia. by replace (2 * (i / 2)) with i by lia.
Qed.

Definition is32 (l : list Z) : Prop := length l = 32.

Section binding.
Context (blake3_length : forall x, length (blake3 x) = 32).

(** The strings that a climb hashes, and two climbs that hash different strings
    to one digest *)
Definition node_input (x : list Z) (step : list Z * bool) : list Z :=
  if step.2 then step.1 ++ x else x ++ step.1.
Fixpoint climbed (x : list Z) (path : list (list Z * bool)) : list (list Z) :=
  match path with
  | [] => []
  | step :: path => node_input x step :: climbed (blake3 (node_input x step)) path
  end.
Definition collide (l k : list (list Z)) : Prop :=
  exists a b, a ∈ l /\ b ∈ k /\ a <> b /\ blake3 a = blake3 b.

Lemma climb_bytes_cons x step path : climb_bytes x (step :: path) = climb_bytes (blake3 (node_input x step)) path.
Proof. by destruct step as [s []]. Qed.
Lemma node_input_inj x y s t b : is32 x -> is32 y -> is32 s -> is32 t ->
  node_input x (s, b) = node_input y (t, b) -> x = y /\ s = t.
Proof.
  unfold is32, node_input. cbn [fst snd]. intros Hx Hy Hs Ht.
  destruct b; intros E; apply app_inj_1 in E; try congruence; tauto.
Qed.
Lemma climb_bytes_binds bits x y (p q : list (list Z)) : length p = length bits ->
  length q = length bits -> is32 x -> is32 y -> Forall is32 p -> Forall is32 q ->
  climb_bytes x (zip p bits) = climb_bytes y (zip q bits) ->
  collide (climbed x (zip p bits)) (climbed y (zip q bits)) \/ (x = y /\ p = q).
Proof.
  revert x y p q. induction bits as [|b bits IH]; intros x y [|s p] [|t q] Hp Hq Hx Hy Fp Fq E;
    try (simpl in *; lia); [by right|].
  apply Forall_cons in Fp as [Hs Fp], Fq as [Ht Fq].
  cbn [zip zip_with climbed] in *. rewrite !climb_bytes_cons in E.
  apply IH in E as [(i & k & Hi & Hk & Hne & He)|[E ->]];
    [left; exists i, k; split; [by right|]; by split; [right|]| |simpl in *; try lia; try done; apply blake3_length..].
  destruct (decide (node_input x (s, b) = node_input y (t, b))) as [En|Hne].
  - right. by apply node_input_inj in En as [-> ->].
  - left. exists (node_input x (s, b)), (node_input y (t, b)). split; [left|]. by split; [left|].
Qed.
Lemma subtree_is32 cs h i : Forall is32 cs -> is32 (subtree cs h i).
Proof.
  intros Hcs. destruct h; cbn [subtree]; case_match; try done; [|apply blake3_length].
  destruct (cs !! i) as [c|] eqn:E; [|done]. by eapply Forall_lookup_1.
Qed.

Lemma acc_root_ok d cs acc : acc_ok d cs acc -> acc_root acc = Ok (subtree cs d 0).
Proof.
  intros (_ & _ & Ht & Hk). specialize (Hk d 0 ltac:(lia)). rewrite Nat.sub_diag in Hk.
  specialize (Hk ltac:(simpl; lia)). rewrite Nat.leb_refl in Hk.
  unfold acc_root. rewrite decide_False by (by intros E; rewrite E in Hk).
  by apply index_at_ok.
Qed.
Lemma acc_proof_ok d cs acc i c : d < 64 -> length cs <= 2 ^ d -> acc_ok d cs acc ->
  cs !! i = Some c ->
  exists pf, acc_proof acc i = Ok (Some pf) /\ leaf pf = c /\
    proof_root pf = subtree cs d 0 /\ path_indices pf = path_bits d i /\
    length (path pf) = d /\ Forall (fun s => exists h j, s = subtree cs h j) (path pf) /\
    climb_bytes c (zip (path pf) (path_bits d i)) = subtree cs d 0.
Proof.
  intros Hd Hl (<- & Hda & Hok) Hc. pose proof (lookup_lt_Some _ _ _ Hc) as Hi.
  unfold acc_proof. rewrite decide_False by lia. rewrite Hda. unfold shl_one.
  rewrite Nat.mod_small by done.
  pose proof (proof_path_ok d (commitments acc) (tree acc) d i ltac:(lia) Hok ltac:(lia)) as Hpp.
  rewrite Nat.sub_diag, Nat.pow_0_r, Nat.mul_1_r in Hpp. specialize (Hpp Hi).
  destruct (proof_path d (2 ^ d + i) (tree acc)) as [path bits].
  destruct Hpp as (Hlen & -> & Hsub & Hclimb). rewrite (index_at_ok _ _ _ Hc). cbn [mbind outcome_bind].
  rewrite (acc_root_ok d (commitments acc)) by done.
  eexists. split; [done|]. cbn [leaf proof_root path_indices Commitment.path].
  repeat split; try done. rewrite <- Hclimb. f_equal.
  cbn [subtree]. rewrite Nat.pow_0_r, Nat.mul_1_r, (proj2 (Nat.ltb_lt _ _)) by done. by rewrite Hc.
Qed.

(** C14: the accumulator's proofs are complete and binding.  After any sequence
    of at most [2^depth] additions of 32-byte commitments, every commitment has a
    proof that carries the current root and that [verify] accepts; and any proof
    accepted for that root at the same position, with a path of [depth] nodes of
    32 bytes each (which [verify] does not check), carries the same
    commitment or hashes a string to the digest of another one that the first
    proof hashes. *)
Theorem accumulator_proofs depth acc0 cs : depth < 64 -> acc_new depth = Ok acc0 ->
  length cs <= 2 ^ depth -> Forall is32 cs ->
  exists acc root, acc_add_all acc0 cs = Ok acc /\ commitments acc = cs /\ acc_root acc = Ok root /\
    forall i c, cs !! i = Some c ->
      exists pf, acc_proof acc i = Ok (Some pf) /\ leaf pf = c /\ proof_root pf = root /\
        path_indices pf = path_bits depth i /\ acc_verify acc pf = true /\
        forall pf', acc_verify acc pf' = true -> proof_root pf' = root ->
          path_indices pf' = path_bits depth i -> length (path pf') = depth ->
          is32 (leaf pf') -> Forall is32 (path pf') ->
          leaf pf' = c \/
          collide (climbed (leaf pf') (zip (path pf') (path_indices pf')))
                  (climbed c (zip (path pf) (path_indices pf))).
Proof.
  intros Hd Hnew Hl Hcs. pose proof (acc_new_ok _ _ Hd Hnew) as Hok.
  destruct (acc_add_all_ok depth [] cs acc0 Hd Hl Hok) as (acc & E & Hacc). simpl in Hacc.
  exists acc, (subtree cs depth 0). split; [done|]. split; [apply Hacc|].
  split; [by apply acc_root_ok|]. intros i c Hc.
  destruct (acc_proof_ok depth cs acc i c Hd Hl Hacc Hc) as (pf & Ep & Hleaf & Hr & Hb & Hlen & Hsub & Hcl).
  exists pf. repeat split; try done.
  - apply bool_decide_eq_true. rewrite Hleaf, Hb, Hr. exact Hcl.
  - intros pf' Hv%bool_decide_eq_true Hr' Hb' Hlen' Hx Hp. rewrite Hr', Hb' in Hv. rewrite Hb', Hb.
    destruct (climb_bytes_binds (path_bits depth i) (leaf pf') c (path pf') (path pf))
      as [?|[? _]]; rewrite ?path_bits_length; auto.
    + exact (Forall_lookup_1 _ _ _ _ Hcs Hc).
    + eapply Forall_impl; [exact Hsub|]. intros s (h & j & ->). by apply subtree_is32.
    + by rewrite Hcl.
Qed.
End binding.

(** [CommitmentAccumulator::verify] checks a proof against the root that
    the proof itself carries, and not against the accumulator: for every
    accumulator, also an empty one, every 32-byte string is the leaf of a proof
    that it accepts. *)
Theorem accumulator_verify_accepts_any_leaf acc (x : list Z) :
  exists pf, leaf pf = x /\ acc_verify acc pf = true.
Proof.
  exists (mkProof x [] [] x). split; [done|]. by apply bool_decide_eq_true.
Qed.
(** [verify] does not look at the length of the path either, and pairs the
    nodes with the directions as long as there are both: at every position the
    root itself is accepted as a leaf, with an empty path. *)
Lemma root_is_accepted_as_leaf acc (root : list Z) bits : acc_verify acc (mkProof root [] bits root) = true.
Proof. by apply bool_decide_eq_true. Qed.
End accumulator.

(** ** Evaluations *)
Module Sample.
#[local] Existing Instance f17.
#[local] Existing Instance f17_laws.
#[local] Existing Instance toy_crypto.

(** The field itself as a group, with [h = 1] and [g = 3]. *)
#[local] Instance line : @CurveLib f17 := {|
  G1 := Zmod 17; G1_eq_dec := zmod_eq_dec 17;
  g_add := Zmod.add; g_mul := Zmod.mul;
  g_serialize x := to_le_bytes 32 (Zmod.unsigned x);
  test_rng_points := (Zmod.of_Z 17 3, Zmod.of_Z 17 1);
  Rng := Z; fr_rand n := (Zmod.of_Z 17 n, n + 1)
|}.
#[local] Instance line_laws : @CurveLaws f17 line.
Proof.
  pose proof (Zmod.ring_theory 17) as R. split; simpl.
  - apply R.
  - apply R.
  - intros a b c E. apply (f_equal (fun x => Zmod.sub x c)) in E.
    rewrite <- !Zmod.add_opp_r, <- !Zmod.add_assoc, Zmod.add_opp_same_r, !(Zmod.add_comm _ Zmod.zero),
      !Zmod.add_0_l in E. exact E.
  - intros p a b. rewrite Zmod.mul_comm, (Zmod.mul_comm p a), (Zmod.mul_comm p b). apply R.
  - apply R.
  - intros p. rewrite Zmod.mul_comm. apply R.
Qed.
Definition fr (n : Z) : Zmod 17 := Zmod.of_Z 17 n.
Definition gens : @PedersenGenerators f17 line := generators_new.
Definition c100 : @Commitment f17 line := commitment_new gens 100 (fr 5).

Lemma pedersen_homomorphic_witness :
  commitment_verify (commitment_add c100 (commitment_new gens 50 (fr 9))) gens 150 (fr 14) = true.
Proof.
  apply (pedersen_homomorphic gens 100 50 (fr 5) (fr 9) ltac:(lia) ltac:(lia) ltac:(lia)).
Defined.

Lemma pedersen_hides_and_binds_witness :
  (exists b', commitment_verify c100 gens 7 b' = true) /\
  gen_g gens = g_mul (gen_h gens) (fdiv (fr 12 - fr 5) (from_u64 100 - from_u64 109))%fr.
Proof.
  destruct (pedersen_hides_and_binds gens c100 100 (fr 5) 7 eq_refl) as [Hh _].
  destruct (pedersen_hides_and_binds gens c100 100 (fr 5) 109 eq_refl) as [_ Hb]. split.
  - apply (Hh (fr 3)). reflexivity.
  - apply Hb; [vm_compute; reflexivity|]. intros E. by apply (f_equal Zmod.unsigned) in E.
Defined.

Definition leaf_of (n : Z) : list Z := replicate 32 n.
Lemma accumulator_proofs_witness :
  exists acc0 acc pf, acc_new 2 = Ok acc0 /\ acc_add_all acc0 [leaf_of 1; leaf_of 2; leaf_of 3] = Ok acc /\
    acc_proof acc 2 = Ok (Some pf) /\ leaf pf = leaf_of 3 /\ acc_verify acc pf = true.
Proof.
  destruct (acc_new 2) as [acc0| | |] eqn:E0; try (by vm_compute in E0).
  destruct (accumulator_proofs (CL := toy_crypto) pad32_length 2 acc0 [leaf_of 1; leaf_of 2; leaf_of 3])
    as (acc & root & E & _ & _ & Hp); [lia|done|simpl; lia|by repeat constructor|].
  destruct (Hp 2%nat (leaf_of 3) eq_refl) as (pf & Ep & Hl & _ & _ & Hv & _).
  by exists acc0, acc, pf.
Defined.

(** A digest that depends on the whole input. *)
Definition mixing_crypto : CryptoLib := {|
  blake3 l := to_le_bytes 32 (foldl (fun a b => (a * 31 + b + 1) mod 65537) 0 l);
  keccak := keccak; key_ok := key_ok; sig_ok := sig_ok; verify_prehash := verify_prehash;
  verify_msg := verify_msg; recover_prehash := recover_prehash; sign_prehash := sign_prehash;
  sign_msg := sign_msg; secret_ok := secret_ok; public_point := public_point;
  public_compressed := public_compressed; hex_encode := hex_encode
|}.

(** [add] does not check the capacity: the commitment after the last writes the
    hash of the next level over the first leaf, whose proof is refused. *)
Definition verifies_after (cs : list (list Z)) (i : nat) : option bool :=
  match acc0 ← acc_new 1; acc ← acc_add_all (CL := mixing_crypto) acc0 cs;
    acc_proof acc i with
  | Ok (Some pf) => Some (proof_verify (CL := mixing_crypto) pf)
  | _ => None
  end.
Example overfull_accumulator :
  verifies_after [leaf_of 1; leaf_of 2] 0 = Some true /\
  verifies_after [leaf_of 1; leaf_of 2; leaf_of 3] 0 = Some false.
Proof. split; vm_compute; reflexivity. Qed.
End Sample.
