(* ===== verification/Circuits.v ===== *)
(** * The circuits (crates/nexus-zkp/src/circuits.rs)

    A circuit is synthesized into a constraint system of ark-relations, a
    third-party crate: [R1csLib] has the operations the source calls, and
    [R1csLaws] what their documentation promises about values and satisfaction.
    In setup mode the closures that give values are not called. *)
From stdpp Require Import base numbers list strings.
From Stdlib Require Import ZArith Lia.
From S2P Require Import Prelude Slices ZkField.
#[local] Open Scope Z_scope.

Class R1csLib `{FieldLib} := {
  CS : Type;
  FpVar : Type;
  BoolVar : Type;
  SynthesisError : Type;
  AssignmentMissing : SynthesisError;
  (** [FpVar::new_witness], [FpVar::new_input], [Boolean::new_witness]; the
      argument is what the closure returns *)
  new_witness : outcome SynthesisError Fr -> M CS SynthesisError FpVar;
  new_input : outcome SynthesisError Fr -> M CS SynthesisError FpVar;
  new_boolean : outcome SynthesisError bool -> M CS SynthesisError BoolVar;
  (** [&a + &b] *)
  var_add : FpVar -> FpVar -> FpVar;
  enforce_equal : FpVar -> FpVar -> M CS SynthesisError ();
  (** [conditionally_select(cond, true_value, false_value)] *)
  conditionally_select : BoolVar -> FpVar -> FpVar -> M CS SynthesisError FpVar;
  (** the mode, [is_satisfied], and the values of the public inputs in the
      order of their allocation *)
  in_setup_mode : CS -> bool;
  is_satisfied : CS -> bool;
  instance_assignment : CS -> list Fr
}.

Section circuits.
Context `{FL : FieldLib} {R1 : @R1csLib FL}.

(** The closure of an [Option] field *)
Definition assigned (o : option Fr) : outcome SynthesisError Fr := ok_or AssignmentMissing o.

(** ** PrivateTransactionCircuit *)
Record PrivateTransactionCircuit := mkPrivateTx {
  input_value : option Fr;
  input_blinding : option Fr;
  input_commitment : option Fr;
  output_value : option Fr;
  output_blinding : option Fr;
  output_commitment : option Fr;
  nullifier : option Fr;
  nullifier_secret : option Fr;
  fee : option Fr
}.
Definition private_tx_new (iv ib ic ov ob oc nf ns f : Fr) : PrivateTransactionCircuit :=
  mkPrivateTx (Some iv) (Some ib) (Some ic) (Some ov) (Some ob) (Some oc) (Some nf) (Some ns) (Some f).
Definition private_tx_empty : PrivateTransactionCircuit :=
  mkPrivateTx None None None None None None None None None.

Definition private_tx_constraints (c : PrivateTransactionCircuit) : M CS SynthesisError () :=
  iv ← new_witness (assigned (input_value c));
  ib ← new_witness (assigned (input_blinding c));
  ov ← new_witness (assigned (output_value c));
  ob ← new_witness (assigned (output_blinding c));
  ns ← new_witness (assigned (nullifier_secret c));
  ic ← new_input (assigned (input_commitment c));
  oc ← new_input (assigned (output_commitment c));
  nf ← new_input (assigned (nullifier c));
  f ← new_input (assigned (fee c));
  (* commitment = value + blinding *)
  enforce_equal (var_add iv ib) ic ;;
  enforce_equal (var_add ov ob) oc ;;
  (* input_value = output_value + fee *)
  enforce_equal iv (var_add ov f) ;;
  (* nullifier = commitment + secret *)
  enforce_equal (var_add ic ns) nf.

(** ** ComplianceCircuit *)
Record ComplianceCircuit := mkCompliance {
  identity_commitment : option Fr;
  kyc_signature : option Fr;
  kyc_expiry : option Fr;
  current_time : option Fr;
  amount : option Fr;
  daily_limit : option Fr;
  jurisdiction : option Fr;
  allowed_jurisdictions_root : option Fr;
  jurisdiction_proof : option (list Fr)
}.
Definition compliance_empty : ComplianceCircuit :=
  mkCompliance None None None None None None None None None.

Definition compliance_constraints (c : ComplianceCircuit) : M CS SynthesisError () :=
  new_input (assigned (identity_commitment c)) ;;
  new_input (assigned (current_time c)) ;;
  new_input (assigned (daily_limit c)) ;;
  new_witness (assigned (kyc_expiry c)) ;;
  new_witness (assigned (amount c)) ;;
  mret ().

(** ** BalanceProofCircuit *)
Record BalanceProofCircuit := mkBalance {
  balance : option Fr;
  balance_commitment : option Fr;
  minimum_required : option Fr;
  blinding : option Fr
}.
Definition balance_new (b bc mr bl : Fr) : BalanceProofCircuit :=
  mkBalance (Some b) (Some bc) (Some mr) (Some bl).
Definition balance_empty : BalanceProofCircuit := mkBalance None None None None.

Definition balance_constraints (c : BalanceProofCircuit) : M CS SynthesisError () :=
  b ← new_witness (assigned (balance c));
  bl ← new_witness (assigned (blinding c));
  bc ← new_input (assigned (balance_commitment c));
  new_input (assigned (minimum_required c)) ;;
  enforce_equal (var_add b bl) bc.

(** ** MerkleInclusionCircuit *)
Record MerkleInclusionCircuit := mkInclusion {
  mi_leaf : option Fr;
  mi_root : option Fr;
  mi_path_indices : option (list bool);
  mi_siblings : option (list Fr);
  mi_depth : nat
}.
(** [new] asserts both lengths. *)
Definition inclusion_new (leaf root : Fr) (path_indices : list bool) (siblings : list Fr)
    (depth : nat) : ZkpResult MerkleInclusionCircuit :=
  if decide (length path_indices = depth) then
    if decide (length siblings = depth)
    then Ok (mkInclusion (Some leaf) (Some root) (Some path_indices) (Some siblings) depth)
    else Panic
  else Panic.
Definition inclusion_empty (depth : nat) : MerkleInclusionCircuit :=
  mkInclusion None None None None depth.

(** The loop over [0..depth] *)
Fixpoint inclusion_loop (levels : list nat) (path_indices : list bool) (siblings : list Fr)
    (current : FpVar) : M CS SynthesisError FpVar :=
  match levels with
  | [] => mret current
  | i :: levels =>
      sibling ← new_witness (index_at siblings i);
      is_right ← new_boolean (index_at path_indices i);
      lhs ← conditionally_select is_right sibling current;
      rhs ← conditionally_select is_right current sibling;
      inclusion_loop levels path_indices siblings (var_add lhs rhs)
  end.
Definition inclusion_constraints (c : MerkleInclusionCircuit) : M CS SynthesisError () :=
  leaf ← new_witness (assigned (mi_leaf c));
  root ← new_input (assigned (mi_root c));
  let path_indices := default (replicate (mi_depth c) false) (mi_path_indices c) in
  let siblings := default (replicate (mi_depth c) fzero) (mi_siblings c) in
  current ← inclusion_loop (seq 0 (mi_depth c)) path_indices siblings leaf;
  enforce_equal current root.
End circuits.

(** ** What the constraint system promises *)
Class R1csLaws `{FL : FieldLib} {R1 : @R1csLib FL} := {
  (** the values that a proving run assigns *)
  var_value : FpVar -> Fr;
  bool_value : BoolVar -> bool;
  var_add_value : forall a b, var_value (var_add a b) = fadd (var_value a) (var_value b);
  new_witness_proving : forall v cs, in_setup_mode cs = false ->
    exists cs' x, new_witness (Ok v) cs = (cs', Ok x) /\ var_value x = v /\
      in_setup_mode cs' = false /\ is_satisfied cs' = is_satisfied cs /\
      instance_assignment cs' = instance_assignment cs;
  new_input_proving : forall v cs, in_setup_mode cs = false ->
    exists cs' x, new_input (Ok v) cs = (cs', Ok x) /\ var_value x = v /\
      in_setup_mode cs' = false /\ is_satisfied cs' = is_satisfied cs /\
      instance_assignment cs' = (instance_assignment cs ++ [v])%list;
  new_boolean_proving : forall v cs, in_setup_mode cs = false ->
    exists cs' x, new_boolean (Ok v) cs = (cs', Ok x) /\ bool_value x = v /\
      in_setup_mode cs' = false /\ is_satisfied cs' = is_satisfied cs /\
      instance_assignment cs' = instance_assignment cs;
  (** the error of a closure is the error of the allocation *)
  new_witness_missing : forall e cs, in_setup_mode cs = false ->
    exists cs', new_witness (Err e) cs = (cs', Err e);
  new_input_missing : forall e cs, in_setup_mode cs = false ->
    exists cs', new_input (Err e) cs = (cs', Err e);
  enforce_equal_proving : forall a b cs, in_setup_mode cs = false ->
    exists cs', enforce_equal a b cs = (cs', Ok ()) /\ in_setup_mode cs' = false /\
      is_satisfied cs' = is_satisfied cs && bool_decide (var_value a = var_value b) /\
      instance_assignment cs' = instance_assignment cs;
  conditionally_select_proving : forall c t f cs, in_setup_mode cs = false ->
    exists cs' x, conditionally_select c t f cs = (cs', Ok x) /\
      var_value x = (if bool_value c then var_value t else var_value f) /\
      in_setup_mode cs' = false /\ is_satisfied cs' = is_satisfied cs /\
      instance_assignment cs' = instance_assignment cs;
  (** setup: every operation succeeds, whatever the closures would return *)
  new_witness_setup : forall o cs, in_setup_mode cs = true ->
    exists cs' x, new_witness o cs = (cs', Ok x) /\ in_setup_mode cs' = true;
  new_input_setup : forall o cs, in_setup_mode cs = true ->
    exists cs' x, new_input o cs = (cs', Ok x) /\ in_setup_mode cs' = true;
  new_boolean_setup : forall o cs, in_setup_mode cs = true ->
    exists cs' x, new_boolean o cs = (cs', Ok x) /\ in_setup_mode cs' = true;
  enforce_equal_setup : forall a b cs, in_setup_mode cs = true ->
    exists cs', enforce_equal a b cs = (cs', Ok ()) /\ in_setup_mode cs' = true;
  conditionally_select_setup : forall c t f cs, in_setup_mode cs = true ->
    exists cs' x, conditionally_select c t f cs = (cs', Ok x) /\ in_setup_mode cs' = true
}.
