(* ===== verification/CircuitsProps.v ===== *)
(** * What the circuits prove

    The constraints of each circuit as equations on its fields, and what
    follows: the equations are linear with a free blinding factor each, so a
    prover satisfies them for any public inputs and any amounts. *)
From stdpp Require Import base numbers list strings.
From Stdlib Require Import ZArith Lia Field Zmod.
From S2P Require Import Prelude Slices ZkField Circuits.
#[local] Open Scope Z_scope.

(** One operation of a synthesis, with what the constraint system promises. *)
Ltac proving_step law :=
  match goal with
  | Hm : in_setup_mode ?cs = false |- context [mbind _ _ ?cs] =>
      let cs' := fresh "cs" in let x := fresh "x" in let E := fresh "E" in
      let V := fresh "V" in let Hm' := fresh "Hm" in let Hs := fresh "Hs" in
      let Hi := fresh "Hi" in
      edestruct (fun v => law v cs Hm) as (cs' & x & E & V & Hm' & Hs & Hi);
      rewrite (M_bind_ok _ _ _ _ _ E); clear E
  end.
Ltac setup_step law :=
  match goal with
  | Hm : in_setup_mode ?cs = true |- context [mbind _ _ ?cs] =>
      let cs' := fresh "cs" in let x := fresh "x" in let E := fresh "E" in
      let Hm' := fresh "Hm" in
      edestruct (fun v => law v cs Hm) as (cs' & x & E & Hm');
      rewrite (M_bind_ok _ _ _ _ _ E); clear E
  end.
Ltac enforce_step :=
  match goal with
  | Hm : in_setup_mode ?cs = false |- context [mbind _ (enforce_equal ?a ?b) ?cs] =>
      let cs' := fresh "cs" in let E := fresh "E" in let Hm' := fresh "Hm" in
      let Hs := fresh "Hs" in let Hi := fresh "Hi" in
      destruct (enforce_equal_proving a b cs Hm) as (cs' & E & Hm' & Hs & Hi);
      rewrite (M_bind_ok _ _ _ _ _ E); clear E
  | Hm : in_setup_mode ?cs = true |- context [mbind _ (enforce_equal ?a ?b) ?cs] =>
      let cs' := fresh "cs" in let E := fresh "E" in let Hm' := fresh "Hm" in
      destruct (enforce_equal_setup a b cs Hm) as (cs' & E & Hm');
      rewrite (M_bind_ok _ _ _ _ _ E); clear E
  end.

Section circuits.
Context `{FL : FieldLib} {laws : @FieldLaws FL} {R1 : @R1csLib FL} {rlaws : @R1csLaws FL R1}.
#[local] Open Scope field_scope.
Add Field Fr_field_circuits : fr_field.

(** ** The constraints as equations *)
Lemma private_tx_exact iv ib ic ov ob oc nf ns f cs : in_setup_mode cs = false ->
  exists cs', private_tx_constraints (private_tx_new iv ib ic ov ob oc nf ns f) cs = (cs', Ok ()) /\
    is_satisfied cs' = is_satisfied cs && bool_decide (iv + ib = ic) && bool_decide (ov + ob = oc) &&
      bool_decide (iv = ov + f) && bool_decide (ic + ns = nf) /\
    instance_assignment cs' = (instance_assignment cs ++ [ic; oc; nf; f])%list.
Proof.
  intros Hm. unfold private_tx_constraints, private_tx_new, assigned.
  cbn [input_value input_blinding input_commitment output_value output_blinding output_commitment
    nullifier nullifier_secret fee ok_or].
  do 5 proving_step new_witness_proving. do 4 proving_step new_input_proving.
  do 3 enforce_step.
  match goal with |- context [enforce_equal ?a ?b ?c] =>
    destruct (enforce_equal_proving a b c ltac:(done)) as (cs' & E & Hm' & Hs' & Hi') end.
  exists cs'. split; [done|]. rewrite !var_add_value in *. subst. split; [congruence|].
  rewrite Hi'. repeat match goal with H : instance_assignment _ = _ |- _ => rewrite H; clear H end.
  by rewrite <- !app_assoc.
Qed.

Lemma balance_exact b bc mr bl cs : in_setup_mode cs = false ->
  exists cs', balance_constraints (balance_new b bc mr bl) cs = (cs', Ok ()) /\
    is_satisfied cs' = is_satisfied cs && bool_decide (b + bl = bc) /\
    instance_assignment cs' = (instance_assignment cs ++ [bc; mr])%list.
Proof.
  intros Hm. unfold balance_constraints, balance_new, assigned.
  cbn [balance balance_commitment minimum_required blinding ok_or].
  do 2 proving_step new_witness_proving. do 2 proving_step new_input_proving.
  match goal with |- context [enforce_equal ?a ?b ?c] =>
    destruct (enforce_equal_proving a b c ltac:(done)) as (cs' & E & Hm' & Hs' & Hi') end.
  exists cs'. split; [done|]. rewrite !var_add_value in *. subst. split; [congruence|].
  rewrite Hi'. repeat match goal with H : instance_assignment _ = _ |- _ => rewrite H; clear H end.
  by rewrite <- !app_assoc.
Qed.

Lemma compliance_exact id sig exp time am lim jur root prf cs : in_setup_mode cs = false ->
  exists cs', compliance_constraints
      (mkCompliance (Some id) sig (Some exp) (Some time) (Some am) (Some lim) jur root prf) cs =
      (cs', Ok ()) /\
    is_satisfied cs' = is_satisfied cs /\
    instance_assignment cs' = (instance_assignment cs ++ [id; time; lim])%list.
Proof.
  intros Hm. unfold compliance_constraints, assigned.
  cbn [identity_commitment current_time daily_limit kyc_expiry amount ok_or].
  do 3 proving_step new_input_proving. do 2 proving_step new_witness_proving.
  eexists. split; [done|]. split; [congruence|].
  repeat match goal with H : instance_assignment _ = _ |- _ => rewrite H; clear H end.
  by rewrite <- !app_assoc.
Qed.

Definition fsum (l : list Fr) : Fr := foldr fadd 0 l.

Lemma inclusion_loop_exact bits siblings n k cur cs : in_setup_mode cs = false ->
  length bits = (k + n)%nat -> length siblings = (k + n)%nat ->
  exists cs' x, inclusion_loop (seq k n) bits siblings cur cs = (cs', Ok x) /\
    var_value x = var_value cur + fsum (drop k siblings) /\ in_setup_mode cs' = false /\
    is_satisfied cs' = is_satisfied cs /\ instance_assignment cs' = instance_assignment cs.
Proof.
  revert k cur cs. induction n as [|n IH]; intros k cur cs Hm Hb Hs; cbn [seq inclusion_loop].
  - exists cs, cur. rewrite drop_ge by lia. repeat split; try done. cbn [fsum foldr]. ring.
  - destruct (lookup_lt_is_Some_2 siblings k ltac:(lia)) as [sib Hsib].
    destruct (lookup_lt_is_Some_2 bits k ltac:(lia)) as [bit Hbit].
    rewrite (index_at_ok _ _ _ Hsib), (index_at_ok _ _ _ Hbit).
    proving_step new_witness_proving. proving_step new_boolean_proving.
    destruct (conditionally_select_proving x0 x cur cs1 ltac:(done))
      as (cs2 & l & E & Vl & Hm2 & Hs2 & Hi2).
    rewrite (M_bind_ok _ _ _ _ _ E). clear E.
    destruct (conditionally_select_proving x0 cur x cs2 ltac:(done))
      as (cs3 & r & E & Vr & Hm3 & Hs3 & Hi3).
    rewrite (M_bind_ok _ _ _ _ _ E). clear E.
    destruct (IH (S k) (var_add l r) cs3 Hm3 ltac:(lia) ltac:(lia))
      as (cs' & z & E & Vz & Hm' & Hs' & Hi').
    exists cs', z. split; [done|]. split; [|repeat split; congruence].
    rewrite Vz, var_add_value, Vl, Vr, (drop_S _ _ _ Hsib).
    change (fsum (sib :: drop (S k) siblings)) with (sib + fsum (drop (S k) siblings)).
    destruct (bool_value x0); rewrite V; ring.
Qed.

Lemma inclusion_exact leaf root bits siblings c cs : in_setup_mode cs = false ->
  inclusion_new leaf root bits siblings (length siblings) = Ok c ->
  exists cs', inclusion_constraints c cs = (cs', Ok ()) /\
    is_satisfied cs' = is_satisfied cs && bool_decide (leaf + fsum siblings = root) /\
    instance_assignment cs' = (instance_assignment cs ++ [root])%list.
Proof.
  intros Hm. unfold inclusion_new. case_decide as Hb; [|done]. rewrite decide_True by done.
  intros [= <-]. unfold inclusion_constraints, assigned.
  cbn [mi_leaf mi_root mi_path_indices mi_siblings mi_depth ok_or default from_option].
  proving_step new_witness_proving. proving_step new_input_proving.
  destruct (inclusion_loop_exact bits siblings (length siblings) 0 x cs1 ltac:(done) Hb eq_refl)
    as (cs2 & y & E & Vy & Hm2 & Hs2 & Hi2).
  rewrite (M_bind_ok _ _ _ _ _ E). clear E.
  destruct (enforce_equal_proving y x0 cs2 Hm2) as (cs' & E & Hm' & Hs' & Hi').
  exists cs'. split; [done|]. rewrite Vy, V, V0, drop_0 in Hs'. split; congruence.
Qed.

(** ** Theorems *)

(** The constraints of the private-transaction circuit are exactly the four
    equations of the source, its public inputs are those four values in the
    order the prover and the verifier use, and its setup needs no values while
    a proof without them stops with [AssignmentMissing]. *)
Theorem private_transaction_circuit_exact iv ib ic ov ob oc nf ns f cs :
  (in_setup_mode cs = false ->
    exists cs', private_tx_constraints (private_tx_new iv ib ic ov ob oc nf ns f) cs = (cs', Ok ()) /\
      (is_satisfied cs' = true <-> is_satisfied cs = true /\
        ic = iv + ib /\ oc = ov + ob /\ iv = ov + f /\ nf = ic + ns) /\
      instance_assignment cs' = (instance_assignment cs ++ [ic; oc; nf; f])%list) /\
  (in_setup_mode cs = false ->
    (private_tx_constraints private_tx_empty cs).2 = Err AssignmentMissing) /\
  (in_setup_mode cs = true -> (private_tx_constraints private_tx_empty cs).2 = Ok ()).
Proof.
  split; [|split].
  - intros Hm. destruct (private_tx_exact iv ib ic ov ob oc nf ns f cs Hm) as (cs' & E & Hs & Hi).
    exists cs'. split; [done|]. split; [|done].
    rewrite Hs, !andb_true_iff, !bool_decide_eq_true. intuition congruence.
  - intros Hm. unfold private_tx_constraints. simpl.
    destruct (new_witness_missing AssignmentMissing cs Hm) as [cs' E].
    by rewrite (M_bind_err _ _ _ _ _ E).
  - intros Hm. unfold private_tx_constraints.
    do 5 setup_step new_witness_setup. do 4 setup_step new_input_setup. do 3 enforce_step.
    match goal with |- context [enforce_equal ?a ?b ?c] =>
      by destruct (enforce_equal_setup a b c ltac:(done)) as (cs' & -> & _) end.
Qed.

(** C23: no circuit constrains its public inputs.  For every choice of them and
    every claimed amount there is a private assignment that satisfies the
    constraints: the output of a private transaction may hold any value, the
    same input note has a valid spend for every nullifier, a balance is proved
    to reach any minimum, an expired or oversized compliance claim passes, and
    every Merkle root has a member at every position. *)
Theorem circuits_accept_every_statement cs : in_setup_mode cs = false -> is_satisfied cs = true ->
  (forall ic oc nf f ov, exists iv ib ob ns,
    is_satisfied (private_tx_constraints (private_tx_new iv ib ic ov ob oc nf ns f) cs).1 = true) /\
  (forall b bc mr, exists bl,
    is_satisfied (balance_constraints (balance_new b bc mr bl) cs).1 = true) /\
  (forall id sig exp time am lim jur root prf,
    is_satisfied (compliance_constraints (mkCompliance (Some id) sig (Some exp) (Some time)
      (Some am) (Some lim) jur root prf) cs).1 = true) /\
  (forall root bits siblings, length bits = length siblings -> exists leaf c,
    inclusion_new leaf root bits siblings (length siblings) = Ok c /\
    is_satisfied (inclusion_constraints c cs).1 = true).
Proof.
  intros Hm Hsat. split; [|split; [|split]].
  - intros ic oc nf f ov. exists (ov + f), (ic - (ov + f)), (oc - ov), (nf - ic).
    destruct (private_tx_exact (ov + f) (ic - (ov + f)) ic ov (oc - ov) oc nf (nf - ic) f cs Hm)
      as (cs' & -> & Hs & _). cbn [fst]. rewrite Hs, Hsat, !bool_decide_true; [done|ring..].
  - intros b bc mr. exists (bc - b).
    destruct (balance_exact b bc mr (bc - b) cs Hm) as (cs' & -> & Hs & _).
    cbn [fst]. rewrite Hs, Hsat, bool_decide_true; [done|ring].
  - intros. destruct (compliance_exact id sig exp time am lim jur root prf cs Hm)
      as (cs' & -> & Hs & _). cbn [fst]. by rewrite Hs.
  - intros root bits siblings Hl. exists (root - fsum siblings).
    assert (exists c, inclusion_new (root - fsum siblings) root bits siblings (length siblings) = Ok c)
      as [c Hc].
    { unfold inclusion_new. rewrite !decide_True by done. eauto. }
    exists c. split; [done|].
    destruct (inclusion_exact _ _ _ _ _ cs Hm Hc) as (cs' & -> & Hs & _).
    cbn [fst]. rewrite Hs, Hsat, bool_decide_true; [done|ring].
Qed.
End circuits.

(** ** Evaluations *)
Module Sample.
#[local] Existing Instance f17.
#[local] Existing Instance f17_laws.

(** A constraint system that keeps its mode, whether the constraints hold, and
    the public inputs; setup gives every variable the value zero. *)
Record Toy := mkToy { toy_setup : bool; toy_sat : bool; toy_inputs : list (Zmod 17) }.
Definition alloc {A} (zero : A) (o : outcome () A) : M Toy () A := fun cs =>
  if toy_setup cs then (cs, Ok zero) else (cs, o).
Definition alloc_input (o : outcome () (Zmod 17)) : M Toy () (Zmod 17) := fun cs =>
  if toy_setup cs then (cs, Ok Zmod.zero)
  else match o with
       | Ok v => (mkToy (toy_setup cs) (toy_sat cs) (toy_inputs cs ++ [v]), Ok v)
       | _ => (cs, o)
       end.
Definition toy_r1cs : @R1csLib f17 := {|
  CS := Toy; FpVar := Zmod 17; BoolVar := bool; SynthesisError := (); AssignmentMissing := ();
  new_witness := alloc Zmod.zero; new_input := alloc_input; new_boolean := alloc false;
  var_add := Zmod.add;
  enforce_equal a b := fun cs =>
    (mkToy (toy_setup cs) (toy_sat cs && @bool_decide (a = b) (zmod_eq_dec 17 a b)) (toy_inputs cs), Ok ());
  conditionally_select c t f := fun cs => (cs, Ok (if c then t else f));
  in_setup_mode := toy_setup; is_satisfied := toy_sat; instance_assignment := toy_inputs
|}.
Lemma toy_laws : @R1csLaws f17 toy_r1cs.
Proof.
  refine {| var_value := fun x : @FpVar f17 toy_r1cs => (x : Zmod 17);
            bool_value := fun b : @BoolVar f17 toy_r1cs => (b : bool) |}; simpl; [done|..];
    intros; unfold alloc, alloc_input; cbn [toy_setup toy_sat toy_inputs];
    try match goal with H : toy_setup ?cs = _ |- _ => rewrite H end;
    repeat eexists; done.
Defined.
Definition fr (n : Z) : Zmod 17 := Zmod.of_Z 17 n.
#[local] Existing Instance toy_r1cs.
#[local] Existing Instance toy_laws.

(** 100 = 90 + 10, with blinding factors 1 and 2 and secret 3. *)
Lemma private_transaction_circuit_exact_witness :
  is_satisfied (private_tx_constraints (private_tx_new (fr 100) (fr 1) (fr 101) (fr 90) (fr 2)
    (fr 92) (fr 104) (fr 3) (fr 10)) (mkToy false true [])).1 = true.
Proof.
  destruct (private_transaction_circuit_exact (R1 := toy_r1cs) (fr 100) (fr 1) (fr 101) (fr 90)
    (fr 2) (fr 92) (fr 104) (fr 3) (fr 10) (mkToy false true [])) as [H _].
  destruct (H eq_refl) as (cs' & -> & Hsat & _). apply Hsat.
  split; [reflexivity|]. repeat split; vm_compute; reflexivity.
Defined.

(** A note of 5 spent as 16. *)
Lemma circuits_accept_every_statement_witness : exists iv ib ob ns,
  is_satisfied (private_tx_constraints (private_tx_new iv ib (fr 5) (fr 16) ob
    (fr 0) (fr 9) ns (fr 0)) (mkToy false true [])).1 = true.
Proof.
  destruct (circuits_accept_every_statement (R1 := toy_r1cs) (mkToy false true []) eq_refl eq_refl)
    as [H _].
  apply H.
Defined.
End Sample.
