(* ===== verification/Groth16.v ===== *)
(** * Proving and verifying (crates/nexus-zkp: prover.rs, verifier.rs, trait_verifier.rs)

    Groth16 over BN254 is a third-party crate, [Groth16Lib].  Around it the
    source serializes proofs and public inputs, keeps the set of spent
    nullifiers, parses calldata, and bridges to a trait on raw bytes.  The
    random generators and the elapsed time are arguments. *)
From stdpp Require Import base numbers list gmap strings.
From Stdlib Require Import ZArith Lia.
From S2P Require Import Prelude Slices Types Crypto ZkField Circuits.
#[local] Open Scope Z_scope.

(** The errors of the crate are their texts. *)
Class Groth16Lib `{R1 : R1csLib} := {
  ProvingKey : Type;
  VerifyingKey : Type;
  PreparedVerifyingKey : Type;
  Proof : Type;
  ThreadRng : Type;
  circuit_specific_setup : M CS SynthesisError () -> ThreadRng ->
    outcome string (ProvingKey * VerifyingKey);
  groth16_prove : ProvingKey -> M CS SynthesisError () -> ThreadRng -> outcome string Proof;
  process_vk : VerifyingKey -> outcome string PreparedVerifyingKey;
  verify_with_processed_vk : PreparedVerifyingKey -> list Fr -> Proof -> outcome string bool;
  proof_serialize : Proof -> outcome string (list Z);
  proof_deserialize : list Z -> outcome string Proof;
  vk_deserialize : list Z -> outcome string VerifyingKey;
  pk_serialize : ProvingKey -> outcome string (list Z);
  (** the text of the error of [Fr::deserialize_compressed] *)
  fr_error : list Z -> string
}.

Section groth16.
Context `{FL : FieldLib} {R1 : @R1csLib FL} {G16 : @Groth16Lib FL R1}.

(** ** prover.rs *)
Record SerializedProof := mkSerialized { proof_bytes : list Z; public_inputs : list (list Z) }.

Definition from_groth16 (proof : Proof) (inputs : list Fr) : ZkpResult SerializedProof :=
  proof_bytes ← map_err SerializationError (proof_serialize proof);
  mret (mkSerialized proof_bytes (fr_serialize <$> inputs)).
Definition to_groth16 (sp : SerializedProof) : ZkpResult (Proof * list Fr) :=
  proof ← map_err SerializationError (proof_deserialize (proof_bytes sp));
  inputs ← mapM (fun bytes => ok_or (SerializationError (fr_error bytes)) (fr_deserialize bytes))
             (public_inputs sp);
  mret (proof, inputs).

Record ProvingKeys := mkProvingKeys {
  pk_private_tx : option ProvingKey;
  pk_balance_proof : option ProvingKey;
  pk_compliance : option ProvingKey
}.
Definition proving_keys_new : ProvingKeys := mkProvingKeys None None None.

(** [setup]: the keys generated before an error are kept. *)
Definition setup (rng : nat -> ThreadRng) : M ProvingKeys ZkpError () :=
  '(pk, _) ← lift (map_err ProofGenerationFailed
    (circuit_specific_setup (private_tx_constraints private_tx_empty) (rng 0%nat)));
  modify (fun k => mkProvingKeys (Some pk) (pk_balance_proof k) (pk_compliance k)) ;;
  '(pk, _) ← lift (map_err ProofGenerationFailed
    (circuit_specific_setup (balance_constraints balance_empty) (rng 1%nat)));
  modify (fun k => mkProvingKeys (pk_private_tx k) (Some pk) (pk_compliance k)) ;;
  '(pk, _) ← lift (map_err ProofGenerationFailed
    (circuit_specific_setup (compliance_constraints compliance_empty) (rng 2%nat)));
  modify (fun k => mkProvingKeys (pk_private_tx k) (pk_balance_proof k) (Some pk)).
(** [ProvingKeys::serialize] *)
Definition proving_keys_serialize (k : ProvingKeys) : ZkpResult (list Z) :=
  match pk_private_tx k with
  | Some pk => map_err SerializationError (pk_serialize pk)
  | None => mret []
  end.

(** [bytes_to_fr]: the first 31 of 32 bytes *)
Definition bytes_to_fr (bytes : list Z) : Fr := from_le_bytes_mod_order (take 31 bytes).

Definition prove_private_transaction (keys : ProvingKeys) (rng : ThreadRng)
    (input_value : Z) (input_blinding input_commitment : list Z)
    (output_value : Z) (output_blinding output_commitment nullifier nullifier_secret : list Z)
    (fee : Z) : ZkpResult SerializedProof :=
  pk ← ok_or (ProofGenerationFailed "Proving key not loaded") (pk_private_tx keys);
  let circuit := private_tx_new (from_u64 input_value) (bytes_to_fr input_blinding)
    (bytes_to_fr input_commitment) (from_u64 output_value) (bytes_to_fr output_blinding)
    (bytes_to_fr output_commitment) (bytes_to_fr nullifier) (bytes_to_fr nullifier_secret)
    (from_u64 fee) in
  proof ← map_err ProofGenerationFailed (groth16_prove pk (private_tx_constraints circuit) rng);
  from_groth16 proof [bytes_to_fr input_commitment; bytes_to_fr output_commitment;
    bytes_to_fr nullifier; from_u64 fee].
Definition prove_balance (keys : ProvingKeys) (rng : ThreadRng)
    (balance : Z) (balance_commitment : list Z) (minimum_required : Z) (blinding : list Z)
    : ZkpResult SerializedProof :=
  pk ← ok_or (ProofGenerationFailed "Proving key not loaded") (pk_balance_proof keys);
  let circuit := balance_new (from_u64 balance) (bytes_to_fr balance_commitment)
    (from_u64 minimum_required) (bytes_to_fr blinding) in
  proof ← map_err ProofGenerationFailed (groth16_prove pk (balance_constraints circuit) rng);
  from_groth16 proof [bytes_to_fr balance_commitment; from_u64 minimum_required].

Inductive PendingProof :=
  | PendingPrivate (iv : Z) (ib ic : list Z) (ov : Z) (ob oc nf ns : list Z) (fee : Z)
  | PendingBalance (balance : Z) (commitment : list Z) (minimum : Z) (blinding : list Z).
(** [BatchProver]: the pending requests; the prover's keys do not change. *)
Definition batch_add (p : PendingProof) (pending : list PendingProof) : list PendingProof :=
  (pending ++ [p])%list.
Definition prove_pending (keys : ProvingKeys) (rng : ThreadRng) (p : PendingProof)
    : ZkpResult SerializedProof :=
  match p with
  | PendingPrivate iv ib ic ov ob oc nf ns fee =>
      prove_private_transaction keys rng iv ib ic ov ob oc nf ns fee
  | PendingBalance b c m bl => prove_balance keys rng b c m bl
  end.
(** The drain runs every request, whatever fails; a panic ends it. *)
Fixpoint drain_all {A} (l : list (ZkpResult A)) : ZkpResult (list (ZkpResult A)) :=
  match l with
  | [] => mret []
  | Panic :: _ => Panic
  | Blocked :: _ => Blocked
  | r :: l => rs ← drain_all l; mret (r :: rs)
  end.
(** Collecting [Result]s keeps the first error. *)
Definition collect_results {A} (l : list (ZkpResult A)) : ZkpResult (list A) := mapM id l.
Definition prove_all (keys : ProvingKeys) (rng : nat -> ThreadRng)
    : M (list PendingProof) ZkpError (list SerializedProof) :=
  pending ← get_state;
  put_state [] ;;
  let proofs := imap (fun i p => prove_pending keys (rng i) p) pending in
  lift (proofs ← drain_all proofs; collect_results proofs).

(** ** verifier.rs *)
Record VerifyingKeys := mkVerifyingKeys {
  vk_private_tx : option PreparedVerifyingKey;
  vk_balance_proof : option PreparedVerifyingKey;
  vk_compliance : option PreparedVerifyingKey
}.
Definition verifying_keys_new : VerifyingKeys := mkVerifyingKeys None None None.

Definition load_vk (bytes : list Z) : ZkpResult PreparedVerifyingKey :=
  vk ← map_err SerializationError (vk_deserialize bytes);
  map_err VerificationFailed (process_vk vk).
(** [map(load).transpose()?] *)
Definition load_optional (bytes : option (list Z)) : ZkpResult (option PreparedVerifyingKey) :=
  match bytes with
  | Some b => pvk ← load_vk b; mret (Some pvk)
  | None => mret None
  end.
Definition verifying_keys_from_bytes (private_tx balance_proof compliance : option (list Z))
    : ZkpResult VerifyingKeys :=
  p ← load_optional private_tx;
  b ← load_optional balance_proof;
  c ← load_optional compliance;
  mret (mkVerifyingKeys p b c).

(** [NullifierSet]: each call takes the lock once. *)
Definition NullifierSet := gset (list Z).
Definition nullifier_contains (s : NullifierSet) (n : list Z) : bool := bool_decide (n ∈ s).
Definition nullifier_insert (n : list Z) (s : NullifierSet) : NullifierSet * bool :=
  ({[n]} ∪ s, negb (bool_decide (n ∈ s))).
Definition nullifier_remove (n : list Z) (s : NullifierSet) : NullifierSet * bool :=
  (s ∖ {[n]}, bool_decide (n ∈ s)).
Definition nullifier_len (s : NullifierSet) : nat := size s.

Inductive ProofType := PT_PrivateTransaction | PT_BalanceProof | PT_Compliance | PT_MerkleInclusion.
Record VerificationResult := mkResult {
  valid : bool;
  proof_type : ProofType;
  result_nullifier : option (list Z);
  verification_time_us : Z
}.

Record Verifier := mkVerifier { keys : VerifyingKeys; nullifier_set : NullifierSet }.
Definition verifier_new (keys : VerifyingKeys) : Verifier := mkVerifier keys ∅.

Definition verify_private_transaction (v : Verifier) (proof : SerializedProof) (elapsed : Z)
    : ZkpResult VerificationResult :=
  pvk ← ok_or (VerificationFailed "Verifying key not loaded") (vk_private_tx (keys v));
  '(groth_proof, public_inputs) ← to_groth16 proof;
  let nullifier := fr_serialize <$> public_inputs !! 2%nat in
  match nullifier with
  | Some nf =>
      if nullifier_contains (nullifier_set v) nf then Err NullifierSpent else mret ()
  | None => mret ()
  end ;;
  valid ← map_err VerificationFailed (verify_with_processed_vk pvk public_inputs groth_proof);
  mret (mkResult valid PT_PrivateTransaction nullifier elapsed).
Definition verify_balance_proof (v : Verifier) (proof : SerializedProof) (elapsed : Z)
    : ZkpResult VerificationResult :=
  pvk ← ok_or (VerificationFailed "Verifying key not loaded") (vk_balance_proof (keys v));
  '(groth_proof, public_inputs) ← to_groth16 proof;
  valid ← map_err VerificationFailed (verify_with_processed_vk pvk public_inputs groth_proof);
  mret (mkResult valid PT_BalanceProof None elapsed).
Definition verify_compliance_proof (v : Verifier) (proof : SerializedProof) (elapsed : Z)
    : ZkpResult VerificationResult :=
  pvk ← ok_or (VerificationFailed "Verifying key not loaded") (vk_compliance (keys v));
  '(groth_proof, public_inputs) ← to_groth16 proof;
  valid ← map_err VerificationFailed (verify_with_processed_vk pvk public_inputs groth_proof);
  mret (mkResult valid PT_Compliance None elapsed).

Definition mark_nullifier_spent (n : list Z) (v : Verifier) : Verifier * bool :=
  let '(s, fresh) := nullifier_insert n (nullifier_set v) in (mkVerifier (keys v) s, fresh).
Definition rollback_nullifier (n : list Z) (v : Verifier) : Verifier * bool :=
  let '(s, present) := nullifier_remove n (nullifier_set v) in (mkVerifier (keys v) s, present).
Definition nullifier_count (v : Verifier) : nat := nullifier_len (nullifier_set v).

(** [BatchVerifier::verify_batch] *)
Definition verify_batch (v : Verifier) (proofs : list (SerializedProof * ProofType)) (elapsed : Z)
    : list (ZkpResult VerificationResult) :=
  (fun '(proof, ty) =>
    match ty with
    | PT_PrivateTransaction => verify_private_transaction v proof elapsed
    | PT_BalanceProof => verify_balance_proof v proof elapsed
    | PT_Compliance => verify_compliance_proof v proof elapsed
    | PT_MerkleInclusion => Err (VerificationFailed "Merkle verification not implemented")
    end) <$> proofs.

(** ** The precompile's calldata (module [precompile]) *)
Definition GROTH16_VERIFY_GAS : Z := 100000.
Definition BALANCE_PROOF_GAS : Z := 80000.
Definition COMPLIANCE_PROOF_GAS : Z := 120000.
Record Groth16VerifyInput := mkVerifyInput {
  gi_proof : list Z;
  gi_public_inputs : list (list Z);
  gi_vk_hash : list Z
}.

(** [data[a..b]] with [usize] bounds that may have wrapped *)
Definition slice64 {E} (data : list Z) (a b : Z) : outcome E (list Z) :=
  if (a <=? b) && (b <=? Z.of_nat (length data))
  then Ok (take (Z.to_nat (b - a)) (drop (Z.to_nat a) data)) else Panic.

(** The [num_inputs] chunks of 32 bytes *)
Fixpoint parse_inputs (n : nat) (data : list Z) : list (list Z) :=
  match n with
  | O => []
  | S n => take 32 data :: parse_inputs n (drop 32 data)
  end.

Definition from_calldata (data : list Z) : ZkpResult Groth16VerifyInput :=
  let len := Z.of_nat (length data) in
  if len <? 64 then Err (InvalidInput "Calldata too short")
  else
    vk_hash ← slice64 data 0 32;
    len_bytes ← slice64 data 32 40;
    let proof_len := from_be_bytes len_bytes in
    if len <? 40 +! proof_len then Err (InvalidInput "Invalid proof length")
    else
      proof ← slice64 data 40 (40 +! proof_len);
      inputs_data ← slice64 data (40 +! proof_len) len;
      let num_inputs := (length inputs_data / 32)%nat in
      mret (mkVerifyInput proof (parse_inputs num_inputs inputs_data) vk_hash).

Definition execute_verify (v : Verifier) (input : Groth16VerifyInput) (elapsed : Z)
    : ZkpResult (list Z) :=
  result ← verify_private_transaction v (mkSerialized (gi_proof input) (gi_public_inputs input)) elapsed;
  mret (replicate 31 0 ++ [if valid result then 1 else 0])%list.

(** ** trait_verifier.rs *)
(** [DefaultVerifier]: no method reaches the nullifier set of [inner]. *)
Definition DefaultVerifier := option Verifier.
Definition default_verifier : DefaultVerifier := None.
Definition with_keys (keys : VerifyingKeys) : DefaultVerifier := Some (verifier_new keys).
Definition default_verify (d : DefaultVerifier) (proof input : list Z) (elapsed : Z)
    : outcome ZkpError bool :=
  match d with
  | None => mret false
  | Some v =>
      if (length input mod 32 =? 0)%nat then
        let public_inputs := parse_inputs (length input / 32) input in
        match verify_private_transaction v (mkSerialized proof public_inputs) elapsed with
        | Ok r => mret (valid r)
        | Err _ => mret false
        | Panic => Panic
        | Blocked => Blocked
        end
      else mret false
  end.
End groth16.
