(* ===== verification/Groth16Props.v ===== *)
(** * What proving and verifying promise

    An honest proof is accepted end to end; spent nullifiers guard exactly the
    verification of private transactions, for whoever marks them; the calldata
    parser on every input; the raw-bytes bridge. *)
From stdpp Require Import base numbers list gmap strings.
From Stdlib Require Import ZArith Lia Field Zmod.
From S2P Require Import Prelude Slices Types Crypto ZkField Circuits CircuitsProps Groth16.
#[local] Open Scope Z_scope.

(** ** Calldata *)
Lemma slice64_ok {E} (data : list Z) a b : 0 <= a <= b -> b <= Z.of_nat (length data) ->
  @slice64 E data a b = Ok (take (Z.to_nat (b - a)) (drop (Z.to_nat a) data)).
Proof.
  intros Ha Hb. unfold slice64.
  by rewrite (proj2 (Z.leb_le a b)), (proj2 (Z.leb_le b _)) by lia.
Qed.
Lemma slice64_panic {E} (data : list Z) a b : b < a -> @slice64 E data a b = Panic.
Proof. intros Hab. unfold slice64. by rewrite (proj2 (Z.leb_gt a b)). Qed.
Lemma parse_inputs_app (inputs : list (list Z)) tail :
  Forall (fun i => length i = 32%nat) inputs ->
  parse_inputs (length inputs) (concat inputs ++ tail) = inputs.
Proof.
  induction 1 as [|i inputs Hi _ IH]; [done|]. cbn [length parse_inputs concat].
  rewrite <- app_assoc, take_app_length' by done. rewrite drop_app_length' by done. by rewrite IH.
Qed.
Lemma concat_length (inputs : list (list Z)) : Forall (fun i => length i = 32%nat) inputs ->
  length (concat inputs) = (32 * length inputs)%nat.
Proof.
  induction 1 as [|i inputs Hi _ IH]; [done|]. cbn [length concat]. rewrite length_app, IH, Hi. lia.
Qed.

Lemma calldata_word_range l : Forall is_byte l -> 0 <= from_be_bytes l < 256 ^ Z.of_nat (length l).
Proof.
  intros Hl. unfold from_be_bytes. rewrite <- (length_rev l).
  apply from_le_bytes_range. by apply Forall_rev.
Qed.

(** The calldata parser on every byte string, by its length and the
    eight-byte length field at offset 32: too short, a declared proof longer
    than the rest, a parse into exactly the parts, and a panic when
    [40 + proof_len] wraps past 2^64, which the bound check does not see. *)
Theorem from_calldata_cases data : Forall is_byte data -> Z.of_nat (length data) < B64 ->
  let len := Z.of_nat (length data) in
  let proof_len := from_be_bytes (take 8 (drop 32 data)) in
  (len < 64 -> from_calldata data = Err (InvalidInput "Calldata too short")) /\
  (64 <= len -> len - 40 < proof_len < B64 - 40 ->
    from_calldata data = Err (InvalidInput "Invalid proof length")) /\
  (64 <= len -> B64 - 40 <= proof_len -> from_calldata data = Panic) /\
  (64 <= len -> proof_len <= len - 40 ->
    let n := Z.to_nat proof_len in
    let rest := drop (40 + n) data in
    from_calldata data =
      Ok (mkVerifyInput (take n (drop 40 data)) (parse_inputs (length rest / 32) rest) (take 32 data))).
Proof.
  intros Hb Hlen len proof_len.
  assert (Hpre : 64 <= len -> from_calldata data =
    (if len <? 40 +! proof_len then Err (InvalidInput "Invalid proof length")
     else
       proof ← slice64 data 40 (40 +! proof_len);
       inputs_data ← slice64 data (40 +! proof_len) len;
       mret (mkVerifyInput proof (parse_inputs (length inputs_data / 32) inputs_data)
               (take 32 data)))).
  { intros Hge. unfold from_calldata. fold len.
    destruct (Z.ltb_spec len 64); [lia|].
    rewrite (slice64_ok data 0 32), (slice64_ok data 32 40) by (fold len; lia). reflexivity. }
  assert (Hr : 64 <= len -> 0 <= proof_len < B64).
  { intros Hge. unfold proof_len.
    pose proof (calldata_word_range (take 8 (drop 32 data))) as R.
    rewrite length_take, length_drop in R.
    replace (8 `min` (length data - 32))%nat with 8%nat in R by lia.
    apply R. by apply Forall_take, Forall_drop. }
  split; [|split; [|split]].
  - intros Hlt. unfold from_calldata. fold len. by rewrite (proj2 (Z.ltb_lt _ _)).
  - intros Hge [Hlo Hhi]. rewrite Hpre by done. specialize (Hr Hge).
    rewrite add64_small by lia. by rewrite (proj2 (Z.ltb_lt _ _)) by lia.
  - intros Hge Hlo. rewrite Hpre by done. specialize (Hr Hge).
    assert (Hw : 40 +! proof_len = 40 + proof_len - B64).
    { unfold add64. symmetry. apply (Z.mod_unique _ _ 1); lia. }
    rewrite Hw. destruct (Z.ltb_spec len (40 + proof_len - B64)); [lia|].
    rewrite (slice64_panic data 40) by lia. done.
  - intros Hge Hle n rest. rewrite Hpre by done. specialize (Hr Hge).
    rewrite add64_small by lia. destruct (Z.ltb_spec len (40 + proof_len)); [lia|].
    rewrite !slice64_ok by (fold len; lia). cbn [mbind outcome_bind].
    rewrite (take_ge (drop (Z.to_nat (40 + proof_len)) data)) by (rewrite length_drop; lia).
    replace (Z.to_nat (40 + proof_len)) with (40 + n)%nat by lia.
    by replace (Z.to_nat (40 + proof_len - 40)) with n by lia.
Qed.

(** The encoding that the parser reads. *)
Definition to_calldata (input : Groth16VerifyInput) : list Z :=
  (gi_vk_hash input ++ to_be_bytes 8 (Z.of_nat (length (gi_proof input))) ++
   gi_proof input ++ concat (gi_public_inputs input))%list.

(** Parsing inverts the encoding, for every proof and every list of 32-byte
    public inputs whose encoding reaches the 64 bytes that the parser demands. *)
Theorem calldata_roundtrip input :
  length (gi_vk_hash input) = 32%nat -> Forall (fun i => length i = 32%nat) (gi_public_inputs input) ->
  Forall is_byte (to_calldata input) -> 64 <= Z.of_nat (length (to_calldata input)) < B64 ->
  from_calldata (to_calldata input) = Ok input.
Proof.
  intros Hvk Hin Hb Hlen. destruct input as [proof inputs vk]. cbn [gi_proof gi_public_inputs gi_vk_hash] in *.
  destruct (from_calldata_cases (to_calldata (mkVerifyInput proof inputs vk)) Hb ltac:(lia))
    as (_ & _ & _ & H).
  unfold to_calldata in *. cbn [gi_proof gi_public_inputs gi_vk_hash] in *.
  set (lenb := to_be_bytes 8 (Z.of_nat (length proof))) in *.
  assert (Hlb : length lenb = 8%nat) by apply to_be_bytes_length.
  assert (Htot : length (vk ++ lenb ++ proof ++ concat inputs) =
    (40 + length proof + 32 * length inputs)%nat).
  { rewrite !length_app, concat_length, Hlb, Hvk by done. lia. }
  rewrite (drop_app_length' vk) in H by done. rewrite (take_app_length' lenb) in H by done.
  assert (Hval : from_be_bytes lenb = Z.of_nat (length proof)).
  { apply from_to_be_bytes. change (256 ^ Z.of_nat 8) with B64. lia. }
  rewrite Hval, Htot in H. rewrite Htot in Hlen. specialize (H ltac:(lia) ltac:(lia)). rewrite H. f_equal. rewrite Nat2Z.id.
  assert (D40 : forall k, drop (40 + k) (vk ++ lenb ++ proof ++ concat inputs) =
    drop k (proof ++ concat inputs)).
  { intros k. rewrite <- drop_drop, app_assoc, drop_app_length'; [done|]. rewrite length_app. lia. }
  pose proof (D40 0%nat) as D0. rewrite Nat.add_0_r, drop_0 in D0.
  rewrite D0, D40, take_app_length, drop_app_length, (take_app_length' vk) by done. f_equal.
  rewrite concat_length by done. rewrite Nat.mul_comm, Nat.div_mul by done.
  pose proof (parse_inputs_app inputs [] Hin) as P. by rewrite app_nil_r in P.
Qed.

(** ** Nullifiers *)
Section verifier.
Context `{FL : FieldLib} {R1 : @R1csLib FL} {G16 : @Groth16Lib FL R1}.
Implicit Types (v : Verifier) (sp : SerializedProof).

(** The nullifier that a serialized proof carries: its third public input. *)
Definition carried_nullifier sp : ZkpResult (option (list Z)) :=
  '(_, inputs) ← to_groth16 sp; mret (fr_serialize <$> inputs !! 2%nat).

Definition is_spent_error (r : ZkpResult VerificationResult) : Prop := r = Err NullifierSpent.

Lemma map_err_not_spent {A} (f : string -> ZkpError) (o : outcome string A) :
  (forall s, f s <> NullifierSpent) -> map_err f o <> Err NullifierSpent.
Proof. intros Hf. destruct o; try done. intros E. injection E as E. by apply (Hf e). Qed.
Lemma mapM_decode_not_spent (l : list (list Z)) :
  mapM (fun bytes => ok_or (SerializationError (fr_error bytes)) (fr_deserialize bytes)) l
    <> Err NullifierSpent.
Proof.
  induction l as [|b l IH]; [done|]. cbn [mapM]. unfold ok_or at 1.
  destruct (fr_deserialize b); [|done]. cbn [mbind outcome_bind].
  by destruct (mapM _ l) as [|[]| |].
Qed.
Lemma to_groth16_not_spent sp : to_groth16 sp <> Err NullifierSpent.
Proof.
  unfold to_groth16.
  pose proof (map_err_not_spent SerializationError (proof_deserialize (proof_bytes sp)) ltac:(done)) as H.
  destruct (map_err _ _) as [p|e| |]; cbn [mbind outcome_bind]; [|congruence|done..].
  pose proof (mapM_decode_not_spent (public_inputs sp)) as Hm.
  destruct (mapM _ _); cbn [mbind outcome_bind]; congruence || done.
Qed.

(** A verification is refused for its nullifier exactly when a key is loaded,
    the proof decodes, and the nullifier it carries is in the set. *)
Lemma spent_exact v sp t :
  verify_private_transaction v sp t = Err NullifierSpent <->
  is_Some (vk_private_tx (keys v)) /\
  exists n, carried_nullifier sp = Ok (Some n) /\ n ∈ nullifier_set v.
Proof.
  unfold verify_private_transaction, carried_nullifier, nullifier_contains.
  destruct (vk_private_tx (keys v)) as [pvk|]; cbn [ok_or mbind outcome_bind];
    [|split; [done|by intros [[] _]]].
  pose proof (to_groth16_not_spent sp) as Hns.
  destruct (to_groth16 sp) as [[p inputs]|e| |]; cbn [mbind outcome_bind];
    [|split; [congruence|by intros [_ (n & ? & _)]]..].
  destruct (inputs !! 2%nat) as [x|] eqn:Ex; cbn [fmap option_fmap option_map].
  - case_bool_decide as Hin; cbn [mbind outcome_bind].
    + split; [|done]. intros _. split; [done|]. eauto.
    + pose proof (map_err_not_spent VerificationFailed
        (verify_with_processed_vk pvk inputs p) ltac:(done)) as Hv.
      destruct (map_err _ _); cbn [mbind outcome_bind mret outcome_ret];
        (split; [intros E; first [discriminate E | injection E as ->; by destruct Hv]|
         intros [_ (n & [= <-] & ?)]; done]).
  - pose proof (map_err_not_spent VerificationFailed
      (verify_with_processed_vk pvk inputs p) ltac:(done)) as Hv.
    destruct (map_err _ _); cbn [mbind outcome_bind mret outcome_ret];
      (split; [intros E; first [discriminate E | injection E as ->; by destruct Hv]|
         intros [_ (n & ? & ?)]; done]).
Qed.

(** The calls that a client makes on a verifier. *)
Inductive verifier_call :=
  | Verify (sp : SerializedProof) (t : Z)
  | Mark (n : list Z)
  | Rollback (n : list Z).
Definition after_call v (c : verifier_call) : Verifier :=
  match c with
  | Verify sp t => v
  | Mark n => (mark_nullifier_spent n v).1
  | Rollback n => (rollback_nullifier n v).1
  end.
(** [n] was marked, and not rolled back since. *)
Fixpoint spent_after (n : list Z) (calls : list verifier_call) (spent : bool) : bool :=
  match calls with
  | [] => spent
  | c :: calls =>
      spent_after n calls
        match c with
        | Verify _ _ => spent
        | Mark m => bool_decide (m = n) || spent
        | Rollback m => negb (bool_decide (m = n)) && spent
        end
  end.
Lemma after_calls_spec n calls v :
  n ∈ nullifier_set (foldl after_call v calls) <->
  spent_after n calls (bool_decide (n ∈ nullifier_set v)) = true.
Proof.
  revert v. induction calls as [|c calls IH]; intros v; cbn [foldl spent_after].
  - by rewrite bool_decide_eq_true.
  - rewrite IH. f_equiv. f_equal. apply eq_true_iff_eq.
    destruct c; cbn [after_call mark_nullifier_spent rollback_nullifier nullifier_insert
      nullifier_remove fst nullifier_set]; [done|..];
      rewrite ?orb_true_iff, ?andb_true_iff, ?negb_true_iff, ?bool_decide_eq_true, ?bool_decide_eq_false,
        ?elem_of_union, ?elem_of_difference, ?elem_of_singleton; intuition congruence.
Qed.
Lemma after_calls_keys calls v : keys (foldl after_call v calls) = keys v.
Proof.
  revert v. induction calls as [|c calls IH]; intros v; [done|]. simpl. rewrite IH. by destruct c.
Qed.

(** C19: the verifier refuses a private transaction as a double spend exactly
    when its nullifier was marked and not rolled back since: in every history
    of verifications, marks and rollbacks on a verifier with a loaded key, for
    every proof that decodes.  Verifying marks nothing, so without a call of
    [mark_nullifier_spent] the same proof passes again. *)
Theorem double_spend_guard vks pvk calls sp n t : vk_private_tx vks = Some pvk ->
  carried_nullifier sp = Ok (Some n) ->
  verify_private_transaction (foldl after_call (verifier_new vks) calls) sp t = Err NullifierSpent <->
  spent_after n calls false = true.
Proof.
  intros Hk Hn. rewrite spent_exact, after_calls_keys. cbn [verifier_new keys]. rewrite Hk.
  pose proof (after_calls_spec n calls (verifier_new vks)) as Hs.
  rewrite bool_decide_false in Hs by (cbn; set_solver). rewrite <- Hs. split.
  - intros [_ (m & Hm & Hin)]. rewrite Hn in Hm. by injection Hm as <-.
  - intros Hin. split; [done|]. eauto.
Qed.

(** The raw-bytes bridge answers [true] exactly when keys are loaded, the
    input is a whole number of 32-byte elements, everything decodes and Groth16
    accepts: it never accepts without keys, and since nothing marks its
    nullifiers it gives one proof the same answer every time. *)
Theorem default_verify_exact (d : DefaultVerifier) proof input t :
  (forall v, d = Some v -> nullifier_set v = ∅) ->
  default_verify d proof input t = Ok true <->
  exists v pvk p inputs, d = Some v /\ vk_private_tx (keys v) = Some pvk /\
    (length input mod 32 = 0)%nat /\
    to_groth16 (mkSerialized proof (parse_inputs (length input / 32) input)) = Ok (p, inputs) /\
    verify_with_processed_vk pvk inputs p = Ok true.
Proof.
  intros Hd. unfold default_verify. destruct d as [v|]; [|split; [done|by intros (?&?&?&?&?&_)]].
  specialize (Hd v eq_refl).
  destruct (Nat.eqb_spec (length input mod 32) 0) as [Hm|Hm];
    [|split; [done|by intros (?&?&?&?&_&_&?&_)]].
  unfold verify_private_transaction, nullifier_contains. rewrite Hd.
  destruct (vk_private_tx (keys v)) as [pvk|] eqn:Hk; cbn [ok_or mbind outcome_bind];
    [|split; [done|intros (v' & ? & ? & ? & [= <-] & ? & _); congruence]].
  destruct (to_groth16 _) as [[p inputs]|e| |] eqn:E; cbn [mbind outcome_bind];
    [|split; [done|intros (v' & ? & ? & ? & _ & _ & _ & ? & _); congruence]..].
  destruct (inputs !! 2%nat) as [x|]; cbn [fmap option_fmap option_map];
    [case_bool_decide as Hin; [by apply not_elem_of_empty in Hin|]|]; cbn [mbind outcome_bind];
    destruct (verify_with_processed_vk pvk inputs p) as [[]|e| |] eqn:Ev;
    cbn [map_err mbind outcome_bind mret outcome_ret valid];
    (split; [intros Ht|intros (v' & pvk' & p' & i' & [= <-] & Hk' & _ & [= <- <-] & ?); first [reflexivity | congruence]]);
    first [discriminate Ht | by exists v, pvk, p, inputs].
Qed.
End verifier.

(** ** From the prover to the verifier *)
Section honest.
Context `{FL : FieldLib} {laws : @FieldLaws FL} {R1 : @R1csLib FL} {rlaws : @R1csLaws FL R1}
  {G16 : @Groth16Lib FL R1}.
#[local] Open Scope field_scope.

(** Completeness of Groth16 for the private-transaction circuit: a proof of a
    satisfied synthesis exists, survives its encoding, and is accepted with the
    public inputs of that synthesis. *)
Definition groth16_complete (fresh : CS) (pk : ProvingKey) (pvk : PreparedVerifyingKey) : Prop :=
  forall c cs' rng, private_tx_constraints c fresh = (cs', Ok ()) -> is_satisfied cs' = true ->
    exists pi bytes, groth16_prove pk (private_tx_constraints c) rng = Ok pi /\
      proof_serialize pi = Ok bytes /\ proof_deserialize bytes = Ok pi /\
      verify_with_processed_vk pvk (instance_assignment cs') pi = Ok true.

Lemma decode_serialized (xs : list Fr) :
  mapM (fun bytes => ok_or (SerializationError (fr_error bytes)) (fr_deserialize bytes))
    (fr_serialize <$> xs) = Ok xs.
Proof.
  induction xs as [|x xs IH]; [done|]. rewrite fmap_cons. cbn [mapM].
  rewrite fr_serialize_deserialize. cbn [ok_or mbind outcome_bind]. by rewrite IH.
Qed.

(** C20: a private transaction whose amounts balance and whose commitments and
    nullifier are the circuit's sums is proved and accepted end to end, through
    both encodings; the verifier reports the nullifier of the circuit, and once
    that is marked the same proof is a double spend. *)
Theorem honest_transaction_verifies pkeys vks pk pvk fresh rng iv ib ic ov ob oc nf ns fee t :
  pk_private_tx pkeys = Some pk -> vk_private_tx vks = Some pvk ->
  groth16_complete fresh pk pvk ->
  in_setup_mode fresh = false -> is_satisfied fresh = true -> instance_assignment fresh = [] ->
  (0 <= ov)%Z -> (0 <= fee)%Z -> (iv = ov + fee)%Z -> (iv < B64)%Z ->
  bytes_to_fr ic = from_u64 iv + bytes_to_fr ib ->
  bytes_to_fr oc = from_u64 ov + bytes_to_fr ob ->
  bytes_to_fr nf = bytes_to_fr ic + bytes_to_fr ns ->
  let n := fr_serialize (bytes_to_fr nf) in
  exists sp, prove_private_transaction pkeys rng iv ib ic ov ob oc nf ns fee = Ok sp /\
    verify_private_transaction (verifier_new vks) sp t =
      Ok (mkResult true PT_PrivateTransaction (Some n) t) /\
    verify_private_transaction (mark_nullifier_spent n (verifier_new vks)).1 sp t =
      Err NullifierSpent.
Proof.
  intros Hpk Hvk Hcomp Hm Hsat Hinst Hov Hfee Hiv Hlt Hic Hoc Hnf n.
  set (c := private_tx_new (from_u64 iv) (bytes_to_fr ib) (bytes_to_fr ic) (from_u64 ov)
    (bytes_to_fr ob) (bytes_to_fr oc) (bytes_to_fr nf) (bytes_to_fr ns) (from_u64 fee)).
  destruct (private_tx_exact (from_u64 iv) (bytes_to_fr ib) (bytes_to_fr ic) (from_u64 ov)
    (bytes_to_fr ob) (bytes_to_fr oc) (bytes_to_fr nf) (bytes_to_fr ns) (from_u64 fee) fresh Hm)
    as (cs' & E & Hs & Hi).
  rewrite Hsat, Hinst, !bool_decide_true in *; try done; [|subst iv; apply from_u64_add; lia].
  destruct (Hcomp c cs' rng E Hs) as (pi & bytes & Ep & Es & Ed & Ev).
  set (inputs := [bytes_to_fr ic; bytes_to_fr oc; bytes_to_fr nf; from_u64 fee]) in *.
  exists (mkSerialized bytes (fr_serialize <$> inputs)).
  assert (Et : to_groth16 (mkSerialized bytes (fr_serialize <$> inputs)) = Ok (pi, inputs)).
  { unfold to_groth16. cbn [proof_bytes public_inputs]. rewrite Ed.
    cbn [map_err mbind outcome_bind]. by rewrite decode_serialized. }
  split; [|split].
  - unfold prove_private_transaction. rewrite Hpk. cbn [ok_or mbind outcome_bind].
    fold c. rewrite Ep. cbn [map_err mbind outcome_bind]. unfold from_groth16. by rewrite Es.
  - unfold verify_private_transaction. cbn [verifier_new keys nullifier_set]. rewrite Hvk.
    cbn [ok_or mbind outcome_bind]. rewrite Et. cbn [mbind outcome_bind].
    change (fr_serialize <$> inputs !! 2%nat) with (Some n). cbv iota.
    unfold nullifier_contains. rewrite bool_decide_false by apply not_elem_of_empty.
    cbn [mbind outcome_bind mret outcome_ret]. rewrite Hi in Ev. simpl app in Ev. fold inputs in Ev. rewrite Ev. done.
  - apply spent_exact. split; [change (is_Some (vk_private_tx vks)); rewrite Hvk; eauto|]. exists n. split.
    + unfold carried_nullifier. by rewrite Et.
    + cbn. set_solver.
Qed.
End honest.

(** ** Evaluations *)
Module Sample.
Import CircuitsProps.Sample.
#[local] Existing Instance f17.
#[local] Existing Instance f17_laws.
#[local] Existing Instance toy_r1cs.
#[local] Existing Instance toy_laws.

(** A proof system whose proof is the list of public inputs of a satisfied
    synthesis. *)
Definition fresh : Toy := mkToy false true [].
#[local] Instance toy_groth16 : @Groth16Lib f17 toy_r1cs := {|
  ProvingKey := (); VerifyingKey := (); PreparedVerifyingKey := ();
  Proof := list (Zmod 17); ThreadRng := ();
  circuit_specific_setup _ _ := Ok ((), ());
  groth16_prove _ c _ :=
    match c fresh with
    | (cs, Ok _) => if toy_sat cs then Ok (toy_inputs cs) else Err "unsatisfied"
    | _ => Err "no assignment"
    end;
  process_vk _ := Ok ();
  verify_with_processed_vk _ inputs pi := Ok (bool_decide (Zmod.unsigned <$> inputs = Zmod.unsigned <$> pi));
  proof_serialize pi := Ok (Zmod.unsigned <$> pi);
  proof_deserialize l := Ok (Zmod.of_Z 17 <$> l);
  vk_deserialize _ := Ok (); pk_serialize _ := Ok [];
  fr_error _ := "the input buffer contained invalid data"
|}.
Lemma toy_complete : groth16_complete (G16 := toy_groth16) fresh () ().
Proof.
  intros c cs' rng E Hs. exists (toy_inputs cs'), (Zmod.unsigned <$> toy_inputs cs').
  cbn [groth16_prove toy_groth16 proof_serialize proof_deserialize verify_with_processed_vk].
  split; [|split; [done|split]].
  - rewrite E. change (toy_sat cs' = true) in Hs. by rewrite Hs.
  - f_equal. rewrite <- list_fmap_compose. rewrite <- (list_fmap_id (toy_inputs cs')) at 2.
    apply list_fmap_ext. intros _ x _. simpl. apply Zmod.of_Z_to_Z.
  - f_equal. by apply bool_decide_eq_true.
Qed.

Definition element (n : Z) : list Z := to_le_bytes 32 n.
Definition loaded_pk : @ProvingKeys f17 toy_r1cs toy_groth16 := mkProvingKeys (Some ()) None None.
Definition loaded_vk : @VerifyingKeys f17 toy_r1cs toy_groth16 := mkVerifyingKeys (Some ()) None None.

(** 10 = 7 + 3, commitments 12 and 9, nullifier 16. *)
Lemma honest_transaction_verifies_witness : exists sp,
  prove_private_transaction loaded_pk () 10 (element 2) (element 12) 7 (element 2) (element 9)
    (element 16) (element 4) 3 = Ok sp /\
  verify_private_transaction (verifier_new loaded_vk) sp 0 =
    Ok (mkResult true PT_PrivateTransaction (Some (element 16)) 0).
Proof.
  destruct (honest_transaction_verifies (G16 := toy_groth16) loaded_pk loaded_vk () () fresh ()
    10 (element 2) (element 12) 7 (element 2) (element 9) (element 16) (element 4) 3 0
    eq_refl eq_refl toy_complete eq_refl eq_refl eq_refl) as (sp & Ep & Ev & _);
    [lia|lia|lia|lia|reflexivity|reflexivity|reflexivity|].
  exists sp. split; [exact Ep|exact Ev].
Defined.

Lemma double_spend_guard_witness :
  let sp := mkSerialized [1] [element 1; element 2; element 3] in
  let marked := [Verify sp 0; Mark (element 3); Verify sp 0] in
  verify_private_transaction (foldl after_call (verifier_new loaded_vk) marked) sp 0 =
    Err NullifierSpent.
Proof.
  intros sp marked.
  apply (double_spend_guard loaded_vk () marked sp (element 3) 0); vm_compute; reflexivity.
Defined.

Lemma default_verify_exact_witness :
  default_verify (with_keys loaded_vk) [1; 2] (element 1 ++ element 2) 0 = Ok true.
Proof.
  apply (default_verify_exact (with_keys loaded_vk)).
  - intros v [= <-]. done.
  - exists (verifier_new loaded_vk), (), [Zmod.of_Z 17 1; Zmod.of_Z 17 2], [Zmod.of_Z 17 1; Zmod.of_Z 17 2].
    repeat split; vm_compute; reflexivity.
Defined.

Lemma bytes_by_check l : forallb (fun b => (0 <=? b) && (b <? 256)) l = true -> Forall is_byte l.
Proof.
  rewrite forallb_forall, Forall_forall. intros Hl b Hb%list_elem_of_In%Hl. unfold is_byte. lia.
Qed.
Definition calldata : list Z := to_calldata (mkVerifyInput [1; 2; 3] [replicate 32 7] (replicate 32 9)).
Lemma calldata_roundtrip_witness :
  from_calldata calldata = Ok (mkVerifyInput [1; 2; 3] [replicate 32 7] (replicate 32 9)).
Proof.
  apply (calldata_roundtrip (mkVerifyInput [1; 2; 3] [replicate 32 7] (replicate 32 9))).
  - reflexivity.
  - by repeat constructor.
  - apply bytes_by_check. vm_compute. reflexivity.
  - vm_compute. split; [discriminate|reflexivity].
Defined.

(** A length field of 2^64 - 1 panics. *)
Lemma from_calldata_cases_witness :
  from_calldata (replicate 32 9 ++ replicate 40 255) = Panic.
Proof.
  apply (from_calldata_cases (replicate 32 9 ++ replicate 40 255)).
  - apply bytes_by_check. vm_compute. reflexivity.
  - vm_compute. reflexivity.
  - vm_compute. discriminate.
  - vm_compute. discriminate.
Defined.
End Sample.
