(* ===== verification/Iso20022.v ===== *)
(** * ISO 20022 messages (crates/nexus-iso/src/iso20022.rs)

    The message types, field by field: the fields of a struct keep their names
    behind the initials of the struct.  Strings are their UTF-8 bytes.  XML is
    read and written by quick-xml, a third-party crate driven by serde
    attributes: [XmlLib].  The clock and the random bytes are arguments. *)
From stdpp Require Import base numbers list strings.
From Stdlib Require Import ZArith Lia.
From S2P Require Import Prelude Slices Text Crypto Iso8583.
#[local] Open Scope Z_scope.

(** [String] *)
Definition text : Type := list Z.

Record ClearingSystemId := mkClearingSystemId {
  csi_code : option text;
  csi_proprietary : option text
}.
Record ClearingSystemMemberId := mkClearingSystemMemberId {
  csmi_clearing_system_id : option ClearingSystemId;
  csmi_member_id : text
}.
Record FinancialInstitutionId := mkFinancialInstitutionId {
  fii_bic : option text;
  fii_clearing_system_member_id : option ClearingSystemMemberId;
  fii_lei : option text
}.
Record SchemeName := mkSchemeName {
  sn_code : option text;
  sn_proprietary : option text
}.
Record GenericId := mkGenericId {
  gi_id : text;
  gi_scheme_name : option SchemeName
}.
Record OrganizationId := mkOrganizationId {
  oi_name : option text;
  oi_lei : option text;
  oi_other : option (list GenericId)
}.
Record Party := mkParty {
  p_fi_id : option FinancialInstitutionId;
  p_org_id : option OrganizationId
}.
Record AppHeader := mkAppHeader {
  ah_from : Party;
  ah_to : Party;
  ah_business_message_id : text;
  ah_message_definition_id : text;
  ah_creation_date : text
}.
Record Amount := mkAmount {
  a_currency : text;
  a_value : text
}.
Record AccountId := mkAccountId {
  ai_iban : option text;
  ai_other : option GenericId
}.
Record SettlementInfo := mkSettlementInfo {
  si_settlement_method : text;
  si_settlement_account : option AccountId
}.
Record GroupHeader := mkGroupHeader {
  gh_message_id : text;
  gh_creation_date_time : text;
  gh_number_of_transactions : Z;
  gh_total_amount : option Amount;
  gh_settlement_date : option text;
  gh_settlement_info : option SettlementInfo;
  gh_instructing_agent : option FinancialInstitutionId;
  gh_instructed_agent : option FinancialInstitutionId
}.
Record PaymentId := mkPaymentId {
  pi_instruction_id : option text;
  pi_end_to_end_id : text;
  pi_transaction_id : option text;
  pi_uetr : option text
}.
Record ServiceLevel := mkServiceLevel {
  sl_code : option text;
  sl_proprietary : option text
}.
Record LocalInstrument := mkLocalInstrument {
  li_code : option text;
  li_proprietary : option text
}.
Record CategoryPurpose := mkCategoryPurpose {
  cp_code : option text;
  cp_proprietary : option text
}.
Record PaymentTypeInfo := mkPaymentTypeInfo {
  pti_instruction_priority : option text;
  pti_clearing_channel : option text;
  pti_service_level : option ServiceLevel;
  pti_local_instrument : option LocalInstrument;
  pti_category_purpose : option CategoryPurpose
}.
Record PostalAddress := mkPostalAddress {
  pa_street_name : option text;
  pa_building_number : option text;
  pa_postal_code : option text;
  pa_town_name : option text;
  pa_country_subdivision : option text;
  pa_country : option text;
  pa_address_lines : option (list text)
}.
Record DateAndPlaceOfBirth := mkDateAndPlaceOfBirth {
  dapob_birth_date : text;
  dapob_city_of_birth : option text;
  dapob_country_of_birth : option text
}.
Record PrivateId := mkPrivateId {
  pia_date_and_place_of_birth : option DateAndPlaceOfBirth;
  pia_other : option (list GenericId)
}.
Record PartyIdentification := mkPartyIdentification {
  pit_org_id : option OrganizationId;
  pit_private_id : option PrivateId
}.
Record PartyInfo := mkPartyInfo {
  piy_name : option text;
  piy_postal_address : option PostalAddress;
  piy_id : option PartyIdentification
}.
Record CodeOrProprietary := mkCodeOrProprietary {
  cop_code : option text;
  cop_proprietary : option text
}.
Record ReferredDocumentType := mkReferredDocumentType {
  rdt_code_or_proprietary : CodeOrProprietary
}.
Record ReferredDocumentInfo := mkReferredDocumentInfo {
  rdi_doc_type : option ReferredDocumentType;
  rdi_number : option text;
  rdi_related_date : option text
}.
Record ReferredDocumentAmount := mkReferredDocumentAmount {
  rda_due_payable_amount : option Amount;
  rda_remitted_amount : option Amount
}.
Record CreditorReferenceType := mkCreditorReferenceType {
  crt_code_or_proprietary : CodeOrProprietary
}.
Record CreditorReferenceInfo := mkCreditorReferenceInfo {
  cri_ref_type : option CreditorReferenceType;
  cri_reference : option text
}.
Record StructuredRemittanceInfo := mkStructuredRemittanceInfo {
  sri_referred_document_info : option ReferredDocumentInfo;
  sri_referred_document_amount : option ReferredDocumentAmount;
  sri_creditor_reference_info : option CreditorReferenceInfo
}.
Record RemittanceInfo := mkRemittanceInfo {
  ri_unstructured : option (list text);
  ri_structured : option (list StructuredRemittanceInfo)
}.
Record CreditTransferTransaction := mkCreditTransferTransaction {
  ctt_payment_id : PaymentId;
  ctt_payment_type_info : option PaymentTypeInfo;
  ctt_interbank_settlement_amount : Amount;
  ctt_instructed_amount : option Amount;
  ctt_charge_bearer : option text;
  ctt_debtor : PartyInfo;
  ctt_debtor_account : AccountId;
  ctt_debtor_agent : FinancialInstitutionId;
  ctt_creditor_agent : FinancialInstitutionId;
  ctt_creditor : PartyInfo;
  ctt_creditor_account : AccountId;
  ctt_remittance_info : option RemittanceInfo
}.
Record CreditTransferMessage := mkCreditTransferMessage {
  ctm_group_header : GroupHeader;
  ctm_credit_transfer_transactions : list CreditTransferTransaction
}.
Record StatusGroupHeader := mkStatusGroupHeader {
  sgh_message_id : text;
  sgh_creation_date_time : text;
  sgh_instructing_agent : option FinancialInstitutionId;
  sgh_instructed_agent : option FinancialInstitutionId
}.
Record StatusReason := mkStatusReason {
  sr_code : option text;
  sr_proprietary : option text
}.
Record StatusReasonInfo := mkStatusReasonInfo {
  sria_reason : option StatusReason;
  sria_additional_info : option (list text)
}.
Record OriginalGroupInfo := mkOriginalGroupInfo {
  ogi_original_message_id : text;
  ogi_original_message_name_id : text;
  ogi_original_creation_date_time : option text;
  ogi_group_status : option text;
  ogi_status_reason_info : option (list StatusReasonInfo)
}.
Record TransactionStatus := mkTransactionStatus {
  ts_original_instruction_id : option text;
  ts_original_end_to_end_id : option text;
  ts_original_transaction_id : option text;
  ts_transaction_status : option text;
  ts_status_reason_info : option (list StatusReasonInfo)
}.
Record PaymentStatusMessage := mkPaymentStatusMessage {
  psm_group_header : StatusGroupHeader;
  psm_original_group_info : option OriginalGroupInfo;
  psm_transaction_info_and_status : option (list TransactionStatus)
}.
Record StatementGroupHeader := mkStatementGroupHeader {
  sghr_message_id : text;
  sghr_creation_date_time : text;
  sghr_message_recipient : option PartyInfo
}.
Record Pagination := mkPagination {
  paa_page_number : text;
  paa_last_page_indicator : bool
}.
Record FromToDate := mkFromToDate {
  ftd_from_date_time : text;
  ftd_to_date_time : text
}.
Record AccountType := mkAccountType {
  at_code : option text;
  at_proprietary : option text
}.
Record CashAccount := mkCashAccount {
  ca_id : AccountId;
  ca_account_type : option AccountType;
  ca_currency : option text;
  ca_name : option text;
  ca_owner : option PartyInfo;
  ca_servicer : option FinancialInstitutionId
}.
Record BalanceType := mkBalanceType {
  bt_code_or_proprietary : CodeOrProprietary
}.
Record BalanceDate := mkBalanceDate {
  bd_date : option text;
  bd_date_time : option text
}.
Record Balance := mkBalance {
  b_balance_type : BalanceType;
  b_amount : Amount;
  b_credit_debit_indicator : text;
  b_date : BalanceDate
}.
Record TotalEntries := mkTotalEntries {
  te_number_of_entries : option Z;
  te_sum : option text
}.
Record TransactionsSummary := mkTransactionsSummary {
  tso_total_entries : option TotalEntries;
  tso_total_credit_entries : option TotalEntries;
  tso_total_debit_entries : option TotalEntries
}.
Record EntryStatus := mkEntryStatus {
  es_code : option text;
  es_proprietary : option text
}.
Record DomainFamily := mkDomainFamily {
  df_code : text;
  df_sub_family_code : text
}.
Record Domain := mkDomain {
  d_code : text;
  d_family : DomainFamily
}.
Record ProprietaryCode := mkProprietaryCode {
  pc_code : text;
  pc_issuer : option text
}.
Record BankTransactionCode := mkBankTransactionCode {
  btc_domain : option Domain;
  btc_proprietary : option ProprietaryCode
}.
Record TransactionReferences := mkTransactionReferences {
  tr_message_id : option text;
  tr_end_to_end_id : option text;
  tr_transaction_id : option text;
  tr_uetr : option text
}.
Record RelatedParties := mkRelatedParties {
  rp_debtor : option PartyInfo;
  rp_debtor_account : option AccountId;
  rp_creditor : option PartyInfo;
  rp_creditor_account : option AccountId
}.
Record TransactionDetails := mkTransactionDetails {
  td_references : option TransactionReferences;
  td_amount : option Amount;
  td_related_parties : option RelatedParties;
  td_remittance_info : option RemittanceInfo
}.
Record EntryDetails := mkEntryDetails {
  ed_transaction_details : option (list TransactionDetails)
}.
Record Entry := mkEntry {
  e_amount : Amount;
  e_credit_debit_indicator : text;
  e_status : option EntryStatus;
  e_booking_date : option BalanceDate;
  e_value_date : option BalanceDate;
  e_bank_transaction_code : option BankTransactionCode;
  e_entry_details : option (list EntryDetails)
}.
Record Statement := mkStatement {
  s_id : text;
  s_pagination : option Pagination;
  s_electronic_sequence_number : option Z;
  s_creation_date_time : text;
  s_from_to_date : option FromToDate;
  s_account : CashAccount;
  s_balances : list Balance;
  s_transactions_summary : option TransactionsSummary;
  s_entries : option (list Entry)
}.
Record StatementMessage := mkStatementMessage {
  sm_group_header : StatementGroupHeader;
  sm_statements : list Statement
}.

(** An untagged enum: quick-xml tries the variants in this order. *)
Inductive Iso20022Message :=
  | IM_CreditTransfer (m : CreditTransferMessage)
  | IM_PaymentStatus (m : PaymentStatusMessage)
  | IM_Statement (m : StatementMessage).
Record Iso20022Document := mkIso20022Document {
  id_app_header : option AppHeader;
  id_content : Iso20022Message
}.

(** [quick_xml::de::from_str], [quick_xml::se::to_string]; errors as texts *)
Class XmlLib := {
  xml_from_str : text -> outcome string Iso20022Document;
  xml_to_string : Iso20022Document -> outcome string text
}.

Section messages.
Context `{XML : XmlLib} `{CL : CryptoLib}.

Definition parse_iso20022 (xml : text) : outcome IsoError Iso20022Document :=
  map_err XmlParseError (xml_from_str xml).
Definition serialize_iso20022 (doc : Iso20022Document) : outcome IsoError text :=
  map_err XmlParseError (xml_to_string doc).
End messages.

Section credit_transfer.
Context `{CL : CryptoLib}.

(** [uuid_v4] from the sixteen random bytes *)
Definition uuid_bytes (bytes : list Z) : list Z :=
  let bytes := <[6%nat := Z.lor (Z.land (default 0 (bytes !! 6%nat)) 0x0f) 0x40]> bytes in
  <[8%nat := Z.lor (Z.land (default 0 (bytes !! 8%nat)) 0x3f) 0x80]> bytes.
Definition uuid_v4 (random : list Z) : text :=
  let bytes := uuid_bytes random in
  let part a n := bytes_of (hex_encode (take n (drop a bytes))) in
  (part 0%nat 4%nat ++ [45] ++ part 4%nat 2%nat ++ [45] ++ part 6%nat 2%nat ++ [45] ++
   part 8%nat 2%nat ++ [45] ++ part 10%nat 6%nat)%list.

(** [create_credit_transfer]; [now_time] and [now_date] are the clock in the
    two formats of the source. *)
Definition create_credit_transfer (now_time now_date : text) (random : list Z)
    (message_id debtor_name debtor_iban debtor_bic creditor_name creditor_iban creditor_bic
     amount currency reference : text) : CreditTransferMessage :=
  let agent bic := mkFinancialInstitutionId (Some bic) None None in
  let party name := mkPartyInfo (Some name) None None in
  let account iban := mkAccountId (Some iban) None in
  mkCreditTransferMessage
    (mkGroupHeader message_id now_time 1 (Some (mkAmount currency amount)) (Some now_date)
       (Some (mkSettlementInfo (bytes_of "INDA") None))
       (Some (agent debtor_bic)) (Some (agent creditor_bic)))
    [mkCreditTransferTransaction
       (mkPaymentId (Some (message_id ++ bytes_of "-001")) reference
          (Some (message_id ++ bytes_of "-TX001")) (Some (uuid_v4 random)))
       None (mkAmount currency amount) None (Some (bytes_of "SHAR"))
       (party debtor_name) (account debtor_iban) (agent debtor_bic)
       (agent creditor_bic) (party creditor_name) (account creditor_iban)
       (Some (mkRemittanceInfo (Some [reference]) None))].
End credit_transfer.
