(* ===== verification/MessageRouter.v ===== *)
(** * Routing and compliance of messages (crates/nexus-iso/src/message_router.rs)

    Rules are kept sorted by priority; a message goes to the active
    destinations of the first rule that applies, else to its default route.
    The compliance checker scores the context of a message.  Strings are their
    UTF-8 bytes; a [u8] or [u64] is a [Z] in its range. *)
From stdpp Require Import base numbers list gmap strings.
From Stdlib Require Import ZArith Lia.
From S2P Require Import Prelude Slices Text Iso8583 Iso20022.
#[local] Open Scope Z_scope.

Inductive MessageType :=
  | CreditTransfer | PaymentStatus | DirectDebit | PaymentReturn
  | CardAuthorization | CardFinancial | CardReversal | BlockchainTx.
#[export] Instance MessageType_eq_dec : EqDecision MessageType.
Proof. solve_decision. Defined.
Definition type_index (t : MessageType) : nat :=
  match t with
  | CreditTransfer => 0 | PaymentStatus => 1 | DirectDebit => 2 | PaymentReturn => 3
  | CardAuthorization => 4 | CardFinancial => 5 | CardReversal => 6 | BlockchainTx => 7
  end.
Definition type_of_index (n : nat) : MessageType :=
  match n with
  | 0 => CreditTransfer | 1 => PaymentStatus | 2 => DirectDebit | 3 => PaymentReturn
  | 4 => CardAuthorization | 5 => CardFinancial | 6 => CardReversal | _ => BlockchainTx
  end%nat.
#[export] Program Instance MessageType_countable : Countable MessageType :=
  inj_countable' type_index type_of_index _.
Next Obligation. by intros []. Qed.

Inductive DestinationType := Swift | Sepa | Fedwire | Blockchain | Internal | Api.
Record RouteDestination := mkDestination {
  destination_id : text;
  destination_type : DestinationType;
  dest_priority : Z;
  active : bool;
  metadata : gmap (list Z) (list Z)
}.

Inductive RoutingCondition :=
  | Always
  | Currency (c : text)
  | AmountGreaterThan (amt : Z)
  | CreditorCountry (c : text)
  | DebtorCountry (c : text)
  | BicPrefix (prefix : text)
  | And (a b : RoutingCondition)
  | Or (a b : RoutingCondition)
  | Not (c : RoutingCondition).

Record RoutingRule := mkRule {
  rule_id : text;
  rule_name : text;
  rule_message_type : MessageType;
  condition : RoutingCondition;
  destinations : list RouteDestination;
  priority : Z
}.

Record MessageContext := mkContext {
  message_type : option MessageType;
  currency : option text;
  ctx_amount : option Z;
  creditor_country : option text;
  debtor_country : option text;
  creditor_bic : option text;
  debtor_bic : option text;
  creditor_iban : option text;
  debtor_iban : option text
}.
Definition default_context : MessageContext :=
  mkContext None None None None None None None None None.

(** [RoutingCondition::matches] *)
Fixpoint matches (c : RoutingCondition) (ctx : MessageContext) : bool :=
  match c with
  | Always => true
  | Currency c => bool_decide (currency ctx = Some c)
  | AmountGreaterThan amt => match ctx_amount ctx with Some a => amt <? a | None => false end
  | CreditorCountry c => bool_decide (creditor_country ctx = Some c)
  | DebtorCountry c => bool_decide (debtor_country ctx = Some c)
  | BicPrefix prefix =>
      match creditor_bic ctx with Some bic => starts_with bic prefix | None => false end
  | And a b => matches a ctx && matches b ctx
  | Or a b => matches a ctx || matches b ctx
  | Not c => negb (matches c ctx)
  end.

(** ** Contexts of messages *)

(** [s.get(0..2)]: [None] unless both ends are character boundaries *)
Definition get_0_2 (s : text) : option text :=
  if (length s <? 2)%nat then None
  else match s !! 2%nat with
       | Some b => if is_cont b then None else Some (take 2 s)
       | None => Some (take 2 s)
       end.
(** [value.parse::<u64>().ok()] *)
Definition parse_u64 (s : text) : option Z := parse_uint 10 (B64 - 1) s.

Definition context_of_credit_transfer (msg : CreditTransferMessage) : MessageContext :=
  let tx := head (ctm_credit_transfer_transactions msg) in
  mkContext (Some CreditTransfer)
    (t ← tx; Some (a_currency (ctt_interbank_settlement_amount t)))
    (t ← tx; parse_u64 (a_value (ctt_interbank_settlement_amount t)))
    (t ← tx; a ← ai_iban (ctt_creditor_account t); get_0_2 a)
    (t ← tx; a ← ai_iban (ctt_debtor_account t); get_0_2 a)
    (t ← tx; fii_bic (ctt_creditor_agent t))
    (t ← tx; fii_bic (ctt_debtor_agent t))
    (t ← tx; ai_iban (ctt_creditor_account t))
    (t ← tx; ai_iban (ctt_debtor_account t)).

Definition type_of_mti (t : Iso8583.MessageType) : MessageType :=
  match t with
  | AuthorizationRequest | AuthorizationResponse => CardAuthorization
  | FinancialRequest | FinancialResponse => CardFinancial
  | ReversalRequest | ReversalResponse => CardReversal
  | NetworkManagementRequest | NetworkManagementResponse => CardAuthorization
  end.
Definition context_of_iso8583 (msg : Iso8583Message) : MessageContext :=
  mkContext (Some (type_of_mti (mti msg))) (get_element_string msg 49)
    (a ← get_element_string msg 4; parse_u64 a) None None None None None None.

(** ** MessageRouter *)
Record MessageRouter := mkRouter {
  rules : list RoutingRule;
  default_routes : gmap MessageType (list RouteDestination)
}.
Definition router_new : MessageRouter := mkRouter [] ∅.

(** [sort_by_key(|r| r.priority)]: the stable sort, as an insertion sort *)
Fixpoint insert_sorted (r : RoutingRule) (l : list RoutingRule) : list RoutingRule :=
  match l with
  | [] => [r]
  | x :: l => if priority r <=? priority x then r :: x :: l else x :: insert_sorted r l
  end.
Definition sort_by_priority (l : list RoutingRule) : list RoutingRule := foldr insert_sorted [] l.

Definition add_rule (rule : RoutingRule) (m : MessageRouter) : MessageRouter :=
  mkRouter (sort_by_priority (rules m ++ [rule])) (default_routes m).
Definition set_default_route (t : MessageType) (dests : list RouteDestination) (m : MessageRouter)
    : MessageRouter :=
  mkRouter (rules m) (<[t := dests]> (default_routes m)).

(** [filter(|d| d.active)] *)
Definition active_of (dests : list RouteDestination) : list RouteDestination :=
  filter (fun d => active d = true) dests.

(** The loop over the rules: [Some] is its early return. *)
Fixpoint first_match (rs : list RoutingRule) (ctx : MessageContext)
    : option (list RouteDestination) :=
  match rs with
  | [] => None
  | rule :: rs =>
      match message_type ctx with
      | Some t =>
          if decide (rule_message_type rule = t) then
            if matches (condition rule) ctx then
              match active_of (destinations rule) with
              | [] => first_match rs ctx
              | dests => Some dests
              end
            else first_match rs ctx
          else first_match rs ctx
      | None => first_match rs ctx
      end
  end.

Definition no_route : outcome IsoError (list RouteDestination) := Err (RoutingFailed "No route found").
Definition route (m : MessageRouter) (ctx : MessageContext)
    : outcome IsoError (list RouteDestination) :=
  match first_match (rules m) ctx with
  | Some dests => Ok dests
  | None =>
      match message_type ctx with
      | Some t =>
          match default_routes m !! t with
          | Some dests =>
              match active_of dests with
              | [] => no_route
              | dests => Ok dests
              end
          | None => no_route
          end
      | None => no_route
      end
  end.
Definition route_credit_transfer (m : MessageRouter) (msg : CreditTransferMessage)
    : outcome IsoError (list RouteDestination) := route m (context_of_credit_transfer msg).
Definition route_iso8583 (m : MessageRouter) (msg : Iso8583Message)
    : outcome IsoError (list RouteDestination) := route m (context_of_iso8583 msg).

(** ** ComplianceChecker *)
Record ComplianceCheck := mkCheck { check_name : string; check_passed : bool; check_message : option string }.
Record ComplianceResult := mkComplianceResult {
  result_passed : bool;
  checks : list ComplianceCheck;
  risk_score : Z
}.
Record ComplianceChecker := mkChecker {
  sanctioned_countries : list text;
  high_risk_countries : list text;
  edd_threshold : Z
}.
Definition checker_new : ComplianceChecker :=
  mkChecker (bytes_of <$> ["KP"; "IR"; "SY"; "CU"]%string)
    (bytes_of <$> ["AF"; "BY"; "MM"; "RU"; "VE"]%string) 1000000.

(** [u8::saturating_add] *)
Definition sat_add8 (a b : Z) : Z := Z.min (a + b) 255.
(** [country.map_or(false, |c| list.contains(c))] *)
Definition listed (l : list text) (country : option text) : bool :=
  match country with Some c => bool_decide (c ∈ l) | None => false end.

Definition check (k : ComplianceChecker) (ctx : MessageContext) : ComplianceResult :=
  let debtor_sanctioned := listed (sanctioned_countries k) (debtor_country ctx) in
  let creditor_sanctioned := listed (sanctioned_countries k) (creditor_country ctx) in
  let sanctions := mkCheck "Sanctions Screening"
    (negb debtor_sanctioned && negb creditor_sanctioned)
    (if debtor_sanctioned || creditor_sanctioned
     then Some "Transaction involves sanctioned jurisdiction"%string else None) in
  let score := if debtor_sanctioned || creditor_sanctioned then 100 else 0 in
  let high_risk := listed (high_risk_countries k) (debtor_country ctx)
                   || listed (high_risk_countries k) (creditor_country ctx) in
  let jurisdiction := mkCheck "High Risk Jurisdiction" true
    (if high_risk
     then Some "Transaction involves high-risk jurisdiction - enhanced due diligence required"%string
     else None) in
  let score := if high_risk then sat_add8 score 30 else score in
  let large_transaction :=
    match ctx_amount ctx with Some a => edd_threshold k <=? a | None => false end in
  let large := mkCheck "Large Transaction" true
    (if large_transaction
     then Some ("Transaction exceeds $" +:+ show (edd_threshold k / 100) +:+
                " threshold - reporting required")%string
     else None) in
  let score := if large_transaction then sat_add8 score 20 else score in
  mkComplianceResult (score <? 100) [sanctions; jurisdiction; large] score.
