(* ===== verification/MessageRouterProps.v ===== *)
(** * Routing by priority, compliance by score

    A message goes to the applicable rule of least priority number, the
    earliest added among equals, in every history of additions; the checker's
    verdict and score; and what the amounts of ISO 20022 messages look like to
    both. *)
From stdpp Require Import base numbers list gmap sorting strings.
From Stdlib Require Import ZArith Lia.
From S2P Require Import Prelude Slices Text Crypto Iso8583 Iso20022 MessageRouter.
#[local] Open Scope Z_scope.

(** ** The stable sort *)

(** The first element of least priority *)
Fixpoint best (l : list RoutingRule) : option RoutingRule :=
  match l with
  | [] => None
  | x :: l =>
      match best l with
      | Some y => if priority x <=? priority y then Some x else Some y
      | None => Some x
      end
  end.

Definition no_later (x y : RoutingRule) : Prop := priority x <= priority y.

Lemma insert_sorted_perm r l : insert_sorted r l ≡ₚ r :: l.
Proof.
  induction l as [|x l IH]; [done|]. simpl. case_match; [done|]. rewrite IH. apply Permutation_swap.
Qed.
Lemma insert_sorted_sorted r l :
  StronglySorted no_later l -> StronglySorted no_later (insert_sorted r l).
Proof.
  induction 1 as [|x l Hl IH Hx]; simpl; [by repeat constructor|].
  case Z.leb_spec; intros Hle.
  - constructor; [by constructor|]. constructor; [done|].
    eapply Forall_impl; [exact Hx|]. unfold no_later. lia.
  - constructor; [done|]. rewrite insert_sorted_perm. constructor; [unfold no_later; lia|done].
Qed.
Lemma sort_sorted l : StronglySorted no_later (sort_by_priority l).
Proof. induction l as [|x l IH]; [constructor|]. by apply insert_sorted_sorted. Qed.
Lemma insert_sorted_front r l : Forall (no_later r) l -> insert_sorted r l = r :: l.
Proof. destruct 1 as [|x l Hx _]; [done|]. simpl. by rewrite (proj2 (Z.leb_le _ _)). Qed.
Lemma head_insert_sorted r l :
  head (insert_sorted r l) =
  match head l with Some y => if priority r <=? priority y then Some r else Some y | None => Some r end.
Proof. destruct l as [|x l]; [done|]. simpl. by case_match. Qed.
Lemma head_sort l : head (sort_by_priority l) = best l.
Proof. induction l as [|x l IH]; [done|]. simpl. by rewrite head_insert_sorted, IH. Qed.
Lemma sort_of_sorted l : StronglySorted no_later l -> sort_by_priority l = l.
Proof. induction 1 as [|x l _ IH Hx]; [done|]. simpl. by rewrite IH, insert_sorted_front. Qed.

Lemma best_in l y : best l = Some y -> y ∈ l.
Proof.
  revert y. induction l as [|x l IH]; intros y; [done|]. simpl.
  destruct (best l) as [z|]; [|intros [= ->]; left].
  case_match; intros [= ->]; [left|right; by apply IH].
Qed.

Ltac rewrite_leb :=
  repeat match goal with
  | |- context [?a <=? ?b] =>
      first [rewrite (proj2 (Z.leb_le a b)) by lia | rewrite (proj2 (Z.leb_gt a b)) by lia]; simpl
  end.

(** Sorting again after one more rule is sorting everything: a rule that comes
    last goes after those of its priority. *)
Fixpoint insert_last (r : RoutingRule) (l : list RoutingRule) : list RoutingRule :=
  match l with
  | [] => [r]
  | x :: l => if priority x <=? priority r then x :: insert_last r l else r :: x :: l
  end.
Lemma insert_swap x r l : insert_sorted x (insert_last r l) = insert_last r (insert_sorted x l).
Proof.
  induction l as [|y l IH]; simpl.
  - by destruct (Z.leb_spec (priority x) (priority r)).
  - destruct (Z.leb_spec (priority y) (priority r)), (Z.leb_spec (priority x) (priority y)),
      (Z.leb_spec (priority x) (priority r)); simpl; try lia; rewrite_leb; congruence.
Qed.
Lemma sort_snoc l r : sort_by_priority (l ++ [r]) = insert_last r (sort_by_priority l).
Proof. induction l as [|x l IH]; [done|]. simpl. by rewrite IH, insert_swap. Qed.

Section filtered.
Context (P : RoutingRule -> Prop) `{forall r, Decision (P r)}.
Lemma filter_insert_sorted r l : StronglySorted no_later l ->
  filter P (insert_sorted r l) =
  if decide (P r) then insert_sorted r (filter P l) else filter P l.
Proof.
  induction 1 as [|x l Hl IH Hx].
  - simpl. rewrite filter_cons. by case_decide.
  - simpl. case Z.leb_spec; intros Hle.
    + rewrite (filter_cons P r). case_decide; [|done]. rewrite insert_sorted_front; [done|].
      apply Forall_forall. intros y [_ Hy]%list_elem_of_filter.
      apply elem_of_cons in Hy as [->|Hy]; [done|].
      rewrite Forall_forall in Hx. specialize (Hx y Hy). unfold no_later in *. lia.
    + rewrite !(filter_cons P x), IH. destruct (decide (P x)), (decide (P r)); try done.
      simpl. by rewrite (proj2 (Z.leb_gt _ _)).
Qed.
Lemma filter_sort l : filter P (sort_by_priority l) = sort_by_priority (filter P l).
Proof.
  induction l as [|x l IH]; [done|]. simpl. rewrite filter_insert_sorted by apply sort_sorted.
  rewrite filter_cons, IH. by case_decide.
Qed.

(** The winner, by position: nothing that qualifies has a lower priority
    number, and nothing earlier has an equal one. *)
Lemma best_filter rs i r : rs !! i = Some r -> P r ->
  (forall j r', rs !! j = Some r' -> P r' ->
    priority r < priority r' \/ (priority r = priority r' /\ (i <= j)%nat)) ->
  best (filter P rs) = Some r.
Proof.
  revert i. induction rs as [|x rs IH]; intros i Hi Hr Hmin; [done|]. rewrite filter_cons.
  destruct i as [|i]; simpl in Hi.
  - injection Hi as ->. rewrite decide_True by done. simpl.
    destruct (best (filter P rs)) as [y|] eqn:E; [|done].
    apply best_in, list_elem_of_filter in E as [Hy [j Hj]%list_elem_of_lookup].
    destruct (Hmin (S j) y Hj Hy) as [?|[? _]]; by rewrite (proj2 (Z.leb_le _ _)) by lia.
  - assert (Hb : best (filter P rs) = Some r).
    { apply (IH i Hi Hr). intros j r' Hj Hr'. destruct (Hmin (S j) r' Hj Hr') as [?|[? ?]]; [by left|right; lia]. }
    case_decide as Hx; [|done]. simpl. rewrite Hb.
    destruct (Hmin 0%nat x eq_refl Hx) as [?|[_ ?]]; [|lia]. by rewrite (proj2 (Z.leb_gt _ _)).
Qed.
End filtered.

(** ** The router *)

(** The rule has somewhere to send a message of this context. *)
Definition applicable (t : MessageType) (ctx : MessageContext) (r : RoutingRule) : Prop :=
  rule_message_type r = t /\ matches (condition r) ctx = true /\ active_of (destinations r) <> [].
#[export] Instance applicable_dec t ctx r : Decision (applicable t ctx r).
Proof. unfold applicable. apply _. Defined.

Lemma first_match_spec rs ctx t : message_type ctx = Some t ->
  first_match rs ctx = (fun r => active_of (destinations r)) <$> head (filter (applicable t ctx) rs).
Proof.
  intros Ht. induction rs as [|r rs IH]; [done|]. rewrite filter_cons. cbn [first_match]. rewrite Ht.
  destruct (decide (applicable t ctx r)) as [(E & Em & Ea)|Hn].
  - rewrite decide_True, Em by done. simpl. by destruct (active_of (destinations r)).
  - rewrite IH. destruct (decide (rule_message_type r = t)) as [E|]; [|done].
    destruct (matches (condition r) ctx) eqn:Em; [|done].
    destruct (active_of (destinations r)) as [|d ds] eqn:Ea; [done|].
    destruct Hn. split; [done|]. by rewrite Ea.
Qed.

(** The router after a history of additions. *)
Lemma rules_after rs m : rules m = [] ->
  rules (foldl (fun m r => add_rule r m) m rs) = sort_by_priority rs /\
  default_routes (foldl (fun m r => add_rule r m) m rs) = default_routes m.
Proof.
  intros Hm. induction rs as [|r rs [IH1 IH2]] using rev_ind; [done|].
  rewrite foldl_snoc. cbn [add_rule rules default_routes]. split; [|done].
  rewrite IH1, !sort_snoc. by rewrite (sort_of_sorted (sort_by_priority rs)) by apply sort_sorted.
Qed.

(** C21: routing follows the priorities in every history of additions.  A message
    of a known type goes to the active destinations of the applicable rule with
    the least priority number, the one added first among equals; only when no
    rule applies, to the active destinations of its default route, and without
    one it is refused.  (A rule applies when its type and condition match and
    one of its destinations is active.) *)
Theorem routing_follows_priority rs m ctx t : rules m = [] -> message_type ctx = Some t ->
  let routed := route (foldl (fun m r => add_rule r m) m rs) ctx in
  (forall i r, rs !! i = Some r -> applicable t ctx r ->
    (forall j r', rs !! j = Some r' -> applicable t ctx r' ->
      priority r < priority r' \/ (priority r = priority r' /\ (i <= j)%nat)) ->
    routed = Ok (active_of (destinations r))) /\
  ((forall r, r ∈ rs -> ~ applicable t ctx r) ->
    routed = match active_of (default [] (default_routes m !! t)) with
             | [] => Err (RoutingFailed "No route found")
             | dests => Ok dests
             end).
Proof.
  intros Hm Ht routed. destruct (rules_after rs m Hm) as [Er Ed].
  assert (Hr : routed =
    match best (filter (applicable t ctx) rs) with
    | Some r => Ok (active_of (destinations r))
    | None => match default_routes m !! t with
              | Some dests => match active_of dests with [] => no_route | dests => Ok dests end
              | None => no_route
              end
    end).
  { unfold routed, route. rewrite (first_match_spec _ _ _ Ht), Er, Ed, Ht, filter_sort, head_sort.
    by destruct (best _). }
  split.
  - intros i r Hi Hap Hmin. rewrite Hr. by rewrite (best_filter (applicable t ctx) rs i r).
  - intros Hnone. rewrite Hr, list_filter_none by done. simpl.
    by destruct (default_routes m !! t) as [dests|].
Qed.

(** ** Compliance *)

(** The checker passes a context exactly when neither country is on the
    sanctions list, as its first check says; the score adds 100, 30 and 20 for
    a sanctioned country, a high-risk country and a large amount and stays a
    [u8]; the other two checks only warn. *)
Theorem routing_compliance_exact k ctx :
  let sanctioned := listed (sanctioned_countries k) (debtor_country ctx)
                    || listed (sanctioned_countries k) (creditor_country ctx) in
  let high_risk := listed (high_risk_countries k) (debtor_country ctx)
                   || listed (high_risk_countries k) (creditor_country ctx) in
  let large := match ctx_amount ctx with Some a => edd_threshold k <=? a | None => false end in
  let r := check k ctx in
  result_passed r = negb sanctioned /\
  risk_score r = (if sanctioned then 100 else 0) + (if high_risk then 30 else 0) +
                 (if large then 20 else 0) /\
  risk_score r < 256 /\
  check_passed <$> checks r = [negb sanctioned; true; true] /\
  (fun c => bool_decide (is_Some (check_message c))) <$> checks r = [sanctioned; high_risk; large].
Proof.
  intros sanctioned high_risk large r. unfold r, check. rewrite <- negb_orb.
  fold sanctioned. fold high_risk. fold large.
  destruct sanctioned, high_risk, large; cbn; repeat split; try reflexivity; lia.
Qed.

(** ** Amounts *)
Lemma parse_digits_char radix max acc l b v : parse_digits radix max acc l = Some v -> b ∈ l ->
  is_Some (digit_of radix b).
Proof.
  revert acc. induction l as [|c l IH]; intros acc H Hb; [by apply elem_of_nil in Hb|].
  cbn [parse_digits] in H. destruct (digit_of radix c) as [d|] eqn:Ed; [|done].
  cbn [mbind option_bind] in H. apply elem_of_cons in Hb as [->|Hb]; [by rewrite Ed|].
  case_match; [|done]. by eapply IH.
Qed.
(** A number with a decimal point is no [u64]. *)
Lemma parse_u64_point l : 46 ∈ l -> parse_u64 l = None.
Proof.
  intros Hl. destruct (parse_u64 l) as [v|] eqn:E; [|done]. exfalso.
  assert (Hd : forall l v, parse_digits 10 (B64 - 1) 0 l = Some v -> 46 ∈ l -> False).
  { intros l' v' Hv Hin. destruct (parse_digits_char _ _ _ _ _ _ Hv Hin) as [d Hdd]. done. }
  unfold parse_u64, parse_uint in E. destruct l as [|b rest]; [done|].
  case (Z.eqb_spec b 43) as [->|].
  - apply elem_of_cons in Hl as [?|Hl]; [done|]. destruct rest; [done|]. by eapply Hd.
  - by eapply Hd.
Qed.

(** An ISO 20022 amount with a decimal point escapes every amount rule.
    The context of such a credit transfer has no amount, so no
    [AmountGreaterThan] condition matches whatever its threshold, and the
    checker neither warns of a large transaction nor scores one. *)
Theorem decimal_amounts_are_not_screened msg tx k :
  head (ctm_credit_transfer_transactions msg) = Some tx ->
  46 ∈ a_value (ctt_interbank_settlement_amount tx) ->
  let ctx := context_of_credit_transfer msg in
  (forall amt, matches (AmountGreaterThan amt) ctx = false) /\
  check_message <$> checks (check k ctx) !! 2%nat = Some None /\
  check k ctx = check k (mkContext (message_type ctx) (currency ctx) None (creditor_country ctx)
    (debtor_country ctx) (creditor_bic ctx) (debtor_bic ctx) (creditor_iban ctx) (debtor_iban ctx)).
Proof.
  intros Htx Hp ctx.
  assert (Ha : ctx_amount ctx = None).
  { unfold ctx, context_of_credit_transfer. cbn [ctx_amount]. rewrite Htx. simpl.
    by apply parse_u64_point. }
  split; [|split].
  - intros amt. cbn [matches]. by rewrite Ha.
  - unfold check. by rewrite Ha.
  - unfold check. by rewrite Ha.
Qed.

(** ** Identifiers of payments *)
Lemma land_lor_disjoint x a b : Z.land a b = 0 -> Z.land (Z.lor (Z.land x a) b) b = b.
Proof.
  intros Hab. apply Z.bits_inj'. intros n _.
  apply (f_equal (fun z => Z.testbit z n)) in Hab. rewrite Z.land_spec, Z.bits_0 in Hab.
  rewrite Z.land_spec, Z.lor_spec, Z.land_spec.
  by destruct (Z.testbit x n), (Z.testbit a n), (Z.testbit b n).
Qed.

Section uuid.
Context `{CL : CryptoLib}.

(** [uuid_v4] writes version 4 and variant 10 into whatever sixteen bytes
    are drawn, and keeps the other 122 bits; with two digits per byte the text
    has 36 characters. *)
Theorem uuid_v4_format random : length random = 16%nat -> Forall is_byte random ->
  let bytes := uuid_bytes random in
  (exists v6 v8, bytes !! 6%nat = Some v6 /\ bytes !! 8%nat = Some v8 /\
    Z.land v6 0xf0 = 0x40 /\ Z.land v8 0xc0 = 0x80 /\
    (forall x, random !! 6%nat = Some x -> Z.land v6 0x0f = Z.land x 0x0f) /\
    (forall x, random !! 8%nat = Some x -> Z.land v8 0x3f = Z.land x 0x3f)) /\
  (forall i, i <> 6%nat -> i <> 8%nat -> bytes !! i = random !! i) /\
  ((forall l, length (bytes_of (hex_encode l)) = (2 * length l)%nat) ->
    length (uuid_v4 random) = 36%nat).
Proof.
  intros Hlen Hb bytes.
  destruct (lookup_lt_is_Some_2 random 6) as [b6 E6]; [lia|].
  destruct (lookup_lt_is_Some_2 random 8) as [b8 E8]; [lia|].
  assert (L : length bytes = 16%nat) by (unfold bytes, uuid_bytes; by rewrite !length_insert).
  assert (Hm : forall x a b, Z.land a b = 0 -> Z.land (Z.lor (Z.land x a) b) a = Z.land x a).
  { intros x a b Hab. rewrite Z.land_lor_distr_l, <- Z.land_assoc, Z.land_diag, (Z.land_comm b a), Hab.
    apply Z.lor_0_r. }
  split; [|split].
  - exists (Z.lor (Z.land b6 0x0f) 0x40), (Z.lor (Z.land b8 0x3f) 0x80).
    unfold bytes, uuid_bytes. rewrite E6. cbn [default from_option id].
    split; [rewrite list_lookup_insert_ne, list_lookup_insert_eq by (try done; lia); done|].
    split.
    { rewrite list_lookup_insert_eq by (rewrite length_insert; lia).
      rewrite list_lookup_insert_ne by done. by rewrite E8. }
    split; [|split; [|split]].
    + change 0xf0 with (Z.lor 0xb0 0x40) at 1.
      rewrite Z.land_lor_distr_r, land_lor_disjoint by done.
      rewrite Z.land_lor_distr_l, <- Z.land_assoc. change (Z.land 15 0xb0) with 0.
      by rewrite Z.land_0_r.
    + change 0xc0 with (Z.lor 0x40 0x80) at 1.
      rewrite Z.land_lor_distr_r, land_lor_disjoint by done.
      rewrite Z.land_lor_distr_l, <- Z.land_assoc. change (Z.land 0x3f 0x40) with 0.
      by rewrite Z.land_0_r.
    + intros x [= <-]. by apply Hm.
    + intros x Hx. assert (x = b8) as -> by congruence. by apply Hm.
  - intros i Hi6 Hi8. unfold bytes, uuid_bytes. by rewrite !list_lookup_insert_ne.
  - intros Hhex. unfold uuid_v4. fold bytes.
    rewrite !length_app, !Hhex, !length_take, !length_drop, L. done.
Qed.
End uuid.

(** ** Evaluations *)
Module Sample.
#[local] Existing Instance toy_crypto.
Definition gateway (name : string) : RouteDestination :=
  mkDestination (bytes_of name) Sepa 1 true ∅.
Definition closed (name : string) : RouteDestination :=
  mkDestination (bytes_of name) Sepa 0 false ∅.
Definition rule (name : string) (c : RoutingCondition) (d : list RouteDestination) (p : Z) :=
  mkRule (bytes_of name) (bytes_of name) CreditTransfer c d p.
Definition eur : MessageContext :=
  mkContext (Some CreditTransfer) (Some (bytes_of "EUR")) (Some 7) None None None None None None.
Definition some_rules : list RoutingRule :=
  [rule "any" Always [gateway "SLOW"] 9;
   rule "sepa" (Currency (bytes_of "EUR")) [gateway "SEPA"] 1;
   rule "closed" (Currency (bytes_of "EUR")) [closed "DOWN"] 0;
   rule "later" (Currency (bytes_of "EUR")) [gateway "LATER"] 1].

Lemma routing_follows_priority_witness :
  route (foldl (fun m r => add_rule r m) router_new some_rules) eur = Ok [gateway "SEPA"].
Proof.
  destruct (routing_follows_priority some_rules router_new eur CreditTransfer eq_refl eq_refl) as [H _].
  apply (H 1%nat (rule "sepa" (Currency (bytes_of "EUR")) [gateway "SEPA"] 1) eq_refl).
  - by vm_compute.
  - intros [|[|[|[|j]]]] r' Hr' Hap; simpl in Hr'; try discriminate Hr'; injection Hr' as <-; simpl.
    + left. lia.
    + right. split; [done|lia].
    + destruct Hap as (_ & _ & Hne). by destruct Hne.
    + right. split; [done|lia].
Defined.

Definition million : CreditTransferMessage :=
  create_credit_transfer (bytes_of "2024-01-01T00:00:00") (bytes_of "2024-01-01") (replicate 16 255)
    (bytes_of "M") (bytes_of "A") (bytes_of "DE89370400440532013000") (bytes_of "COBADEFFXXX")
    (bytes_of "B") (bytes_of "GB33BUKB20201555555555") (bytes_of "BUKBGB22XXX")
    (bytes_of "1000000.00") (bytes_of "EUR") (bytes_of "R").
Lemma decimal_amounts_are_not_screened_witness :
  check_message <$> checks (check checker_new (context_of_credit_transfer million)) !! 2%nat = Some None.
Proof.
  destruct (ctm_credit_transfer_transactions million) as [|tx rest] eqn:E; [discriminate E|].
  apply (decimal_amounts_are_not_screened million tx checker_new); [by rewrite E|].
  injection E as <- _. by vm_compute; repeat (first [left | right]).
Defined.
(** Whole amounts are read in the currency's unit, the threshold in cents. *)
Example whole_amounts_are_hundredths :
  risk_score (check checker_new (mkContext None None (Some 10000) None None None None None None)) = 0.
Proof. reflexivity. Qed.

Lemma uuid_v4_format_witness : uuid_bytes (replicate 16 255) !! 3%nat = Some 255.
Proof.
  destruct (uuid_v4_format (replicate 16 255)) as (_ & H & _).
  - reflexivity.
  - apply Forall_replicate. unfold is_byte. lia.
  - rewrite H by lia. reflexivity.
Defined.
End Sample.
