(* ===== verification/Peer.v ===== *)
(** * Peers (crates/nexus-network: peer.rs)

    [PeerManager] as two finite maps and its bound; one definition per method.
    The reputation is an [i32] whose addition wraps before it is clamped.  The
    clock, in seconds, is an argument of [cleanup]. *)
From S2P Require Import Prelude Types.
From stdpp Require Import base numbers list gmap strings sorting.
From Stdlib Require Import ZArith Lia.
#[local] Open Scope Z_scope.

(** [x as i32] of a mathematical integer: two's complement in 32 bits. *)
Definition wrap_i32 (x : Z) : Z := (x + 2147483648) mod 4294967296 - 2147483648.
Definition is_i32 (x : Z) : Prop := -2147483648 <= x < 2147483648.

Abbreviation PeerId := string (only parsing).

Inductive PeerState := Disconnected | Connecting | Connected | Banned.
#[export] Instance PeerState_eq_dec : EqDecision PeerState.
Proof. solve_decision. Defined.

Record PeerInfo := mkPeer {
  id : PeerId;
  addresses : list string;
  protocol_version : Z;
  agent : string;
  is_validator : bool;
  validator_address : option Address;
  last_seen : Z;
  state : PeerState;
  reputation : Z
}.
Definition with_state (s : PeerState) (p : PeerInfo) : PeerInfo :=
  mkPeer (id p) (addresses p) (protocol_version p) (agent p) (is_validator p)
    (validator_address p) (last_seen p) s (reputation p).
Definition with_reputation (r : Z) (p : PeerInfo) : PeerInfo :=
  mkPeer (id p) (addresses p) (protocol_version p) (agent p) (is_validator p)
    (validator_address p) (last_seen p) (state p) r.

Record PeerStats := mkStats {
  messages_received : Z;
  messages_sent : Z;
  bytes_received : Z;
  bytes_sent : Z;
  latency_ms : Z;
  failures : Z
}.
Definition default_stats : PeerStats := mkStats 0 0 0 0 0 0.

Record PeerManager := mkManager {
  peers : gmap PeerId PeerInfo;
  stats : gmap PeerId PeerStats;
  max_peers : nat
}.
Definition set_peers (f : gmap PeerId PeerInfo -> gmap PeerId PeerInfo) (m : PeerManager) :=
  mkManager (f (peers m)) (stats m) (max_peers m).
Definition set_stats (f : gmap PeerId PeerStats -> gmap PeerId PeerStats) (m : PeerManager) :=
  mkManager (peers m) (f (stats m)) (max_peers m).

Definition new (max_peers : nat) : PeerManager := mkManager ∅ ∅ max_peers.
Definition default_manager : PeerManager := new 100.

(** [retain] on the values of a map *)
Definition retain (keep : PeerInfo -> bool) (m : gmap PeerId PeerInfo) : gmap PeerId PeerInfo :=
  filter (fun kv => keep kv.2 = true) m.

Definition add_peer (peer : PeerInfo) (m : PeerManager) : PeerManager :=
  let m :=
    if (max_peers m <=? base.size (peers m))%nat
    then set_peers (retain (fun p => negb (bool_decide (state p = Disconnected)))) m
    else m in
  set_peers <[id peer := peer]> m.

Definition get_peer (i : PeerId) (m : PeerManager) : option PeerInfo := peers m !! i.

Definition set_state (i : PeerId) (s : PeerState) (m : PeerManager) : PeerManager :=
  set_peers (alter (with_state s) i) m.

Definition ban_peer (i : PeerId) (m : PeerManager) : PeerManager :=
  set_peers (alter (fun p => with_reputation (-1000) (with_state Banned p)) i) m.

(** The body of [update_reputation] *)
Definition adjust (delta : Z) (p : PeerInfo) : PeerInfo :=
  let p := with_reputation (Z.min (Z.max (wrap_i32 (reputation p + delta)) (-1000)) 1000) p in
  if reputation p <=? -100 then with_state Banned p else p.
Definition update_reputation (i : PeerId) (delta : Z) (m : PeerManager) : PeerManager :=
  set_peers (alter (adjust delta) i) m.

Definition record_sent (i : PeerId) (bytes : Z) (m : PeerManager) : PeerManager :=
  set_stats (fun st =>
    let s := default default_stats (st !! i) in
    <[i := mkStats (messages_received s) (messages_sent s +! 1) (bytes_received s)
             (bytes_sent s +! bytes) (latency_ms s) (failures s)]> st) m.
Definition record_received (i : PeerId) (bytes : Z) (m : PeerManager) : PeerManager :=
  set_stats (fun st =>
    let s := default default_stats (st !! i) in
    <[i := mkStats (messages_received s +! 1) (messages_sent s) (bytes_received s +! bytes)
             (bytes_sent s) (latency_ms s) (failures s)]> st) m.
Definition get_stats (i : PeerId) (m : PeerManager) : option PeerStats := stats m !! i.

Definition total_count (m : PeerManager) : nat := base.size (peers m).

Definition cleanup (now max_age : Z) (m : PeerManager) : PeerManager :=
  set_peers (retain (fun p =>
    bool_decide (state p = Connected) || (now -! last_seen p <? max_age))) m.

Section order.
Context `{HashOrder}.

Definition connected_peers (m : PeerManager) : list PeerInfo :=
  filter (fun p => state p = Connected) (values (peers m)).
Definition validator_peers (m : PeerManager) : list PeerInfo :=
  filter (fun p => state p = Connected /\ is_validator p = true) (values (peers m)).
Definition connected_count (m : PeerManager) : nat := length (connected_peers m).

(** The stable [sort_by]: a peer goes before the first one of a lower
    reputation. *)
Fixpoint insert_by_reputation (p : PeerInfo) (l : list PeerInfo) : list PeerInfo :=
  match l with
  | [] => [p]
  | q :: l' => if reputation q <=? reputation p then p :: l else q :: insert_by_reputation p l'
  end.
Definition sort_by_reputation (l : list PeerInfo) : list PeerInfo := foldr insert_by_reputation [] l.
Definition best_peers (count : nat) (m : PeerManager) : list PeerInfo :=
  take count (sort_by_reputation (connected_peers m)).
End order.
