(* ===== verification/PeerProps.v ===== *)
(** * Properties of the peer manager

    What the bound on the number of peers, the reputation, the selection of
    peers and the cleaning really guarantee.  A history is a list of calls
    ([PeerCall]), the clock being part of the call. *)
From S2P Require Import Prelude Types Peer.
From stdpp Require Import base numbers list gmap strings sorting.
From Stdlib Require Import ZArith Lia.
#[local] Open Scope Z_scope.

(** The calls that change the manager. *)
Inductive PeerCall :=
  | Add (p : PeerInfo)
  | SetState (i : PeerId) (s : PeerState)
  | Ban (i : PeerId)
  | Reputation (i : PeerId) (delta : Z)
  | Sent (i : PeerId) (bytes : Z)
  | Received (i : PeerId) (bytes : Z)
  | Cleanup (now max_age : Z).
Definition after (m : PeerManager) (c : PeerCall) : PeerManager :=
  match c with
  | Add p => add_peer p m
  | SetState i s => set_state i s m
  | Ban i => ban_peer i m
  | Reputation i d => update_reputation i d m
  | Sent i b => record_sent i b m
  | Received i b => record_received i b m
  | Cleanup now age => cleanup now age m
  end.

(** The peer a call is about. *)
Definition touches (i : PeerId) (c : PeerCall) : bool :=
  match c with
  | Add p => bool_decide (id p = i)
  | SetState j _ | Ban j | Reputation j _ => bool_decide (j = i)
  | Sent _ _ | Received _ _ | Cleanup _ _ => false
  end.

(** ** Retaining *)
Lemma retain_lookup keep m i p :
  retain keep m !! i = Some p <-> m !! i = Some p /\ keep p = true.
Proof. unfold retain. by rewrite map_lookup_filter_Some. Qed.
Lemma retain_ext keep m i : keep <$> m !! i <> Some false -> retain keep m !! i = m !! i.
Proof.
  intros Hk. destruct (m !! i) as [p|] eqn:E.
  - apply retain_lookup. split; [done|]. cbn in Hk. by destruct (keep p).
  - apply eq_None_not_Some. intros [p [Hp _]%retain_lookup]. congruence.
Qed.

Definition live (m : PeerManager) : gmap PeerId PeerInfo :=
  retain (fun p => negb (bool_decide (state p = Disconnected))) (peers m).
Lemma add_peer_peers p m :
  peers (add_peer p m) =
  <[id p := p]> (if (max_peers m <=? base.size (peers m))%nat then live m else peers m).
Proof. unfold add_peer. by destruct (_ <=? _)%nat. Qed.

(** ** What every history keeps *)

(** Peers are stored under their identifier, with a reputation in the range
    that [update_reputation] clamps to. *)
Definition peers_ok (m : PeerManager) : Prop :=
  forall i p, peers m !! i = Some p -> id p = i /\ -1000 <= reputation p <= 1000.
Definition call_ok (c : PeerCall) : Prop :=
  match c with Add p => -1000 <= reputation p <= 1000 | _ => True end.

Lemma adjust_range delta p :
  -1000 <= reputation (adjust delta p) <= 1000 /\ id (adjust delta p) = id p.
Proof.
  unfold adjust. cbv zeta. destruct (_ <=? _);
    cbn [with_reputation with_state id reputation]; split; first [lia|done].
Qed.

Lemma alter_ok m i f : peers_ok m ->
  (forall p, id p = i -> -1000 <= reputation p <= 1000 ->
     id (f p) = i /\ -1000 <= reputation (f p) <= 1000) ->
  peers_ok (set_peers (alter f i) m).
Proof.
  intros Hm Hf j q. cbn [set_peers peers]. intros Hq. destruct (decide (i = j)) as [->|Hne].
  - rewrite lookup_alter_eq in Hq. destruct (peers m !! j) as [p|] eqn:E; [|done].
    injection Hq as <-. destruct (Hm j p E). by apply Hf.
  - rewrite lookup_alter_ne in Hq by done. by apply Hm.
Qed.
Lemma retain_ok m keep : peers_ok m -> peers_ok (set_peers (retain keep) m).
Proof. intros Hm i p [Hp _]%retain_lookup. by apply Hm. Qed.

Lemma after_ok m c : call_ok c -> peers_ok m -> peers_ok (after m c).
Proof.
  intros Hc Hm. destruct c as [p|i s|i|i d|i b|i b|now age]; cbn [after]; try exact Hm.
  - intros j q. rewrite add_peer_peers. destruct (decide (id p = j)) as [<-|Hne].
    + rewrite lookup_insert_eq. by intros [= <-].
    + rewrite lookup_insert_ne by done. destruct (_ <=? _)%nat; [|apply Hm].
      intros [Hq _]%retain_lookup. by apply Hm.
  - by apply alter_ok.
  - apply alter_ok; [done|]. intros p Hp _. cbn [with_reputation with_state id reputation]. split; [done|lia].
  - apply alter_ok; [done|]. intros p <- _. destruct (adjust_range d p). split; [done|lia].
  - by apply retain_ok.
Qed.

(** In every history of calls peers are stored under their own identifier and
    keep a reputation between -1000 and 1000. *)
Theorem peers_stay_well_formed n cs : Forall call_ok cs -> peers_ok (foldl after (new n) cs).
Proof.
  intros Hcs. assert (H0 : peers_ok (new n)) by (intros i p; cbn [new peers]; by rewrite lookup_empty).
  revert H0. generalize (new n). induction Hcs as [|c cs Hc _ IH]; intros m Hm; [done|].
  apply IH. by apply after_ok.
Qed.

(** ** The bound on the number of peers *)

(** Adding a peer never removes a peer that is not disconnected, and removes
    none below the bound.  It keeps the bound only when the peers that are not
    disconnected leave room: otherwise the new peer comes on top. *)
Theorem add_peer_capacity p m :
  (base.size (peers (add_peer p m)) <= Nat.max (max_peers m) (S (base.size (live m))))%nat /\
  (forall i q, peers m !! i = Some q -> i <> id p -> state q <> Disconnected ->
     peers (add_peer p m) !! i = Some q) /\
  ((base.size (peers m) < max_peers m)%nat -> forall i, i <> id p ->
     peers (add_peer p m) !! i = peers m !! i).
Proof.
  rewrite add_peer_peers. split; [|split].
  - destruct (Nat.leb_spec (max_peers m) (base.size (peers m))) as [Hle|Hlt];
      rewrite map_size_insert; destruct (_ !! _); unfold Datatypes.id; lia.
  - intros i q Hq Hne Hs. rewrite lookup_insert_ne by done.
    destruct (_ <=? _)%nat; [|done]. apply retain_lookup. by rewrite bool_decide_false.
  - intros Hlt i Hne. rewrite lookup_insert_ne by done.
    destruct (Nat.leb_spec (max_peers m) (base.size (peers m))); [lia|done].
Qed.

(** Connected peers are never evicted: however small the bound, connecting
    distinct peers stores them all. *)
Theorem connections_are_unbounded n ps : NoDup (id <$> ps) ->
  Forall (fun p => state p = Connected) ps ->
  base.size (peers (foldl (fun m p => add_peer p m) (new n) ps)) = length ps.
Proof.
  intros Hnd Hc.
  assert (Hgen : forall m, (forall i q, peers m !! i = Some q -> state q = Connected) ->
    (forall p, p ∈ ps -> peers m !! id p = None) ->
    base.size (peers (foldl (fun m p => add_peer p m) m ps)) = (base.size (peers m) + length ps)%nat).
  2: { rewrite Hgen; [by cbn [new peers]; rewrite map_size_empty|by intros i q; cbn [new peers]; rewrite lookup_empty|].
       intros. apply lookup_empty. }
  revert Hnd. induction Hc as [|p ps Hp _ IH]; intros Hnd m Hall Hnew; [simpl; lia|].
  apply NoDup_cons in Hnd as [Hnp Hnd]. cbn [foldl length].
  assert (Elive : live m = peers m).
  { apply map_eq. intros i. apply retain_ext. destruct (peers m !! i) as [q|] eqn:E; [|done].
    cbn. by rewrite (Hall i q E). }
  assert (Eadd : peers (add_peer p m) = <[id p := p]> (peers m)).
  { rewrite add_peer_peers, Elive. by destruct (_ <=? _)%nat. }
  rewrite IH; [|done|..]; rewrite ?Eadd.
  - rewrite map_size_insert_None; [lia|]. apply Hnew, list_elem_of_here.
  - intros i q. rewrite lookup_insert_Some. intros [[_ <-]|[_ Hq]]; [done|]. by eapply Hall.
  - intros q Hq. rewrite lookup_insert_ne; [by apply Hnew, list_elem_of_further|].
    intros E. apply Hnp. rewrite E. by apply list_elem_of_fmap_2.
Qed.

(** ** Reputation and bans *)

(** [update_reputation] on a peer: the clamped sum, and a ban from -100 down.
    The sum is that of the integers unless it leaves the [i32]. *)
Theorem reputation_exact i delta m p : peers m !! i = Some p ->
  -1000 <= reputation p <= 1000 -> is_i32 delta ->
  let sum := reputation p + delta in
  let r := if sum <? 2147483648
           then if sum <? -2147483648 then 1000 else Z.min (Z.max sum (-1000)) 1000
           else -1000 in
  peers (update_reputation i delta m) !! i =
    Some (with_state (if r <=? -100 then Banned else state p) (with_reputation r p)).
Proof.
  intros Hp Hr Hd sum r. cbn [update_reputation set_peers peers].
  rewrite lookup_alter_eq, Hp. cbn [fmap option_fmap option_map]. f_equal.
  assert (E : Z.min (Z.max (wrap_i32 (reputation p + delta)) (-1000)) 1000 = r).
  { unfold r, sum, wrap_i32, is_i32 in *. clear -Hr Hd.
    destruct (Z.ltb_spec (reputation p + delta) 2147483648).
    - destruct (Z.ltb_spec (reputation p + delta) (-2147483648)).
      + rewrite <- (Z.mod_unique _ _ (-1) (reputation p + delta + 2147483648 + 4294967296)); lia.
      + rewrite Z.mod_small; lia.
    - rewrite <- (Z.mod_unique _ _ 1 (reputation p + delta + 2147483648 - 4294967296)); lia. }
  unfold adjust. cbv zeta. rewrite E. cbn [with_reputation reputation].
  destruct (r <=? -100); by destruct p.
Qed.

Lemma after_untouched i c m p : touches i c = false -> peers m !! i = Some p ->
  state p = Banned -> peers (after m c) !! i = Some p \/ peers (after m c) !! i = None.
Proof.
  intros Ht Hp Hs. destruct c as [q|j s|j|j d|j b|j b|now age]; cbn [touches after] in *; auto;
    try apply bool_decide_eq_false in Ht;
    try (left; cbn [set_state ban_peer update_reputation set_peers peers];
         by rewrite lookup_alter_ne).
  - left. apply add_peer_capacity; [done|congruence|congruence].
  - cbn [cleanup set_peers peers]. destruct (retain _ (peers m) !! i) as [q|] eqn:E; [|by right].
    apply retain_lookup in E as [E _]. left. congruence.
Qed.

Lemma after_absent i c m : touches i c = false -> peers m !! i = None -> peers (after m c) !! i = None.
Proof.
  intros Ht Hn. destruct c as [q|j s|j|j d|j b|j b|now age]; cbn [touches after] in *; auto;
    try apply bool_decide_eq_false in Ht;
    try (cbn [set_state ban_peer update_reputation set_peers peers]; by rewrite lookup_alter_ne).
  - rewrite add_peer_peers, lookup_insert_ne by done. destruct (_ <=? _)%nat; [|done].
    apply eq_None_not_Some. intros [? [E _]%retain_lookup]. congruence.
  - apply eq_None_not_Some. intros [? [E _]%retain_lookup]. congruence.
Qed.

(** A ban holds in every history that does not touch the peer; but any
    [add_peer] of its identifier, which is what a new connection does, stores
    it afresh whatever it was. *)
Theorem bans_hold_until_reconnection i m p cs q : peers m !! i = Some p ->
  Forall (fun c => touches i c = false) cs -> id q = i ->
  let m' := foldl after (ban_peer i m) cs in
  (forall r, peers m' !! i = Some r -> state r = Banned /\ reputation r = -1000) /\
  peers (add_peer q m') !! i = Some q.
Proof.
  intros Hp Hcs Hq m'. split; [|rewrite add_peer_peers, Hq; apply lookup_insert_eq].
  set (b := with_reputation (-1000) (with_state Banned p)).
  assert (H : peers m' !! i = Some b \/ peers m' !! i = None).
  { assert (H0 : peers (ban_peer i m) !! i = Some b \/ peers (ban_peer i m) !! i = None).
    { left. cbn [ban_peer set_peers peers]. by rewrite lookup_alter_eq, Hp. }
    unfold m'. revert H0. generalize (ban_peer i m).
    induction Hcs as [|c cs Hc _ IH]; intros n [H|H]; [by left|by right| |]; apply IH.
    - by apply after_untouched.
    - right. by apply after_absent. }
  intros r Hr. destruct H as [H|H]; [|congruence]. rewrite H in Hr. by injection Hr as <-.
Qed.

(** ** Choosing peers *)
Section order.
Context `{HO : HashOrder}.

#[local] Notation better := (fun p q => reputation q <= reputation p).

Lemma insert_by_reputation_perm p l : insert_by_reputation p l ≡ₚ p :: l.
Proof.
  induction l as [|q l IH]; [done|]. cbn [insert_by_reputation]. destruct (_ <=? _); [done|].
  rewrite IH. apply Permutation_swap.
Qed.
Lemma sort_by_reputation_perm l : sort_by_reputation l ≡ₚ l.
Proof.
  induction l as [|p l IH]; [done|]. unfold sort_by_reputation in *. cbn [foldr].
  by rewrite insert_by_reputation_perm, IH.
Qed.
Lemma insert_by_reputation_sorted p l :
  StronglySorted better l -> StronglySorted better (insert_by_reputation p l).
Proof.
  induction 1 as [|q l Hl IH Hq]; cbn [insert_by_reputation]; [by repeat constructor|].
  destruct (Z.leb_spec (reputation q) (reputation p)) as [Hle|Hlt].
  - constructor; [by constructor|]. constructor; [done|].
    eapply Forall_impl; [exact Hq|]. intros r Hr. cbn in *. lia.
  - constructor; [done|]. rewrite insert_by_reputation_perm. constructor; [lia|done].
Qed.
Lemma sort_by_reputation_sorted l : StronglySorted better (sort_by_reputation l).
Proof. induction l; [constructor|by apply insert_by_reputation_sorted]. Qed.

Lemma take_sorted n l x y : StronglySorted better l -> x ∈ take n l -> y ∈ drop n l -> better x y.
Proof.
  revert n. induction l as [|p l IH]; intros [|n] Hl Hx Hy;
    try (cbn in Hx; by apply not_elem_of_nil in Hx).
  cbn [take drop] in *. inversion Hl as [|? ? Hs Hp]; subst. apply elem_of_cons in Hx as [->|Hx].
  - rewrite Forall_forall in Hp. apply (Hp y). rewrite <- (take_drop n l). set_solver.
  - by apply (IH n).
Qed.

(** [best_peers(n)]: the connected peers of the [n] best reputations, best
    first, and as many as there are when fewer are connected. *)
Theorem best_peers_are_best n m : let best := best_peers n m in
  StronglySorted better best /\
  length best = Nat.min n (connected_count m) /\
  exists rest, best ++ rest ≡ₚ connected_peers m /\
    forall p q, p ∈ best -> q ∈ rest -> reputation q <= reputation p.
Proof.
  intros best. pose proof (sort_by_reputation_sorted (connected_peers m)) as Hs.
  pose proof (sort_by_reputation_perm (connected_peers m)) as Hp.
  unfold best, best_peers. set (l := sort_by_reputation _) in *. split; [|split].
  - rewrite <- (take_drop n l) in Hs. by apply StronglySorted_app_1_l in Hs.
  - rewrite length_take, Hp. done.
  - exists (drop n l). rewrite take_drop. split; [done|]. intros p q. by apply take_sorted.
Qed.
End order.

(** ** Cleaning *)

(** [cleanup] keeps exactly the connected peers and those seen less than
    [max_age] seconds ago; a peer seen after [now] counts as seen before the
    beginning of time. *)
Theorem cleanup_exact now max_age m i p :
  is_u64 now -> is_u64 (last_seen p) -> is_u64 max_age -> now < 2 ^ 63 -> max_age <= 2 ^ 63 ->
  last_seen p < 2 ^ 63 ->
  peers (cleanup now max_age m) !! i = Some p <->
  peers m !! i = Some p /\
  (state p = Connected \/ last_seen p <= now /\ now - last_seen p < max_age).
Proof.
  intros Hn Hl Ha Hn' Ha' Hl'. cbn [cleanup set_peers peers]. rewrite retain_lookup.
  rewrite orb_true_iff, bool_decide_eq_true, Z.ltb_lt.
  assert (E : now -! last_seen p < max_age <-> last_seen p <= now /\ now - last_seen p < max_age).
  { unfold is_u64, sub64 in *. destruct (Z.le_gt_cases (last_seen p) now).
    - rewrite Z.mod_small by lia. lia.
    - rewrite <- (Z.mod_unique _ _ (-1) (now - last_seen p + B64)) by lia. lia. }
  by rewrite E.
Qed.

Module Sample.
#[local] Existing Instance canonical_order.
Definition peer (i : string) (s : PeerState) (r seen : Z) : PeerInfo :=
  mkPeer i [] 1 "" false None seen s r.
Definition three : PeerManager :=
  foldl (fun m p => add_peer p m) (new 2)
    [peer "a" Connected 5 10; peer "b" Connected 900 20; peer "c" Disconnected 7 30].

Lemma peers_stay_well_formed_witness :
  peers_ok (foldl after (new 1) [Add (peer "a" Connected 0 10); Reputation "a" 2147483647; Ban "b"]).
Proof. apply peers_stay_well_formed. repeat constructor; cbn; lia. Defined.

Lemma connections_are_unbounded_witness :
  base.size (peers (foldl (fun m p => add_peer p m) (new 1)
    [peer "a" Connected 0 10; peer "b" Connected 0 10; peer "c" Connected 0 10])) = 3%nat.
Proof.
  apply (connections_are_unbounded 1 [peer "a" Connected 0 10; peer "b" Connected 0 10;
    peer "c" Connected 0 10]).
  - apply (bool_decide_unpack _). vm_compute. exact I.
  - by repeat constructor.
Defined.

(** The largest praise there is bans the peer. *)
Lemma reputation_exact_witness :
  peers (update_reputation "b" 2147483647 three) !! "b" = Some (peer "b" Banned (-1000) 20).
Proof.
  rewrite (reputation_exact "b" 2147483647 three (peer "b" Connected 900 20));
    [reflexivity|reflexivity|cbn; lia|unfold is_i32; lia].
Defined.

Lemma bans_hold_until_reconnection_witness :
  peers (add_peer (peer "a" Connected 0 40) (ban_peer "a" three)) !! "a" =
    Some (peer "a" Connected 0 40).
Proof.
  apply (bans_hold_until_reconnection "a" three (peer "a" Connected 5 10) []); by try constructor.
Defined.

(** Clocks that disagree: a peer seen one second from now is forgotten. *)
Lemma cleanup_exact_witness :
  ~ peers (cleanup 29 3600 three) !! "c" = Some (peer "c" Disconnected 7 30).
Proof.
  rewrite (cleanup_exact 29 3600 three "c" (peer "c" Disconnected 7 30));
    unfold is_u64; cbn [last_seen peer state]; try lia.
  intros [_ [H|H]]; [done|lia].
Defined.

Example best_two : id <$> best_peers 2 three = ["b"; "a"].
Proof. vm_compute. reflexivity. Qed.
End Sample.
