(* ===== verification/Sync.v ===== *)
(** * Synchronization (crates/nexus-network: sync.rs, protocol.rs, lib.rs)

    The network's messages, and [SyncManager] as a record with the DAG it
    shares; one definition per method.  The transaction provider is a function
    (the pool's lookup), the finalized tip the content of the shared cell.
    Adding a received vertex reads the clock, which is an argument. *)
From S2P Require Import Prelude Types Crypto Transaction Vertex Dag DagConverge Bft.
From stdpp Require Import base numbers list gmap sets strings.
From Stdlib Require Import ZArith Lia.
#[local] Open Scope Z_scope.

Inductive SyncRequest :=
  | GetVertices (hashes : list Hash)
  | GetVerticesSince (height limit : Z)
  | GetTransactions (hashes : list Hash)
  | GetTips
  | GetFinalized.
Inductive SyncResponse :=
  | Vertices (vs : list Vertex)
  | Transactions (txs : list Transaction)
  | Tips (hashes : list Hash)
  | FinalizedTip (hash : option Hash)
  | SyncError (msg : string).

Inductive NetworkMessage :=
  | NewTransaction (tx : Transaction)
  | NewVertex (v : Vertex)
  | ConsensusMessage (m : BftMessage)
  | RequestMessage (r : SyncRequest)
  | ResponseMessage (r : SyncResponse)
  | Ping (n : Z)
  | Pong (n : Z).

(** [NetworkError] *)
Inductive NetworkError :=
  | ConnectionFailed (msg : string)
  | PeerNotFound (msg : string)
  | ProtocolError (msg : string)
  | SerializationError (msg : string)
  | Timeout
  | ChannelClosed.

Inductive SyncState := Idle | Syncing | Synced.
#[export] Instance SyncState_eq_dec : EqDecision SyncState.
Proof. solve_decision. Defined.

Record SyncConfig := mkConfig {
  batch_size : Z;
  max_concurrent : Z;
  timeout : Z;
  min_peers : Z
}.
Definition default_config : SyncConfig := mkConfig 100 4 30 1.

Record SyncManager := mkSync {
  sync_config : SyncConfig;
  dag : Dag;
  sync_state : SyncState;
  pending_requests : list Hash;
  in_flight : Z;
  tx_provider : option (list Hash -> list Transaction);
  finalized_tip : option (option Hash)
}.
Definition new (config : SyncConfig) (d : Dag) : SyncManager :=
  mkSync config d Idle [] 0 None None.
Definition set_dag d m := mkSync (sync_config m) d (sync_state m) (pending_requests m)
  (in_flight m) (tx_provider m) (finalized_tip m).
Definition set_pending_requests ps m := mkSync (sync_config m) (dag m) (sync_state m) ps
  (in_flight m) (tx_provider m) (finalized_tip m).
Definition set_in_flight n m := mkSync (sync_config m) (dag m) (sync_state m)
  (pending_requests m) n (tx_provider m) (finalized_tip m).
Definition set_sync_state s m := mkSync (sync_config m) (dag m) s (pending_requests m)
  (in_flight m) (tx_provider m) (finalized_tip m).
Definition set_tx_provider f m := mkSync (sync_config m) (dag m) (sync_state m)
  (pending_requests m) (in_flight m) (Some f) (finalized_tip m).
Definition set_finalized_tip t m := mkSync (sync_config m) (dag m) (sync_state m)
  (pending_requests m) (in_flight m) (tx_provider m) (Some t).

Section sync.
Context `{HashOrder}.

(** The inner loop of [GetVerticesSince]: the vertices of one height, until
    [limit] are collected *)
Fixpoint collect_height (d : Dag) (limit : nat) (hashes : list Hash) (acc : list Vertex)
    : list Vertex :=
  match hashes with
  | [] => acc
  | hash :: hashes =>
      let acc := match get_vertex d hash with Some v => acc ++ [v] | None => acc end in
      if (limit <=? length acc)%nat then acc else collect_height d limit hashes acc
  end.
(** The outer loop *)
Fixpoint since_loop (fuel : nat) (d : Dag) (limit : nat) (current_height h : Z)
    (acc : list Vertex) : option (list Vertex) :=
  match fuel with
  | O => None
  | S fuel =>
      if (h <=? current_height) && (length acc <? limit)%nat
      then since_loop fuel d limit current_height (h +! 1)
             (collect_height d limit (get_vertices_at_height d h) acc)
      else Some acc
  end.
Definition vertices_since (d : Dag) (height limit : Z) : option (list Vertex) :=
  let current_height := latest_height d in
  since_loop (S (S (Z.to_nat current_height))) d (Z.to_nat limit) current_height (height +! 1) [].

Definition handle_request (m : SyncManager) (request : SyncRequest) : option SyncResponse :=
  match request with
  | GetVertices hashes => Some (Vertices (omap (get_vertex (dag m)) hashes))
  | GetVerticesSince height limit => Vertices <$> vertices_since (dag m) height limit
  | GetTransactions hashes =>
      Some (Transactions (match tx_provider m with
                          | Some provider => provider hashes
                          | None => []
                          end))
  | GetTips => Some (Tips (get_tips (dag m)))
  | GetFinalized =>
      Some (FinalizedTip (match finalized_tip m with Some tip => tip | None => None end))
  end.

Context `{CryptoLib}.

(** [handle_response] always returns [Ok]. *)
Definition handle_response (clock : nat -> Z) (m : SyncManager) (response : SyncResponse)
    : option SyncManager :=
  match response with
  | Vertices vs =>
      d ← add_vertices clock (dag m) vs;
      Some (set_in_flight (sat_sub64 (in_flight m) 1) (set_dag d m))
  | Tips tips =>
      Some (foldl (fun m tip =>
        match get_vertex (dag m) tip with
        | None => set_pending_requests (pending_requests m ++ [tip]) m
        | Some _ => m
        end) m tips)
  | SyncError _ => Some (set_in_flight (sat_sub64 (in_flight m) 1) m)
  | Transactions _ | FinalizedTip _ => Some m
  end.
End sync.

(** The loop of [next_request] that fills a batch, [n] being the room left *)
Fixpoint pop_batch (n : nat) (queue : list Hash) : list Hash * list Hash :=
  match n, queue with
  | S n, hash :: queue => let '(batch, queue) := pop_batch n queue in (hash :: batch, queue)
  | _, _ => ([], queue)
  end.
Definition next_request (m : SyncManager) : SyncManager * option SyncRequest :=
  if max_concurrent (sync_config m) <=? in_flight m then (m, None)
  else
    let '(batch, queue) := pop_batch (Z.to_nat (batch_size (sync_config m))) (pending_requests m) in
    let m := set_pending_requests queue m in
    match batch with
    | [] => (m, None)
    | _ => (set_in_flight (in_flight m +! 1) m, Some (GetVertices batch))
    end.

Definition is_synced (m : SyncManager) : bool := bool_decide (sync_state m = Synced).
Definition start_sync (m : SyncManager) : SyncManager := set_sync_state Syncing m.
Definition mark_synced (m : SyncManager) : SyncManager := set_sync_state Synced m.
