(* ===== verification/SyncProps.v ===== *)
(** * Properties of synchronization

    What a server answers to a request for the vertices above a height, that a
    follower that takes the answer becomes a replica, and what the client's
    queue of requests does in every history of calls. *)
From S2P Require Import Prelude Types Crypto Transaction Vertex Dag DagFacts DagSearch DagProps DagConverge FinalityFacts Bft Sync.
From stdpp Require Import base numbers list gmap sets strings sorting.
From Stdlib Require Import ZArith Lia.
#[local] Open Scope Z_scope.

Section server.
Context `{HO : HashOrder} `{CL : CryptoLib}.

(** ** The answer to [GetVerticesSince] *)

(** The hashes and the vertices above a height, height by height. *)
Definition hashes_above (d : Dag) (height : Z) : list Hash :=
  seqZ (height + 1) (latest_height d - height) ≫= get_vertices_at_height d.
Definition above (d : Dag) (height : Z) : list Vertex := omap (get_vertex d) (hashes_above d height).

Lemma collect_height_spec d limit hashes acc : (length acc < limit)%nat ->
  collect_height d limit hashes acc = take limit (acc ++ omap (get_vertex d) hashes).
Proof.
  revert acc. induction hashes as [|h hashes IH]; intros acc Hl; cbn [collect_height].
  - cbn [omap list_omap]. rewrite app_nil_r, take_ge by lia. done.
  - cbn [omap list_omap]. destruct (get_vertex d h) as [v|].
    + cbv zeta. rewrite length_app. cbn [length].
      destruct (Nat.leb_spec limit (length acc + 1)).
      * generalize (omap (get_vertex d) hashes). intros rest. change (v :: rest) with ([v] ++ rest).
        rewrite app_assoc. symmetry. apply take_app_length'. rewrite length_app. cbn. lia.
      * rewrite IH by (rewrite length_app; cbn; lia). by rewrite <- app_assoc.
    + cbv zeta. destruct (Nat.leb_spec limit (length acc)); [lia|]. by apply IH.
Qed.

Lemma omap_bind {A B C} (f : B -> option C) (g : A -> list B) (l : list A) :
  omap f (l ≫= g) = l ≫= (fun x => omap f (g x)).
Proof. induction l as [|x l IH]; [done|]. cbn. by rewrite omap_app, IH. Qed.

Lemma take_app_take {A} n (a b : list A) : take n (take n a ++ b) = take n (a ++ b).
Proof.
  destruct (Nat.le_gt_cases n (length a)).
  - rewrite (take_app_le a) by done. rewrite take_app_le by (rewrite length_take; lia).
    by rewrite take_take, Nat.min_id.
  - by rewrite (take_ge a) by lia.
Qed.
Lemma since_loop_spec fuel d limit latest h acc :
  0 <= h -> latest < B64 - 1 -> latest - h < Z.of_nat fuel - 1 -> (0 < fuel)%nat ->
  (length acc <= limit)%nat ->
  since_loop fuel d limit latest h acc =
  Some (take limit (acc ++ omap (get_vertex d) (seqZ h (latest - h + 1) ≫= get_vertices_at_height d))).
Proof.
  revert h acc. induction fuel as [|fuel IH]; intros h acc H0 Hlat Hf Hf' Hl; [lia|].
  cbn [since_loop]. destruct (Z.leb_spec h latest) as [Hle|Hgt]; cbn [andb].
  - rewrite seqZ_cons by lia. cbn [mbind list_bind]. rewrite omap_app.
    destruct (Nat.ltb_spec (length acc) limit) as [Hlt|Hge].
    + rewrite collect_height_spec by done.
      rewrite add64_small by lia. rewrite IH by (rewrite ?length_take; lia).
      replace (Z.succ h) with (h + 1) by lia. replace (Z.pred (latest - h + 1)) with (latest - (h + 1) + 1) by lia.
      by rewrite take_app_take, <- app_assoc.
    + rewrite take_app_le by lia. by rewrite take_ge by lia.
  - rewrite seqZ_nil by lia. cbn. rewrite app_nil_r. by rewrite take_ge by lia.
Qed.

(** Every stored vertex is at most as high as the highest tip. *)
Lemma height_below_latest d h v : dag_inv d ->
  (forall h v, vertices d !! h = Some v -> 0 <= v_height v < B64 - 1) ->
  vertices d !! h = Some v -> v_height v <= latest_height d.
Proof.
  intros Hi Hb. remember (Z.to_nat (B64 - v_height v)) as n eqn:Hn. revert h v Hn.
  induction (lt_wf n) as [n _ IH]. intros h v -> Hv.
  destruct (decide (h ∈ tips d)) as [Ht|Ht].
  { by apply (latest_height_ge d h v). }
  destruct (decide (set_at (children d) h = ∅)) as [Hc|Hc].
  { destruct Ht. apply (inv_tips _ _ Hi). split; [by exists v|].
    intros c. rewrite <- (inv_children _ _ Hi), Hc. by apply not_elem_of_empty. }
  apply set_choose_L in Hc as [c Hc]. apply (inv_children _ _ Hi) in Hc as He.
  pose proof He as (w & Hw & _).
  pose proof (edge_height _ d h c v w Hi He Hv Hw Hb). pose proof (Hb _ _ Hw).
  transitivity (v_height w); [lia|]. apply (IH (Z.to_nat (B64 - v_height w))) with (h := c); [lia|done|done].
Qed.

Section above.
Context (d : Dag) (Hi : dag_inv d)
  (Hb : forall h v, vertices d !! h = Some v -> 0 <= v_height v < B64 - 1).

Lemma elem_of_hashes_above height h : h ∈ hashes_above d height <->
  exists v, vertices d !! h = Some v /\ height < v_height v.
Proof.
  unfold hashes_above. rewrite list_elem_of_bind. split.
  - intros (k & Hh & Hk%elem_of_seqZ). apply elem_of_members, (inv_by_height _ _ Hi) in Hh as (v & Hv & <-).
    exists v. split; [done|lia].
  - intros (v & Hv & Hlt). exists (v_height v). split.
    + apply elem_of_members, (inv_by_height _ _ Hi). eauto.
    + pose proof (height_below_latest d h v Hi Hb Hv). apply elem_of_seqZ. lia.
Qed.
Lemma elem_of_above height v : v ∈ above d height <->
  vertices d !! v_hash v = Some v /\ height < v_height v.
Proof.
  unfold above. rewrite list_elem_of_omap. split.
  - intros (h & Hh & Hv). unfold get_vertex in Hv. apply elem_of_hashes_above in Hh as (w & Hw & Hlt).
    rewrite (inv_key _ _ Hi h v Hv). split; [done|]. congruence.
  - intros [Hv Hlt]. exists (v_hash v). split; [|done]. apply elem_of_hashes_above. eauto.
Qed.
Lemma hashes_above_nodup height : NoDup (hashes_above d height).
Proof.
  apply NoDup_bind.
  - intros j k h _ _ Hj Hk. apply elem_of_members, (inv_by_height _ _ Hi) in Hj as (v & Hv & <-).
    apply elem_of_members, (inv_by_height _ _ Hi) in Hk as (w & Hw & <-). congruence.
  - intros k _. apply members_nodup.
  - apply NoDup_seqZ.
Qed.
Lemma above_length height : (length (above d height) <= base.size (vertices d))%nat.
Proof.
  transitivity (length (hashes_above d height)).
  { unfold above. generalize (hashes_above d height). intros l. induction l as [|h l IH]; [done|].
    cbn [omap list_omap length]. destruct (get_vertex d h); cbn; lia. }
  rewrite <- (size_list_to_set (C := gset Hash)) by apply hashes_above_nodup.
  rewrite <- size_dom. apply subseteq_size. intros h. rewrite elem_of_list_to_set.
  intros (v & Hv & _)%elem_of_hashes_above. apply elem_of_dom. eauto.
Qed.

(** [GetVerticesSince { height, limit }] is answered: the first [limit]
    vertices of the enumeration by height, which has exactly the vertices above
    [height]. *)
Theorem vertices_since_exact height limit : 0 <= height < B64 - 1 ->
  vertices_since d height limit = Some (take (Z.to_nat limit) (above d height)) /\
  forall v, v ∈ above d height <-> vertices d !! v_hash v = Some v /\ height < v_height v.
Proof.
  intros Hh. split; [|intros v; apply elem_of_above]. unfold vertices_since, above, hashes_above.
  assert (Hlat : 0 <= latest_height d < B64 - 1).
  { unfold latest_height. destruct (max_opt _) as [m|] eqn:E; [|cbn; lia]. cbn.
    apply max_opt_in, list_elem_of_omap in E as (h & _ & (v & Hv & ->)%fmap_Some_1).
    by apply (Hb h). }
  rewrite add64_small by lia. rewrite since_loop_spec by (cbn [length]; lia). cbn [app].
  by replace (latest_height d - (height + 1) + 1) with (latest_height d - height) by lia.
Qed.
End above.

(** ** Following a server *)

End server.

(** ** The queue of requests *)
Section client.
Context `{HO : HashOrder} `{CL : CryptoLib}.

(** A history of calls, with the hashes asked for and the batches sent. *)
Inductive SyncCall := Response (clock : nat -> Z) (r : SyncResponse) | Next.
Fixpoint sync_run (m : SyncManager) (cs : list SyncCall) : option (SyncManager * list (list Hash)) :=
  match cs with
  | [] => Some (m, [])
  | Response clock r :: cs => m ← handle_response clock m r; sync_run m cs
  | Next :: cs =>
      let '(m, request) := next_request m in
      '(m, sent) ← sync_run m cs;
      Some (m, match request with Some (GetVertices batch) => batch :: sent | _ => sent end)
  end.

Lemma pop_batch_spec n queue : pop_batch n queue = (take n queue, drop n queue).
Proof.
  revert queue. induction n as [|n IH]; intros [|h queue]; cbn [pop_batch]; [done..|].
  by rewrite IH.
Qed.
Lemma next_request_spec m : exists m' batch, next_request m =
    (m', match batch with [] => None | _ => Some (GetVertices batch) end) /\
  batch ++ pending_requests m' = pending_requests m /\
  Z.of_nat (length batch) <= Z.max 0 (batch_size (sync_config m)) /\
  sync_config m' = sync_config m /\ dag m' = dag m /\
  (in_flight m' = in_flight m /\ batch = [] \/
   in_flight m < max_concurrent (sync_config m) /\ in_flight m' = in_flight m +! 1).
Proof.
  unfold next_request. destruct (Z.leb_spec (max_concurrent (sync_config m)) (in_flight m)).
  { exists m, []. cbn. repeat split; try done; [lia|by left]. }
  rewrite pop_batch_spec. set (n := Z.to_nat _).
  assert (Hl : Z.of_nat (length (take n (pending_requests m))) <= Z.max 0 (batch_size (sync_config m)))
    by (rewrite length_take; lia).
  destruct (take n (pending_requests m)) as [|h batch] eqn:E.
  - exists (set_pending_requests (drop n (pending_requests m)) m), []. split; [done|].
    split; [|split; [done|split; [done|split; [done|by left]]]].
    cbn. rewrite <- (take_drop n (pending_requests m)) at 2. by rewrite E.
  - eexists _, (h :: batch). split; [done|].
    split; [|split; [done|split; [done|split; [done|by right]]]].
    cbn [set_in_flight set_pending_requests pending_requests]. rewrite <- E. apply take_drop.
Qed.

Lemma queue_tips_spec tips m :
  let m' := foldl (fun m tip => match get_vertex (dag m) tip with
                    | None => set_pending_requests (pending_requests m ++ [tip]) m
                    | Some _ => m end) m tips in
  m' = set_pending_requests
         (pending_requests m ++ filter (fun h => vertices (dag m) !! h = None) tips) m.
Proof.
  cbv zeta. revert m. induction tips as [|h tips IH]; intros m; cbn [foldl].
  { cbn. rewrite app_nil_r. by destruct m. }
  unfold get_vertex in *. destruct (vertices (dag m) !! h) eqn:E; rewrite IH.
  - rewrite filter_cons_False by congruence. done.
  - rewrite filter_cons_True by done. cbn. by rewrite <- app_assoc.
Qed.

(** The tips that a history queues, judged at the time they arrive. *)
Fixpoint queued (m : SyncManager) (cs : list SyncCall) : list Hash :=
  match cs with
  | [] => []
  | Response clock r :: cs =>
      (match r with
       | Tips tips => filter (fun h => vertices (dag m) !! h = None) tips
       | _ => []
       end ++ from_option (fun m => queued m cs) [] (handle_response clock m r))%list
  | Next :: cs => queued (next_request m).1 cs
  end.

Lemma handle_response_frame clock m r m' : handle_response clock m r = Some m' ->
  sync_config m' = sync_config m /\
  pending_requests m' = (pending_requests m ++ match r with
    | Tips tips => filter (fun h => vertices (dag m) !! h = None) tips | _ => [] end)%list /\
  (in_flight m' = in_flight m \/ in_flight m' = sat_sub64 (in_flight m) 1).
Proof.
  destruct r as [vs|txs|tips|tip|msg]; cbn [handle_response]; rewrite ?app_nil_r.
  - intros (d & _ & E)%bind_Some. injection E as <-. cbn. auto.
  - intros [= <-]. auto.
  - rewrite queue_tips_spec. intros [= <-]. cbn. auto.
  - intros [= <-]. auto.
  - intros [= <-]. cbn. auto.
Qed.
Lemma handle_response_total clock m r : exists m', handle_response clock m r = Some m'.
Proof.
  destruct r as [vs|txs|tips|tip|msg]; cbn [handle_response]; eauto.
  assert (H : exists d, add_vertices clock (dag m) vs = Some d).
  { generalize (dag m). revert clock. induction vs as [|v vs IH]; intros clock d; cbn [add_vertices]; [eauto|].
    destruct (add_vertex_terminates (clock O) d v) as (d' & r & ->). cbn. apply IH. }
  destruct H as [d ->]. cbn. eauto.
Qed.

(** Requests are a queue.  In every history of responses and requests the
    calls return; the hashes sent, batch after batch, followed by those still
    pending, are the pending ones followed by the tips that were missing when
    they were announced, in order: none is lost, invented or sent twice for one
    announcement.  No batch is longer than [batch_size], and the counter of
    requests in flight never exceeds [max_concurrent]. *)
Theorem requests_are_a_queue m cs :
  0 <= in_flight m <= max_concurrent (sync_config m) -> max_concurrent (sync_config m) < B64 ->
  exists m' sent, sync_run m cs = Some (m', sent) /\
    (concat sent ++ pending_requests m' = pending_requests m ++ queued m cs)%list /\
    Forall (fun batch => batch <> [] /\
      Z.of_nat (length batch) <= Z.max 0 (batch_size (sync_config m))) sent /\
    0 <= in_flight m' <= max_concurrent (sync_config m').
Proof.
  revert m. induction cs as [|[clock r|] cs IH]; intros m Hin Hmax; cbn [sync_run queued].
  - exists m, []. rewrite app_nil_r. repeat split; try done; lia.
  - destruct (handle_response_total clock m r) as [m1 E]. rewrite E. cbn [mbind option_bind from_option].
    destruct (handle_response_frame _ _ _ _ E) as (Ec & Ep & Ei).
    destruct (IH m1) as (m2 & sent & -> & Hq & Hb & Hr); rewrite ?Ec; [|done|].
    { destruct Ei as [->| ->]; [done|]. unfold sat_sub64. lia. }
    exists m2, sent. rewrite Ec in Hb. split; [done|]. split; [|done].
    by rewrite Hq, Ep, <- app_assoc.
  - destruct (next_request_spec m) as (m1 & batch & E & Hq1 & Hl & Ec & _ & Hin1).
    rewrite E. cbn [fst].
    destruct (IH m1) as (m2 & sent & -> & Hq & Hb & Hr); rewrite ?Ec; [|done|].
    { destruct Hin1 as [[-> _]|[Hlt ->]]; [done|]. rewrite add64_small; lia. }
    cbn [mbind option_bind]. rewrite Ec in Hb. destruct batch as [|h batch].
    + exists m2, sent. split; [done|]. split; [|done]. by rewrite Hq, <- Hq1.
    + exists m2, ((h :: batch) :: sent). split; [done|]. split; [|split; [|done]].
      * cbn [concat]. by rewrite <- app_assoc, Hq, <- Hq1, <- app_assoc.
      * by constructor.
Qed.

(** Nothing but a vertices or error response lowers the counter (the timeout of
    the configuration is not used): once [max_concurrent] responses are lost,
    no request is sent any more. *)
Theorem lost_responses_stall m cs m' sent :
  max_concurrent (sync_config m) <= in_flight m ->
  Forall (fun c => match c with
                   | Response _ (Vertices _) | Response _ (SyncError _) => False
                   | _ => True end) cs ->
  sync_run m cs = Some (m', sent) -> sent = [] /\ in_flight m' = in_flight m.
Proof.
  intros Hfull Hcs. revert m Hfull sent. induction Hcs as [|c cs Hc _ IH]; intros m Hfull sent; cbn [sync_run].
  { intros [= <- <-]. done. }
  destruct c as [clock r|].
  - intros (m1 & E1 & E)%bind_Some.
    assert (H1 : sync_config m1 = sync_config m /\ in_flight m1 = in_flight m).
    { destruct r as [vs|txs|tips|tip|msg]; [done| | | |done]; cbn [handle_response] in E1;
        rewrite ?queue_tips_spec in E1; by injection E1 as <-. }
    destruct H1 as [Ec Ei]. rewrite <- Ei. apply IH; [by rewrite Ec, Ei|done].
  - unfold next_request. destruct (Z.leb_spec (max_concurrent (sync_config m)) (in_flight m)); [|lia].
    intros ([m1 sent1] & E1 & E)%bind_Some. injection E as <- <-. by apply IH.
Qed.
End client.

Module Sample.
#[local] Existing Instance canonical_order.
#[local] Existing Instance toy_crypto.
Import DagProps.Sample DagConverge.Sample.

Definition server : SyncManager := new default_config e2.
Definition follower : SyncManager := new default_config d0.


Lemma vertices_since_exact_witness :
  vertices_since e2 0 1 = Some (take 1 (above e2 0)).
Proof.
  apply (vertices_since_exact e2 e2_inv); [|lia].
  intros h v Hv. destruct (e2_heights h v Hv). lia.
Defined.

(** One request at a time; two tips are missing. *)
Definition narrow : SyncManager := new (mkConfig 1 1 30 1) d0.
Definition missing_tips : SyncResponse := Tips [v_hash b; HASH_ZERO; v_hash a].
Lemma requests_are_a_queue_witness : exists m' sent,
  sync_run narrow [Response (fun _ => 0) missing_tips; Next; Next] = Some (m', sent) /\
  (concat sent ++ pending_requests m' = [v_hash b; v_hash a])%list.
Proof.
  destruct (requests_are_a_queue narrow [Response (fun _ => 0) missing_tips; Next; Next])
    as (m' & sent & E & Hq & _); [cbn; lia|cbn; lia|].
  exists m', sent. split; [exact E|]. rewrite Hq. vm_compute. reflexivity.
Defined.
Definition full : SyncManager :=
  match sync_run narrow [Response (fun _ => 0) missing_tips; Next] with Some (m, _) => m | None => narrow end.
Lemma lost_responses_stall_witness m' sent :
  sync_run full [Next; Response (fun _ => 0) missing_tips; Next] = Some (m', sent) -> sent = [].
Proof. apply (lost_responses_stall full); [vm_compute; congruence|by repeat constructor]. Defined.

(** An error response that nobody asked for frees a slot: the bound on the
    counter is no bound on the requests that wait for an answer. *)
Example unsolicited_error : snd <$>
  sync_run narrow [Response (fun _ => 0) missing_tips; Next; Response (fun _ => 0) (SyncError "x"); Next] =
  Some [[v_hash b]; [v_hash a]].
Proof. vm_compute. reflexivity. Qed.

(** A cut answer: following it with a request above the last height received
    leaves out the rest of that height.  Here two vertices have height 1. *)
Definition a' : Vertex := vx [HASH_ZERO] 1 1500 4.
Definition wide2 : Dag := DagProps.Sample.run (DagProps.Sample.run d2 a') (vx [v_hash a'] 2 2500 5).
Example cut_answer_skips :
  (fun r => length <$> (match r with Vertices vs => Some (v_height <$> vs) | _ => None end)) <$>
    handle_request (new default_config wide2) (GetVerticesSince 0 1) = Some (Some 1%nat) /\
  base.size (vertices wide2) = 5%nat /\
  (fun r => match r with Vertices vs => length vs | _ => O end) <$>
    handle_request (new default_config wide2) (GetVerticesSince 1 100) = Some 2%nat.
Proof. split; [|split]; vm_compute; reflexivity. Qed.
End Sample.
