(* ===== verification/Mempool.v ===== *)
(** * The mempool (crates/nexus-rpc/src/mempool.rs)

    Two views.  First each method as a function on the pool, as if it ran
    alone.  Then the methods as threads that take the two mutexes one after the
    other, in the order of the source: a thread is at a program point, and a
    step either acquires a mutex that no other thread is holding or does the
    work up to the next acquisition or the return, which drops the guards.  A
    mutex is held by the threads between its acquisition and its release. *)
From S2P Require Import Prelude Types Crypto Transaction.
From stdpp Require Import base numbers list gmap strings relations.
From Stdlib Require Import ZArith Lia.
#[local] Open Scope Z_scope.

Record Mempool := mkMempool {
  pending : list Transaction;
  by_hash : gmap Hash Transaction;
  max_size : nat
}.
Definition new (max_size : nat) : Mempool := mkMempool [] ∅ max_size.

Section mempool.
Context `{CryptoLib}.

(** ** The methods *)

(** The last lines of [add], both guards being held *)
Definition insert_pending (tx : Transaction) (m : Mempool) : Mempool * bool :=
  if (max_size m <=? length (pending m))%nat then (m, false)
  else (mkMempool (pending m ++ [tx]) (<[tx_hash tx := tx]> (by_hash m)) (max_size m), true).
Definition add (tx : Transaction) (m : Mempool) : Mempool * bool :=
  if decide (is_Some (by_hash m !! tx_hash tx)) then (m, false) else insert_pending tx m.

Definition get_by_hashes (hashes : list Hash) (m : Mempool) : list Transaction :=
  omap (fun h => by_hash m !! h) hashes.

Definition drain_batch (limit : nat) (m : Mempool) : Mempool * list Transaction :=
  let len := length (pending m) in
  let batch := take (Nat.min len limit) (pending m) in
  (mkMempool (drop (Nat.min len limit) (pending m))
     (foldl (fun by_hash tx => delete (tx_hash tx) by_hash) (by_hash m) batch) (max_size m), batch).

Definition len (m : Mempool) : nat := length (pending m).
Definition is_empty (m : Mempool) : bool := (len m =? 0)%nat.

Inductive Call :=
  | Add (tx : Transaction)
  | GetByHashes (hashes : list Hash)
  | DrainBatch (limit : nat)
  | Len.
Inductive Reply :=
  | Added (b : bool)
  | Found (txs : list Transaction)
  | Drained (txs : list Transaction)
  | Length (n : nat).
Definition exec (c : Call) (m : Mempool) : Mempool * Reply :=
  match c with
  | Add tx => let '(m, b) := add tx m in (m, Added b)
  | GetByHashes hashes => (m, Found (get_by_hashes hashes m))
  | DrainBatch limit => let '(m, txs) := drain_batch limit m in (m, Drained txs)
  | Len => (m, Length (len m))
  end.

(** ** The methods as threads *)
Inductive Mutex := PendingLock | ByHashLock.
#[export] Instance Mutex_eq_dec : EqDecision Mutex.
Proof. solve_decision. Defined.

(** Program points: before the first acquisition, after each acquisition, and
    (in [add]) between the lookup and the second acquisition. *)
Inductive Point :=
  | Start
  | HoldsFirst
  | Checked
  | HoldsBoth
  | Done (r : Reply).

(** The mutexes held at a point of a call *)
Definition held (c : Call) (p : Point) : list Mutex :=
  match c, p with
  | Add _, (HoldsFirst | Checked) => [ByHashLock]
  | Add _, HoldsBoth => [ByHashLock; PendingLock]
  | GetByHashes _, HoldsFirst => [ByHashLock]
  | DrainBatch _, HoldsFirst => [PendingLock]
  | DrainBatch _, HoldsBoth => [PendingLock; ByHashLock]
  | Len, HoldsFirst => [PendingLock]
  | _, _ => []
  end.
(** The mutex a thread is waiting for, and its point once it has it *)
Definition wants (c : Call) (p : Point) : option (Mutex * Point) :=
  match c, p with
  | Add _, Start => Some (ByHashLock, HoldsFirst)
  | Add _, Checked => Some (PendingLock, HoldsBoth)
  | GetByHashes _, Start => Some (ByHashLock, HoldsFirst)
  | DrainBatch _, Start => Some (PendingLock, HoldsFirst)
  | DrainBatch _, HoldsFirst => Some (ByHashLock, HoldsBoth)
  | Len, Start => Some (PendingLock, HoldsFirst)
  | _, _ => None
  end.
(** The work between two acquisitions, or up to the return *)
Definition work (c : Call) (p : Point) (m : Mempool) : option (Mempool * Point) :=
  match c, p with
  | Add tx, HoldsFirst =>
      Some (m, if decide (is_Some (by_hash m !! tx_hash tx)) then Done (Added false) else Checked)
  | Add tx, HoldsBoth => let '(m, b) := insert_pending tx m in Some (m, Done (Added b))
  | GetByHashes hashes, HoldsFirst => Some (m, Done (Found (get_by_hashes hashes m)))
  | DrainBatch limit, HoldsBoth =>
      let '(m, txs) := drain_batch limit m in Some (m, Done (Drained txs))
  | Len, HoldsFirst => Some (m, Done (Length (len m)))
  | _, _ => None
  end.

(** A pool shared by threads *)
Record Config := mkConfig { pool : Mempool; threads : list (Call * Point) }.
Definition initial (m : Mempool) (calls : list Call) : Config :=
  mkConfig m ((fun c => (c, Start)) <$> calls).
Definition free (l : Mutex) (ts : list (Call * Point)) : Prop :=
  Forall (fun t => l ∉ held t.1 t.2) ts.

Inductive step : Config -> Config -> Prop :=
  | step_acquire m ts i c p l p' :
      ts !! i = Some (c, p) -> wants c p = Some (l, p') -> free l ts ->
      step (mkConfig m ts) (mkConfig m (<[i := (c, p')]> ts))
  | step_work m ts i c p m' p' :
      ts !! i = Some (c, p) -> work c p m = Some (m', p') ->
      step (mkConfig m ts) (mkConfig m' (<[i := (c, p')]> ts)).
Definition steps : Config -> Config -> Prop := rtc step.
Definition finished (c : Config) : Prop :=
  Forall (fun t => exists r, t.2 = Done r) (threads c).
Definition stuck (c : Config) : Prop := ~ finished c /\ forall c', ~ step c c'.
End mempool.
