(* ===== verification/MempoolProps.v ===== *)
(** * Properties of the mempool

    Run alone, the methods implement a bounded queue without duplicates.  Run
    as threads, every interleaving has the effect of the completed calls one
    after the other; but the two mutexes are taken in both orders, and exactly
    the crossing of an [add] with a [drain_batch] stops both for ever. *)
From stdpp Require Import base numbers list gmap strings relations.
From Stdlib Require Import ZArith Lia.
From S2P Require Import Prelude Types Crypto Transaction Mempool.
#[local] Open Scope Z_scope.

Section queue.
Context `{CL : CryptoLib}.

(** ** The methods against a queue *)

(** The specification: a list of transactions, at most [n] and with distinct
    hashes. *)
Definition holds_hash (q : list Transaction) (h : Hash) : bool :=
  existsb (fun tx => bool_decide (tx_hash tx = h)) q.
Definition queue_exec (n : nat) (c : Call) (q : list Transaction) : list Transaction * Reply :=
  match c with
  | Add tx =>
      if holds_hash q (tx_hash tx) || (n <=? length q)%nat then (q, Added false)
      else (q ++ [tx], Added true)
  | GetByHashes hashes =>
      (q, Found (omap (fun h => head (filter (fun tx => tx_hash tx = h) q)) hashes))
  | DrainBatch limit => (drop limit q, Drained (take limit q))
  | Len => (q, Length (length q))
  end.

Fixpoint replies {S} (exec : Call -> S -> S * Reply) (cs : list Call) (s : S) : list Reply :=
  match cs with
  | [] => []
  | c :: cs => let '(s, r) := exec c s in r :: replies exec cs s
  end.

(** The index is exact, and the bound is kept. *)
Record mempool_ok (m : Mempool) : Prop := {
  mp_index : forall h tx, by_hash m !! h = Some tx <-> tx ∈ pending m /\ tx_hash tx = h;
  mp_nodup : NoDup (tx_hash <$> pending m);
  mp_bound : (length (pending m) <= max_size m)%nat
}.

Lemma holds_hash_spec q h : holds_hash q h = true <-> exists tx, tx ∈ q /\ tx_hash tx = h.
Proof.
  unfold holds_hash. rewrite existsb_exists. setoid_rewrite bool_decide_eq_true.
  by setoid_rewrite <- list_elem_of_In.
Qed.
Lemma index_none m h : mempool_ok m -> by_hash m !! h = None <-> holds_hash (pending m) h = false.
Proof.
  intros Hm. rewrite <- not_true_iff_false, holds_hash_spec, eq_None_not_Some. unfold is_Some.
  by setoid_rewrite (mp_index _ Hm).
Qed.
Lemma index_head m h : mempool_ok m ->
  by_hash m !! h = head (filter (fun tx => tx_hash tx = h) (pending m)).
Proof.
  intros Hm. destruct (filter _ (pending m)) as [|tx l] eqn:E; cbn [head hd_error].
  - apply eq_None_not_Some. intros [tx Hx]. apply (mp_index _ Hm) in Hx as [Hx Eh].
    assert (Hin : tx ∈ filter (fun tx => tx_hash tx = h) (pending m)) by by apply list_elem_of_filter.
    rewrite E in Hin. by apply not_elem_of_nil in Hin.
  - apply (mp_index _ Hm).
    assert (Hin : tx ∈ filter (fun tx => tx_hash tx = h) (pending m)) by (rewrite E; apply list_elem_of_here).
    by apply list_elem_of_filter in Hin as [? ?].
Qed.

Lemma foldl_delete_lookup txs (g : gmap Hash Transaction) h :
  foldl (fun g tx => delete (tx_hash tx) g) g txs !! h =
  if decide (h ∈ tx_hash <$> txs) then None else g !! h.
Proof.
  revert g. induction txs as [|tx txs IH]; intros g; cbn [foldl fmap list_fmap].
  { by rewrite decide_False by apply not_elem_of_nil. }
  rewrite IH. destruct (decide (h = tx_hash tx)) as [E|Hne].
  - rewrite <- E, lookup_delete_eq. repeat case_decide; set_solver.
  - rewrite lookup_delete_ne by done. repeat case_decide; set_solver.
Qed.

Lemma insert_pending_ok tx m : mempool_ok m -> by_hash m !! tx_hash tx = None ->
  mempool_ok (insert_pending tx m).1.
Proof.
  intros Hm Hn. unfold insert_pending. destruct (Nat.leb_spec (max_size m) (length (pending m))); [done|].
  pose proof (proj1 (index_none m _ Hm) Hn) as Hno. rewrite <- not_true_iff_false, holds_hash_spec in Hno.
  split; cbn [fst pending by_hash max_size].
  - intros h t. rewrite lookup_insert_Some, elem_of_app, list_elem_of_singleton. split.
    + intros [[<- <-]|[_ [Hin <-]%(mp_index _ Hm)]]; auto.
    + intros [[Hin| ->] <-]; [|by left]. right.
      split; [intros E; apply Hno; eauto|]. by apply (mp_index _ Hm).
  - rewrite fmap_app. apply NoDup_app. split; [apply Hm|]. split; [|apply NoDup_singleton].
    intros h (t & -> & Ht)%list_elem_of_fmap E%list_elem_of_singleton.
    apply Hno. eauto.
  - rewrite length_app. cbn. lia.
Qed.
Lemma drain_batch_ok limit m : mempool_ok m -> mempool_ok (drain_batch limit m).1.
Proof.
  intros Hm. unfold drain_batch. set (n := Nat.min _ _). pose proof (mp_nodup _ Hm) as Hnd.
  rewrite <- (take_drop n (pending m)), fmap_app in Hnd. apply NoDup_app in Hnd as (_ & Hdis & Hnd).
  split; cbn [fst pending by_hash max_size].
  - intros h t. rewrite foldl_delete_lookup. case_decide as Hin.
    + split; [done|]. intros [Ht <-]. destruct (Hdis _ Hin). by apply list_elem_of_fmap_2.
    + rewrite (mp_index _ Hm), <- (take_drop n (pending m)) at 1. rewrite elem_of_app.
      split; [|intros [? ?]; auto]. intros [[Ht|Ht] <-]; [|done].
      destruct Hin. by apply list_elem_of_fmap_2.
  - done.
  - rewrite length_drop. pose proof (mp_bound _ Hm). lia.
Qed.

(** One call: the invariant is kept, and the queue does the same. *)
Lemma exec_queue c m : mempool_ok m ->
  mempool_ok (exec c m).1 /\ max_size (exec c m).1 = max_size m /\
  queue_exec (max_size m) c (pending m) = (pending (exec c m).1, (exec c m).2).
Proof.
  intros Hm. destruct c as [tx|hashes|limit|]; cbn [exec].
  - unfold add. case_decide as Hd.
    + split; [done|]. split; [done|]. cbn [queue_exec fst snd].
      destruct (holds_hash (pending m) (tx_hash tx)) eqn:E; [done|].
      apply (index_none m _ Hm) in E. rewrite E in Hd. by destruct Hd.
    + apply eq_None_not_Some in Hd. pose proof (insert_pending_ok tx m Hm Hd) as Hok.
      apply (index_none m _ Hm) in Hd as E. cbn [queue_exec]. rewrite E. cbn [orb].
      unfold insert_pending in *. destruct (_ <=? _)%nat; done.
  - split; [done|]. split; [done|]. cbn [queue_exec fst snd]. unfold get_by_hashes.
    do 2 f_equal. apply list_omap_ext, Forall2_same_length_lookup_2; [done|]. 
    intros i h h' E E'. rewrite E in E'. injection E' as <-. symmetry. by apply index_head.
  - split; [by apply (drain_batch_ok limit)|]. split; [done|]. cbn [queue_exec].
    unfold drain_batch. cbn [fst snd pending].
    destruct (Nat.le_gt_cases limit (length (pending m))).
    + by rewrite Nat.min_r by done.
    + rewrite Nat.min_l by lia. rewrite !drop_ge, !take_ge by lia. done.
  - done.
Qed.

(** C16: the mempool is a bounded queue without duplicates.  In every sequence of
    calls on a new pool each reply is that of the list specification: a
    transaction is accepted unless one with its hash is waiting or the bound is
    reached, lookups find the waiting ones, and batches leave first in, first
    out. *)
Theorem mempool_refines_queue n cs :
  replies exec cs (new n) = replies (queue_exec n) cs [].
Proof.
  assert (H : forall m, mempool_ok m ->
    replies exec cs m = replies (queue_exec (max_size m)) cs (pending m)).
  { induction cs as [|c cs IH]; intros m Hm; [done|]. cbn [replies].
    destruct (exec_queue c m Hm) as (Hok & Hs & ->). destruct (exec c m) as [m' r]. cbn [fst snd] in *.
    f_equal. rewrite <- Hs. by apply IH. }
  apply (H (new n)). split; cbn [new by_hash pending max_size]; [|constructor|cbn; lia].
  intros h tx. rewrite lookup_empty. split; [done|]. by intros [[]%not_elem_of_nil _].
Qed.
End queue.

(** ** Interleavings *)
Section threads.
Context `{CL : CryptoLib}.

Definition legal (c : Call) (p : Point) : Prop :=
  match p with Start | Done _ => True | _ => held c p <> [] end.
Definition past_check (c : Call) (p : Point) (m : Mempool) : Prop :=
  match c, p with Add tx, (Checked | HoldsBoth) => by_hash m !! tx_hash tx = None | _, _ => True end.

(** No mutex has two holders, and an [add] that has checked for a duplicate
    still has none. *)
Record config_ok (c : Config) : Prop := {
  co_legal : forall i k p, threads c !! i = Some (k, p) -> legal k p;
  co_exclusive : forall l i j t u, threads c !! i = Some t -> threads c !! j = Some u ->
    l ∈ held t.1 t.2 -> l ∈ held u.1 u.2 -> i = j;
  co_checked : forall i k p, threads c !! i = Some (k, p) -> past_check k p (pool c)
}.

Lemma acquire_held c p l p' : wants c p = Some (l, p') ->
  legal c p' /\ forall k, k ∈ held c p' -> k ∈ held c p \/ k = l.
Proof.
  destruct c, p; cbn; intros [= <- <-]; split; try done; set_solver.
Qed.
Lemma work_held c p m m' p' : work c p m = Some (m', p') ->
  legal c p' /\ (forall k, k ∈ held c p' -> k ∈ held c p) /\
  (m' = m \/ ByHashLock ∈ held c p).
Proof.
  destruct c, p; cbn; try done.
  - intros [= <- <-]. case_decide; cbn; split_and!; try done; try set_solver; by left.
  - unfold insert_pending. destruct (_ <=? _)%nat; intros [= <- <-];
      cbn; split_and!; try done; set_solver.
  - intros [= <- <-]. cbn. split_and!; try done; set_solver.
  - intros [= <- <-]. cbn. split_and!; try done; set_solver.
  - intros [= <- <-]. cbn. split_and!; try done; set_solver.
Qed.

(** Replacing a thread by one that holds no more than it did, or what is free. *)
Lemma exclusive_insert ts i t t' :
  (forall l j k u w, ts !! j = Some u -> ts !! k = Some w ->
     l ∈ held u.1 u.2 -> l ∈ held w.1 w.2 -> j = k) ->
  ts !! i = Some t ->
  (forall l, l ∈ held t'.1 t'.2 -> l ∈ held t.1 t.2 \/ free l ts) ->
  forall l j k u w, <[i:=t']> ts !! j = Some u -> <[i:=t']> ts !! k = Some w ->
     l ∈ held u.1 u.2 -> l ∈ held w.1 w.2 -> j = k.
Proof.
  intros Hex Hi Hl l j k u w Hj Hk Hu Hw.
  apply list_lookup_insert_Some in Hj, Hk.
  assert (Hother : forall x y, ts !! x = Some y -> l ∈ held y.1 y.2 -> l ∈ held t'.1 t'.2 -> i = x).
  { intros x y Hx Hy Ht'. destruct (Hl l Ht') as [Ht|Hf].
    - by apply (Hex l i x t y).
    - unfold free in Hf. rewrite Forall_lookup in Hf. by destruct (Hf x y Hx). }
  destruct Hj as [(<- & <- & _)|[_ Hj]], Hk as [(<- & <- & _)|[_ Hk]]; [done|..].
  - by apply (Hother k w).
  - symmetry. by apply (Hother j u).
  - by apply (Hex l j k u w).
Qed.

Lemma step_ok c c' : step c c' -> config_ok c -> config_ok c'.
Proof.
  intros Hstep [Hleg Hex Hchk]. destruct Hstep as [m ts i k p l p' Hi Hw Hf|m ts i k p m' p' Hi Hw];
    cbn [threads pool] in *.
  - destruct (acquire_held _ _ _ _ Hw) as [Hl' Hh]. split; cbn [threads pool].
    + intros j k' q [(<- & [= <- <-] & _)|[_ Hj]]%list_lookup_insert_Some; [done|]. by eapply Hleg.
    + apply (exclusive_insert ts i (k, p) (k, p')); [done|done|].
      intros l' [H| ->]%Hh; [by left|by right].
    + intros j k' q [(<- & [= <- <-] & _)|[_ Hj]]%list_lookup_insert_Some; [|by eapply Hchk].
      specialize (Hchk i k p Hi). destruct k, p; cbn in Hw; try discriminate Hw; by injection Hw as <- <-.
  - destruct (work_held _ _ _ _ _ Hw) as (Hl' & Hh & Hm). split; cbn [threads pool].
    + intros j k' q [(<- & [= <- <-] & _)|[_ Hj]]%list_lookup_insert_Some; [done|]. by eapply Hleg.
    + apply (exclusive_insert ts i (k, p) (k, p')); [done|done|]. intros l' H%Hh. by left.
    + intros j k' q [(<- & [= <- <-] & _)|[Hne Hj]]%list_lookup_insert_Some.
      * destruct k, p; cbn in Hw; try done.
        -- injection Hw as <- <-. case_decide as Hd; [done|]. by apply eq_None_not_Some.
        -- destruct (insert_pending tx m). by injection Hw as <- <-.
      * destruct Hm as [->|Hm]; [by eapply Hchk|].
        destruct k' as [tx| | |], q; try done;
          (destruct Hne; apply (Hex ByHashLock i j _ _ Hi Hj Hm); cbn; set_solver).
Qed.
Lemma initial_ok m calls : config_ok (initial m calls).
Proof.
  assert (H : forall i t, threads (initial m calls) !! i = Some t -> t.2 = Start).
  { intros i t. cbn. rewrite list_lookup_fmap. by intros (c & _ & ->)%fmap_Some_1. }
  split.
  - intros i k p Hi. apply H in Hi. by cbn in Hi; subst.
  - intros l i j [k p] u Hi _ Hl. apply H in Hi. cbn in Hi. subst. destruct k; cbn in Hl; set_solver.
  - intros i k p Hi. apply H in Hi. cbn in Hi. subst. by destruct k.
Qed.
Lemma steps_ok c c' : steps c c' -> config_ok c -> config_ok c'.
Proof. induction 1; eauto using step_ok. Qed.

(** *** Every interleaving is explained by the completed calls in some order *)
Definition completed (ts : list (Call * Point)) : list (Call * Reply) :=
  omap (fun t => match t.2 with Done r => Some (t.1, r) | _ => None end) ts.
(** Running the calls one after the other from [m] gives these replies and
    ends in [m']. *)
Fixpoint explains (m : Mempool) (done : list (Call * Reply)) (m' : Mempool) : Prop :=
  match done with
  | [] => m' = m
  | (c, r) :: done => (exec c m).2 = r /\ explains (exec c m).1 done m'
  end.
Lemma explains_snoc m done m1 c : explains m done m1 ->
  explains m (done ++ [(c, (exec c m1).2)]) (exec c m1).1.
Proof.
  revert m. induction done as [|[c' r] done IH]; intros m; cbn [explains app]; [by intros ->|].
  intros [? ?]. split; [done|]. by apply IH.
Qed.

Lemma completed_insert ts i c p p' : ts !! i = Some (c, p) -> (forall r, p <> Done r) ->
  completed (<[i := (c, p')]> ts) ≡ₚ
    (match p' with Done r => [(c, r)] | _ => [] end) ++ completed ts.
Proof.
  intros Hi Hp. assert (Hlt := lookup_lt_Some _ _ _ Hi). unfold completed.
  rewrite <- (take_drop_middle _ _ _ Hi) at 2. rewrite insert_take_drop by done.
  rewrite !omap_app. cbn [omap list_omap snd fst].
  destruct p as [| | | |r]; [..|by destruct (Hp r)];
    destruct p'; cbn [app]; try done; by rewrite Permutation_middle.
Qed.
Lemma work_exec c p m m' p' : work c p m = Some (m', p') -> past_check c p m ->
  (forall r, p <> Done r) /\
  match p' with Done r => exec c m = (m', r) | _ => m' = m end.
Proof.
  destruct c, p; cbn [work past_check exec]; try done.
  - intros [= <- <-] _. split; [done|]. unfold add. by case_decide.
  - intros Hw Hn. split; [done|]. unfold add. rewrite decide_False by by apply eq_None_not_Some.
    destruct (insert_pending tx m). by injection Hw as <- <-.
  - intros [= <- <-] _. done.
  - intros [= <- <-] _. done.
  - intros [= <- <-] _. done.
Qed.

(** C9: the mempool's threads are linearizable: in every interleaving the pool
    and the replies are those of the completed calls run one after the other,
    in some order; and no two threads ever hold one mutex. *)
Theorem mempool_is_linearizable m calls c : steps (initial m calls) c ->
  (exists order, order ≡ₚ completed (threads c) /\ explains m order (pool c)) /\
  forall l i j t u, threads c !! i = Some t -> threads c !! j = Some u ->
    l ∈ held t.1 t.2 -> l ∈ held u.1 u.2 -> i = j.
Proof.
  intros Hst. split; [|by apply (steps_ok _ _ Hst (initial_ok m calls))].
  revert c Hst. refine (rtc_ind_r (fun c =>
    exists order, order ≡ₚ completed (threads c) /\ explains m order (pool c)) _ _ _).
  - exists []. split; [|done]. cbn. induction calls as [|k calls IH]; [done|]. by cbn.
  - intros c c' Hst Hstep (order & Hperm & Hord). pose proof (steps_ok _ _ Hst (initial_ok m calls)) as Hok.
    destruct Hstep as [m0 ts i k p l p' Hi Hw Hf|m0 ts i k p m' p' Hi Hw]; cbn [threads pool] in *.
    + exists order. split; [|done]. rewrite (completed_insert _ _ _ p) by (try done; by destruct k, p).
      rewrite Hperm. destruct k, p; cbn in Hw; try discriminate Hw; by injection Hw as <- <-.
    + destruct (work_exec _ _ _ _ _ Hw (co_checked _ Hok i k p Hi)) as [Hp Hex].
      destruct p' as [| | | |r]; [subst m'; exists order; split; [|done];
        rewrite (completed_insert _ _ _ p) by done; exact Hperm..|].
      exists (order ++ [(k, r)]). split.
      * rewrite (completed_insert _ _ _ p) by done. rewrite Hperm. apply Permutation_app_comm.
      * pose proof (explains_snoc m order m0 k Hord) as H. by rewrite Hex in H.
Qed.

(** *** Deadlock *)
Lemma not_free l ts : ~ free l ts -> exists i t, ts !! i = Some t /\ l ∈ held t.1 t.2.
Proof.
  unfold free. intros H. apply not_Forall_Exists, Exists_exists in H; [|intros t; apply _].
  destruct H as (t & Ht & Hl). apply list_elem_of_lookup in Ht as [i Hi].
  exists i, t. split; [done|]. by apply dec_stable.
Qed.
(** A thread that cannot move although it holds a mutex waits for the other. *)
Lemma blocked_holder m ts i t l : (forall c', ~ step (mkConfig m ts) c') ->
  ts !! i = Some t -> l ∈ held t.1 t.2 ->
  (l = ByHashLock /\ ~ free PendingLock ts /\ exists tx, t = (Add tx, Checked)) \/
  (l = PendingLock /\ ~ free ByHashLock ts /\ exists limit, t = (DrainBatch limit, HoldsFirst)).
Proof.
  intros Hno Hi Hl. destruct t as [k p]. cbn [fst snd] in Hl.
  assert (Hw : work k p m = None).
  { destruct (work k p m) as [[m' p']|] eqn:E; [|done].
    destruct (Hno _ (step_work _ _ _ _ _ _ _ Hi E)). }
  assert (Hf : forall k' p', wants k p = Some (k', p') -> ~ free k' ts).
  { intros k' p' E Hfree. destruct (Hno _ (step_acquire _ _ _ _ _ _ _ Hi E Hfree)). }
  destruct k as [tx|hs|lim|], p; cbn in Hl, Hw; try discriminate Hw;
    try by apply not_elem_of_nil in Hl.
  - left. apply list_elem_of_singleton in Hl as ->. split; [done|]. split; [|eauto]. by eapply Hf.
  - by destruct (insert_pending tx m).
  - right. apply list_elem_of_singleton in Hl as ->. split; [done|]. split; [|eauto]. by eapply Hf.
Qed.

(** C17: the deadlocks of the mempool, exactly.  A reachable configuration is
    stuck (a call has not returned, and no thread can move) if and only if some
    [add] holds the index and waits for the queue while some [drain_batch]
    holds the queue and waits for the index.  So calls without a concurrent
    [drain_batch], or without a concurrent [add], never block each other for
    ever. *)
Theorem deadlock_is_crossed_locks m calls c : steps (initial m calls) c ->
  stuck c <-> exists i j tx limit,
    threads c !! i = Some (Add tx, Checked) /\ threads c !! j = Some (DrainBatch limit, HoldsFirst).
Proof.
  intros Hst. pose proof (steps_ok _ _ Hst (initial_ok m calls)) as Hok.
  destruct c as [m' ts]. cbn [threads] in *. split.
  - intros [Hnf Hno]. unfold finished in Hnf. cbn [threads] in Hnf.
    assert (Hl : exists l, ~ free l ts).
    { apply not_Forall_Exists, Exists_exists in Hnf.
      2: { intros [k p]. destruct p; [right; by intros [r [=]]..|left; eauto]. }
      destruct Hnf as ([k p] & Ht & Hp). apply list_elem_of_lookup in Ht as [i Hi].
      destruct (wants k p) as [[l p']|] eqn:Ew.
      { exists l. intros Hf. destruct (Hno _ (step_acquire _ _ _ _ _ _ _ Hi Ew Hf)). }
      destruct (work k p m') as [[m2 p2]|] eqn:Ek.
      { destruct (Hno _ (step_work _ _ _ _ _ _ _ Hi Ek)). }
      pose proof (co_legal _ Hok i k p Hi) as Hleg. cbn [snd] in Hp.
      destruct k, p; cbn in *; try done; try (by destruct Hp; eauto).
      - by destruct (insert_pending tx m') in Ek. }
    destruct Hl as [l (i & t & Hi & Hl)%not_free].
    destruct (blocked_holder m' ts i t l Hno Hi Hl) as [(-> & Hf & tx & ->)|(-> & Hf & lim & ->)];
      apply not_free in Hf as (j & u & Hj & Hu);
      destruct (blocked_holder m' ts j u _ Hno Hj Hu) as [(E & _ & x & ->)|(E & _ & x & ->)];
      try done; eauto 10.
  - intros (i & j & tx & lim & Hi & Hj). split.
    { intros Hf. unfold finished in Hf. rewrite Forall_lookup in Hf.
      destruct (Hf i _ Hi) as [r Hr]. done. }
    assert (Hall : forall l, ~ free l ts).
    { intros l Hf. unfold free in Hf. rewrite Forall_lookup in Hf. destruct l.
      - apply (Hf j _ Hj). cbn. set_solver.
      - apply (Hf i _ Hi). cbn. set_solver. }
    intros c' Hstep.
    inversion Hstep as [m0 ts0 x k p l p' Hx Hw Hfree|m0 ts0 x k p m2 p2 Hx Hw]; subst.
    { by destruct (Hall l). }
    assert (Hex : forall l, l ∈ held k p -> x = i \/ x = j).
    { intros l Hl. destruct l.
      - right. apply (co_exclusive _ Hok PendingLock x j _ _ Hx Hj Hl). cbn. set_solver.
      - left. apply (co_exclusive _ Hok ByHashLock x i _ _ Hx Hi Hl). cbn. set_solver. }
    assert (Hheld : exists l, l ∈ held k p).
    { destruct k, p; cbn in Hw |- *; try done; eexists; apply list_elem_of_here. }
    destruct Hheld as [l Hl]. destruct (Hex l Hl) as [->| ->].
    + rewrite Hi in Hx. injection Hx as <- <-. done.
    + rewrite Hj in Hx. injection Hx as <- <-. done.
Qed.
End threads.

Module Sample.
#[local] Existing Instance toy_crypto.

(** One transaction from the network and the bridge's next batch. *)
Definition crossed (tx : Transaction) : Config :=
  mkConfig (new 10000) [(Add tx, Checked); (DrainBatch 256, HoldsFirst)].
Lemma crossed_reachable tx : steps (initial (new 10000) [Add tx; DrainBatch 256]) (crossed tx).
Proof.
  eapply rtc_l; [eapply (step_acquire _ _ 0); [done|done|]|].
  { unfold free. repeat constructor; set_solver. }
  eapply rtc_l; [eapply (step_acquire _ _ 1); [done|done|]|].
  { unfold free. repeat constructor; set_solver. }
  eapply rtc_l; [eapply (step_work _ _ 0); done|]. apply rtc_refl.
Qed.
Definition transfer : Transaction := new_legacy 1337 0 None U256.ZERO [1] 100000 U256.ONE.
Lemma deadlock_is_crossed_locks_witness : stuck (crossed transfer).
Proof.
  apply (deadlock_is_crossed_locks (new 10000) [Add transfer; DrainBatch 256] _ (crossed_reachable transfer)).
  by exists 0%nat, 1%nat, transfer, 256%nat.
Defined.

Lemma mempool_is_linearizable_witness : exists order, order ≡ₚ [] /\
  explains (new 10000) order (pool (crossed transfer)).
Proof. apply (mempool_is_linearizable _ _ _ (crossed_reachable transfer)). Defined.
End Sample.
