(* ===== verification/Gossip.v ===== *)
(** * Gossip and the network service (crates/nexus-network: gossip.rs, service.rs)

    The cache of seen messages, the handler that deduplicates and forwards, the
    service's loop over swarm events and commands, its set-up as the calls it
    makes on the swarm, and the handle of its callers.  bincode and the swarm
    are third-party: a class for the encoding, and the list of inputs the loop
    selects.  The channel to the node is the list of the messages sent on it
    and a flag that says whether its receiver is gone; a full channel only
    delays [send].  Clocks are arguments, in seconds. *)
From stdpp Require Import base numbers list gmap strings.
From Stdlib Require Import ZArith Lia.
From S2P Require Import Prelude Types Crypto Transaction Vertex Dag Bft Sync Peer.
#[local] Open Scope Z_scope.

(** [bincode::serialize] and [deserialize], errors displayed *)
Class BincodeLib := {
  bincode_serialize : NetworkMessage -> outcome string (list Z);
  bincode_deserialize : list Z -> outcome string NetworkMessage
}.

(** ** gossip.rs *)
Record MessageCache := mkCache { seen : gmap Hash Z; cache_size : nat; ttl : Z }.
Definition cache_new (max_size : nat) (ttl : Z) : MessageCache := mkCache ∅ max_size ttl.
Definition default_cache : MessageCache := cache_new (Z.to_nat 100000) 300.

Definition is_seen (hash : Hash) (c : MessageCache) : bool := bool_decide (is_Some (seen c !! hash)).
Definition prune (now : Z) (c : MessageCache) : MessageCache :=
  mkCache (filter (fun e => now -! e.2 < ttl c) (seen c)) (cache_size c) (ttl c).
Definition mark_seen (now : Z) (hash : Hash) (c : MessageCache) : MessageCache :=
  let c := mkCache (<[hash := now]> (seen c)) (cache_size c) (ttl c) in
  if (cache_size c <? base.size (seen c))%nat then prune now c else c.

Record GossipConfig := mkGossipConfig {
  max_message_size : nat;
  mesh_d : nat;
  mesh_d_lo : nat;
  mesh_d_hi : nat;
  fanout_ttl : Z;
  heartbeat_interval : Z
}.
Definition default_gossip_config : GossipConfig :=
  mkGossipConfig (1024 * 1024) 6 4 12 60 1.

Record Channel := mkChannel { sent : list NetworkMessage; receiver_gone : bool }.
(** [mpsc::Sender::send] *)
Definition send (message : NetworkMessage) (c : Channel) : Channel * outcome NetworkError () :=
  if receiver_gone c then (c, Err ChannelClosed)
  else (mkChannel (sent c ++ [message]) false, Ok ()).

Record GossipHandler := mkGossip {
  gossip_config : GossipConfig;
  cache : MessageCache;
  message_tx : Channel
}.
Definition gossip_new (config : GossipConfig) (tx : Channel) : GossipHandler :=
  mkGossip config default_cache tx.

Section gossip.
Context `{CryptoLib} `{BincodeLib}.

Definition message_hash (message : NetworkMessage) : Hash :=
  mkHash (keccak (match bincode_serialize message with Ok data => data | _ => [] end)).
Definition serialize_message (message : NetworkMessage) : outcome NetworkError (list Z) :=
  map_err SerializationError (bincode_serialize message).

Definition handle_message (now : Z) (data : list Z) (g : GossipHandler)
    : GossipHandler * outcome NetworkError () :=
  if (max_message_size (gossip_config g) <? length data)%nat
  then (g, Err (ProtocolError "Message too large"))
  else
    match map_err SerializationError (bincode_deserialize data) with
    | Ok message =>
        let hash := message_hash message in
        if is_seen hash (cache g) then (g, Ok ())
        else
          let c := mark_seen now hash (cache g) in
          let '(tx, r) := send message (message_tx g) in
          (mkGossip (gossip_config g) c tx, r)
    | Err e => (g, Err e)
    | Panic => (g, Panic)
    | Blocked => (g, Blocked)
    end.

(** ** service.rs *)
Definition TOPIC_TRANSACTIONS : string := "nexus/transactions/1.0".
Definition TOPIC_VERTICES : string := "nexus/vertices/1.0".
Definition TOPIC_VOTES : string := "nexus/votes/1.0".

(** The components of a multiaddress that [parse_bootstrap_addr] looks at *)
Inductive Protocol := P2p (peer : PeerId) | OtherProtocol (text : string).
(** [parse] is the multiaddress parser of libp2p. *)
Definition parse_bootstrap_addr (parse : string -> option (list Protocol)) (s : string)
    : option (PeerId * list Protocol) :=
  addr ← parse s;
  match reverse addr with
  | P2p peer_id :: rest => Some (peer_id, reverse rest)
  | _ => None
  end.

Inductive NetworkCommand := Publish (topic : string) (data : list Z) | Shutdown.
Inductive SwarmEvent :=
  | GossipMessage (data : list Z)
  | ConnectionEstablished (peer_id : PeerId)
  | ConnectionClosed (peer_id : PeerId)
  | NewListenAddr
  | IdentifyReceived (peer_id : PeerId) (listen_addrs : list string) (agent_version : string)
  | OtherEvent.

Definition established (peer_id : PeerId) (addresses : list string) (agent : string) (now : Z)
    : PeerInfo :=
  mkPeer peer_id addresses 1 agent false None now Connected 0.

(** [on_swarm_event]; [clock n] is the [n]-th reading of the clock. *)
Definition on_swarm_event (clock : nat -> Z) (event : SwarmEvent)
    (st : PeerManager * GossipHandler) : PeerManager * GossipHandler :=
  let '(peers, gossip) := st in
  match event with
  | GossipMessage data => (peers, (handle_message (clock O) data gossip).1)
  | ConnectionEstablished peer_id =>
      (add_peer (established peer_id [] "" (clock O)) peers, gossip)
  | ConnectionClosed peer_id => (set_state peer_id Disconnected peers, gossip)
  | IdentifyReceived peer_id listen_addrs agent_version =>
      (foldl (fun peers '(n, addr) =>
         add_peer (established peer_id [addr] agent_version (clock n)) peers) peers
         (zip (seq 0 (length listen_addrs)) listen_addrs), gossip)
  | NewListenAddr | OtherEvent => (peers, gossip)
  end.

(** The loop of [run_swarm]: what its [select!] receives, one after the other.
    The result has what was published and whether the loop goes on. *)
Inductive Input :=
  | FromSwarm (clock : nat -> Z) (event : SwarmEvent)
  | SwarmEnded
  | FromNode (cmd : NetworkCommand)
  | NodeGone.
Record Service := mkService {
  peer_manager : PeerManager;
  gossip_handler : GossipHandler;
  published : list (string * list Z);
  running : bool
}.
Definition swarm_step (s : Service) (i : Input) : Service :=
  if negb (running s) then s
  else
    match i with
    | FromSwarm clock event =>
        let '(peers, gossip) := on_swarm_event clock event (peer_manager s, gossip_handler s) in
        mkService peers gossip (published s) true
    | FromNode (Publish topic data) =>
        mkService (peer_manager s) (gossip_handler s) (published s ++ [(topic, data)]) true
    | FromNode Shutdown | NodeGone | SwarmEnded =>
        mkService (peer_manager s) (gossip_handler s) (published s) false
    end.
Definition run_swarm (s : Service) (inputs : list Input) : Service := foldl swarm_step s inputs.
Definition start_network (peers : PeerManager) (tx : Channel) : Service :=
  mkService peers (gossip_new default_gossip_config tx) [] true.

(** *** Before the loop

    The swarm of libp2p answers each call; what it was asked is a list. *)
Record NetworkConfig := mkNetworkConfig {
  net_listen_addr : string; bootstrap_nodes : list string; net_max_message_size : Z }.
Definition default_network_config : NetworkConfig := mkNetworkConfig "/ip4/0.0.0.0/tcp/30333" [] 1048576.
Inductive SwarmCall :=
  | Subscribe (topic : string)
  | ListenOn (addr : string)
  | AddAddress (peer_id : PeerId) (addr : list Protocol)
  | Dial (peer_id : PeerId).
(** [build] is the [SwarmBuilder] with the maximal size of a message,
    [refused] the error a call ends with, if any. *)
Context (build : Z -> outcome NetworkError ()) (refused : SwarmCall -> option string)
  (parse_multiaddr : string -> option (list Protocol)).
Definition ask (error : string -> NetworkError) (c : SwarmCall) : M (list SwarmCall) NetworkError () := fun calls =>
  (calls ++ [c], match refused c with Some e => Err (error e) | None => Ok () end)%list.
(** [.ok()] *)
Definition ask_anyway (c : SwarmCall) : M (list SwarmCall) NetworkError () := modify (fun calls => calls ++ [c])%list.
Fixpoint subscribe_all (topics : list string) : M (list SwarmCall) NetworkError () :=
  match topics with
  | [] => mret ()
  | topic :: topics => _ ← ask ProtocolError (Subscribe topic); subscribe_all topics
  end.
Fixpoint seed_all (nodes : list string) : M (list SwarmCall) NetworkError () :=
  match nodes with
  | [] => mret ()
  | s :: nodes =>
      _ ← match parse_bootstrap_addr parse_multiaddr s with
          | Some (peer_id, addr) => _ ← ask_anyway (AddAddress peer_id addr); ask_anyway (Dial peer_id)
          | None => mret ()
          end;
      seed_all nodes
  end.
Definition set_up (config : NetworkConfig) : M (list SwarmCall) NetworkError () :=
  _ ← lift (build (net_max_message_size config));
  _ ← subscribe_all [TOPIC_TRANSACTIONS; TOPIC_VERTICES; TOPIC_VOTES];
  _ ← ask ConnectionFailed (ListenOn (net_listen_addr config));
  seed_all (bootstrap_nodes config).
(** The task that [start_network] spawns: an error ends it with a warning. *)
Definition network_task (config : NetworkConfig) (s : Service) (inputs : list Input) : list SwarmCall * Service :=
  match set_up config [] with
  | (calls, Ok _) => (calls, run_swarm s inputs)
  | (calls, _) => (calls, mkService (peer_manager s) (gossip_handler s) (published s) false)
  end.

(** [NetworkHandle]: the receiver of its channel is dropped when the task has
    ended; the channel's bound of 256 makes a sender wait. *)
Definition handle_publish (s : Service) (topic : string) (data : list Z) (queue : list NetworkCommand)
    : list NetworkCommand * outcome NetworkError () :=
  if running s then (queue ++ [Publish topic data], Ok ())%list else (queue, Err ChannelClosed).
Definition handle_shutdown (s : Service) (queue : list NetworkCommand) : list NetworkCommand :=
  if running s then (queue ++ [Shutdown])%list else queue.
End gossip.
