(* ===== verification/GossipProps.v ===== *)
(** * Properties of gossip and of the network service *)
From stdpp Require Import base numbers list gmap strings sorting.
From Stdlib Require Import ZArith Lia.
From S2P Require Import Prelude Types Crypto Transaction Vertex Dag Bft Sync Peer PeerProps Gossip.
#[local] Open Scope Z_scope.

Section gossip.
Context `{CL : CryptoLib} `{BL : BincodeLib}.

(** The messages a history of arrivals (time and bytes) forwards, with their
    times. *)
Fixpoint forwards (g : GossipHandler) (arrivals : list (Z * list Z)) : list (Z * NetworkMessage) :=
  match arrivals with
  | [] => []
  | (now, data) :: arrivals =>
      let g' := (handle_message now data g).1 in
      (((fun m => (now, m)) <$> drop (length (sent (message_tx g))) (sent (message_tx g'))) ++
        forwards g' arrivals)%list
  end.
Definition deliver (g : GossipHandler) (arrivals : list (Z * list Z)) : GossipHandler :=
  foldl (fun g a => (handle_message a.1 a.2 g).1) g arrivals.

(** The message an arrival carries, when it is looked at. *)
Definition decoded (g : GossipHandler) (data : list Z) : option NetworkMessage :=
  if (max_message_size (gossip_config g) <? length data)%nat then None
  else match bincode_deserialize data with Ok m => Some m | _ => None end.

Lemma handle_message_spec now data g : receiver_gone (message_tx g) = false ->
  let r := handle_message now data g in
  (exists m, decoded g data = Some m /\ is_seen (message_hash m) (cache g) = false /\
     r = (mkGossip (gossip_config g) (mark_seen now (message_hash m) (cache g))
            (mkChannel (sent (message_tx g) ++ [m]) false), Ok ())) \/
  (r.1 = g /\ forall m, decoded g data = Some m -> is_seen (message_hash m) (cache g) = true).
Proof.
  intros Hop. cbv zeta. unfold handle_message, decoded. destruct (_ <? _)%nat; [by right|].
  destruct (bincode_deserialize data) as [m|e| |]; cbn [map_err]; [|by right..].
  destruct (is_seen (message_hash m) (cache g)) eqn:E.
  - right. split; [done|]. by intros ? [= <-].
  - left. exists m. do 2 (split; [done|]). unfold send. by rewrite Hop.
Qed.

(** The forwarded messages are what the channel has received. *)
Lemma forwards_sent g arrivals : receiver_gone (message_tx g) = false ->
  sent (message_tx (deliver g arrivals)) = (sent (message_tx g) ++ (forwards g arrivals).*2)%list.
Proof.
  revert g. induction arrivals as [|[now data] arrivals IH]; intros g Hop; cbn [deliver foldl forwards fst snd].
  { cbn. by rewrite app_nil_r. }
  destruct (handle_message_spec now data g Hop) as [(m & _ & _ & E)|[E _]]; rewrite E; cbn [fst].
  - unfold deliver in IH. rewrite IH by done. cbn [message_tx sent].
    rewrite drop_app_length. cbn. by rewrite <- app_assoc.
  - unfold deliver in IH. rewrite IH by done. rewrite drop_ge by lia. done.
Qed.

(** *** Times *)
Definition in_order (t0 : Z) (arrivals : list (Z * list Z)) : Prop :=
  Sorted Z.le (t0 :: arrivals.*1) /\ Forall (fun a => a.1 < B64) arrivals.
Lemma in_order_cons t0 now data arrivals : in_order t0 ((now, data) :: arrivals) ->
  t0 <= now < B64 /\ in_order now arrivals.
Proof.
  intros [Hs Hb]. inversion Hs as [|? ? Hs' Hh]; subst. apply Forall_cons in Hb as [Hb Hb'].
  inversion Hh; subst. cbn in *. by repeat split.
Qed.
Lemma forwards_later g t0 arrivals : in_order t0 arrivals ->
  Forall (fun f => t0 <= f.1) (forwards g arrivals).
Proof.
  revert g t0. induction arrivals as [|[now data] arrivals IH]; intros g t0 Ho; cbn [forwards]; [done|].
  apply in_order_cons in Ho as [Hle Ho]. apply Forall_app. split.
  - apply Forall_fmap. apply Forall_true. intros m. cbn. lia.
  - eapply Forall_impl; [by apply IH|]. intros f. cbn. lia.
Qed.

Lemma mark_seen_lookup now hash c x ts : is_u64 now ->
  (forall x ts, seen c !! x = Some ts -> 0 <= ts <= now) ->
  seen (mark_seen now hash c) !! x = Some ts ->
  (x = hash /\ ts = now) \/ (x <> hash /\ seen c !! x = Some ts).
Proof.
  intros Hn Hc. unfold mark_seen. cbv zeta. cbn [cache_size seen ttl].
  destruct (_ <? _)%nat; cbn [prune seen]; [rewrite map_lookup_filter_Some; intros [H _]; revert H|];
    rewrite lookup_insert_Some; intros [[-> ->]|[? ?]]; auto.
Qed.
(** What marking forgets is older than the time to live. *)
Lemma mark_seen_keeps now hash c x ts : is_u64 now ->
  (forall x ts, seen c !! x = Some ts -> 0 <= ts <= now) ->
  <[hash := now]> (seen c) !! x = Some ts ->
  seen (mark_seen now hash c) !! x = Some ts \/ ts + ttl c <= now.
Proof.
  intros Hn Hc Hx. unfold mark_seen. cbv zeta. cbn [cache_size seen ttl].
  destruct (_ <? _)%nat; cbn [prune seen ttl]; [|by left].
  assert (Hts : 0 <= ts <= now).
  { apply lookup_insert_Some in Hx as [[_ <-]|[_ Hx]]; [unfold is_u64 in Hn; lia|by apply (Hc x)]. }
  destruct (Z.lt_ge_cases (now - ts) (ttl c)).
  - left. apply map_lookup_filter_Some. split; [done|]. cbn.
    rewrite sub64_small; unfold is_u64 in Hn; lia.
  - right. lia.
Qed.

(** Two forwarded messages with one hash are at least [n] seconds apart. *)
Definition apart (n : Z) (f f' : Z * NetworkMessage) : Prop :=
  message_hash f.2 = message_hash f'.2 -> f.1 + n <= f'.1.

Lemma forwards_apart g t0 arrivals : receiver_gone (message_tx g) = false -> is_u64 t0 ->
  0 <= ttl (cache g) -> in_order t0 arrivals ->
  (forall x ts, seen (cache g) !! x = Some ts -> 0 <= ts <= t0) ->
  StronglySorted (apart (ttl (cache g))) (forwards g arrivals) /\
  forall x ts, seen (cache g) !! x = Some ts ->
    Forall (fun f => message_hash f.2 = x -> ts + ttl (cache g) <= f.1) (forwards g arrivals).
Proof.
  revert g t0. induction arrivals as [|[now data] arrivals IH]; intros g t0 Hop Ht0 Httl Ho Hseen;
    cbn [forwards]; [split; [constructor|done]|].
  apply in_order_cons in Ho as [Hle Ho].
  assert (Hnow : is_u64 now) by (unfold is_u64 in *; lia).
  assert (Hseen' : forall x ts, seen (cache g) !! x = Some ts -> 0 <= ts <= now).
  { intros x ts Hx. specialize (Hseen x ts Hx). lia. }
  destruct (handle_message_spec now data g Hop) as [(m & _ & Hns & E)|[E _]]; rewrite E; cbn [fst].
  2: { rewrite drop_ge by lia. cbn [fmap list_fmap app]. by apply (IH g now). }
  cbn [message_tx sent]. rewrite drop_app_length. cbn [fmap list_fmap app].
  set (g' := mkGossip _ _ _).
  assert (Ettl : ttl (cache g') = ttl (cache g)).
  { unfold g'. cbn [cache]. unfold mark_seen. cbv zeta. by destruct (_ <? _)%nat. }
  pose proof (forwards_later g' now arrivals Ho) as Hlater.
  destruct (IH g' now) as [Hs Hf]; try done.
  { by rewrite Ettl. }
  { intros x ts Hx. destruct (mark_seen_lookup now (message_hash m) (cache g) x ts Hnow Hseen' Hx)
      as [[_ ->]|[_ Hx']]; [unfold is_u64 in Hnow; lia|by apply (Hseen' x)]. }
  rewrite Ettl in *.
  (* what was marked or seen now keeps its distance from all that follows *)
  assert (Hkeep : forall x ts, <[message_hash m := now]> (seen (cache g)) !! x = Some ts ->
    Forall (fun f => message_hash f.2 = x -> ts + ttl (cache g) <= f.1) (forwards g' arrivals)).
  { intros x ts Hx. destruct (mark_seen_keeps now (message_hash m) (cache g) x ts Hnow Hseen' Hx)
      as [Hx'|Hold]; [by apply Hf|].
    eapply Forall_impl; [exact Hlater|]. intros f Hf' _. cbn in Hf'. lia. }
  split.
  - constructor; [done|]. eapply Forall_impl; [apply (Hkeep (message_hash m) now), lookup_insert_eq|].
    intros f Hf' Heq. by apply Hf'.
  - intros x ts Hx.
    assert (Hne : message_hash m <> x).
    { intros <-. unfold is_seen in Hns. by rewrite bool_decide_true in Hns. }
    constructor; [by intros|]. apply Hkeep. by rewrite lookup_insert_ne.
Qed.

Lemma forwards_complete g t0 arrivals t data m : receiver_gone (message_tx g) = false ->
  is_u64 t0 -> in_order t0 arrivals ->
  (forall x ts, seen (cache g) !! x = Some ts -> 0 <= ts <= t0) ->
  (t, data) ∈ arrivals -> decoded g data = Some m ->
  is_Some (seen (cache g) !! message_hash m) \/
  exists f, f ∈ forwards g arrivals /\ f.1 <= t /\ message_hash f.2 = message_hash m.
Proof.
  revert g t0. induction arrivals as [|[now data'] arrivals IH];
    intros g t0 Hop Ht0 Ho Hseen Hin Hm; [by apply not_elem_of_nil in Hin|].
  apply in_order_cons in Ho as [Hle Ho].
  assert (Hnow : is_u64 now) by (unfold is_u64 in *; lia).
  assert (Hseen' : forall x ts, seen (cache g) !! x = Some ts -> 0 <= ts <= now).
  { intros x ts Hx. specialize (Hseen x ts Hx). lia. }
  assert (Hlate : (t, data) ∈ arrivals -> now <= t).
  { destruct Ho as [Hs _]. intros Hx. apply Sorted_StronglySorted in Hs; [|intros ? ? ?; lia].
    inversion Hs as [|? ? _ Hall]; subst. rewrite Forall_forall in Hall. apply Hall.
    apply (list_elem_of_fmap_2 fst _ _ Hx). }
  cbn [forwards].
  destruct (handle_message_spec now data' g Hop) as [(m' & Hm' & Hns & E)|[E Hdup]]; rewrite E; cbn [fst].
  - cbn [message_tx sent]. rewrite drop_app_length. cbn [fmap list_fmap app]. set (g' := mkGossip _ _ _).
    apply elem_of_cons in Hin as [[= -> ->]|Hin].
    { right. exists (now, m'). split; [apply list_elem_of_here|]. split; [cbn; lia|].
      cbn. congruence. }
    destruct (IH g' now) as [[ts Hx]|(f & Hf & Hft & Hfm)]; try done.
    + intros x ts Hx. destruct (mark_seen_lookup now (message_hash m') (cache g) x ts Hnow Hseen' Hx)
        as [[_ ->]|[_ Hx']]; [unfold is_u64 in Hnow; lia|by apply (Hseen' x)].
    + destruct (mark_seen_lookup now (message_hash m') (cache g) _ ts Hnow Hseen' Hx) as [[Ex _]|[_ Hx']].
      * right. exists (now, m'). split; [apply list_elem_of_here|]. split; [by apply Hlate|done].
      * left. eauto.
    + right. exists f. split; [by apply list_elem_of_further|done].
  - rewrite drop_ge by lia. cbn [fmap list_fmap app].
    apply elem_of_cons in Hin as [[= -> ->]|Hin].
    + left. by apply (bool_decide_eq_true_1 _ (Hdup m Hm)).
    + by apply (IH g now).
Qed.

(** C26: gossip forwards every message, and repeats none too soon.  While the
    node listens and the clock does not go back, two messages that the handler
    forwards with one hash are at least [ttl] seconds apart; and every arrival
    that is small enough and decodes has its message, or one with the same
    hash, forwarded when it arrives or before.  The channel gets exactly the
    forwarded messages, in order. *)
Theorem gossip_forwards_once config size n arrivals :
  0 <= n -> in_order 0 arrivals ->
  let g := mkGossip config (cache_new size n) (mkChannel [] false) in
  sent (message_tx (deliver g arrivals)) = (forwards g arrivals).*2 /\
  StronglySorted (apart n) (forwards g arrivals) /\
  forall t data m, (t, data) ∈ arrivals -> decoded g data = Some m ->
    exists f, f ∈ forwards g arrivals /\ f.1 <= t /\ message_hash f.2 = message_hash m.
Proof.
  intros Hn Ho g.
  assert (Hempty : forall x ts, seen (cache g) !! x = Some ts -> 0 <= ts <= 0)
    by (intros x ts; cbn; by rewrite lookup_empty).
  split; [by rewrite forwards_sent|]. split.
  - by apply (forwards_apart g 0 arrivals).
  - intros t data m Hin Hm.
    destruct (forwards_complete g 0 arrivals t data m) as [[ts Hx]|?]; done.
Qed.

(** A message that arrives when the node's receiver is gone is marked as seen
    and lost: when it arrives again the handler reports success. *)
Theorem lost_message_counts_as_seen now now' data g m : 0 < ttl (cache g) ->
  receiver_gone (message_tx g) = true -> decoded g data = Some m ->
  is_seen (message_hash m) (cache g) = false ->
  exists g', handle_message now data g = (g', Err ChannelClosed) /\
    handle_message now' data g' = (g', Ok ()) /\ message_tx g' = message_tx g.
Proof.
  intros Httl Hgone Hm Hns. unfold decoded in Hm.
  destruct (_ <? _)%nat eqn:Hsz; [done|].
  destruct (bincode_deserialize data) as [m'| | |] eqn:Hd; try done. injection Hm as ->.
  eexists. split.
  { unfold handle_message. rewrite Hsz, Hd. cbn [map_err]. rewrite Hns. unfold send. by rewrite Hgone. }
  unfold handle_message. cbn [gossip_config]. rewrite Hsz, Hd. cbn [map_err cache].
  assert (Hs : is_seen (message_hash m) (mark_seen now (message_hash m) (cache g)) = true).
  { apply bool_decide_eq_true. exists now. unfold mark_seen. cbv zeta.
    match goal with |- context [if ?b then _ else _] => destruct b end; cbn [prune seen ttl]; [|apply lookup_insert_eq].
    apply map_lookup_filter_Some. split; [apply lookup_insert_eq|]. cbn [snd ttl].
    unfold sub64. by rewrite Z.sub_diag, Z.mod_0_l. }
  by rewrite Hs.
Qed.

(** ** Connections *)

(** What the events say of a peer: connected or not, from the last one that is
    about it. *)
Definition link_status (i : PeerId) (b : bool) (e : SwarmEvent) : bool :=
  match e with
  | ConnectionEstablished j | IdentifyReceived j (_ :: _) _ => if decide (j = i) then true else b
  | ConnectionClosed j => if decide (j = i) then false else b
  | _ => b
  end.
Definition is_connected (i : PeerId) (m : PeerManager) : bool :=
  match get_peer i m with Some p => bool_decide (state p = Connected) | None => false end.

Lemma add_peer_connected i p m : is_connected i (add_peer p m) =
  if decide (id p = i) then bool_decide (state p = Connected) else is_connected i m.
Proof.
  unfold is_connected, get_peer. rewrite add_peer_peers. case_decide as Hi.
  - by rewrite Hi, lookup_insert_eq.
  - rewrite lookup_insert_ne by done. destruct (_ <=? _)%nat; [|done].
    destruct (live m !! i) as [q|] eqn:E.
    + apply retain_lookup in E as [E _]. by rewrite E.
    + destruct (peers m !! i) as [q|] eqn:E'; [|done].
      destruct (bool_decide_reflect (state q = Connected)) as [Hq|]; [|done].
      assert (H : live m !! i = Some q); [|congruence].
      apply retain_lookup. split; [done|]. by rewrite Hq.
Qed.
Lemma event_connected clock e i m g :
  is_connected i (on_swarm_event clock e (m, g)).1 = link_status i (is_connected i m) e.
Proof.
  destruct e as [data|j|j| |j addrs agent|]; cbn [on_swarm_event link_status fst]; try done.
  - by rewrite add_peer_connected.
  - unfold is_connected, get_peer, set_state, set_peers. cbn [peers]. case_decide as Hj.
    + subst. rewrite lookup_alter_eq. by destruct (peers m !! i).
    + by rewrite lookup_alter_ne.
  - assert (H : forall ns m, length ns = length addrs ->
      is_connected i (foldl (fun m '(n, addr) => add_peer (established j [addr] agent (clock n)) m)
        m (zip ns addrs)) = match addrs with [] => is_connected i m
                            | _ => if decide (j = i) then true else is_connected i m end).
    { clear m. induction addrs as [|a addrs IH]; intros [|n ns] m Hl; try done. cbn [zip zip_with foldl].
      rewrite IH by (simpl in Hl; lia). rewrite add_peer_connected. cbn [established id state].
      destruct addrs; by case_decide. }
    rewrite H by apply length_seq. by destruct addrs.
Qed.

(** The peer manager says that a peer is connected exactly when the last
    swarm event about it was a connection or an identification with addresses.
    So one closed connection of several disconnects a peer, and a ban does not
    outlive a reconnection. *)
Theorem peers_follow_last_event clock (events : list SwarmEvent) m g i :
  is_connected i (foldl (fun st e => on_swarm_event clock e st) (m, g) events).1 =
  foldl (link_status i) (is_connected i m) events.
Proof.
  revert m g. induction events as [|e events IH]; intros m g; [done|]. cbn [foldl].
  destruct (on_swarm_event clock e (m, g)) as [m' g'] eqn:E. rewrite IH.
  by rewrite <- (event_connected clock e i m g), E.
Qed.

(** The loop ends at the first shutdown: nothing after it is published or
    handled. *)
Theorem shutdown_is_final s inputs rest stop :
  stop ∈ [SwarmEnded; FromNode Shutdown; NodeGone] ->
  run_swarm s (inputs ++ stop :: rest) = run_swarm s (inputs ++ [stop]) /\
  running (run_swarm s (inputs ++ [stop])) = false.
Proof.
  intros Hstop. unfold run_swarm. rewrite !foldl_app. cbn [foldl].
  set (s1 := foldl swarm_step s inputs).
  assert (Hr : running (swarm_step s1 stop) = false).
  { unfold swarm_step. destruct (running s1) eqn:E; cbn [negb]; [|done].
    rewrite !elem_of_cons, elem_of_nil in Hstop. by destruct Hstop as [->|[->|[->|[]]]]. }
  split; [|done]. generalize dependent (swarm_step s1 stop). clear.
  induction rest as [|i rest IH]; intros s Hs; [done|]. cbn [foldl].
  assert (E : swarm_step s i = s) by (unfold swarm_step; by rewrite Hs). rewrite E. by apply IH.
Qed.
End gossip.

(** ** Starting the service *)
Section start.
Context `{BL : BincodeLib} `{CL : CryptoLib}.
Context (build : Z -> outcome NetworkError ()) (refused : SwarmCall -> option string)
  (parse_multiaddr : string -> option (list Protocol)).
Abbreviation asked config := (set_up build refused parse_multiaddr config []).

(** What is asked of the swarm for one bootstrap address *)
Definition seed (s : string) : list SwarmCall :=
  match parse_bootstrap_addr parse_multiaddr s with
  | Some (peer_id, addr) => [AddAddress peer_id addr; Dial peer_id]
  | None => []
  end.
Definition topics : list string := [TOPIC_TRANSACTIONS; TOPIC_VERTICES; TOPIC_VOTES].
Lemma seed_all_spec nodes calls :
  seed_all parse_multiaddr nodes calls = ((calls ++ concat (seed <$> nodes))%list, Ok ()).
Proof.
  revert calls. induction nodes as [|s nodes IH]; intros calls; [by rewrite app_nil_r|].
  cbn [seed_all fmap list_fmap concat]. unfold seed at 1, mbind, M_bind, ask_anyway, modify, mret, M_ret.
  destruct (parse_bootstrap_addr parse_multiaddr s) as [[p a]|]; rewrite IH; by rewrite <- ?app_assoc.
Qed.
Lemma subscribe_all_spec l calls : (forall t, t ∈ l -> refused (Subscribe t) = None) ->
  subscribe_all refused l calls = ((calls ++ (Subscribe <$> l))%list, Ok ()).
Proof.
  revert calls. induction l as [|t l IH]; intros calls Hl; [by rewrite app_nil_r|].
  cbn [subscribe_all]. unfold mbind, M_bind, ask. rewrite (Hl t) by left.
  rewrite IH by (intros; apply Hl; by right). by rewrite <- app_assoc.
Qed.
(** The service subscribes to its three topics and listens before it dials.
    When nothing of this is refused it seeds and dials exactly the bootstrap
    peers whose address ends with an identity, in their order, whatever becomes
    of a dial, and runs; when it may not listen it dials nobody, and the task
    ends without handling any input: from then on the handle reports a closed
    channel, although [start_network] has succeeded. *)
Theorem service_starts_or_ends config s inputs topic data queue :
  build (net_max_message_size config) = Ok () -> (forall t, t ∈ topics -> refused (Subscribe t) = None) ->
  let task := network_task build refused parse_multiaddr config s inputs in
  match refused (ListenOn (net_listen_addr config)) with
  | None => task = ((Subscribe <$> topics) ++ ListenOn (net_listen_addr config)
                      :: concat (seed <$> bootstrap_nodes config), run_swarm s inputs)%list
  | Some _ => task.1 = ((Subscribe <$> topics) ++ [ListenOn (net_listen_addr config)])%list /\
      running task.2 = false /\ published task.2 = published s /\ peer_manager task.2 = peer_manager s /\
      handle_publish task.2 topic data queue = (queue, Err ChannelClosed)
  end.
Proof.
  intros Hb Ht. cbv zeta. unfold network_task.
  assert (E : asked config = match refused (ListenOn (net_listen_addr config)) with
    | None => ((Subscribe <$> topics) ++ ListenOn (net_listen_addr config)
                :: concat (seed <$> bootstrap_nodes config), Ok ())%list
    | Some e => ((Subscribe <$> topics) ++ [ListenOn (net_listen_addr config)], Err (ConnectionFailed e))%list
    end).
  { unfold set_up. fold topics. unfold mbind, M_bind, lift. rewrite Hb, (subscribe_all_spec topics []) by done.
    unfold ask. destruct (refused (ListenOn _)); [done|]. rewrite seed_all_spec. by rewrite <- app_assoc. }
  rewrite E. by destruct (refused (ListenOn (net_listen_addr config))).
Qed.
End start.

Module Sample.
#[local] Existing Instance toy_crypto.
(** An encoding of pings only: one byte. *)
#[local] Instance ping_codec : BincodeLib := {|
  bincode_serialize m := match m with Ping n => Ok [n] | _ => Err "" end;
  bincode_deserialize l := match l with [n] => Ok (Ping n) | _ => Err "" end
|}.
Definition handler : GossipHandler :=
  mkGossip default_gossip_config (cache_new 1 60) (mkChannel [] false).
Definition traffic : list (Z * list Z) := [(10, [1]); (10, [1]); (20, [2]); (30, []); (75, [3]); (80, [1])].

Lemma gossip_forwards_once_witness :
  StronglySorted (apart 60) (forwards handler traffic) /\
  exists f, f ∈ forwards handler traffic /\ f.1 <= 80 /\ message_hash f.2 = message_hash (Ping 1).
Proof.
  destruct (gossip_forwards_once default_gossip_config 1 60 traffic) as (_ & Hs & Hc);
    [lia|split; repeat constructor; cbn; lia|].
  split; [exact Hs|]. apply (Hc 80 [1]); [|reflexivity]. unfold traffic. repeat constructor.
Defined.
(** The cache of one entry forgets the first ping after its time to live. *)
Example traffic_forwards : forwards handler traffic =
  [(10, Ping 1); (20, Ping 2); (75, Ping 3); (80, Ping 1)].
Proof. vm_compute. reflexivity. Qed.

Lemma lost_message_counts_as_seen_witness : exists g',
  handle_message 10 [1] (mkGossip default_gossip_config (cache_new 1 60) (mkChannel [] true)) =
    (g', Err ChannelClosed) /\ handle_message 20 [1] g' = (g', Ok ()).
Proof.
  destruct (lost_message_counts_as_seen 10 20 [1]
    (mkGossip default_gossip_config (cache_new 1 60) (mkChannel [] true)) (Ping 1))
    as (g' & E1 & E2 & _); [done|done|reflexivity|reflexivity|].
  exists g'. split; [exact E1|exact E2].
Defined.

Lemma shutdown_is_final_witness :
  running (run_swarm (start_network (Peer.new 3) (mkChannel [] false))
    ([FromNode (Publish TOPIC_VOTES [1])] ++ [NodeGone])) = false.
Proof.
  apply (shutdown_is_final _ [FromNode (Publish TOPIC_VOTES [1])] [] NodeGone).
  repeat constructor.
Defined.

(** Two connections, one of which closes; and a banned peer that reconnects. *)
Definition events_of (es : list SwarmEvent) (m : PeerManager) : PeerManager :=
  (foldl (fun st e => on_swarm_event (fun _ => 10) e st) (m, handler) es).1.
Example second_connection_is_lost : is_connected "p" (events_of
  [ConnectionEstablished "p"; ConnectionEstablished "p"; ConnectionClosed "p"] (Peer.new 3)) = false.
Proof. vm_compute. reflexivity. Qed.
Example ban_is_lifted :
  get_peer "p" (events_of [ConnectionEstablished "p"]
    (ban_peer "p" (events_of [ConnectionEstablished "p"] (Peer.new 3)))) =
  Some (established "p" [] "" 10).
Proof. vm_compute. reflexivity. Qed.
(** Two bootstrap peers, one of them without an identity *)
Definition addresses (s : string) : option (list Protocol) :=
  if decide (s = "good"%string) then Some [OtherProtocol "ip4"; P2p "peer"] else Some [OtherProtocol "ip4"].
Definition net (nodes : list string) : NetworkConfig := mkNetworkConfig "local" nodes 1024.
Lemma service_starts_or_ends_witness :
  (network_task (fun _ => Ok ()) (fun _ => None) addresses (net ["bad"; "good"])
    (start_network (Peer.new 3) (mkChannel [] false)) []).1 =
    [Subscribe TOPIC_TRANSACTIONS; Subscribe TOPIC_VERTICES; Subscribe TOPIC_VOTES; ListenOn "local";
     AddAddress "peer" [OtherProtocol "ip4"]; Dial "peer"] /\
  running (network_task (fun _ => Ok ()) (fun c => match c with ListenOn _ => Some "in use"%string | _ => None end)
    addresses (net ["good"]) (start_network (Peer.new 3) (mkChannel [] false)) [NodeGone]).2 = false.
Proof.
  split.
  - pose proof (service_starts_or_ends (fun _ => Ok ()) (fun _ => None) addresses (net ["bad"; "good"])
      (start_network (Peer.new 3) (mkChannel [] false)) [] "" [] [] eq_refl (fun _ _ => eq_refl)) as H.
    cbv zeta in H. rewrite H. reflexivity.
  - apply (service_starts_or_ends (fun _ => Ok ()) (fun c => match c with ListenOn _ => Some "in use"%string | _ => None end)
      addresses (net ["good"]) (start_network (Peer.new 3) (mkChannel [] false)) [NodeGone] "" [] [] eq_refl (fun _ _ => eq_refl)).
Defined.
End Sample.
