(* ===== verification/Genesis.v ===== *)
(** * Genesis (crates/nexus-node/src/genesis.rs, U256 display of types.rs)

    The genesis document, the parsers of its fields, its application to the
    state and the stake, and the export of a state.  Text is UTF-8 bytes; the
    hex crate's decoder and the JSON parser are parameters.  A loop without end
    would be [Blocked]; GenesisProps.v shows there is none. *)
From stdpp Require Import base numbers list gmap strings.
From Stdlib Require Import ZArith Lia.
From S2P Require Import Prelude Types Crypto Text EvmState Validator Bft Pos.
#[local] Open Scope Z_scope.

Abbreviation str := (list Z) (only parsing).

(** ** The document *)
Record GenesisAccount := mkGenesisAccount {
  ga_address : str;
  ga_balance : str;
  ga_code : option str;
  ga_storage : gmap str str;
  ga_nonce : Z
}.
Record GenesisValidator := mkGenesisValidator {
  gv_address : str;
  gv_pubkey : str;
  gv_stake : str;
  gv_commission : Z
}.
Record GenesisConfig := mkGenesis {
  gc_chain_id : Z;
  gc_timestamp : Z;
  gc_name : str;
  gc_accounts : list GenesisAccount;
  gc_validators : list GenesisValidator
}.
Definition default_genesis : GenesisConfig :=
  mkGenesis 1337 0 (bytes_of "NexusChain Devnet") [] [].

Inductive GenesisError :=
  | Io (msg : str)
  | Parse (msg : str)
  | BadAddress (s : str)
  | BadCode (s : str)
  | BadPubkey (s : str)
  | PoS (msg : str).

(** ** Printing a [U256] ([Display] of types.rs) *)
Fixpoint display_loop (fuel : nat) (n : U256) (digits : list Z) : outcome () (list Z) :=
  match fuel with
  | O => Blocked
  | S fuel =>
      if U256.ltb U256.ZERO n then
        let ten := U256.from_u64 10 in
        q ← U256.checked_div n ten ≫= unwrap;
        rem ← unwrap (U256.checked_sub n (U256.mul q ten));
        display_loop fuel q (digits ++ [48 + U256.as_u64 rem mod 256])
      else Ok (rev digits)
  end.
Definition u256_display (x : U256) : outcome () (list Z) :=
  if bool_decide (x = U256.ZERO) then Ok [48] else display_loop 79 x [].

(** ** Parsing *)

(** [trim_start_matches("0x")]: every leading ["0x"] *)
Fixpoint trim_0x (s : str) : str :=
  match s with
  | c :: ((d :: rest) as s') => if (c =? 48) && (d =? 120) then trim_0x rest else s
  | _ => s
  end.

Section genesis.
Context `{HexLib}.

Definition parse_addr (s : str) : option Address :=
  bytes ← hex_decode (trim_0x s);
  address_from_slice bytes.

(** The loop over the characters; [to_digit(10)] knows the ASCII digits, and
    every other character is passed over, those that [trim] removes included *)
Definition push_digit (result : U256) (b : Z) : outcome GenesisError U256 :=
  if is_ascii_digit b
  then U256.add (U256.mul result (U256.from_u64 10)) (U256.from_u64 (b - 48))
  else Ok result.
Definition parse_u256_decimal (s : str) : outcome GenesisError U256 :=
  for_each push_digit s U256.ZERO.

(** The last 32 bytes, or all after leading zeros, in the limb loop of
    [U256::from_be_bytes] *)
Definition parse_u256_hex (s : str) : U256 :=
  let bytes := default [] (hex_decode (trim_0x s)) in
  let offset := (32 - length bytes)%nat in
  U256.from_be_bytes (replicate offset 0 ++ drop (length bytes - 32) bytes).

(** ** Applying *)

(** A [for] loop whose body may leave the function *)
Fixpoint each {S E X} (body : X -> M S E ()) (xs : list X) : M S E () :=
  match xs with
  | [] => mret ()
  | x :: xs => _ ← body x; each body xs
  end.

Section apply.
Context `{HO : HashOrder} `{CL : CryptoLib}.
(** The [Debug] text of a consensus error *)
Context (error_debug : ConsensusError -> str).

Definition apply_account (entry : GenesisAccount) : M StateDb GenesisError () :=
  addr ← lift (ok_or (BadAddress (ga_address entry)) (parse_addr (ga_address entry)));
  balance ← lift (parse_u256_decimal (ga_balance entry));
  let account := mkAccount (ga_nonce entry) balance HASH_ZERO HASH_ZERO in
  _ ← modify (fun s => set_account s addr account);
  _ ← match ga_code entry with
      | Some code_hex =>
          code ← lift (ok_or (BadCode (ga_address entry)) (hex_decode (trim_0x code_hex)));
          modify (fun s => set_code s addr code)
      | None => mret ()
      end;
  modify (fun s => foldl (fun s '(slot, val) =>
    set_storage s addr (parse_u256_hex slot) (parse_u256_hex val)) s (entries (ga_storage entry))).

Definition apply_validator (v : GenesisValidator) : M ProofOfStake GenesisError () :=
  addr ← lift (ok_or (BadAddress (gv_address v)) (parse_addr (gv_address v)));
  pubkey ← lift (ok_or (BadPubkey (gv_address v)) (hex_decode (trim_0x (gv_pubkey v))));
  stake_u256 ← lift (parse_u256_decimal (gv_stake v));
  let stake := U256.as_u64 stake_u256 in
  (fun pos =>
    let '(pos, r) := register_validator pos addr pubkey stake (gv_commission v) in
    (pos, map_err (fun e => PoS (error_debug e)) r)) : M ProofOfStake GenesisError ().

Definition apply_genesis (config : GenesisConfig) (st : StateDb * ProofOfStake)
    : (StateDb * ProofOfStake) * outcome GenesisError () :=
  let '(state, pos) := st in
  match each apply_account (gc_accounts config) state with
  | (state, Ok _) =>
      let '(pos, r) := each apply_validator (gc_validators config) pos in ((state, pos), r)
  | (state, r) => ((state, pos), r)
  end.

(** [load_genesis_file], from the content of the file and the JSON parser *)
Definition load_genesis (parse : str -> outcome str GenesisConfig) (raw : outcome str str)
    (st : StateDb * ProofOfStake)
    : (StateDb * ProofOfStake) * outcome GenesisError GenesisConfig :=
  match map_err Io raw ≫= (fun raw => map_err Parse (parse raw)) with
  | Ok config =>
      let '(st, r) := apply_genesis config st in (st, _ ← r; Ok config)
  | Err e => (st, Err e)
  | Panic => (st, Panic)
  | Blocked => (st, Blocked)
  end.

(** ** Exporting *)
Definition hex_0x (bytes : list Z) : str := (bytes_of "0x" ++ bytes_of (hex_encode bytes))%list.

Definition export_account (s : StateDb) (entry : Address * Account) : outcome () GenesisAccount :=
  let '(addr, account) := entry in
  let code := get_code s addr in
  balance ← u256_display (acc_balance account);
  Ok (mkGenesisAccount (hex_0x (addr_bytes addr)) balance
    (match code with [] => None | _ => Some (hex_0x code) end) ∅ (acc_nonce account)).
Definition export_validator (v : Validator) : GenesisValidator :=
  mkGenesisValidator (hex_0x (addr_bytes (address v))) (hex_0x (pubkey v))
    (decimal (stake v)) (commission v).
Fixpoint collect {E X Y} (f : X -> outcome E Y) (xs : list X) : outcome E (list Y) :=
  match xs with
  | [] => Ok []
  | x :: xs => y ← f x; ys ← collect f xs; Ok (y :: ys)
  end.
Definition export_genesis (s : StateDb) (pos : ProofOfStake) (now chain_id : Z) (name : str)
    : outcome () GenesisConfig :=
  let validators := export_validator <$> active_validators (pos_validators pos) in
  accounts ← collect (export_account s)
    (filter (fun e => is_empty e.2 = false) (all_accounts s));
  Ok (mkGenesis chain_id now name accounts validators).
End apply.
End genesis.
