(* ===== verification/GenesisProps.v ===== *)
(** * Properties of the genesis document

    Printing and parsing amounts, what the lenient parser makes of other text,
    and the round trip of a state through an exported document. *)
From stdpp Require Import base numbers list gmap strings.
From Stdlib Require Import ZArith Lia.
From S2P Require Import Prelude Types U256Facts Crypto Text EvmState Validator Bft Pos Genesis.
Import U256Facts.
#[local] Open Scope Z_scope.

(** ** Amounts *)
Lemma ten_wf : wf (U256.from_u64 10) /\ to_Z (U256.from_u64 10) = 10.
Proof. split; [done|reflexivity]. Qed.
Lemma small_u256 d : is_u64 d -> wf (U256.from_u64 d) /\ to_Z (U256.from_u64 d) = d.
Proof. intros. split; [done|]. unfold to_Z. cbn [U256.from_u64 u0 u1 u2 u3]. lia. Qed.

(** The decimal digits in a text *)
Definition digit_values (s : list Z) : list Z := (fun b => b - 48) <$> filter (fun b => is_ascii_digit b = true) s.

Lemma digit_values_range s : Forall (is_digit_value 10) (digit_values s).
Proof.
  unfold digit_values. apply Forall_fmap, Forall_forall. intros b [Hb _]%list_elem_of_filter.
  unfold is_ascii_digit in Hb. apply andb_true_iff in Hb as [?%Z.leb_le ?%Z.leb_le].
  unfold is_digit_value. cbn. lia.
Qed.
Lemma digit_values_cons b s : digit_values (b :: s) =
  if is_ascii_digit b then b - 48 :: digit_values s else digit_values s.
Proof.
  unfold digit_values. destruct (is_ascii_digit b) eqn:E.
  - by rewrite filter_cons_True.
  - by rewrite filter_cons_False by congruence.
Qed.

Lemma parse_loop s x : wf x -> number 10 (digit_values s) (to_Z x) < B256 ->
  exists r, for_each push_digit s x = Ok r /\ wf r /\ to_Z r = number 10 (digit_values s) (to_Z x).
Proof.
  revert x. induction s as [|b s IH]; intros x Hx Hn; cbn [for_each]; [by exists x|].
  pose proof (digit_values_range (b :: s)) as Hd. rewrite digit_values_cons in Hn, Hd |- *.
  change (push_digit x b) with (if is_ascii_digit b
    then U256.add (U256.mul x (U256.from_u64 10)) (U256.from_u64 (b - 48)) else Ok x : outcome GenesisError U256).
  destruct (is_ascii_digit b) eqn:E; [|cbn [mbind outcome_bind]; by apply IH].
  apply Forall_cons in Hd as [[Hb Hb'] Hd].
  change (number 10 (b - 48 :: digit_values s) (to_Z x)) with
    (number 10 (digit_values s) (to_Z x * 10 + (b - 48))) in *.
  pose proof (to_Z_range x Hx). destruct ten_wf as [H10 E10].
  pose proof (number_lower 10 (digit_values s) (to_Z x * 10 + (b - 48)) ltac:(lia) ltac:(lia) Hd).
  destruct (mul_spec x _ Hx H10) as [Hm Em]. rewrite E10, Z.mod_small in Em by lia.
  destruct (small_u256 (b - 48)) as [Hs Es]; [unfold is_u64; lia|].
  pose proof (checked_add_spec _ _ Hm Hs) as Ha. unfold U256.add.
  destruct (U256.checked_add _ _) as [r|]; [|rewrite Em, Es in Ha; lia].
  destruct Ha as [Hr Er]. rewrite Em, Es in Er. cbn [unwrap mbind outcome_bind].
  rewrite <- Er in Hn |- *. by apply IH.
Qed.

(** The amount parser reads the number that the decimal digits of the text
    spell, whatever stands between them, if it is below 2^256. *)
Theorem parse_u256_decimal_exact s : number 10 (digit_values s) 0 < B256 ->
  exists r, parse_u256_decimal s = Ok r /\ wf r /\ to_Z r = number 10 (digit_values s) 0.
Proof. intros Hn. by apply (parse_loop s U256.ZERO). Qed.

(** *** Printing *)
Lemma div10_spec {E} n : wf n -> exists q, (U256.checked_div n (U256.from_u64 10) ≫= unwrap) = (Ok q : outcome E _) /\
  wf q /\ to_Z q = to_Z n / 10.
Proof.
  intros Hn. destruct (@checked_div_floor E n _ Hn (proj1 ten_wf)) as [[H _]|(_ & q & -> & Hq & Eq)]; [done|].
  exists q. by rewrite (proj2 ten_wf) in Eq.
Qed.
Lemma rem10_spec {E} n q : wf n -> wf q -> to_Z q = to_Z n / 10 ->
  exists r, unwrap (U256.checked_sub n (U256.mul q (U256.from_u64 10))) = (Ok r : outcome E _) /\
    48 + U256.as_u64 r mod 256 = 48 + to_Z n mod 10.
Proof.
  intros Hn Hq Eq. destruct ten_wf as [H10 E10]. destruct (mul_spec q _ Hq H10) as [Hm Em].
  pose proof (to_Z_range n Hn). pose proof (Z.div_mod (to_Z n) 10 ltac:(lia)).
  pose proof (Z.mod_pos_bound (to_Z n) 10 ltac:(lia)).
  rewrite E10, Eq, Z.mod_small in Em by lia.
  pose proof (checked_sub_spec n _ Hn Hm) as Hs.
  destruct (U256.checked_sub _ _) as [r|]; [|lia]. destruct Hs as [Hr Er].
  exists r. split; [done|]. unfold wf, is_u64 in Hr. unfold U256.as_u64.
  assert (Eu : u0 r = to_Z n mod 10) by (rewrite Em in Er; unfold to_Z at 1 in Er; lia).
  rewrite Eu. rewrite (Z.mod_small (to_Z n mod 10)) by lia. done.
Qed.

Lemma display_loop_S fuel n acc : display_loop (S fuel) n acc =
  if U256.ltb U256.ZERO n then
    q ← U256.checked_div n (U256.from_u64 10) ≫= unwrap;
    rem ← unwrap (U256.checked_sub n (U256.mul q (U256.from_u64 10)));
    display_loop fuel q (acc ++ [48 + U256.as_u64 rem mod 256])
  else Ok (rev acc).
Proof. done. Qed.
Lemma display_loop_spec fuel n acc : wf n -> to_Z n < 10 ^ Z.of_nat fuel ->
  display_loop (S fuel) n acc =
  Ok ((if to_Z n =? 0 then [] else (fun d => 48 + d) <$> digits fuel 10 (to_Z n)) ++ rev acc)%list.
Proof.
  revert n acc. induction fuel as [|fuel IH]; intros n acc Hn Hb; pose proof (to_Z_range n Hn);
    rewrite display_loop_S, ltb_spec by done; change (to_Z U256.ZERO) with 0.
  { rewrite (proj2 (Z.ltb_ge _ _)) by (simpl in Hb; lia). by rewrite (proj2 (Z.eqb_eq _ _)) by (simpl in Hb; lia). }
  destruct (Z.ltb_spec 0 (to_Z n)) as [Hpos|]; [|by rewrite (proj2 (Z.eqb_eq _ _)) by lia].
  rewrite (proj2 (Z.eqb_neq (to_Z n) 0)) by lia.
  destruct (div10_spec (E := ()) n Hn) as (q & Eq & Hq & Zq). rewrite Eq. cbn [mbind outcome_bind].
  destruct (rem10_spec (E := ()) n q Hn Hq Zq) as (r & Er & Zr). rewrite Er. cbn [mbind outcome_bind].
  rewrite Zr, IH; [|done|].
  2: { rewrite Zq, Nat2Z.inj_succ, Z.pow_succ_r in * by lia. apply Z.div_lt_upper_bound; lia. }
  f_equal. rewrite rev_app_distr. cbn [rev app digits]. rewrite Zq.
  pose proof (Z.mod_pos_bound (to_Z n) 10 ltac:(lia)). pose proof (Z.div_mod (to_Z n) 10 ltac:(lia)).
  destruct (Z.ltb_spec (to_Z n) 10).
  - rewrite Z.div_small, Z.mod_small by lia. done.
  - assert (1 <= to_Z n / 10) by (apply Z.div_le_lower_bound; lia).
    rewrite (proj2 (Z.eqb_neq _ _)) by lia. rewrite fmap_app, <- app_assoc. done.
Qed.

Lemma digit_values_digits l : Forall (is_digit_value 10) l -> digit_values ((fun d => 48 + d) <$> l) = l.
Proof.
  induction 1 as [|d l [H0 H9] _ IH]; [done|]. cbn [fmap list_fmap]. rewrite digit_values_cons.
  unfold is_ascii_digit. rewrite (proj2 (Z.leb_le 48 (48 + d))), (proj2 (Z.leb_le (48 + d) 57)) by lia.
  cbn [andb]. unfold digit_values in *. rewrite IH. f_equal. lia.
Qed.

(** Amounts survive printing: [Display] of every 256-bit integer terminates
    without a panic with its decimal digits, and the genesis parser reads the
    same integer back. *)
Theorem u256_display_roundtrip x : wf x ->
  u256_display x = Ok ((fun d => 48 + d) <$> digits 78 10 (to_Z x)) /\
  exists s, u256_display x = Ok s /\ parse_u256_decimal s = Ok x.
Proof.
  intros Hx. pose proof (to_Z_range x Hx) as Hr0.
  assert (Hb : to_Z x < 10 ^ Z.of_nat 78).
  { eapply Z.lt_trans; [apply Hr0|]. vm_compute. reflexivity. }
  assert (E : u256_display x = Ok ((fun d => 48 + d) <$> digits 78 10 (to_Z x))).
  { unfold u256_display. case_bool_decide as Hz; [by subst|].
    rewrite (display_loop_spec 78 x [] Hx Hb). destruct (Z.eqb_spec (to_Z x) 0) as [E0|_].
    - destruct Hz. by apply to_Z_inj.
    - by rewrite app_nil_r. }
  split; [done|]. eexists. split; [exact E|].
  assert (Hd : Forall (is_digit_value 10) (digits 78 10 (to_Z x))) by (apply digits_range; lia).
  assert (Hn : number 10 (digits 78 10 (to_Z x)) 0 = to_Z x).
  { apply digits_number; [lia|]. split; [apply Hr0|exact Hb]. }
  destruct (parse_u256_decimal_exact ((fun d => 48 + d) <$> digits 78 10 (to_Z x))) as (r & -> & Hr & Er).
  - rewrite digit_values_digits, Hn by done. lia.
  - f_equal. apply to_Z_inj; [done|done|]. by rewrite Er, digit_values_digits, Hn.
Qed.

(** ** A state through a document *)
Section roundtrip.
Context `{HX : HexLib} `{HO : HashOrder} `{CL : CryptoLib}.

(** What the hex crate documents: the encoding of bytes is made of the
    characters 0-9 and a-f, and decoding inverts it. *)
Record HexLaws : Prop := {
  hex_digits : forall l, Forall (fun c => c <> 120) (bytes_of (hex_encode l));
  hex_inverse : forall l, Forall is_byte l -> hex_decode (bytes_of (hex_encode l)) = Some l
}.
Context (laws : HexLaws).

(** A state whose parts fit together: addresses and balances in range, and the
    code hash of a contract leads to its nonempty code. *)
Record state_ok (s : StateDb) : Prop := {
  so_account : forall a acc, accounts s !! a = Some acc ->
    wf_addr a /\ wf (acc_balance acc);
  so_code : forall a acc, accounts s !! a = Some acc -> acc_code_hash acc <> HASH_ZERO ->
    exists bytes, code s !! acc_code_hash acc = Some bytes /\ bytes <> [] /\
      Forall is_byte bytes /\ mkHash (keccak bytes) = acc_code_hash acc
}.

Lemma trim_hex l : trim_0x (hex_0x l) = bytes_of (hex_encode l).
Proof.
  unfold hex_0x. change (bytes_of "0x") with [48; 120]. cbn [app trim_0x Z.eqb Pos.eqb andb].
  pose proof (hex_digits laws l) as H. destruct (bytes_of (hex_encode l)) as [|c [|d rest]]; [done..|].
  cbn [trim_0x]. apply Forall_cons in H as [_ [Hd _]%Forall_cons].
  by rewrite (proj2 (Z.eqb_neq d 120) Hd), andb_false_r.
Qed.
Lemma parse_addr_hex a : wf_addr a -> parse_addr (hex_0x (addr_bytes a)) = Some a.
Proof.
  intros [Hl Hb]. unfold parse_addr. rewrite trim_hex, (hex_inverse laws) by done. cbn.
  unfold address_from_slice. rewrite Hl. by destruct a.
Qed.

(** The account that a document carries of one, and an entry that is worth
    writing. *)
Definition carried (acc : Account) : Account :=
  mkAccount (acc_nonce acc) (acc_balance acc) (acc_code_hash acc) HASH_ZERO.

Lemma get_code_of s a acc : state_ok s -> accounts s !! a = Some acc ->
  get_code s a = [] /\ acc_code_hash acc = HASH_ZERO \/
  acc_code_hash acc <> HASH_ZERO /\ get_code s a <> [] /\ Forall is_byte (get_code s a) /\
    code s !! acc_code_hash acc = Some (get_code s a) /\ mkHash (keccak (get_code s a)) = acc_code_hash acc.
Proof.
  intros Hs Ha. unfold get_code, get_account. rewrite Ha. cbn [default from_option id].
  case_bool_decide as Hz; [by left|]. right. split; [done|].
  destruct (so_code s Hs a acc Ha Hz) as (bytes & Hc & Hne & Hb & Hh). rewrite Hc. by cbn.
Qed.

Lemma apply_exported s a acc st : state_ok s -> accounts s !! a = Some acc -> code st ⊆ code s ->
  exists g st', export_account s (a, acc) = Ok g /\ apply_account g st = (st', Ok ()) /\
    accounts st' = <[a := carried acc]> (accounts st) /\ storage st' = storage st /\
    code st ⊆ code st' /\ code st' ⊆ code s /\
    (acc_code_hash acc <> HASH_ZERO -> code st' !! acc_code_hash acc = code s !! acc_code_hash acc).
Proof.
  intros Hs Ha Hsub. destruct (so_account s Hs a acc Ha) as [Hwa Hwb].
  destruct (u256_display_roundtrip _ Hwb) as [_ (bal & Ed & Ep)].
  cbn [export_account]. rewrite Ed. cbn [mbind outcome_bind].
  exists (mkGenesisAccount (hex_0x (addr_bytes a)) bal
    (match get_code s a with [] => None | _ => Some (hex_0x (get_code s a)) end) ∅ (acc_nonce acc)).
  unfold apply_account. cbn [ga_address ga_balance ga_code ga_storage ga_nonce].
  unfold mbind, M_bind, lift, modify. rewrite parse_addr_hex, Ep by done. cbn [ok_or].
  assert (Estor : forall s0, foldl (fun s '(slot, val) =>
    set_storage s a (parse_u256_hex slot) (parse_u256_hex val)) s0 (entries (∅ : gmap (list Z) (list Z))) = s0).
  { intros s0. assert (E0 : entries (∅ : gmap (list Z) (list Z)) = []).
    { apply Permutation_nil_r. by rewrite entries_perm, map_to_list_empty. }
    by rewrite E0. }
  destruct (get_code_of s a acc Hs Ha) as [[Hc Hz]|(Hz & Hne & Hb & Hc & Hk)].
  - rewrite Hc. eexists. split; [reflexivity|]. split; [cbn; by rewrite Estor|].
    cbn [set_account accounts storage code]. split; [unfold carried; by rewrite Hz|]. done.
  - destruct (get_code s a) as [|c code0] eqn:Eg; [done|].
    eexists. split; [reflexivity|]. cbv beta iota zeta. rewrite trim_hex, (hex_inverse laws) by done.
    cbn [ok_or]. cbv beta iota zeta. split; [by rewrite Estor|]. cbn [set_code set_account accounts storage code].
    rewrite Hk. split; [|split; [done|split; [|split]]].
    + unfold get_account. cbn [accounts set_account]. rewrite lookup_insert_eq. cbn.
      by rewrite insert_insert_eq.
    + destruct (code st !! acc_code_hash acc) as [x|] eqn:Ex; [|by apply insert_subseteq].
      eapply lookup_weaken in Ex as Ex'; [|exact Hsub]. rewrite Hc in Ex'. injection Ex' as <-.
      by rewrite insert_id.
    + by apply insert_subseteq_l.
    + intros _. by rewrite lookup_insert_eq.
Qed.

Lemma each_exported s es st : state_ok s -> NoDup es.*1 ->
  (forall a acc, (a, acc) ∈ es -> accounts s !! a = Some acc) -> code st ⊆ code s ->
  exists gs st', collect (export_account s) es = Ok gs /\ each apply_account gs st = (st', Ok ()) /\
    storage st' = storage st /\ code st ⊆ code st' /\ code st' ⊆ code s /\
    (forall a acc, (a, acc) ∈ es -> accounts st' !! a = Some (carried acc) /\
       (acc_code_hash acc <> HASH_ZERO -> code st' !! acc_code_hash acc = code s !! acc_code_hash acc)) /\
    (forall a, a ∉ es.*1 -> accounts st' !! a = accounts st !! a).
Proof.
  intros Hs. revert st. induction es as [|[a acc] es IH]; intros st Hnd Hes Hsub.
  { exists [], st. do 5 (split; [done|]). split; [by intros ? ? ?%not_elem_of_nil|done]. }
  cbn [fmap list_fmap fst] in Hnd. apply NoDup_cons in Hnd as [Hna Hnd].
  destruct (apply_exported s a acc st Hs) as (g & st1 & Eg & E1 & Ea & Est & C1 & C2 & C3);
    [apply Hes, list_elem_of_here|done|].
  destruct (IH st1) as (gs & st2 & Egs & E2 & Est2 & C4 & C5 & Hin & Hout); [done| |done|].
  { intros b x Hb. by apply Hes, list_elem_of_further. }
  exists (g :: gs), st2. cbn [collect each]. rewrite Eg. cbn [mbind outcome_bind]. rewrite Egs.
  split; [done|]. unfold mbind, M_bind. rewrite E1. split; [done|]. split; [congruence|].
  split; [by transitivity (code st1)|]. split; [done|]. split.
  - intros b x [[= -> ->]|Hb]%elem_of_cons; [|by apply Hin]. split.
    + rewrite Hout by done. by rewrite Ea, lookup_insert_eq.
    + intros Hz. specialize (C3 Hz). destruct (code s !! acc_code_hash acc) as [bytes|] eqn:Ec.
      * by eapply lookup_weaken.
      * destruct (so_code s Hs a acc) as (bytes & Hc & _); [apply Hes, list_elem_of_here|done|congruence].
  - intros b. cbn [fmap list_fmap fst]. rewrite not_elem_of_cons. intros [Hne Hb].
    rewrite Hout, Ea by done. by rewrite lookup_insert_ne.
Qed.

Lemma nodup_filter_fst {A B} (P : A * B -> Prop) `{forall x, Decision (P x)} (l : list (A * B)) :
  NoDup l.*1 -> NoDup (filter P l).*1.
Proof.
  induction l as [|x l IH]; [done|]. cbn [fmap list_fmap]. intros [Hx Hl]%NoDup_cons.
  rewrite filter_cons. case_decide; [|by apply IH]. cbn [fmap list_fmap]. apply NoDup_cons.
  split; [|by apply IH]. intros (y & E & [_ Hy]%list_elem_of_filter)%list_elem_of_fmap.
  apply Hx. rewrite E. by apply list_elem_of_fmap_2.
Qed.

(** C27: a devnet survives its export.  Exporting a well-formed state and applying
    the document to a fresh one gives every account, also one with nothing but a
    nonce, its nonce, balance, code hash
    and code again, whatever becomes of the validators; but every storage slot
    of the new state is zero: contracts lose their storage. *)
Theorem genesis_roundtrip error_debug s pos now chain_id name pos' : state_ok s ->
  exists cfg, export_genesis s pos now chain_id name = Ok cfg /\
    let s' := (apply_genesis error_debug cfg (empty_state, pos')).1.1 in
    (forall a, get_nonce s' a = get_nonce s a /\ get_balance s' a = get_balance s a /\
       get_code_hash s' a = get_code_hash s a /\ get_code s' a = get_code s a) /\
    forall a k, get_storage s' a k = U256.ZERO.
Proof.
  intros Hs. unfold export_genesis. set (es := filter _ _).
  assert (Hes : forall a acc, (a, acc) ∈ es <-> accounts s !! a = Some acc /\ is_empty acc = false).
  { intros a acc. unfold es, all_accounts. rewrite list_elem_of_filter, elem_of_entries. cbn. tauto. }
  destruct (each_exported s es empty_state Hs) as (gs & st & Egs & E & Est & _ & _ & Hin & Hout).
  - unfold es. pose proof (entries_nodup (accounts s)) as Hnd. unfold keys in Hnd.
    by apply nodup_filter_fst.
  - by intros a acc [? _]%Hes.
  - apply map_empty_subseteq.
  - rewrite Egs. cbn [mbind outcome_bind]. eexists. split; [reflexivity|].
    cbn [apply_genesis gc_accounts gc_validators]. rewrite E.
    destruct (each _ _ pos') as [pos1 r]. cbn [fst].
    assert (Hget : forall a, (exists acc, accounts s !! a = Some acc /\ is_empty acc = false /\
        accounts st !! a = Some (carried acc) /\
        (acc_code_hash acc <> HASH_ZERO -> code st !! acc_code_hash acc = code s !! acc_code_hash acc)) \/
      (carried (get_account s a) = EMPTY /\ accounts st !! a = None)).
    { intros a. destruct (accounts s !! a) as [acc|] eqn:Ea.
      - destruct (is_empty acc) eqn:Ee.
        + right. split.
          * unfold get_account. rewrite Ea. cbn [default from_option id]. unfold is_empty in Ee.
            apply andb_true_iff in Ee as [[Hn Hb]%andb_true_iff Hc].
            apply Z.eqb_eq in Hn. apply bool_decide_eq_true in Hb, Hc. unfold carried, EMPTY. congruence.
          * rewrite Hout; [apply lookup_empty|]. intros ([b x] & E0 & Hx)%list_elem_of_fmap.
            cbn in E0. subst b. apply Hes in Hx as [Hx He]. congruence.
        + left. exists acc. destruct (Hin a acc) as [H1 H2]; [by apply Hes|]. done.
      - right. split; [unfold get_account; by rewrite Ea|]. rewrite Hout; [apply lookup_empty|].
        intros ([b x] & E0 & Hx)%list_elem_of_fmap. cbn in E0. subst b. apply Hes in Hx as [Hx He]. congruence. }
    split.
    + intros a. unfold get_nonce, get_balance, get_code_hash, get_code, get_account.
      destruct (Hget a) as [(acc & Ea & _ & Est' & Hc)|[Hc Hn]].
      * rewrite Ea, Est'. cbn [default from_option id carried acc_nonce acc_balance acc_code_hash].
        do 3 (split; [done|]). case_bool_decide as Hz; [done|]. by rewrite Hc.
      * rewrite Hn. unfold get_account in Hc. injection Hc as E1 E2 E3.
        cbn [default from_option id EMPTY acc_nonce acc_balance acc_code_hash].
        rewrite E1, E2, E3. done.
    + intros a k. unfold get_storage. rewrite Est. cbn [storage empty_state]. by rewrite lookup_empty.
Qed.
End roundtrip.

Module Sample.
#[local] Existing Instance canonical_order.

(** The hex crate on bytes. *)
Definition hex_char (n : Z) : Z := if n <? 10 then 48 + n else 87 + n.
Definition hex_value (c : Z) : Z := if c <? 58 then c - 48 else if c <? 97 then c - 55 else c - 87.
Definition encode_bytes (l : list Z) : list Z := l ≫= fun b => [hex_char (b / 16 mod 16); hex_char (b mod 16)].
Fixpoint decode_text (l : list Z) : option (list Z) :=
  match l with
  | [] => Some []
  | c :: d :: l => bytes ← decode_text l; Some (16 * hex_value c + hex_value d :: bytes)
  | _ => None
  end.
#[local] Instance hex_lib : HexLib := {| hex_decode := decode_text |}.
#[local] Instance hex_crypto : CryptoLib := {|
  blake3 := pad32; keccak := pad32; key_ok _ := true; sig_ok _ := true;
  verify_prehash _ _ _ := true; verify_msg _ _ _ := true; recover_prehash _ _ _ := None;
  sign_prehash _ _ := None; sign_msg _ _ := []; secret_ok _ := true;
  public_point key := key; public_compressed key := key;
  hex_encode l := string_of (encode_bytes l) |}.

Lemma hex_char_range n : 0 <= n < 16 -> 48 <= hex_char n <= 102 /\ hex_value (hex_char n) = n.
Proof.
  intros Hn. unfold hex_char, hex_value. destruct (Z.ltb_spec n 10).
  - rewrite (proj2 (Z.ltb_lt _ _)); lia.
  - rewrite (proj2 (Z.ltb_ge (87 + n) 58)), (proj2 (Z.ltb_ge (87 + n) 97)); lia.
Qed.
Lemma encode_range l : Forall (fun c => 48 <= c <= 102) (encode_bytes l).
Proof.
  unfold encode_bytes. induction l as [|b l IH]; [constructor|]. cbn.
  repeat constructor; [..|done]; apply hex_char_range, Z.mod_pos_bound; lia.
Qed.
Lemma hex_laws : HexLaws.
Proof.
  split; intros l; cbn [hex_encode hex_crypto hex_decode hex_lib]; (rewrite bytes_of_string_of;
    [|eapply Forall_impl; [apply encode_range|]; unfold is_byte; cbn; lia]).
  - eapply Forall_impl; [apply encode_range|]. cbn. lia.
  - induction 1 as [|b l Hb _ IH]; [done|]. unfold is_byte in Hb.
    change (encode_bytes (b :: l)) with (hex_char (b / 16 mod 16) :: hex_char (b mod 16) :: encode_bytes l).
    cbn [decode_text]. rewrite IH. cbn.
    rewrite (proj2 (hex_char_range (b / 16 mod 16) ltac:(apply Z.mod_pos_bound; lia))).
    rewrite (proj2 (hex_char_range (b mod 16) ltac:(apply Z.mod_pos_bound; lia))).
    rewrite (Z.mod_small (b / 16)) by (split; [apply Z.div_pos|apply Z.div_lt_upper_bound]; lia).
    do 2 f_equal. pose proof (Z.div_mod b 16). lia.
Qed.

Definition acct (n : Z) : Address := mkAddress (replicate 19 0 ++ [n]).
Definition devnet : StateDb :=
  set_storage (set_code (set_balance empty_state (acct 1) (U256.from_u64 250)) (acct 2) [96; 0])
    (acct 2) U256.ONE U256.ONE.
Lemma devnet_ok : state_ok devnet.
Proof.
  assert (Hacc : accounts devnet = <[acct 2 := mkAccount 0 U256.ZERO (mkHash (pad32 [96; 0])) HASH_ZERO]>
    {[acct 1 := mkAccount 0 (U256.from_u64 250) HASH_ZERO HASH_ZERO]}) by (vm_compute; reflexivity).
  split; intros a acc; rewrite Hacc;
    intros [[<- <-]|[_ [<- <-]%lookup_singleton_Some]]%lookup_insert_Some.
  - split; [split; [done|repeat constructor; lia]|done].
  - split; [split; [done|repeat constructor; lia]|done].
  - intros _. exists [96; 0]. split; [vm_compute; reflexivity|]. split; [done|].
    split; [repeat constructor; lia|done].
  - done.
Qed.
Lemma genesis_roundtrip_witness : exists cfg,
  export_genesis devnet (new_pos default_staking_config) 7 1337 [] = Ok cfg /\
  let s' := (apply_genesis (fun _ => []) cfg (empty_state, new_pos default_staking_config)).1.1 in
  get_balance s' (acct 1) = U256.from_u64 250 /\ get_code s' (acct 2) = [96; 0] /\
  get_storage s' (acct 2) U256.ONE = U256.ZERO.
Proof.
  destruct (genesis_roundtrip hex_laws (fun _ => []) devnet (new_pos default_staking_config) 7 1337 []
    (new_pos default_staking_config) devnet_ok) as (cfg & E & Hg & Hst).
  exists cfg. split; [exact E|]. split; [|split].
  - apply (Hg (acct 1)).
  - apply (Hg (acct 2)).
  - apply Hst.
Defined.

Lemma u256_display_roundtrip_witness : exists s,
  u256_display (mkU256 5 0 0 (B64 - 1)) = Ok s /\ parse_u256_decimal s = Ok (mkU256 5 0 0 (B64 - 1)).
Proof. apply (u256_display_roundtrip (mkU256 5 0 0 (B64 - 1))). done. Defined.

(** What is no decimal number is read all the same. *)
Lemma parse_u256_decimal_exact_witness : exists r,
  parse_u256_decimal (bytes_of "1e18") = Ok r /\ to_Z r = 118.
Proof.
  destruct (parse_u256_decimal_exact (bytes_of "1e18")) as (r & E & _ & Er); [vm_compute; done|].
  exists r. split; [exact E|]. rewrite Er. reflexivity.
Defined.
Example negative_amount : parse_u256_decimal (bytes_of "-5") = Ok (U256.from_u64 5).
Proof. vm_compute. reflexivity. Qed.
(** 2^256 panics in the addition; 12 * 10^76, which is larger, wraps in the
    product and is accepted. *)
Example amount_2_256 : parse_u256_decimal
  (bytes_of "115792089237316195423570985008687907853269984665640564039457584007913129639936") = Panic.
Proof. vm_compute. reflexivity. Qed.
Example amount_wraps : match parse_u256_decimal
    (bytes_of "120000000000000000000000000000000000000000000000000000000000000000000000000000") with
  | Ok r => to_Z r = 12 * 10 ^ 76 - B256 | _ => False end.
Proof. vm_compute. reflexivity. Qed.
(** A slot of an odd number of hex digits is slot zero. *)
Example odd_slot : parse_u256_hex (bytes_of "0x1") = U256.ZERO.
Proof. vm_compute. reflexivity. Qed.
(** A stake of 2^64 + 10^11 is registered as 10^11. *)
Example stake_truncated : match parse_u256_decimal (bytes_of "18446744173709551616") with
  | Ok x => U256.as_u64 x = 100000000000 | _ => False end.
Proof. vm_compute. reflexivity. Qed.
End Sample.
