(* ===== verification/Rpc.v ===== *)
(** * The JSON-RPC interface (crates/nexus-rpc: types.rs, eth.rs, nexus.rs, methods.rs, server.rs, lib.rs)

    The handlers of both namespaces over the parts of the node they share, the
    table of methods, and the handling of one request.  JSON values are
    serde_json's: a class with the operations used and their documented laws.
    Derived deserialization, the clock and the interpreter are parameters. *)
From stdpp Require Import base numbers list gmap strings.
From Stdlib Require Import ZArith Lia.
From S2P Require Import Prelude Slices Text Iso8583 IsoValidators Iso20022 MessageRouter.
From S2P Require Import Types Crypto Transaction Vertex EvmState Gas Receipt Executor Validator Bft Pos Dag Mempool.
#[local] Open Scope Z_scope.

(** ** [serde_json::Value] *)
Class JsonLib := {
  Value : Type;
  json_null : Value;
  json_bool : bool -> Value;
  json_num : Z -> Value;
  json_str : string -> Value;
  json_array : list Value -> Value;
  json_object : list (string * Value) -> Value;
  (** [Value::get] by position and by key *)
  get_index : nat -> Value -> option Value;
  get_key : string -> Value -> option Value;
  as_str : Value -> option string;
  as_bool : Value -> option bool;
  is_null : Value -> bool;
  is_object : Value -> bool
}.
Class JsonLaws `{JL : JsonLib} : Prop := {
  get_index_array : forall l i, get_index i (json_array l) = l !! i;
  get_key_object : forall k v, is_Some (get_key k v) -> is_object v = true;
  array_is_no_object : forall l, is_object (json_array l) = false;
  as_str_str : forall s, as_str (json_str s) = Some s;
  str_is_plain : forall s, is_null (json_str s) = false /\ is_object (json_str s) = false;
  array_is_not_null : forall l, is_null (json_array l) = false
}.

Inductive RpcError :=
  | ParseError
  | InvalidRequest
  | MethodNotFound (m : string)
  | InvalidParams (m : string)
  | InternalError (m : string)
  | TransactionRejected (m : string)
  | NotFound (m : string).
Definition error_code (e : RpcError) : Z :=
  match e with
  | ParseError => -32700
  | InvalidRequest => -32600
  | MethodNotFound _ => -32601
  | InvalidParams _ => -32602
  | InternalError _ => -32603
  | TransactionRejected _ => -32003
  | NotFound _ => -32004
  end.
Definition error_display (e : RpcError) : string :=
  match e with
  | ParseError => "Parse error"
  | InvalidRequest => "Invalid request"
  | MethodNotFound m => "Method not found: " +:+ m
  | InvalidParams m => "Invalid params: " +:+ m
  | InternalError m => "Internal error: " +:+ m
  | TransactionRejected m => "Transaction rejected: " +:+ m
  | NotFound m => "Resource not found: " +:+ m
  end.
(** [Display] of [EvmError] (nexus-evm/src/lib.rs) and [IsoError] (nexus-iso/src/lib.rs) *)
Definition evm_error_display (e : EvmError) : string :=
  match e with
  | Revert m => "Execution reverted: " +:+ m
  | OutOfGas used limit => "Out of gas: used " +:+ show used +:+ ", limit " +:+ show limit
  | InvalidOpcode op => "Invalid opcode: 0x" +:+ string_of (pad0 2 (hex_lower op))
  | StackUnderflow => "Stack underflow"
  | StackOverflow => "Stack overflow"
  | InvalidJump dest => "Invalid jump destination: " +:+ show dest
  | EvmStateError m => "State error: " +:+ m
  | PrecompileError m => "Precompile error: " +:+ m
  | CreateFailed m => "Contract creation failed: " +:+ m
  | NonceMismatch expected got =>
      "Nonce mismatch: expected " +:+ show expected +:+ ", got " +:+ show got
  | InsufficientBalance required available =>
      "Insufficient balance: required " +:+ required +:+ ", available " +:+ available
  | EvmState.InvalidSignature => "Invalid signature"
  end.
Definition iso_error_display (e : IsoError) : string :=
  match e with
  | XmlParseError m => "XML parsing error: " +:+ m
  | InvalidFormat m => "Invalid message format: " +:+ m
  | MissingField m => "Missing required field: " +:+ m
  | ValidationFailed m => "Validation failed: " +:+ m
  | UnknownMessageType m => "Unknown message type: " +:+ m
  | EncodingError m => "Encoding error: " +:+ m
  | RoutingFailed m => "Routing failed: " +:+ m
  | ComplianceFailed m => "Compliance check failed: " +:+ m
  end.

(** ** types.rs *)
Record CallRequest := mkCallRequest {
  cr_from : option string;
  cr_to : string;
  cr_gas : option string;
  cr_gas_price : option string;
  cr_value : option string;
  cr_data : option string
}.

Section format.
Context `{CryptoLib} `{HexLib}.

Definition format_u64 (value : Z) : string := "0x" +:+ string_of (hex_lower value).
Definition format_u256 (value : U256) : string := "0x" +:+ string_of (hex_lower (U256.as_u64 value)).
Definition format_hash (h : Hash) : string := "0x" +:+ hex_encode (hash_bytes h).
Definition format_address (a : Address) : string := "0x" +:+ hex_encode (addr_bytes a).
Definition format_bytes (data : list Z) : string := "0x" +:+ hex_encode data.

(** [s.strip_prefix("0x").unwrap_or(s)] *)
Definition strip_0x (s : string) : list Z := strip_0x_bytes (bytes_of s).
Definition parse_u64 (s : string) : option Z := parse_uint 16 (B64 - 1) (strip_0x s).
Definition parse_address (s : string) : option Address :=
  bytes ← hex_decode (strip_0x s);
  if negb (length bytes =? 20)%nat then None else address_from_slice bytes.
Definition parse_hash (s : string) : option Hash :=
  bytes ← hex_decode (strip_0x s);
  if negb (length bytes =? 32)%nat then None else hash_from_slice bytes.
Definition parse_bytes (s : string) : option (list Z) := hex_decode (strip_0x s).
End format.

(** ** The handlers *)

(** [EthHandler] and [NexusHandler] hold the same [Arc]s; [zkp] is the trait
    object. *)
Record Rpc := mkRpc {
  rpc_dag : Dag;
  rpc_state : StateDb;
  rpc_pos : ProofOfStake;
  rpc_chain_id : Z;
  rpc_mempool : Mempool;
  peer_count : Z;
  compliance : ComplianceChecker;
  zkp : list Z -> list Z -> bool
}.
Definition set_rpc_state (s : StateDb) (r : Rpc) : Rpc :=
  mkRpc (rpc_dag r) s (rpc_pos r) (rpc_chain_id r) (rpc_mempool r) (peer_count r) (compliance r) (zkp r).
Definition set_rpc_mempool (m : Mempool) (r : Rpc) : Rpc :=
  mkRpc (rpc_dag r) (rpc_state r) (rpc_pos r) (rpc_chain_id r) m (peer_count r) (compliance r) (zkp r).
Definition new_rpc (d : Dag) (s : StateDb) (p : ProofOfStake) (zkp : list Z -> list Z -> bool)
    (chain_id : Z) (m : Mempool) (peers : Z) : Rpc :=
  mkRpc d s p chain_id m peers checker_new zkp.

(** What the derived deserializers and the transaction decoders read *)
Class RpcParsers `{JL : JsonLib} := {
  call_request_of : Value -> outcome string CallRequest;
  context_of : Value -> outcome string MessageContext;
  transaction_of_json : list Z -> option Transaction
}.

Section rpc.
Context `{HO : HashOrder} `{CL : CryptoLib} `{RV : RevmLib} `{RL : RlpLib} `{RX : RegexLib}
  `{HX : HexLib} `{JL : JsonLib} `{RP : @RpcParsers JL}.
(** The precompiled contracts that [Executor::new] installs *)
Context (table : gmap Address PrecompileFn).

Definition RpcM := M Rpc RpcError Value.
(** A handler that only reads *)
Definition reads (f : Rpc -> outcome RpcError Value) : RpcM := fun r => (r, f r).

(** [params.get(i).and_then(|v| v.as_str()).and_then(parse).ok_or_else(..)] *)
Definition str_param {A} (params : Value) (i : nat) (parse : string -> option A) (error : string)
    : outcome RpcError A :=
  ok_or (InvalidParams error) (v ← get_index i params; s ← as_str v; parse s).
Definition address_param (params : Value) : outcome RpcError Address :=
  str_param params 0 parse_address "Invalid address".
Definition hash_param (params : Value) : outcome RpcError Hash :=
  str_param params 0 parse_hash "Invalid hash".

(** *** eth.rs *)
Definition chain_id : RpcM := reads (fun r => Ok (json_str (format_u64 (rpc_chain_id r)))).
Definition block_number : RpcM :=
  reads (fun r => Ok (json_str (format_u64 (latest_height (rpc_dag r))))).
Definition gas_price : RpcM := reads (fun _ => Ok (json_str (format_u64 1000000000))).
Definition get_balance (params : Value) : RpcM := reads (fun r =>
  address ← address_param params;
  Ok (json_str (format_u256 (EvmState.get_balance (rpc_state r) address)))).
Definition get_transaction_count (params : Value) : RpcM := reads (fun r =>
  address ← address_param params;
  Ok (json_str (format_u64 (get_nonce (rpc_state r) address)))).
Definition get_code (params : Value) : RpcM := reads (fun r =>
  address ← address_param params;
  Ok (json_str (format_bytes (EvmState.get_code (rpc_state r) address)))).
Definition get_storage_at (params : Value) : RpcM := reads (fun r =>
  address ← address_param params;
  slot ← str_param params 1 parse_u64 "Invalid slot";
  Ok (json_str (format_u256 (get_storage (rpc_state r) address (U256.from_u64 slot))))).

Definition send_raw_transaction (params : Value) : RpcM := fun r =>
  match str_param params 0 parse_bytes "Invalid transaction data" with
  | Ok raw =>
      let hash := mkHash (keccak raw) in
      let tx_opt := match from_rlp_bytes raw with Some tx => Some tx | None => transaction_of_json raw end in
      match tx_opt with
      | Some tx =>
          let '(m, added) := Mempool.add tx (rpc_mempool r) in
          let r := set_rpc_mempool m r in
          if (added : bool) then (r, Ok (json_str (format_hash hash)))
          else (r, Err (TransactionRejected "Mempool full or duplicate"))
      | None => (r, Ok (json_str (format_hash hash)))
      end
  | Err e => (r, Err e)
  | Panic => (r, Panic)
  | Blocked => (r, Blocked)
  end.

(** What [call] and [estimate_gas] do with the request before they execute it *)
Record CallArgs := mkArgs { ca_to : Address; ca_caller : Address; ca_value : U256; ca_data : list Z }.
Definition call_args (params : Value) : outcome RpcError (CallRequest * CallArgs) :=
  req ← map_err InvalidParams (call_request_of (default json_null (get_index 0 params)));
  to ← ok_or (InvalidParams "Invalid to address") (parse_address (cr_to req));
  let caller := default ADDRESS_ZERO (cr_from req ≫= parse_address) in
  let value := default U256.ZERO (v ← cr_value req; U256.from_u64 <$> parse_u64 v) in
  let data := default [] (cr_data req ≫= parse_bytes) in
  Ok (req, mkArgs to caller value data).
Definition call_env (now : Z) (r : Rpc) : EvmEnv := {|
  env_chain_id := rpc_chain_id r; env_number := latest_height (rpc_dag r); env_timestamp := now;
  env_coinbase := env_coinbase default_env; env_gas_limit := env_gas_limit default_env;
  env_base_fee := env_base_fee default_env; env_prev_hash := env_prev_hash default_env;
  env_difficulty := env_difficulty default_env; env_prevrandao := env_prevrandao default_env |}.
(** The executor shares the state with the handler. *)
Definition dry_run (now : Z) (a : CallArgs) (gas : Z) : M Rpc RpcError (list Z * Z) := fun r =>
  let executor := new_executor table (rpc_state r) (call_env now r) in
  let '(executor, result) :=
    call_dry_run (ca_caller a) (ca_to a) (ca_value a) (ca_data a) gas executor in
  (set_rpc_state (ex_state executor) r,
   map_err (fun e => InternalError (evm_error_display e)) result).

Definition call (now : Z) (params : Value) : RpcM :=
  '(req, a) ← lift (call_args params);
  let gas := default 30000000 (cr_gas req ≫= parse_u64) in
  '(output, _) ← dry_run now a gas;
  mret (json_str (format_bytes output)).
Definition estimate_gas (now : Z) (params : Value) : RpcM :=
  '(_, a) ← lift (call_args params);
  '(_, gas_used) ← dry_run now a 30000000;
  mret (json_str (format_u64 (Z.max gas_used 21000))).

Definition zeros (n : nat) : string := string_of (replicate n 48).
(** ["0x".repeat(n)] *)
Fixpoint repeat_0x (n : nat) : string := match n with O => "" | S n => "0x" +:+ repeat_0x n end.
(** [RpcBlock] as the JSON it becomes *)
Definition block_json (r : Rpc) (height : Z) (vertex : Vertex) : Value := json_object
  [("number", json_str (format_u64 height));
   ("hash", json_str (format_hash (v_hash vertex)));
   ("parentHash", json_str (match v_parents vertex with
                            | parent :: _ => format_hash parent
                            | [] => repeat_0x 32
                            end));
   ("nonce", json_str "0x0");
   ("sha3Uncles", json_str ("0x" +:+ zeros 64));
   ("logsBloom", json_str ("0x" +:+ zeros 512));
   ("transactionsRoot", json_str ("0x" +:+ zeros 64));
   ("stateRoot", json_str (format_hash (state_root (rpc_state r))));
   ("receiptsRoot", json_str ("0x" +:+ zeros 64));
   ("miner", json_str ("0x" +:+ hex_encode (drop 12 (vid_bytes (v_validator vertex)))));
   ("difficulty", json_str "0x0");
   ("totalDifficulty", json_str "0x0");
   ("extraData", json_str "0x");
   ("size", json_str (format_u64 1000));
   ("gasLimit", json_str (format_u64 30000000));
   ("gasUsed", json_str (format_u64 0));
   ("timestamp", json_str (format_u64 (v_timestamp vertex)));
   ("transactions", json_array ((fun tx => json_str (format_hash (tx_hash tx))) <$> v_transactions vertex));
   ("uncles", json_array []);
   ("baseFeePerGas", json_str (format_u64 1000000000))]%string.
Definition get_block_by_number (params : Value) : RpcM := reads (fun r =>
  block_id ← str_param params 0 Some "Missing block number";
  let height :=
    if String.eqb block_id "latest" then latest_height (rpc_dag r)
    else default 0 (parse_u64 block_id) in
  match get_vertices_at_height (rpc_dag r) height with
  | [] => Ok json_null
  | h :: _ =>
      vertex ← ok_or (NotFound "Block not found") (get_vertex (rpc_dag r) h);
      Ok (block_json r height vertex)
  end).
Definition get_block_by_hash (params : Value) : RpcM := reads (fun r =>
  hash ← hash_param params;
  vertex ← ok_or (NotFound "Block not found") (get_vertex (rpc_dag r) hash);
  Ok (block_json r (v_height vertex) vertex)).

Definition syncing : RpcM := reads (fun r =>
  let current := latest_height (rpc_dag r) in
  if (0 <? peer_count r) && (current =? 0)
  then Ok (json_object [("startingBlock", json_str "0x0");
                        ("currentBlock", json_str (format_u64 current));
                        ("highestBlock", json_str (format_u64 current))]%string)
  else Ok (json_bool false)).
Definition coinbase : RpcM := reads (fun r =>
  match values (validators (pos_validators (rpc_pos r))) with
  | v :: _ => Ok (json_str (format_address (address v)))
  | [] => Ok (json_str ("0x" +:+ zeros 40))
  end).
Definition mining : RpcM := reads (fun _ => Ok (json_bool false)).
Definition hashrate : RpcM := reads (fun _ => Ok (json_str "0x0")).
Definition rpc_accounts : RpcM := reads (fun _ => Ok (json_array [])).
Definition net_version : RpcM := reads (fun r => Ok (json_str (show (rpc_chain_id r)))).
Definition net_listening : RpcM := reads (fun _ => Ok (json_bool true)).
Definition net_peer_count : RpcM := reads (fun r => Ok (json_str (format_u64 (peer_count r)))).
Definition client_version : RpcM := reads (fun _ => Ok (json_str "NexusChain/v0.1.0")).
Definition sha3 (params : Value) : RpcM := reads (fun _ =>
  data ← str_param params 0 parse_bytes "Invalid data";
  Ok (json_str ("0x" +:+ hex_encode (keccak data)))).

(** *** nexus.rs *)
Definition hashes_json (l : list Hash) : Value := json_array ((fun h => json_str (format_hash h)) <$> l).
Definition dag_info : RpcM := reads (fun r =>
  let s := stats (rpc_dag r) in
  Ok (json_object [("totalVertices", json_num (Z.of_nat (total_vertices s)));
                   ("currentTips", json_num (Z.of_nat (tips_count s)));
                   ("pendingVertices", json_num (Z.of_nat (pending_count s)));
                   ("latestHeight", json_num (stat_latest_height s));
                   ("finalizedHeight", json_num (stat_finalized_height s))]%string)).
(** [{:?}] of an optional status *)
Definition status_debug (s : option VertexStatus) : string :=
  match s with
  | None => "None"
  | Some s => "Some(" +:+ (match s with
      | Pending => "Pending" | AwaitingParents => "AwaitingParents" | Confirmed => "Confirmed"
      | Finalized => "Finalized" | Rejected => "Rejected" | Orphaned => "Orphaned"
      end)%string +:+ ")"
  end.
Definition rpc_get_vertex (params : Value) : RpcM := reads (fun r =>
  hash ← hash_param params;
  vertex ← ok_or (NotFound "Vertex not found") (get_vertex (rpc_dag r) hash);
  Ok (json_object [("hash", json_str (format_hash (v_hash vertex)));
    ("height", json_num (v_height vertex));
    ("validator", json_str ("0x" +:+ hex_encode (vid_bytes (v_validator vertex))));
    ("parents", hashes_json (v_parents vertex));
    ("transactions", hashes_json (tx_hash <$> v_transactions vertex));
    ("timestamp", json_num (v_timestamp vertex));
    ("status", json_str (status_debug (get_status (rpc_dag r) hash)))]%string)).
Definition rpc_get_tips : RpcM := reads (fun r => Ok (hashes_json (get_tips (rpc_dag r)))).
Definition get_parents (params : Value) : RpcM := reads (fun r =>
  hash ← hash_param params;
  vertex ← ok_or (NotFound "Vertex not found") (get_vertex (rpc_dag r) hash);
  Ok (hashes_json (v_parents vertex))).
Definition rpc_get_children (params : Value) : RpcM := reads (fun r =>
  hash ← hash_param params;
  Ok (hashes_json (get_children (rpc_dag r) hash))).
Definition is_finalized (params : Value) : RpcM := reads (fun r =>
  hash ← hash_param params;
  _ ← ok_or (NotFound "Vertex not found") (get_vertex (rpc_dag r) hash);
  Ok (json_bool (bool_decide (get_status (rpc_dag r) hash = Some Finalized)))).
Definition rpc_validators : RpcM := reads (fun r =>
  let s := pos_validators (rpc_pos r) in
  Ok (json_object [("epoch", json_num (Validator.epoch s));
    ("totalStake", json_str (show (total_stake s)));
    ("validators", json_array ((fun v => json_object
       [("address", json_str (format_address (address v)));
        ("stake", json_str (show (stake v)));
        ("commission", json_num (commission v));
        ("active", json_bool (Validator.active v));
        ("uptime", json_num (uptime v))]%string) <$> values (validators s)))]%string)).
Definition rpc_epoch : RpcM := reads (fun r => Ok (json_num (current_epoch (rpc_pos r)))).
Definition check_compliance (params : Value) : RpcM := reads (fun r =>
  ctx ← map_err InvalidParams (context_of (default json_null (get_index 0 params)));
  let result := check (compliance r) ctx in
  Ok (json_object [("passed", json_bool (result_passed result));
    ("riskScore", json_num (risk_score result));
    ("checks", json_array ((fun c => json_object
       [("name", json_str (check_name c));
        ("passed", json_bool (check_passed c));
        ("message", match check_message c with Some m => json_str m | None => json_null end)]%string)
       <$> checks result))]%string)).
Definition validity_json (r : outcome IsoError ()) : outcome RpcError Value :=
  match r with
  | Ok _ => Ok (json_object [("valid", json_bool true)]%string)
  | Err e => Ok (json_object [("valid", json_bool false);
                              ("error", json_str (iso_error_display e))]%string)
  | Panic => Panic
  | Blocked => Blocked
  end.
Definition rpc_validate_iban (params : Value) : RpcM := reads (fun _ =>
  iban ← str_param params 0 Some "Missing IBAN";
  validity_json (validate_iban (bytes_of iban))).
Definition rpc_validate_bic (params : Value) : RpcM := reads (fun _ =>
  bic ← str_param params 0 Some "Missing BIC";
  validity_json (validate_bic (bytes_of bic))).
(** [hex_error] is the text of the hex crate's [FromHexError]. *)
Definition zkp_verify (hex_error : string -> string) (params : Value) : RpcM := reads (fun r =>
  proof_hex ← ok_or (InvalidParams "Missing proof") (v ← get_key "proof" params; as_str v);
  input_hex ← ok_or (InvalidParams "Missing input") (v ← get_key "input" params; as_str v);
  proof ← ok_or (InvalidParams (hex_error proof_hex)) (hex_decode (bytes_of proof_hex));
  input ← ok_or (InvalidParams (hex_error input_hex)) (hex_decode (bytes_of input_hex));
  Ok (json_object [("verified", json_bool (zkp r proof input))]%string)).
Definition get_proof (params : Value) : RpcM := reads (fun r =>
  address ← address_param params;
  if negb (account_exists (rpc_state r) address) then Err (NotFound "Account not found")
  else Ok (json_object [("address", json_str (format_address address));
    ("balance", json_str (format_u256 (EvmState.get_balance (rpc_state r) address)));
    ("nonce", json_num (get_nonce (rpc_state r) address));
    ("codeHash", json_str (format_hash (get_code_hash (rpc_state r) address)));
    ("stateRoot", json_str (format_hash (state_root (rpc_state r))))]%string)).

(** ** methods.rs *)
Context (hex_error : string -> string).
Definition method_table (now : Z) (params : Value) : list (string * RpcM) :=
  [("eth_chainId", chain_id); ("eth_blockNumber", block_number); ("eth_gasPrice", gas_price);
   ("eth_getBalance", get_balance params); ("eth_getTransactionCount", get_transaction_count params);
   ("eth_getCode", get_code params); ("eth_getStorageAt", get_storage_at params);
   ("eth_sendRawTransaction", send_raw_transaction params); ("eth_call", call now params);
   ("eth_estimateGas", estimate_gas now params);
   ("eth_getBlockByNumber", get_block_by_number params);
   ("eth_getBlockByHash", get_block_by_hash params); ("eth_syncing", syncing);
   ("eth_coinbase", coinbase); ("eth_mining", mining); ("eth_hashrate", hashrate);
   ("eth_accounts", rpc_accounts);
   ("net_version", net_version); ("net_listening", net_listening); ("net_peerCount", net_peer_count);
   ("web3_clientVersion", client_version); ("web3_sha3", sha3 params);
   ("nexus_dagInfo", dag_info); ("nexus_getVertex", rpc_get_vertex params);
   ("nexus_getTips", rpc_get_tips); ("nexus_getParents", get_parents params);
   ("nexus_getChildren", rpc_get_children params); ("nexus_isFinalized", is_finalized params);
   ("nexus_validators", rpc_validators); ("nexus_epoch", rpc_epoch);
   ("nexus_checkCompliance", check_compliance params);
   ("nexus_validateIban", rpc_validate_iban params); ("nexus_validateBic", rpc_validate_bic params);
   ("nexus_zkpVerify", zkp_verify hex_error params); ("nexus_getProof", get_proof params)]%string.
Fixpoint lookup_method (method : string) (l : list (string * RpcM)) : RpcM :=
  match l with
  | [] => fail (MethodNotFound method)
  | (name, f) :: l => if String.eqb method name then f else lookup_method method l
  end.
Definition dispatch (now : Z) (method : string) (params : Value) : RpcM :=
  lookup_method method (method_table now params).

(** ** server.rs *)
Record JsonRpcRequest := mkRequest { jsonrpc : string; req_id : Value; method : string; params : Value }.
Inductive JsonRpcResponse :=
  | Success (id result : Value)
  | Failure (id : Value) (code : Z) (message : string).

Definition response_of (id : Value) (r : outcome RpcError Value) : outcome () JsonRpcResponse :=
  match r with
  | Ok result => Ok (Success id result)
  | Err e => Ok (Failure id (error_code e) (error_display e))
  | Panic => Panic
  | Blocked => Blocked
  end.
Definition normalize (params : Value) : Value :=
  if is_null params then json_array []
  else if is_object params then json_array [params]
  else params.
Definition handle_rpc (now : Z) (request : JsonRpcRequest) (r : Rpc)
    : Rpc * outcome () JsonRpcResponse :=
  if negb (String.eqb (jsonrpc request) "2.0")
  then (r, Ok (Failure (req_id request) (-32600) "Invalid JSON-RPC version"))
  else
    let '(r, result) := dispatch now (method request) (normalize (params request)) r in
    (r, response_of (req_id request) result).

(** [handle_batch_rpc], which no route leads to: no version is checked and an
    object is passed as it is. *)
Definition normalize_batch (params : Value) : Value :=
  if is_null params then json_array [] else params.
Fixpoint handle_batch_rpc (now : Z) (requests : list JsonRpcRequest) (r : Rpc)
    : Rpc * outcome () (list JsonRpcResponse) :=
  match requests with
  | [] => (r, Ok [])
  | req :: requests =>
      let '(r, result) := dispatch now (method req) (normalize_batch (params req)) r in
      match response_of (req_id req) result with
      | Ok response =>
          let '(r, responses) := handle_batch_rpc now requests r in
          (r, responses ← responses; Ok (response :: responses))
      | Err e => (r, Err e)
      | Panic => (r, Panic)
      | Blocked => (r, Blocked)
      end
  end.
End rpc.
