(* ===== verification/RpcProps.v ===== *)
(** * Theorems about the JSON-RPC interface

    Which requests change the node, what the formats carry, and what a request
    to each of the handlers comes to. *)
From stdpp Require Import base numbers list gmap strings.
From Stdlib Require Import ZArith Lia.
From S2P Require Import Prelude Slices Text Iso8583 IsoValidators Iso20022 MessageRouter.
From S2P Require Import Types U256Facts Crypto Transaction Vertex EvmState EvmStateProps Gas Receipt Executor ExecutorProps.
From S2P Require Import Validator Bft Pos Dag DagFacts Mempool MempoolProps Genesis GenesisProps Rpc.
Import U256Facts.
#[local] Open Scope Z_scope.

(** ** Formats *)
Lemma bytes_of_0x s : bytes_of ("0x" +:+ s) = 48 :: 120 :: bytes_of s.
Proof. reflexivity. Qed.
Lemma strip_0x_of s : strip_0x ("0x" +:+ s) = bytes_of s.
Proof. unfold strip_0x, strip_0x_bytes. by rewrite bytes_of_0x. Qed.

Section formats.
Context `{CL : CryptoLib} `{HX : HexLib} (laws : HexLaws).

Lemma parse_bytes_format l : Forall is_byte l -> parse_bytes (format_bytes l) = Some l.
Proof. intros Hl. unfold parse_bytes, format_bytes. rewrite strip_0x_of. by apply (hex_inverse laws). Qed.
Lemma parse_address_format a : wf_addr a -> parse_address (format_address a) = Some a.
Proof.
  intros [Hn Hl]. unfold parse_address, format_address. rewrite strip_0x_of, (hex_inverse laws) by done.
  cbn [mbind option_bind]. rewrite Hn, Nat.eqb_refl. cbn [negb]. unfold address_from_slice.
  rewrite decide_True by done. by destruct a.
Qed.
Lemma parse_hash_format h : is_bytes 32 (hash_bytes h) -> parse_hash (format_hash h) = Some h.
Proof.
  intros [Hn Hl]. unfold parse_hash, format_hash. rewrite strip_0x_of, (hex_inverse laws) by done.
  cbn [mbind option_bind]. rewrite Hn, Nat.eqb_refl. cbn [negb]. unfold hash_from_slice.
  rewrite decide_True by done. by destruct h.
Qed.
Lemma parse_u64_format n : is_u64 n -> parse_u64 (format_u64 n) = Some n.
Proof.
  intros [? ?]. unfold parse_u64, format_u64. rewrite strip_0x_of, bytes_of_string_of by by apply hex_lower_bytes.
  apply parse_hex_lower; lia.
Qed.
(** Every value that the interface prints and reads, it reads back: 64-bit
    quantities, addresses, hashes and byte strings.  A 256-bit quantity comes
    back as its lowest 64 bits. *)
Theorem formats_roundtrip :
  (forall n, is_u64 n -> parse_u64 (format_u64 n) = Some n) /\
  (forall a, wf_addr a -> parse_address (format_address a) = Some a) /\
  (forall h, is_bytes 32 (hash_bytes h) -> parse_hash (format_hash h) = Some h) /\
  (forall l, Forall is_byte l -> parse_bytes (format_bytes l) = Some l) /\
  (forall x, wf x -> parse_u64 (format_u256 x) = Some (to_Z x mod B64)).
Proof.
  repeat split; auto using parse_u64_format, parse_address_format, parse_hash_format, parse_bytes_format.
  intros x Hx. unfold format_u256, U256.as_u64. change (parse_u64 (format_u64 (u0 x)) = Some (to_Z x mod B64)).
  destruct x as [a b c d], Hx as (? & ? & ? & ?). cbn in *. unfold is_u64 in *.
  rewrite parse_u64_format by done. f_equal. unfold to_Z. cbn [u0 u1 u2 u3].
  apply (Z.mod_unique _ _ (b + B64 * c + B128 * d)); lia.
Qed.

(** The hex crate reads both cases. *)
Definition hex_ignores_case : Prop := forall l l' : list Z,
  ascii_upper <$> l = ascii_upper <$> l' -> hex_decode l = hex_decode l'.
Lemma ascii_upper_twice c : ascii_upper (ascii_upper c) = ascii_upper c.
Proof. unfold ascii_upper at 2 3, is_ascii_lower. destruct (_ && _) eqn:E; unfold ascii_upper, is_ascii_lower; [|by rewrite E]. by rewrite (proj2 (Z.leb_gt 97 (c - 32))) by lia. Qed.
Lemma ascii_upper_byte c : is_byte c -> is_byte (ascii_upper c).
Proof. unfold ascii_upper, is_ascii_lower, is_byte. destruct (Z.leb_spec 97 c), (c <=? 122); cbn; lia. Qed.
Lemma checksum_upper hash l : ascii_upper <$> imap (checksum_char hash) l = ascii_upper <$> l.
Proof.
  apply list_eq. intros i. rewrite !list_lookup_fmap, list_lookup_imap. destruct (l !! i) as [c|]; [|done].
  cbn. unfold checksum_char. destruct (8 <=? _); [by rewrite ascii_upper_twice|done].
Qed.
Lemma bytes_of_bytes s : Forall is_byte (bytes_of s).
Proof.
  unfold bytes_of. apply Forall_fmap, Forall_true. intros c. unfold is_byte. cbn.
  pose proof (Ascii.nat_ascii_bounded c). lia.
Qed.
(** Both texts of an address, with the checksum and without, are read back,
    by [from_hex] and by the parameters of a request.  The case of the letters
    is not looked at: any other capitals are read as the same address. *)
Theorem address_text_roundtrip a : hex_ignores_case -> wf_addr a ->
  address_from_hex (to_checksum_string a) = Ok a /\
  address_from_hex (bytes_of (address_debug a)) = Ok a /\
  parse_address (string_of (to_checksum_string a)) = Some a /\
  (forall body, ascii_upper <$> body = ascii_upper <$> bytes_of (hex_encode (addr_bytes a)) ->
     address_from_hex (bytes_of "0x" ++ body)%list = Ok a).
Proof.
  intros Hcase [Hn Hl].
  assert (Hdec : forall body, ascii_upper <$> body = ascii_upper <$> bytes_of (hex_encode (addr_bytes a)) ->
    hex_decode body = Some (addr_bytes a)).
  { intros body Hb. rewrite (Hcase _ _ Hb). by apply (hex_inverse laws). }
  assert (Hany : forall body, ascii_upper <$> body = ascii_upper <$> bytes_of (hex_encode (addr_bytes a)) ->
     address_from_hex (bytes_of "0x" ++ body)%list = Ok a).
  { intros body Hb. unfold address_from_hex. change (strip_0x_bytes (bytes_of "0x" ++ body)) with body.
    rewrite (Hdec body Hb). cbn [ok_or mbind outcome_bind]. rewrite Hn, Nat.eqb_refl. by destruct a. }
  split; [apply Hany, checksum_upper|]. split; [by apply Hany|]. split; [|exact Hany].
  unfold parse_address, strip_0x, to_checksum_string. rewrite bytes_of_string_of.
  - change (strip_0x_bytes (bytes_of "0x" ++ ?l)) with l.
    rewrite Hdec by apply checksum_upper. cbn [mbind option_bind]. rewrite Hn, Nat.eqb_refl. cbn [negb].
    unfold address_from_slice. rewrite decide_True by done. by destruct a.
  - apply Forall_app. split; [apply bytes_of_bytes|]. apply Forall_lookup_2. intros i c.
    rewrite list_lookup_imap. destruct (_ !! i) as [x|] eqn:E; [|done]. intros [= <-].
    pose proof (proj1 (Forall_lookup _ _) (bytes_of_bytes _) _ _ E) as Hx. unfold checksum_char.
    destruct (8 <=? _); [by apply ascii_upper_byte|done].
Qed.
End formats.

Section handlers.
Context `{HO : HashOrder} `{CL : CryptoLib} `{RV : RevmLib} `{RL : RlpLib} `{RX : RegexLib}
  `{HX : HexLib} `{JL : JsonLib} `{RP : @RpcParsers JL}.
Context (table : gmap Address PrecompileFn) (hex_error : string -> string).
Abbreviation handle := (handle_rpc table hex_error).
Abbreviation dispatch := (Rpc.dispatch table hex_error).

(** ** Dispatch *)
Lemma lookup_method_elim (P : RpcM -> Prop) m l :
  (m ∉ l.*1 -> P (fail (MethodNotFound m))) -> (forall f, (m, f) ∈ l -> P f) -> P (lookup_method m l).
Proof.
  induction l as [|[name f] l IH]; intros Hn Hf; [apply Hn, not_elem_of_nil|]. cbn [lookup_method].
  destruct (String.eqb_spec m name) as [->|Hm]; [apply Hf; left|].
  apply IH; [|intros g Hg; apply Hf; by right]. intros Hl. apply Hn. cbn. intros [?|?]%elem_of_cons; done.
Qed.
Definition version_2 (request : JsonRpcRequest) : Prop := jsonrpc request = "2.0".
Lemma handle_2 now request r : version_2 request ->
  handle now request r =
  let '(r, result) := dispatch now (method request) (normalize (params request)) r in
  (r, response_of (req_id request) result).
Proof. intros E. unfold handle_rpc. rewrite E. done. Qed.

Lemma set_rpc_state_same r : set_rpc_state (rpc_state r) r = r.
Proof. by destruct r. Qed.
Lemma call_frame now params r : exists s, (call table now params r).1 = set_rpc_state s r.
Proof.
  unfold call. unfold mbind at 1. unfold M_bind at 1, lift.
  destruct (call_args params) as [[req a]|e| |]; [|exists (rpc_state r); by rewrite set_rpc_state_same..].
  unfold mbind at 1, M_bind, dry_run. destruct (call_dry_run _ _ _ _ _ _) as [x res].
  exists (ex_state x). by destruct res as [[]| | |].
Qed.
Lemma estimate_frame now params r : exists s, (estimate_gas table now params r).1 = set_rpc_state s r.
Proof.
  unfold estimate_gas. unfold mbind at 1. unfold M_bind at 1, lift.
  destruct (call_args params) as [[req a]|e| |]; [|exists (rpc_state r); by rewrite set_rpc_state_same..].
  unfold mbind at 1, M_bind, dry_run. destruct (call_dry_run _ _ _ _ _ _) as [x res].
  exists (ex_state x). by destruct res as [[]| | |].
Qed.
Lemma submit_frame params r : (send_raw_transaction params r).1 = r \/
  exists tx, (send_raw_transaction params r).1 = set_rpc_mempool (Mempool.add tx (rpc_mempool r)).1 r.
Proof.
  unfold send_raw_transaction. destruct (str_param _ _ _ _) as [raw|e| |]; [|by left..].
  destruct (match from_rlp_bytes raw with Some tx => Some tx | None => _ end) as [tx|]; [|by left].
  right. exists tx. destruct (Mempool.add tx (rpc_mempool r)) as [m []]; done.
Qed.
(** What a method can change: [eth_call] and [eth_estimateGas] the state,
    [eth_sendRawTransaction] the pool, by one addition. *)
Definition simulations : list string := ["eth_call"; "eth_estimateGas"]%string.
Inductive changes (m : string) (r : Rpc) : Rpc -> Prop :=
  | changes_nothing : changes m r r
  | changes_state s : m ∈ simulations -> changes m r (set_rpc_state s r)
  | changes_pool tx : m = "eth_sendRawTransaction"%string ->
      changes m r (set_rpc_mempool (Mempool.add tx (rpc_mempool r)).1 r).
Lemma dispatch_changes now m params r : changes m r (dispatch now m params r).1.
Proof.
  unfold Rpc.dispatch. apply (lookup_method_elim (fun f => changes m r (f r).1)); [constructor|].
  intros f Hf. unfold method_table in Hf.
  repeat (apply elem_of_cons in Hf as [[= -> ->]|Hf]; [first [constructor 1 |
    destruct (submit_frame params r) as [->|[tx ->]]; by constructor |
    destruct (call_frame now params r) as [s ->]; apply changes_state; unfold simulations; set_solver |
    destruct (estimate_frame now params r) as [s ->]; apply changes_state; unfold simulations; set_solver]|]).
  by apply elem_of_nil in Hf.
Qed.
Lemma handle_changes now request r : changes (method request) r (handle now request r).1.
Proof.
  unfold handle_rpc. case_match; [constructor|].
  pose proof (dispatch_changes now (method request) (normalize (params request)) r) as Hd.
  by destruct (dispatch _ _ _ r).
Qed.

Definition effectful : list string := "eth_sendRawTransaction"%string :: simulations.
(** C30: queries are pure: a request for any method other than
    [eth_sendRawTransaction], [eth_call] and [eth_estimateGas] (an unknown
    method, a wrong version and malformed parameters included) leaves
    everything the handlers share unchanged. *)
Theorem queries_change_nothing now request r : method request ∉ effectful ->
  (handle now request r).1 = r.
Proof.
  intros Hm. destruct (handle_changes now request r) as [|s Hs|tx E]; [done|exfalso; apply Hm..].
  - by right.
  - rewrite E. by left.
Qed.

Definition response_id (resp : JsonRpcResponse) : Value :=
  match resp with Success i _ => i | Failure i _ _ => i end.
Definition methods : list string := (method_table table hex_error 0 json_null).*1.
(** Every answer carries the identifier of its request; a request of
    another version is refused with -32600 and one for a method that is not in
    the table with -32601, whatever its parameters, and neither is run. *)
Theorem requests_are_answered now request r :
  (forall resp, (handle now request r).2 = Ok resp -> response_id resp = req_id request) /\
  (~ version_2 request ->
    handle now request r = (r, Ok (Failure (req_id request) (-32600) "Invalid JSON-RPC version"))) /\
  (version_2 request -> method request ∉ methods -> handle now request r =
    (r, Ok (Failure (req_id request) (-32601) ("Method not found: " +:+ method request)))).
Proof.
  split; [|split].
  - intros resp. unfold handle_rpc. case_match; [by intros [= <-]|].
    destruct (dispatch _ _ _ r) as [r' [v|e| |]]; cbn; by intros [= <-].
  - intros Hv. unfold handle_rpc. by destruct (String.eqb_spec (jsonrpc request) "2.0").
  - intros Hv Hm. rewrite handle_2 by done.
    enough (E : forall params, dispatch now (method request) params r = (r, Err (MethodNotFound (method request))))
      by by rewrite E.
    intros ps. unfold Rpc.dispatch. apply (lookup_method_elim (fun f => f r = _)); [done|].
    intros f Hf. destruct Hm. change methods with (method_table table hex_error now ps).*1.
    apply list_elem_of_fmap. by exists (method request, f).
Qed.

(** ** [nexus_zkpVerify] *)
Context `{JLaws : !JsonLaws}.
Lemma get_key_None k v : is_object v = false -> get_key k v = None.
Proof.
  intros Hv. destruct (get_key k v) eqn:E; [|done].
  assert (is_object v = true) by (apply (get_key_object k); rewrite E; by eexists). congruence.
Qed.
Lemma normalize_no_object v : is_object (normalize v) = false.
Proof.
  unfold normalize. destruct (is_null v); [apply array_is_no_object|].
  destruct (is_object v) eqn:E; [apply array_is_no_object|done].
Qed.
(** C31: [nexus_zkpVerify] cannot be called.  The handler reads its parameters
    by name, but the server passes an object on as the one element of an
    array: whatever a request holds, valid proof or not, the answer is that
    the proof is missing.  Only the batch handler, which no route leads to,
    passes the object itself, and there a proof is verified. *)
Theorem zkp_verify_unreachable now request r : version_2 request -> method request = "nexus_zkpVerify" ->
  handle now request r = (r, Ok (Failure (req_id request) (-32602) "Invalid params: Missing proof")) /\
  (forall proof input vp vi pb ib, is_null (params request) = false ->
    get_key "proof" (params request) = Some vp -> as_str vp = Some proof ->
    get_key "input" (params request) = Some vi -> as_str vi = Some input ->
    hex_decode (bytes_of proof) = Some pb -> hex_decode (bytes_of input) = Some ib ->
    handle_batch_rpc table hex_error now [request] r =
      (r, Ok [Success (req_id request) (json_object [("verified", json_bool (zkp r pb ib))]%string)])).
Proof.
  intros Hv Hm. split.
  - rewrite handle_2, Hm by done.
    change (dispatch now "nexus_zkpVerify") with (zkp_verify hex_error).
    unfold zkp_verify, reads. by rewrite (get_key_None "proof") by apply normalize_no_object.
  - intros proof input vp vi pb ib Hn H1 H2 H3 H4 H5 H6. cbn [handle_batch_rpc]. unfold normalize_batch.
    rewrite Hn, Hm. change (dispatch now "nexus_zkpVerify") with (zkp_verify hex_error).
    unfold zkp_verify, reads. rewrite H1. cbn [mbind option_bind]. rewrite H2, H3. cbn [mbind option_bind].
    rewrite H4. cbn [ok_or mbind outcome_bind]. by rewrite H5, H6.
Qed.

(** ** [eth_call] *)
Lemma run_lift {S E A B} (o : outcome E A) a (f : A -> M S E B) s : o = Ok a -> mbind f (lift o) s = f a s.
Proof. by intros ->. Qed.
Lemma run_bind {S E A B} (m : M S E A) (f : A -> M S E B) s s' a : m s = (s', Ok a) -> mbind f m s = f a s'.
Proof. unfold mbind, M_bind. by intros ->. Qed.
(** The execution of a call that meets no contract *)
Lemma dry_run_transfer now a gas r v : balances_ok (rpc_state r) -> supply_ok (rpc_state r) ->
  ca_value a = v -> wf v -> to_Z v <= bal (rpc_state r) (ca_caller a) ->
  table !! ca_to a = None -> EvmState.get_code (rpc_state r) (ca_to a) = [] ->
  exists s, dry_run table now a gas r = (set_rpc_state s r, Ok ([], 0)) /\
    forall b, bal s b = bal (rpc_state r) b
      - (if decide (ca_caller a = b) then to_Z v else 0) + (if decide (ca_to a = b) then to_Z v else 0).
Proof.
  intros Hs Hsup <- Hv Hle Ht Hc. unfold dry_run.
  destruct (dry_run_moves_value (new_executor table (rpc_state r) (call_env now r)) (ca_caller a) (ca_to a)
    (ca_value a) (ca_data a) gas) as (x' & -> & Hb); [done..|].
  by eexists.
Qed.
(** C15: [eth_call] and [eth_estimateGas] spend other people's money.  Whoever
    the request names as the sender, with no signature, a simulated transfer
    within that account's balance, to an account without code that is no
    precompiled contract, is answered with success and the balances of
    the state that the node executes on have changed for good: the sender's
    has lost the value and the recipient's has gained it. *)
Theorem eth_call_moves_value now request r req from to v :
  version_2 request -> method request = "eth_call" \/ method request = "eth_estimateGas" ->
  call_request_of (default json_null (get_index 0 (normalize (params request)))) = Ok req ->
  cr_from req ≫= parse_address = Some from -> parse_address (cr_to req) = Some to ->
  cr_value req ≫= parse_u64 = Some v -> is_u64 v ->
  balances_ok (rpc_state r) -> supply_ok (rpc_state r) -> v <= bal (rpc_state r) from ->
  table !! to = None -> EvmState.get_code (rpc_state r) to = [] ->
  exists s, handle now request r = (set_rpc_state s r,
      Ok (Success (req_id request) (if String.eqb (method request) "eth_call"
        then json_str (format_bytes []) else json_str (format_u64 21000)))) /\
    forall b, bal s b = bal (rpc_state r) b
      - (if decide (from = b) then v else 0) + (if decide (to = b) then v else 0).
Proof.
  intros Hver Hm Hreq Hfrom Hto Hval Hv Hs Hsup Hle Ht Hc. rewrite handle_2 by done.
  destruct (cr_value req) as [text|] eqn:Etext; [|done]. cbn in Hval.
  assert (Ha : call_args (normalize (params request)) =
    Ok (req, mkArgs to from (U256.from_u64 v) (default [] (cr_data req ≫= parse_bytes)))).
  { unfold call_args. rewrite Hreq. cbn [map_err mbind outcome_bind]. rewrite Hto. cbn [ok_or mbind outcome_bind].
    by rewrite Hfrom, Etext; cbn [mbind option_bind]; rewrite Hval. }
  destruct (dry_run_transfer now (mkArgs to from (U256.from_u64 v) (default [] (cr_data req ≫= parse_bytes)))
    (if String.eqb (method request) "eth_call" then default 30000000 (cr_gas req ≫= parse_u64) else 30000000)
    r (U256.from_u64 v)) as (s & Hrun & Hb); [done|done|done|by apply wf_from_u64|by rewrite to_Z_from_u64|done|done|].
  exists s. split; [|intros b; rewrite Hb, to_Z_from_u64; done].
  destruct Hm as [Hm|Hm]; rewrite Hm in *; cbn [String.eqb Ascii.eqb Bool.eqb] in Hrun.
  - change (dispatch now "eth_call") with (call table now). unfold call.
    erewrite run_lift by exact Ha. cbv beta iota zeta. by erewrite run_bind by exact Hrun.
  - change (dispatch now "eth_estimateGas") with (estimate_gas table now). unfold estimate_gas.
    erewrite run_lift by exact Ha. cbv beta iota zeta. by erewrite run_bind by exact Hrun.
Qed.

(** ** Submitting *)
Lemma str_param_array {A} (s : string) i (parse : string -> option A) e l : l !! i = Some (json_str s) ->
  str_param (json_array l) i parse e = ok_or (InvalidParams e) (parse s).
Proof. intros Hl. unfold str_param. rewrite get_index_array, Hl. cbn [mbind option_bind]. by rewrite as_str_str. Qed.
(** What [eth_sendRawTransaction] acknowledges.  Bytes that decode to no
    transaction are answered with their hash, as a success, and nothing is
    kept.  Bytes that decode are either appended to the pool, or refused with
    -32003 when the pool is full or knows the transaction, and then the pool is
    as it was. *)
Theorem submission_exact raw r : HexLaws -> Forall is_byte raw ->
  send_raw_transaction (json_array [json_str (format_bytes raw)]) r =
  match (match from_rlp_bytes raw with Some tx => Some tx | None => transaction_of_json raw end) with
  | None => (r, Ok (json_str (format_hash (mkHash (keccak raw)))))
  | Some tx =>
      let m := rpc_mempool r in
      if decide (is_Some (by_hash m !! tx_hash tx)) then (r, Err (TransactionRejected "Mempool full or duplicate"))
      else if (max_size m <=? length (Mempool.pending m))%nat
      then (r, Err (TransactionRejected "Mempool full or duplicate"))
      else (set_rpc_mempool (mkMempool (Mempool.pending m ++ [tx]) (<[tx_hash tx := tx]> (by_hash m)) (max_size m)) r,
            Ok (json_str (format_hash (mkHash (keccak raw)))))
  end.
Proof.
  intros laws Hraw. unfold send_raw_transaction. rewrite (str_param_array (format_bytes raw)) by done.
  rewrite parse_bytes_format by done. cbn [ok_or].
  destruct (match from_rlp_bytes raw with Some tx => Some tx | None => _ end) as [tx|]; [|done].
  unfold Mempool.add, insert_pending. case_decide; [by destruct r|]. cbv zeta. destruct (_ <=? _)%nat; [by destruct r|done].
Qed.

(** ** Balances *)
(** A balance is reported modulo 2^64: an account that holds 2^64 wei
    (about 18.4 ether) or a multiple of it is shown as empty. *)
Theorem balance_shows_low_64_bits now a r id : HexLaws -> wf_addr a ->
  wf (EvmState.get_balance (rpc_state r) a) ->
  handle now (mkRequest "2.0" id "eth_getBalance" (json_array [json_str (format_address a)])) r =
  (r, Ok (Success id (json_str (format_u64 (bal (rpc_state r) a mod B64))))).
Proof.
  intros laws Ha Hb. rewrite handle_2 by done. cbn [method params req_id].
  change (dispatch now "eth_getBalance") with get_balance. unfold normalize.
  rewrite array_is_not_null, array_is_no_object. unfold get_balance, reads, address_param.
  rewrite (str_param_array (format_address a)) by done. rewrite parse_address_format by done.
  cbn [ok_or mbind outcome_bind response_of]. do 4 f_equal. unfold format_u256, format_u64, bal, U256.as_u64.
  do 3 f_equal. destruct (EvmState.get_balance (rpc_state r) a) as [x y z w], Hb as (? & ? & ? & ?).
  unfold is_u64, to_Z in *. cbn [u0 u1 u2 u3] in *. apply (Z.mod_unique _ _ (y + B64 * z + B128 * w)); lia.
Qed.

(** ** Blocks *)
Lemma values_at d k h : dag_inv d -> h ∈ get_vertices_at_height d k ->
  exists v, vertices d !! h = Some v /\ v_height v = k /\ v_hash v = h.
Proof.
  intros Hd Hh. unfold get_vertices_at_height in Hh. rewrite elem_of_members in Hh.
  apply (inv_by_height _ _ Hd) in Hh as (v & Hv & Hk). exists v. split; [done|]. split; [done|].
  by apply (inv_key _ _ Hd).
Qed.
(** A block asked for by number is the block asked for by its hash.  On a
    well-formed DAG [eth_getBlockByNumber] answers null exactly when no vertex
    has the height, and else a vertex of that height, which
    [eth_getBlockByHash] returns in the same words for its hash. *)
Theorem block_by_number_is_block_by_hash text r : HexLaws -> dag_inv (rpc_dag r) ->
  (forall h, stored (rpc_dag r) h -> is_bytes 32 (hash_bytes h)) ->
  let height := if String.eqb text "latest" then latest_height (rpc_dag r) else default 0 (parse_u64 text) in
  let answer := get_block_by_number (json_array [json_str text]) r in
  (answer = (r, Ok json_null) /\ forall h v, vertices (rpc_dag r) !! h = Some v -> v_height v <> height) \/
  exists v, vertices (rpc_dag r) !! v_hash v = Some v /\ v_height v = height /\
    answer = (r, Ok (block_json r height v)) /\
    get_block_by_hash (json_array [json_str (format_hash (v_hash v))]) r = answer.
Proof.
  intros laws Hd H32 height. cbv zeta. unfold get_block_by_number, reads.
  rewrite (str_param_array text) by done. cbn [ok_or mbind outcome_bind]. fold height.
  destruct (get_vertices_at_height (rpc_dag r) height) as [|h hs] eqn:Eh.
  - left. split; [done|]. intros h v Hv Hk.
    assert (Hin : h ∈ get_vertices_at_height (rpc_dag r) height).
    { unfold get_vertices_at_height. rewrite elem_of_members.
      apply (inv_by_height _ _ Hd). by exists v. }
    rewrite Eh in Hin. by apply elem_of_nil in Hin.
  - right. destruct (values_at (rpc_dag r) height h) as (v & Hv & Hk & <-); [done|rewrite Eh; left|].
    exists v. unfold get_vertex. rewrite Hv. cbn [ok_or mbind outcome_bind].
    do 3 (split; [done|]). unfold get_block_by_hash, reads, hash_param.
    rewrite (str_param_array (format_hash (v_hash v))) by done.
    rewrite parse_hash_format by (done || apply H32; by eexists). cbn [ok_or mbind outcome_bind].
    unfold get_vertex. rewrite Hv. cbn [ok_or mbind outcome_bind]. by rewrite Hk.
Qed.
End handlers.

Module Sample.
#[local] Existing Instance canonical_order.
#[local] Existing Instance GenesisProps.Sample.hex_lib.
#[local] Existing Instance GenesisProps.Sample.hex_crypto.
#[local] Existing Instance ExecutorProps.Sample.spender.
#[local] Instance no_rlp : RlpLib := fun _ => None.
#[local] Instance no_regex : RegexLib := fun _ _ => false.
Abbreviation hex_laws := GenesisProps.Sample.hex_laws.

Inductive json :=
  | JNull | JBool (b : bool) | JNum (n : Z) | JStr (s : string)
  | JArr (l : list json) | JObj (l : list (string * json)).
Fixpoint field (k : string) (l : list (string * json)) : option json :=
  match l with [] => None | (k', v) :: l => if String.eqb k k' then Some v else field k l end.
#[local] Instance json_lib : JsonLib := {|
  Value := json; json_null := JNull; json_bool := JBool; json_num := JNum; json_str := JStr;
  json_array := JArr; json_object := JObj;
  get_index i v := match v with JArr l => l !! i | _ => None end;
  get_key k v := match v with JObj l => field k l | _ => None end;
  as_str v := match v with JStr s => Some s | _ => None end;
  as_bool v := match v with JBool b => Some b | _ => None end;
  is_null v := match v with JNull => true | _ => false end;
  is_object v := match v with JObj _ => true | _ => false end |}.
#[local] Instance json_laws : JsonLaws.
Proof. split; try done. by intros k [] [? ?]. Qed.

(** Transactions are read from the empty document only; a call is read from
    its fields. *)
Definition text (k : string) (v : json) : option string := get_key k v ≫= as_str.
#[local] Instance parsers : RpcParsers := {|
  call_request_of v :=
    match text "to" v with
    | Some to => Ok (mkCallRequest (text "from" v) to (text "gas" v) None (text "value" v) (text "data" v))
    | None => Err "missing field to"
    end;
  context_of v := Err "missing field";
  transaction_of_json l := if l is [] then Some ExecutorProps.Sample.pay else None |}.

Definition genesis_dag : Dag := fst (init_genesis (empty_dag default_config) (genesis 1337 0)).
Definition node : Rpc :=
  new_rpc genesis_dag ExecutorProps.Sample.wealth (new_pos default_staking_config) (fun _ _ => true) 1337 (Mempool.new 10) 0.
Definition alice : Address := ExecutorProps.Sample.addr 1.
Definition bob : Address := ExecutorProps.Sample.addr 2.
Lemma sample_addr_wf n : is_byte n -> wf_addr (ExecutorProps.Sample.addr n).
Proof.
  intros Hn. split; [reflexivity|]. change (Forall is_byte (replicate 19 0 ++ [n])).
  apply Forall_app. split; [apply Forall_replicate; split; [lia|reflexivity]|].
  apply Forall_cons. by split; [|constructor].
Qed.
Definition request (m : string) (p : json) : JsonRpcRequest := mkRequest "2.0" (JNum 1) m p.

Lemma formats_roundtrip_witness : HexLaws /\ parse_u64 (format_u64 (B64 - 1)) = Some (B64 - 1) /\
  parse_u64 (format_u256 (mkU256 7 1 0 0)) = Some 7.
Proof.
  split; [exact hex_laws|]. destruct (formats_roundtrip hex_laws) as (H1 & _ & _ & _ & H2). split.
  - apply H1. split; [discriminate|reflexivity].
  - apply (H2 (mkU256 7 1 0 0)). repeat split; discriminate.
Defined.

Lemma queries_change_nothing_witness :
  (handle_rpc ∅ (fun _ => "") 0 (request "eth_syncing" JNull) node).1 = node /\
  (handle_rpc ∅ (fun _ => "") 0 (request "eth_mine" JNull) node).1 = node.
Proof.
  split; apply queries_change_nothing; cbn [method request effectful]; intros Hin;
    repeat (apply elem_of_cons in Hin as [[=]|Hin]); by apply elem_of_nil in Hin.
Defined.

Lemma zkp_verify_unreachable_witness :
  let proof := JObj [("proof", JStr "00"); ("input", JStr "01")]%string in
  handle_rpc ∅ (fun _ => "") 0 (request "nexus_zkpVerify" proof) node =
    (node, Ok (Failure (JNum 1) (-32602) "Invalid params: Missing proof")) /\
  handle_batch_rpc ∅ (fun _ => "") 0 [request "nexus_zkpVerify" proof] node =
    (node, Ok [Success (JNum 1) (JObj [("verified", JBool true)]%string)]).
Proof.
  intros proof.
  destruct (zkp_verify_unreachable ∅ (fun _ => "") 0 (request "nexus_zkpVerify" proof) node) as [H1 H2];
    [reflexivity..|].
  split; [exact H1|]. by apply (H2 "00" "01" (JStr "00") (JStr "01") [0] [1])%string.
Defined.

(** Anybody moves the 300 wei of the first account to the second one. *)
Definition theft : json := JObj
  [("from", JStr (format_address alice)); ("to", JStr (format_address bob)); ("value", JStr "0x12c")]%string.
Lemma eth_call_moves_value_witness : exists s,
  handle_rpc ∅ (fun _ => "") 0 (request "eth_call" theft) node =
    (set_rpc_state s node, Ok (Success (JNum 1) (JStr "0x"))) /\
  bal (rpc_state node) bob = 0 /\ bal s bob = 300 /\ bal s alice = 999700.
Proof.
  destruct ExecutorProps.Sample.wealth_balances as (Hok & Hsup & Hbal).
  destruct (eth_call_moves_value ∅ (fun _ => "") 0 (request "eth_call" theft) node
    (mkCallRequest (Some (format_address alice)) (format_address bob) None None (Some "0x12c"%string) None)
    alice bob 300) as (s & Hs & Hb).
  - reflexivity.
  - by left.
  - reflexivity.
  - cbn [cr_from mbind option_bind]. apply (parse_address_format hex_laws), sample_addr_wf. by vm_compute.
  - cbn [cr_to]. apply (parse_address_format hex_laws), sample_addr_wf. by vm_compute.
  - vm_compute. reflexivity.
  - split; [discriminate|reflexivity].
  - exact Hok.
  - exact Hsup.
  - change (rpc_state node) with ExecutorProps.Sample.wealth. rewrite Hbal. vm_compute. discriminate.
  - reflexivity.
  - vm_compute. reflexivity.
  - exists s. split; [etrans; [exact Hs|reflexivity]|].
    assert (Hst : rpc_state node = ExecutorProps.Sample.wealth) by reflexivity.
    rewrite !Hb, Hst, !Hbal. clear. split; [|split]; vm_compute; reflexivity.
Defined.

Lemma submission_exact_witness : HexLaws /\
  send_raw_transaction (json_array [json_str (format_bytes [])]) node =
    (set_rpc_mempool (mkMempool [ExecutorProps.Sample.pay]
       {[ tx_hash ExecutorProps.Sample.pay := ExecutorProps.Sample.pay ]} 10) node,
     Ok (json_str (format_hash (mkHash (keccak []))))) /\
  send_raw_transaction (json_array [json_str (format_bytes [9])]) node =
    (node, Ok (json_str (format_hash (mkHash (keccak [9]))))).
Proof.
  split; [exact hex_laws|]. split.
  - rewrite (submission_exact [] node hex_laws) by constructor. reflexivity.
  - rewrite (submission_exact [9] node hex_laws) by by repeat constructor. reflexivity.
Defined.

(** Bob has 2^64 + 5 wei. *)
Definition rich : Rpc :=
  set_rpc_state (set_balance empty_state bob (mkU256 5 1 0 0)) node.
Lemma balance_shows_low_64_bits_witness :
  handle_rpc ∅ (fun _ => "") 0
    (mkRequest "2.0" JNull "eth_getBalance" (json_array [json_str (format_address bob)])) rich =
  (rich, Ok (Success JNull (JStr "0x5"))).
Proof.
  rewrite (balance_shows_low_64_bits (JL := json_lib) ∅ (fun _ => "") 0 bob rich JNull hex_laws).
  - vm_compute. reflexivity.
  - apply sample_addr_wf. split; [discriminate|reflexivity].
  - vm_compute. repeat split; discriminate.
Defined.

Lemma block_by_number_is_block_by_hash_witness :
  dag_inv (rpc_dag node) /\
  exists v, vertices (rpc_dag node) !! v_hash v = Some v /\
    get_block_by_number (json_array [json_str "latest"]) node = (node, Ok (block_json node 0 v)).
Proof.
  assert (Hd : dag_inv (rpc_dag node)) by apply genesis_inv. split; [exact Hd|].
  destruct (block_by_number_is_block_by_hash "latest" node hex_laws Hd) as [[H _]|(v & Hv & Hk & H & _)].
  - intros h [v Hv]. change (vertices (rpc_dag node)) with
      ({[ v_hash (genesis 1337 0) := genesis 1337 0 ]} : gmap Hash Vertex) in Hv.
    apply lookup_singleton_Some in Hv as [<- _]. vm_compute. repeat split; try discriminate.
    repeat constructor; discriminate.
  - exfalso. vm_compute in H. discriminate.
  - exists v. split; [exact Hv|]. exact H.
Defined.
(** The sample hex functions read both cases. *)
Lemma hex_value_upper c : GenesisProps.Sample.hex_value (ascii_upper c) = GenesisProps.Sample.hex_value c.
Proof.
  unfold GenesisProps.Sample.hex_value, ascii_upper, is_ascii_lower.
  destruct (Z.leb_spec 97 c), (Z.leb_spec c 122); cbn [andb]; try done.
  destruct (Z.ltb_spec c 58), (Z.ltb_spec c 97), (Z.ltb_spec (c - 32) 58), (Z.ltb_spec (c - 32) 97); lia.
Qed.
Lemma hex_case : hex_ignores_case.
Proof.
  assert (Hup : forall l, hex_decode (ascii_upper <$> l) = hex_decode l).
  { fix IH 1. intros [|c [|d l]]; [done..|]. cbn [fmap list_fmap hex_decode GenesisProps.Sample.hex_lib
      GenesisProps.Sample.decode_text]. rewrite !hex_value_upper. specialize (IH l). cbn in IH. by rewrite IH. }
  intros l l' E. by rewrite <- (Hup l), <- (Hup l'), E.
Qed.
Definition mixed : Address := mkAddress (replicate 10 171 ++ replicate 10 205).
Lemma address_text_roundtrip_witness :
  address_from_hex (to_checksum_string mixed) = Ok mixed /\
  address_from_hex (bytes_of "0x" ++ (ascii_upper <$> bytes_of (hex_encode (addr_bytes mixed))))%list = Ok mixed.
Proof.
  destruct (address_text_roundtrip hex_laws mixed hex_case) as (H1 & _ & _ & H2).
  - split; [reflexivity|]. vm_compute. repeat constructor; discriminate.
  - split; [exact H1|]. apply H2. vm_compute. reflexivity.
Defined.
End Sample.
