(* ===== verification/Node.v ===== *)
(** * The node (crates/nexus-node: node.rs, config.rs, cli.rs, main.rs)

    [Node::new], [start] and [status], and the tasks that run once the node has
    started: the RPC server, the network's messages, the bridge from the
    mempool to the pool of the proposer, the proposer and the execution of
    proposed vertices.  Each is a function on one record that holds the shared
    parts; a run is a sequence of them in any order.  Then the files, the
    configuration, and the commands of the command line as computations on a
    disk whose operations may fail.  Keys made at random, clocks and the TOML
    parser are arguments. *)
From stdpp Require Import base numbers list gmap strings.
From Stdlib Require Import ZArith Lia.
From S2P Require Import Prelude Slices Text Iso8583 IsoValidators Iso20022 MessageRouter.
From S2P Require Import Types Crypto Transaction Vertex EvmState Gas Receipt Executor Dag ZkField Circuits Groth16.
From S2P Require Peer Sync Mempool Genesis.
From S2P Require Import Validator Bft Pos Proposer Rpc.
#[local] Open Scope Z_scope.

(** ** config.rs *)
Record NetworkConfig := mkNetwork {
  listen_addr : string;
  bootstrap_nodes : list string;
  cfg_max_peers : nat;
  discovery : bool
}.
Definition default_network : NetworkConfig := mkNetwork "/ip4/0.0.0.0/tcp/9000" [] 50 true.
Record RpcConfig := mkRpcConfig {
  http_enabled : bool;
  http_addr : string;
  ws_enabled : bool;
  ws_addr : string;
  cors : bool;
  max_connections : nat
}.
Definition default_rpc_config : RpcConfig := mkRpcConfig true "127.0.0.1:8545" true "127.0.0.1:8546" true 100.
Record ConsensusConfig := mkConsensus {
  validator : bool;
  validator_key : option string;
  vertex_interval_ms : Z;
  max_txs : nat;
  epoch_duration : Z
}.
Definition default_consensus : ConsensusConfig := mkConsensus false None 500 1000 86400.
Inductive DatabaseType := Memory | RocksDb.
Record StorageConfig := mkStorage {
  db_type : DatabaseType;
  cache_size_mb : nat;
  pruning : bool;
  pruning_depth : Z
}.
Definition default_storage : StorageConfig := mkStorage Memory 256 false 30.
Record LoggingConfig := mkLogging { level : string; format : string; file : option string }.
Definition default_logging : LoggingConfig := mkLogging "info" "text" None.
Record NodeConfig := mkConfig {
  cfg_name : string;
  data_dir : string;
  cfg_chain_id : Z;
  network : NetworkConfig;
  rpc : RpcConfig;
  consensus : ConsensusConfig;
  storage : StorageConfig;
  logging : LoggingConfig
}.
(** [project_dir] is what the directories crate finds. *)
Definition default_node_config (project_dir : option string) : NodeConfig :=
  mkConfig "nexus-node" (default ".nexus"%string project_dir) 1337 default_network default_rpc_config
    default_consensus default_storage default_logging.

Inductive NodeError :=
  | Config (m : string)
  | IoError (m : string)
  | NetworkError (m : string)
  | ConsensusError (m : string)
  | StorageError (m : string).

(** [Display] of [GenesisError] (genesis.rs) *)
Definition genesis_error_display (e : Genesis.GenesisError) : string :=
  match e with
  | Genesis.Io m => "IO error: " +:+ string_of m
  | Genesis.Parse m => "Parse error: " +:+ string_of m
  | Genesis.BadAddress m => "Invalid address: " +:+ string_of m
  | Genesis.BadCode m => "Invalid code for " +:+ string_of m
  | Genesis.BadPubkey m => "Invalid pubkey for " +:+ string_of m
  | Genesis.PoS m => "PoS error: " +:+ string_of m
  end.

(** ** The node and its tasks *)

(** [nd_served] is the peer counter that the RPC server was given, [nd_task]
    the proposer while its loop runs, with the pool, the DAG and the stakes it
    shares with the node, and [nd_queue] the channel to the execution task
    (bounded by 64: a full one makes the proposer wait).  [nd_bridge]
    and [nd_exec] tell whether the bridge and the execution task are running. *)
Record Node := mkNode {
  nd_config : NodeConfig;
  nd_dag : Dag;
  nd_state : StateDb;
  nd_pos : ProofOfStake;
  nd_pool : TransactionPool;
  nd_mempool : Mempool.Mempool;
  nd_peers : Peer.PeerManager;
  nd_keys : option ValidatorKeys;
  nd_served : option Z;
  nd_bft : option BftConsensus;
  nd_task : option (ProposerConfig * Z);
  nd_queue : list ProposedVertex;
  nd_bridge : bool;
  nd_exec : bool
}.
Definition set_nd_state s n := mkNode (nd_config n) (nd_dag n) s (nd_pos n) (nd_pool n) (nd_mempool n)
  (nd_peers n) (nd_keys n) (nd_served n) (nd_bft n) (nd_task n) (nd_queue n) (nd_bridge n) (nd_exec n).
Definition set_nd_pos p n := mkNode (nd_config n) (nd_dag n) (nd_state n) p (nd_pool n) (nd_mempool n)
  (nd_peers n) (nd_keys n) (nd_served n) (nd_bft n) (nd_task n) (nd_queue n) (nd_bridge n) (nd_exec n).
Definition set_nd_pool p n := mkNode (nd_config n) (nd_dag n) (nd_state n) (nd_pos n) p (nd_mempool n)
  (nd_peers n) (nd_keys n) (nd_served n) (nd_bft n) (nd_task n) (nd_queue n) (nd_bridge n) (nd_exec n).
Definition set_nd_mempool m n := mkNode (nd_config n) (nd_dag n) (nd_state n) (nd_pos n) (nd_pool n) m
  (nd_peers n) (nd_keys n) (nd_served n) (nd_bft n) (nd_task n) (nd_queue n) (nd_bridge n) (nd_exec n).
Definition set_nd_peers p n := mkNode (nd_config n) (nd_dag n) (nd_state n) (nd_pos n) (nd_pool n) (nd_mempool n)
  p (nd_keys n) (nd_served n) (nd_bft n) (nd_task n) (nd_queue n) (nd_bridge n) (nd_exec n).
Definition set_nd_served s n := mkNode (nd_config n) (nd_dag n) (nd_state n) (nd_pos n) (nd_pool n) (nd_mempool n)
  (nd_peers n) (nd_keys n) s (nd_bft n) (nd_task n) (nd_queue n) (nd_bridge n) (nd_exec n).
Definition set_nd_task t n := mkNode (nd_config n) (nd_dag n) (nd_state n) (nd_pos n) (nd_pool n) (nd_mempool n)
  (nd_peers n) (nd_keys n) (nd_served n) (nd_bft n) t (nd_queue n) (nd_bridge n) (nd_exec n).
Definition set_nd_exec e n := mkNode (nd_config n) (nd_dag n) (nd_state n) (nd_pos n) (nd_pool n) (nd_mempool n)
  (nd_peers n) (nd_keys n) (nd_served n) (nd_bft n) (nd_task n) (nd_queue n) (nd_bridge n) e.
Definition set_nd_queue q n := mkNode (nd_config n) (nd_dag n) (nd_state n) (nd_pos n) (nd_pool n) (nd_mempool n)
  (nd_peers n) (nd_keys n) (nd_served n) (nd_bft n) (nd_task n) q (nd_bridge n) (nd_exec n).

Section node.
Context `{HO : HashOrder} `{CL : CryptoLib} `{RV : RevmLib} `{RL : RlpLib} `{RX : RegexLib}
  `{HX : HexLib} `{JL : JsonLib} `{RP : @RpcParsers JL}
  `{FL : FieldLib} {R1 : @R1csLib FL} {G16 : @Groth16Lib FL R1}.
(** The precompiled contracts of [Executor::new], and the texts of errors of
    other crates and of derived [Debug] *)
Context (table : gmap Address PrecompileFn) (hex_error : string -> string)
  (error_debug : NexusError -> string) (consensus_debug : Validator.ConsensusError -> string).

(** [Node::new]: [key_file] is what reading the configured file gives,
    [generated] the key made at random. *)
Definition node_new (config : NodeConfig) (key_file : string -> outcome string (list Z))
    (generated : ValidatorKeys) : outcome NodeError Node :=
  validator_keys ←
    (if validator (consensus config) then
       match validator_key (consensus config) with
       | Some key_path =>
           key_bytes ← map_err (fun e => Config ("Failed to read validator key: " +:+ e)) (key_file key_path);
           keys ← map_err (fun e => Config ("Invalid validator key: " +:+ consensus_debug e)) (keys_from_bytes key_bytes);
           Ok (Some keys)
       | None => Ok (Some generated)
       end
     else Ok None);
  Ok (mkNode config (empty_dag default_config) empty_state (new_pos default_staking_config)
    default_tx_pool (Mempool.new (Z.to_nat 10000)) (Peer.new (cfg_max_peers (network config))) validator_keys
    None None None [] false false).

(** [generate_key] of main.rs: what it writes to the key file *)
Definition generate_key (generated : ValidatorKeys) : list Z := public_key generated.

(** [start_rpc]: the counter is made here, from the peers of the moment. *)
Definition start_rpc (n : Node) : Node :=
  set_nd_served (Some (Z.of_nat (Peer.connected_count (nd_peers n)))) n.

Definition start_validator (instant : Z) : M Node NodeError () := fun n =>
  match nd_keys n with
  | None => (n, Err (Config "Validator keys not loaded"))
  | Some keys =>
      let '(pos, registered) :=
        register_validator (nd_pos n) (key_address keys) (public_key keys) 100000000000 500 in
      let n := set_nd_pos pos n in
      match map_err (fun e => ConsensusError (consensus_debug e)) registered with
      | Ok _ =>
          let bft := new_bft keys (pos_validators pos) in
          let config := {|
            max_txs_per_vertex := max_txs (consensus (nd_config n));
            max_vertex_size := max_vertex_size default_proposer_config;
            target_interval := vertex_interval_ms (consensus (nd_config n));
            cfg_max_parents := cfg_max_parents default_proposer_config;
            cfg_min_parents := cfg_min_parents default_proposer_config |} in
          (mkNode (nd_config n) (nd_dag n) (nd_state n) (nd_pos n) (nd_pool n) (nd_mempool n) (nd_peers n)
             (nd_keys n) (nd_served n) (Some bft) (Some (config, instant)) [] true true, Ok ())
      | Err e => (n, Err e)
      | Panic => (n, Panic)
      | Blocked => (n, Blocked)
      end
  end.

Definition load_state (parse : Genesis.str -> outcome Genesis.str Genesis.GenesisConfig)
    (genesis : option (outcome Genesis.str Genesis.str)) : M Node NodeError () := fun n =>
  match genesis with
  | Some raw =>
      let '(st, loaded) := Genesis.load_genesis (fun e => bytes_of (consensus_debug e)) parse raw
        (nd_state n, nd_pos n) in
      let n := set_nd_pos st.2 (set_nd_state st.1 n) in
      (n, _ ← map_err (fun e => Config ("Genesis error: " +:+ genesis_error_display e)) loaded; Ok ())
  | None => (n, Ok ())
  end.
(** [start]: [dir] is the result of creating the data directory, [genesis]
    that of reading the genesis file if it is there. *)
Definition start (parse : Genesis.str -> outcome Genesis.str Genesis.GenesisConfig)
    (dir : outcome string ()) (genesis : option (outcome Genesis.str Genesis.str)) (instant : Z)
    : M Node NodeError () :=
  _ ← lift (map_err IoError dir);
  _ ← load_state parse genesis;
  _ ← modify (fun n => if http_enabled (rpc (nd_config n)) then start_rpc n else n);
  n ← get_state;
  if validator (consensus (nd_config n)) then start_validator instant else mret ().

(** ** The tasks *)

(** The handlers share the node's parts; their verifier has no keys. *)
Definition rpc_of (n : Node) (peer_count : Z) : Rpc :=
  new_rpc (nd_dag n) (nd_state n) (nd_pos n)
    (fun proof input => match default_verify default_verifier proof input 0 with Ok b => b | _ => false end)
    (cfg_chain_id (nd_config n)) (nd_mempool n) peer_count.
Definition rpc_request (now : Z) (request : JsonRpcRequest) (n : Node)
    : Node * option (outcome () JsonRpcResponse) :=
  match nd_served n with
  | None => (n, None)
  | Some peer_count =>
      let '(r, response) := handle_rpc table hex_error now request (rpc_of n peer_count) in
      (set_nd_mempool (rpc_mempool r) (set_nd_state (rpc_state r) n), Some response)
  end.

(** A message of the network: only transactions are kept. *)
Definition network_message (m : Sync.NetworkMessage) (n : Node) : Node :=
  match m with
  | Sync.NewTransaction tx => set_nd_mempool (Mempool.add tx (nd_mempool n)).1 n
  | _ => n
  end.

(** The bridge: what [add] returns is ignored. *)
Definition bridge_tick (n : Node) : Node :=
  if nd_bridge n then
    let '(m, txs) := Mempool.drain_batch 256 (nd_mempool n) in
    set_nd_pool (foldl (fun p tx => (pool_add p tx).1) (nd_pool n) txs) (set_nd_mempool m n)
  else n.

(** One iteration of the proposer's loop that takes the timer's branch.  A
    panic ends the task and a wait for a lock it holds stops it for good. *)
Definition proposer_of (keys : ValidatorKeys) (bft : BftConsensus) (task : ProposerConfig * Z) (n : Node) : Proposer :=
  mkProposer task.1 (key_address keys) (nd_pool n) (nd_dag n) bft (nd_pos n) task.2 (Some (nd_queue n)).
Definition proposer_tick (now instant : Z) (n : Node) : option Node :=
  match nd_keys n, nd_bft n, nd_task n with
  | Some keys, Some bft, Some task =>
      r ← tick error_debug now instant (proposer_of keys bft task n);
      let '(p, done) := r in
      Some (mkNode (nd_config n) (pr_dag p) (nd_state n) (pr_pos p) (tx_pool p) (nd_mempool n) (nd_peers n)
        (nd_keys n) (nd_served n) (Some (pr_bft p))
        (match done with Ok _ => Some (pr_config p, last_proposal p) | _ => None end)
        (default [] (vertex_tx p)) (nd_bridge n) (nd_exec n))
  | _, _, _ => Some n
  end.
(** The other branch: the sender of [prop_shutdown_rx] is dropped when
    [start_validator] returns, so [recv] is ready from then on and the loop
    leaves when [select!] takes this branch. *)
Definition proposer_shutdown (n : Node) : Node := set_nd_task None n.

(** The execution task receives a vertex: an error is only logged, a panic
    ends the task. *)
Definition execution_env (coinbase : Address) (vertex : Vertex) (n : Node) : EvmEnv := {|
  env_chain_id := cfg_chain_id (nd_config n); env_number := v_height vertex;
  env_timestamp := v_timestamp vertex; env_coinbase := coinbase;
  env_gas_limit := env_gas_limit default_env; env_base_fee := env_base_fee default_env;
  env_prev_hash := env_prev_hash default_env; env_difficulty := env_difficulty default_env;
  env_prevrandao := env_prevrandao default_env |}.
Fixpoint execute_all (txs : list Transaction) (x : Executor) : Executor * bool :=
  match txs with
  | [] => (x, true)
  | tx :: txs =>
      match execute_tx tx x with
      | (x, Ok _) | (x, Err _) => execute_all txs x
      | (x, _) => (x, false)
      end
  end.
Definition execution_tick (n : Node) : Node :=
  match nd_exec n, nd_keys n, nd_queue n with
  | true, Some keys, proposed :: queue =>
      let executor := new_executor table (nd_state n)
        (execution_env (key_address keys) (pv_vertex proposed) n) in
      let '(executor, alive) := execute_all (pv_transactions proposed) executor in
      set_nd_exec alive (set_nd_queue queue (set_nd_state (ex_state executor) n))
  | _, _, _ => n
  end.

(** ** [status] *)
Record NodeStatus := {
  st_name : string;
  st_chain_id : Z;
  st_is_validator : bool;
  st_validator_address : option string;
  dag_height : Z;
  st_total_vertices : Z;
  total_transactions : Z;
  st_tips_count : Z;
  peers_count : Z;
  st_epoch : Z;
  synced : bool
}.
Definition node_status (n : Node) : NodeStatus :=
  let dag_stats := stats (nd_dag n) in
  let connected := Peer.connected_count (nd_peers n) in {|
  st_name := cfg_name (nd_config n);
  st_chain_id := cfg_chain_id (nd_config n);
  st_is_validator := validator (consensus (nd_config n));
  st_validator_address := (fun k => address_debug (key_address k)) <$> nd_keys n;
  dag_height := latest_height (nd_dag n);
  st_total_vertices := Z.of_nat (total_vertices dag_stats);
  total_transactions := 0;
  st_tips_count := Z.of_nat (tips_count dag_stats);
  peers_count := Z.of_nat connected;
  st_epoch := current_epoch (nd_pos n);
  synced := (connected =? 0)%nat || (0 <? total_vertices dag_stats)%nat |}.

(** ** Runs *)
Inductive Event :=
  | ERpc (now : Z) (request : JsonRpcRequest)
  | ENetwork (m : Sync.NetworkMessage)
  | EPeers (peers : Peer.PeerManager)
  | EBridge
  | EProposer (now instant : Z)
  | EShutdown
  | EExecution.
Definition node_step (e : Event) (n : Node) : option Node :=
  match e with
  | ERpc now request => Some (rpc_request now request n).1
  | ENetwork m => Some (network_message m n)
  | EPeers peers => Some (set_nd_peers peers n)
  | EBridge => Some (bridge_tick n)
  | EProposer now instant => proposer_tick now instant n
  | EShutdown => Some (proposer_shutdown n)
  | EExecution => Some (execution_tick n)
  end.
Fixpoint node_run (es : list Event) (n : Node) : option Node :=
  match es with
  | [] => Some n
  | e :: es => n ← node_step e n; node_run es n
  end.

(** ** Files (std::fs)

    [fault] tells which operations the system refuses, with the text of the
    error: it refuses at least to read what is not there. *)
Inductive IoOp := OpRead (path : string) | OpWrite (path : string) | OpCreateDir (path : string).
Record Disk := mkDisk { disk_files : gmap string (list Z); disk_dirs : gset string }.
Context (fault : IoOp -> option string).
Definition attempt (op : IoOp) : M Disk string () :=
  lift (match fault op with Some e => Err e | None => Ok () end).
Definition fs_read (path : string) : M Disk string (list Z) :=
  _ ← attempt (OpRead path);
  disk ← get_state;
  lift (ok_or "No such file or directory (os error 2)"%string (disk_files disk !! path)).
Definition fs_read_to_string (path : string) : M Disk string (list Z) :=
  bytes ← fs_read path;
  lift (ok_or "stream did not contain valid UTF-8"%string (from_utf8 bytes)).
Definition fs_write (path : string) (bytes : list Z) : M Disk string () :=
  _ ← attempt (OpWrite path);
  modify (fun disk => mkDisk (<[path := bytes]> (disk_files disk)) (disk_dirs disk)).
Definition fs_create_dir_all (path : string) : M Disk string () :=
  _ ← attempt (OpCreateDir path);
  modify (fun disk => mkDisk (disk_files disk) ({[path]} ∪ disk_dirs disk)).
(** The destination is truncated before it is written, which leaves nothing to
    copy when it is the source. *)
Definition fs_copy (from to : string) : M Disk string () :=
  bytes ← fs_read from;
  fs_write to (if bool_decide (from = to) then [] else bytes).
Definition join (dir name : string) : string := dir +:+ "/" +:+ name.
(** [map_err] on a computation *)
Definition on_err {S E F A} (f : E -> F) (m : M S E A) : M S F A := fun s =>
  let '(s, r) := m s in (s, map_err f r).

(** [NodeConfig::load], [save] and [validate]; the toml crate is a pair of
    arguments. *)
Inductive ConfigError := CfgIo (m : string) | CfgParse (m : string) | CfgInvalid (m : string).
Definition config_error_display (e : ConfigError) : string :=
  match e with
  | CfgIo m => "IO error: " +:+ m
  | CfgParse m => "Parse error: " +:+ m
  | CfgInvalid m => "Invalid configuration: " +:+ m
  end.
Context (toml_from : list Z -> outcome string NodeConfig) (toml_to : NodeConfig -> outcome string (list Z)).
Definition config_load (path : string) : M Disk ConfigError NodeConfig :=
  content ← on_err CfgIo (fs_read_to_string path);
  lift (map_err CfgParse (toml_from content)).
Definition config_save (config : NodeConfig) (path : string) : M Disk ConfigError () :=
  content ← lift (map_err CfgParse (toml_to config));
  on_err CfgIo (fs_write path content).
Definition config_validate (config : NodeConfig) : outcome ConfigError () := Ok ().

Definition node_error_display (e : NodeError) : string :=
  match e with
  | Config m => "Configuration error: " +:+ m
  | IoError m => "IO error: " +:+ m
  | NetworkError m => "Network error: " +:+ m
  | ConsensusError m => "Consensus error: " +:+ m
  | StorageError m => "Storage error: " +:+ m
  end.

(** ** The command line (cli.rs, main.rs); clap's parsing is left out. *)
Record RunArgs := mkRun {
  run_validator : bool;
  run_validator_key : option string;
  run_rpc_addr : string;
  run_p2p_addr : string;
  run_bootstrap : list string;
  run_chain_id : Z
}.
Inductive Commands :=
  | Run (args : RunArgs)
  | GenerateKey (output : string)
  | Init (dir : string) (chain_id : Z)
  | Status (rpc : string)
  | ImportGenesis (genesis : string)
  | Export (output format : string)
  | Benchmark (bench_type : string) (iterations : nat).
Record Cli := mkCli {
  cli_config : option string; cli_data_dir : option string; log_level : string; command : option Commands }.

(** What the system answers: the directory of the project, the parser of
    socket addresses, keys made at random, the clocks, the JSON parser and
    printer of the genesis document, and the exchange of [status]. *)
Context (project_dir : option string) (socket_addr : string -> outcome string string)
  (generated : ValidatorKeys) (now_secs instant : Z) (now_ms : nat -> Z)
  (parse : Genesis.str -> outcome Genesis.str Genesis.GenesisConfig)
  (print : Genesis.GenesisConfig -> outcome Genesis.str Genesis.str)
  (show_status : string -> outcome string ()).

(** [run_node] up to [validate]: the file or the defaults, then the
    arguments *)
Definition override_config (http_addr : string) (dir : option string) (args : RunArgs) (config : NodeConfig) : NodeConfig :=
  mkConfig (cfg_name config) (default (data_dir config) dir) (run_chain_id args)
    (mkNetwork (run_p2p_addr args) (run_bootstrap args) (cfg_max_peers (network config)) (discovery (network config)))
    (mkRpcConfig (http_enabled (rpc config)) http_addr (ws_enabled (rpc config)) (ws_addr (rpc config))
       (cors (rpc config)) (max_connections (rpc config)))
    (mkConsensus (run_validator args) (run_validator_key args) (vertex_interval_ms (consensus config))
       (max_txs (consensus config)) (epoch_duration (consensus config)))
    (storage config) (logging config).
Definition run_config (config_path dir : option string) (args : RunArgs) : M Disk string NodeConfig :=
  config ← match config_path with
           | Some path => on_err config_error_display (config_load path)
           | None => mret (default_node_config project_dir)
           end;
  http_addr ← lift (socket_addr (run_rpc_addr args));
  let config := override_config http_addr dir args config in
  _ ← lift (map_err config_error_display (config_validate config));
  mret config.
(** [start] on the disk: a genesis file is read when it is there. *)
Definition genesis_path (dir : string) : string := join dir "genesis.json".
Definition read_genesis (dir : string) : M Disk string (option (outcome Genesis.str Genesis.str)) := fun disk =>
  (disk, Ok (match disk_files disk !! genesis_path dir with
             | Some _ => Some (map_err bytes_of (fs_read_to_string (genesis_path dir) disk).2)
             | None => None
             end)).
Definition start_on_disk (n : Node) : M Disk string Node := fun disk =>
  let dir := data_dir (nd_config n) in
  let '(disk, created) := fs_create_dir_all dir disk in
  let genesis := match (read_genesis dir disk).2 with Ok g => g | _ => None end in
  let '(n, r) := start parse created genesis instant n in
  (disk, _ ← map_err node_error_display r; Ok n).
Definition run_node (config_path dir : option string) (args : RunArgs) : M Disk string Node :=
  config ← run_config config_path dir args;
  disk ← get_state;
  n ← lift (map_err node_error_display (node_new config (fun path => (fs_read path disk).2) generated));
  start_on_disk n.

Definition init_data_dir (dir : string) (chain_id : Z) : M Disk string () :=
  _ ← fs_create_dir_all dir;
  _ ← fs_create_dir_all (join dir "db");
  _ ← fs_create_dir_all (join dir "keys");
  let d := default_node_config project_dir in
  let config := mkConfig (cfg_name d) dir chain_id (network d) (rpc d) (consensus d) (storage d) (logging d) in
  on_err config_error_display (config_save config (join dir "config.toml")).
(** The state and the stakes that the file is loaded into are dropped. *)
Definition import_genesis (genesis : string) : M Disk string () :=
  disk ← get_state;
  let raw := map_err bytes_of (fs_read_to_string genesis disk).2 in
  _ ← lift (map_err genesis_error_display
        (Genesis.load_genesis (fun e => bytes_of (consensus_debug e)) parse raw
           (empty_state, new_pos default_staking_config)).2);
  let dir := data_dir (default_node_config project_dir) in
  _ ← fs_create_dir_all dir;
  fs_copy genesis (genesis_path dir).
(** The format is not looked at. *)
Definition export_data (output format : string) : M Disk string () :=
  config ← lift (map_err (fun _ => ""%string)
    (Genesis.export_genesis empty_state (new_pos default_staking_config) now_secs 1337 (bytes_of "NexusChain")));
  json ← lift (map_err (fun e => genesis_error_display (Genesis.Parse e)) (print config));
  on_err (fun e => genesis_error_display (Genesis.Io (bytes_of e))) (fs_write output json).

(** [export_genesis_to_file] of a node does look at its state. *)
Definition export_genesis_to_file (n : Node) (path : string) : M Disk NodeError () :=
  config ← lift (map_err (fun _ => IoError "")
    (Genesis.export_genesis (nd_state n) (nd_pos n) now_secs (cfg_chain_id (nd_config n))
       (bytes_of (cfg_name (nd_config n)))));
  json ← lift (map_err (fun e => IoError (genesis_error_display (Genesis.Parse e))) (print config));
  on_err (fun e => IoError (genesis_error_display (Genesis.Io (bytes_of e)))) (fs_write path json).

(** The benchmark of the DAG: the outcome of each insertion is dropped. *)
Fixpoint dag_benchmark (iterations : list nat) (d : Dag) : option Dag :=
  match iterations with
  | [] => Some d
  | i :: iterations =>
      let parents := take 4 (get_tips d) in
      let vertex := Vertex.new (now_ms i) (mkAddress (replicate 20 1)) parents
        [mkHash (replicate 32 (Z.of_nat i mod 256))] 0 (Z.of_nat i) in
      r ← add_vertex (now_ms i) d vertex;
      dag_benchmark iterations r.1
  end.
Definition run_benchmarks (bench_type : string) (iterations : nat) : option Dag :=
  if bool_decide (bench_type = "dag"%string) || bool_decide (bench_type = "all"%string)
  then dag_benchmark (seq 0 iterations) (empty_dag default_config)
  else Some (empty_dag default_config).

(** The level of the log: only [main] uses it. *)
Inductive Level := TRACE | DEBUG | INFO | WARN | ERROR.
Definition max_level (level : string) : Level :=
  if bool_decide (level = "trace"%string) then TRACE
  else if bool_decide (level = "debug"%string) then DEBUG
  else if bool_decide (level = "info"%string) then INFO
  else if bool_decide (level = "warn"%string) then WARN
  else if bool_decide (level = "error"%string) then ERROR
  else INFO.

Definition default_run : RunArgs := mkRun false None "127.0.0.1:8545" "/ip4/0.0.0.0/tcp/9000" [] 1337.
Inductive Finished := Running (n : Node) | Done.
Definition main (cli : Cli) : M Disk string Finished :=
  match default (Run default_run) (command cli) with
  | Run args => n ← run_node (cli_config cli) (cli_data_dir cli) args; mret (Running n)
  | GenerateKey output => _ ← fs_write output (generate_key generated); mret Done
  | Init dir chain_id => _ ← init_data_dir dir chain_id; mret Done
  | Status rpc => _ ← lift (show_status rpc); mret Done
  | ImportGenesis genesis => _ ← import_genesis genesis; mret Done
  | Export output format => _ ← export_data output format; mret Done
  | Benchmark bench_type iterations => _ ← lift (unwrap (run_benchmarks bench_type iterations)); mret Done
  end.
End node.
