(* ===== verification/NodeProps.v ===== *)
(** * Theorems about the node

    What a node does from the moment it has started, whatever requests,
    messages and ticks follow; and what the commands of the command line leave
    for it. *)
From stdpp Require Import base numbers list gmap strings.
From Stdlib Require Import ZArith Lia.
From S2P Require Import Prelude Slices Text Iso8583 IsoValidators Iso20022 MessageRouter.
From S2P Require Import Types Crypto Transaction Vertex EvmState Gas Receipt Executor Dag ZkField Circuits Groth16.
From S2P Require Peer Sync Mempool MempoolProps Genesis.
From S2P Require ExecutorProps GenesisProps CircuitsProps Groth16Props.
From S2P Require Import Validator Bft Pos Proposer ProposerProps Rpc RpcProps Node.
#[local] Open Scope Z_scope.

Section node.
Context `{HO : HashOrder} `{CL : CryptoLib} `{RV : RevmLib} `{RL : RlpLib} `{RX : RegexLib}
  `{HX : HexLib} `{JL : JsonLib} `{RP : @RpcParsers JL}
  `{FL : FieldLib} {R1 : @R1csLib FL} {G16 : @Groth16Lib FL R1}.
Context (table : gmap Address PrecompileFn) (hex_error : string -> string)
  (error_debug : NexusError -> string) (consensus_debug : Validator.ConsensusError -> string).
Abbreviation step := (node_step table hex_error error_debug).
Abbreviation run := (node_run table hex_error error_debug).
Abbreviation request_step now request n := ((rpc_request table hex_error now request n).1).

(** ** Starting *)

(** [n1] is what [Node::new] and [start] leave, whether or not [start] succeeds. *)
Definition launched (config : NodeConfig) (n1 : Node) : Prop :=
  exists key_file generated n0 parse dir genesis instant,
    node_new consensus_debug config key_file generated = Ok n0 /\
    (start consensus_debug parse dir genesis instant n0).1 = n1.

(** The parts that no event of a started node changes *)
Record idle (n : Node) : Prop := {
  idle_dag : nd_dag n = empty_dag default_config;
  idle_queue : nd_queue n = [];
  idle_task : forall task, nd_task n = Some task -> (1 <= cfg_min_parents task.1)%nat;
  idle_keys : validator (consensus (nd_config n)) = false -> nd_bridge n = false;
  idle_served : forall k, nd_served n = Some k -> k = 0;
  idle_mempool : Mempool.max_size (nd_mempool n) = Z.to_nat 10000
}.

Lemma node_new_idle config key_file generated n : node_new consensus_debug config key_file generated = Ok n ->
  idle n /\ nd_config n = config /\ Mempool.pending (nd_mempool n) = [] /\ Peer.peers (nd_peers n) = ∅.
Proof.
  unfold node_new. destruct (if validator (consensus config) then _ else _) as [keys|e| |]; [|done..].
  intros [= <-]. cbn. split; [|done]. by split.
Qed.

Lemma no_connections m : Peer.peers m = ∅ -> Peer.connected_count m = 0%nat.
Proof.
  intros Hp. unfold Peer.connected_count, Peer.connected_peers. rewrite Hp.
  destruct (filter _ _) as [|p l] eqn:E; [done|].
  assert (Hin : p ∈ p :: l) by left. rewrite <- E in Hin.
  apply list_elem_of_filter in Hin as [_ (k & Hk)%elem_of_values]. by rewrite lookup_empty in Hk.
Qed.
(** A stage of [start] that keeps a property lets the rest keep it. *)
Lemma bind_keeps {S E A B} (P : S -> Prop) (m : M S E A) (f : A -> M S E B) s :
  (forall s, P s -> P (m s).1) -> (forall a s, P s -> P (f a s).1) -> P s -> P (mbind f m s).1.
Proof.
  intros Hm Hf Hs. unfold mbind, M_bind. specialize (Hm s Hs).
  destruct (m s) as [s' [a|e| |]]; [by apply Hf|done..].
Qed.
Definition starting (n n' : Node) : Prop :=
  idle n' /\ nd_config n' = nd_config n /\ nd_mempool n' = nd_mempool n /\ Peer.peers (nd_peers n') = ∅.
Lemma load_state_starting parse genesis n n' : starting n n' ->
  starting n (load_state consensus_debug parse genesis n').1.
Proof.
  intros ([] & ? & ? & ?). unfold load_state. destruct genesis as [raw|]; [|by repeat split].
  destruct (Genesis.load_genesis _ _ _ _) as [[st pos] r]. by repeat split.
Qed.
Lemma start_rpc_starting n n' : starting n n' -> starting n (start_rpc n').
Proof.
  intros ([] & ? & ? & Hp). split; [|done]. split; try done. intros k [= <-].
  by rewrite no_connections.
Qed.
Lemma start_validator_starting instant n n' : validator (consensus (nd_config n)) = true ->
  starting n n' -> starting n (start_validator consensus_debug instant n').1.
Proof.
  intros Hv ([] & Hc & Hm & Hp). unfold start_validator. destruct (nd_keys n') as [keys|]; [|by repeat split].
  destruct (register_validator _ _ _ _ _) as [pos [[]|e| |]]; (split; [|done]); split; cbn;
    try done; [intros task [= <-]; cbn; lia|rewrite Hc; congruence].
Qed.
Lemma start_starting parse dir genesis instant n : starting n n ->
  starting n (start consensus_debug parse dir genesis instant n).1.
Proof.
  unfold start. apply (bind_keeps (starting n)); [done|]. intros _ n1.
  apply (bind_keeps (starting n)); [apply load_state_starting|]. intros _ n2.
  apply (bind_keeps (starting n)).
  - intros n3 H3. unfold modify. cbn. destruct (http_enabled (rpc _)); [by apply start_rpc_starting|done].
  - intros _ n3 H3. unfold mbind, M_bind, get_state. destruct (validator (consensus (nd_config n3))) eqn:Hv; [|done].
    apply start_validator_starting; [|done]. destruct H3 as (_ & <- & _). done.
Qed.
Lemma launched_idle config n : launched config n ->
  idle n /\ nd_config n = config /\ Mempool.pending (nd_mempool n) = [].
Proof.
  intros (kf & gen & n0 & parse & dir & genesis & instant & H0 & <-).
  destruct (node_new_idle _ _ _ _ H0) as (Hi & Hc & Hm & Hp).
  destruct (start_starting parse dir genesis instant n0) as (H1 & H2 & H3 & _); [done|].
  by rewrite H2, H3.
Qed.

(** ** Running *)
Lemma empty_tips : get_tips (empty_dag default_config) = [].
Proof.
  unfold get_tips. destruct (members _) as [|h l] eqn:E; [done|].
  assert (Hin : h ∈ members (tips (empty_dag default_config))) by (rewrite E; left).
  by apply elem_of_members, elem_of_empty in Hin.
Qed.
(** Without a tip there is nothing to propose on. *)
Lemma proposer_tick_idle now instant n : idle n -> proposer_tick error_debug now instant n = Some n.
Proof.
  intros [Hd _ Ht _ _ _]. unfold proposer_tick. destruct (nd_keys n) as [keys|] eqn:Ek; [|done].
  destruct (nd_bft n) as [bft|] eqn:Eb; [|done]. destruct (nd_task n) as [task|] eqn:Et; [|done].
  enough (E : tick error_debug now instant (proposer_of keys bft task n) = Some (proposer_of keys bft task n, Ok ())).
  { rewrite E. cbn. destruct n, task. cbn in *. by subst. }
  specialize (Ht task eq_refl). unfold tick.
  destruct (should_propose_total instant (proposer_of keys bft task n)) as ([] & -> & _); [|done].
  unfold create_proposal. cbn [pr_dag proposer_of]. rewrite Hd, empty_tips, take_nil. cbn [length].
  by rewrite (proj2 (Nat.ltb_lt _ _)).
Qed.

(** The request that an event serves *)
Definition requests (e : Event) (methods : list string) : Prop :=
  match e with ERpc _ request => method request ∈ methods | _ => False end.
(** What an event may do to the two pools *)
Inductive pools (e : Event) (n n' : Node) : Prop :=
  | pools_same : nd_mempool n' = nd_mempool n -> nd_pool n' = nd_pool n -> pools e n n'
  | pools_add tx : nd_mempool n' = (Mempool.add tx (nd_mempool n)).1 -> nd_pool n' = nd_pool n -> pools e n n'
  | pools_bridge : e = EBridge -> nd_bridge n = true ->
      nd_mempool n' = (Mempool.drain_batch 256 (nd_mempool n)).1 ->
      nd_pool n' = foldl (fun p tx => (pool_add p tx).1) (nd_pool n) (Mempool.drain_batch 256 (nd_mempool n)).2 ->
      pools e n n'.
Record keeps (e : Event) (n n' : Node) : Prop := {
  kp_config : nd_config n' = nd_config n;
  kp_dag : nd_dag n' = nd_dag n;
  kp_pos : nd_pos n' = nd_pos n;
  kp_bft : nd_bft n' = nd_bft n;
  kp_served : nd_served n' = nd_served n;
  kp_bridge : nd_bridge n' = nd_bridge n;
  kp_queue : nd_queue n' = nd_queue n;
  kp_task : forall task, nd_task n' = Some task -> nd_task n = Some task;
  kp_state : ~ requests e simulations -> nd_state n' = nd_state n;
  kp_pools : pools e n n'
}.
Lemma keeps_refl e n : keeps e n n.
Proof. split; try done. by apply pools_same. Qed.
Lemma rpc_keeps now request n : keeps (ERpc now request) n (request_step now request n).
Proof.
  unfold rpc_request. destruct (nd_served n) as [k|] eqn:Es; [|apply keeps_refl].
  pose proof (handle_changes table hex_error now request (rpc_of n k)) as Hc.
  destruct (handle_rpc table hex_error now request (rpc_of n k)) as [r resp]. cbn [fst] in *.
  destruct Hc as [|s Hs|tx _]; split; try done; try by apply pools_same.
  by apply (pools_add _ _ _ tx).
Qed.
Lemma step_keeps e n : idle n -> exists n', step e n = Some n' /\ keeps e n n'.
Proof.
  intros Hn. destruct e as [now request|m|peers| |now instant| |]; cbn [node_step].
  - eexists. split; [done|apply rpc_keeps].
  - eexists. split; [done|]. destruct m; try apply keeps_refl. split; try done. by eapply pools_add.
  - eexists. split; [done|]. split; try done; by apply pools_same.
  - eexists. split; [done|]. unfold bridge_tick. destruct (nd_bridge n) eqn:Hb; [|apply keeps_refl].
    destruct (Mempool.drain_batch 256 (nd_mempool n)) as [m txs] eqn:Ed. split; try done.
    apply pools_bridge; by rewrite ?Ed.
  - exists n. split; [by apply proposer_tick_idle|apply keeps_refl].
  - eexists. split; [done|]. split; try done; by apply pools_same.
  - exists n. split; [|apply keeps_refl]. unfold execution_tick. rewrite (idle_queue n Hn).
    destruct (nd_exec n); [|done]. by destruct (nd_keys n).
Qed.
Lemma mempool_add_max tx m : Mempool.max_size (Mempool.add tx m).1 = Mempool.max_size m.
Proof. unfold Mempool.add, Mempool.insert_pending. case_decide; [done|]. by destruct (_ <=? _)%nat. Qed.
Lemma step_idle e n n' : idle n -> step e n = Some n' -> idle n'.
Proof.
  intros Hn Hs. destruct (step_keeps e n Hn) as (n1 & H1 & Hk). rewrite Hs in H1. injection H1 as <-.
  destruct Hn as [H1 H2 H3 H4 H5 H6], Hk as [K1 K2 K3 K4 K5 K6 K7 K8 _ K9].
  split; rewrite ?K1, ?K2, ?K5, ?K6, ?K7; try done; [eauto|].
  destruct K9 as [->|tx ->|_ _ ->]; [done|by rewrite mempool_add_max|done].
Qed.
Lemma run_idle es n : idle n -> exists n', run es n = Some n' /\ idle n'.
Proof.
  revert n. induction es as [|e es IH]; intros n Hn; [by exists n|].
  destruct (step_keeps e n Hn) as (n1 & H1 & _). cbn [node_run]. rewrite H1. cbn [mbind option_bind].
  apply IH. by apply (step_idle e n).
Qed.
(** A property that single steps keep is kept by runs. *)
Lemma run_elim (P : Node -> Prop) es n n' : idle n -> run es n = Some n' -> P n ->
  (forall e m m', e ∈ es -> keeps e m m' -> P m -> P m') -> P n'.
Proof.
  revert n. induction es as [|e es IH]; intros n Hn Hr Hp Hk; [by injection Hr as <-|].
  cbn [node_run] in Hr. destruct (step_keeps e n Hn) as (n1 & H1 & Hs). rewrite H1 in Hr. cbn in Hr.
  apply (IH n1); [by apply (step_idle e n)|done|apply (Hk e n n1); [left|done..]|].
  intros e' m m' He. apply Hk. by right.
Qed.

(** C5: a node never makes a block and never executes a transaction.  Nothing
    gives a started node a genesis vertex and the vertices of the network are
    dropped, so whatever requests, messages and ticks follow, in any order, the
    DAG stays empty, the proposer has no tip to propose on, the execution task
    receives nothing, and the stakes and the rounds stay as [start] left them.
    The accounts stay so too, unless somebody simulates a call. *)
Theorem no_block_is_ever_made config n1 es : launched config n1 ->
  exists n, run es n1 = Some n /\
    vertices (nd_dag n) = ∅ /\ nd_queue n = [] /\
    nd_pos n = nd_pos n1 /\ nd_bft n = nd_bft n1 /\
    ((forall e, e ∈ es -> ~ requests e simulations) -> nd_state n = nd_state n1).
Proof.
  intros (Hi & _)%launched_idle. destruct (run_idle es n1 Hi) as (n & Hr & Hn).
  exists n. split; [done|]. split; [by rewrite (idle_dag n Hn)|]. split; [apply (idle_queue n Hn)|].
  split; [|split; [|intros Hes]].
  - apply (run_elim (fun m => nd_pos m = nd_pos n1) es n1); [done..|]. intros e m m' _ Hk <-. apply (kp_pos _ _ _ Hk).
  - apply (run_elim (fun m => nd_bft m = nd_bft n1) es n1); [done..|]. intros e m m' _ Hk <-. apply (kp_bft _ _ _ Hk).
  - apply (run_elim (fun m => nd_state m = nd_state n1) es n1); [done..|].
    intros e m m' He Hk <-. apply (kp_state _ _ _ Hk). by apply Hes.
Qed.

(** ** The pools *)
Lemma add_prefix tx m : Mempool.pending m `prefix_of` Mempool.pending (Mempool.add tx m).1 /\
  ((Mempool.max_size m <= length (Mempool.pending m))%nat -> (Mempool.add tx m).1 = m).
Proof.
  unfold Mempool.add, Mempool.insert_pending. case_decide; [done|]. case Nat.leb_spec; intros Hl; [done|].
  cbn. split; [by apply prefix_app_r|]. intros. exfalso. lia.
Qed.
(** A node that is not a validator collects transactions for ever.  No
    task takes anything out of its mempool: what is in it stays, in order, and
    when 10000 transactions are there every later one, from a client or from
    the network, is refused for good. *)
Theorem follower_mempool_only_fills config n1 es n es' n' : launched config n1 ->
  validator (consensus config) = false -> run es n1 = Some n -> run es' n = Some n' ->
  Mempool.pending (nd_mempool n) `prefix_of` Mempool.pending (nd_mempool n') /\
  ((10000 <= Z.of_nat (length (Mempool.pending (nd_mempool n)))) -> nd_mempool n' = nd_mempool n).
Proof.
  intros (Hi & Hc & _)%launched_idle Hv Hr Hr'.
  destruct (run_idle es n1 Hi) as (n0 & E & Hn). rewrite Hr in E. injection E as <-.
  assert (Hb : nd_bridge n = false).
  { apply (run_elim (fun m => nd_bridge m = false) es n1); [done..| |].
    - apply (idle_keys n1 Hi). by rewrite Hc.
    - intros e m m' _ Hk <-. apply (kp_bridge _ _ _ Hk). }
  assert (Hall : nd_bridge n' = false /\ Mempool.max_size (nd_mempool n') = Z.to_nat 10000 /\
    Mempool.pending (nd_mempool n) `prefix_of` Mempool.pending (nd_mempool n') /\
    ((10000 <= Z.of_nat (length (Mempool.pending (nd_mempool n)))) -> nd_mempool n' = nd_mempool n)); [|tauto].
  apply (run_elim (fun m => nd_bridge m = false /\ Mempool.max_size (nd_mempool m) = Z.to_nat 10000 /\
    Mempool.pending (nd_mempool n) `prefix_of` Mempool.pending (nd_mempool m) /\
    ((10000 <= Z.of_nat (length (Mempool.pending (nd_mempool n)))) -> nd_mempool m = nd_mempool n)) es' n); [done..| |].
  - split; [done|]. split; [apply (idle_mempool n Hn)|done].
  - intros e m m' _ Hk (H1 & H2 & H3 & H4). rewrite (kp_bridge _ _ _ Hk). split; [done|].
    destruct (kp_pools _ _ _ Hk) as [->|tx ->|_ Hb' _]; [done| |congruence].
    destruct (add_prefix tx (nd_mempool m)) as [Hp Hf]. rewrite mempool_add_max. split; [done|].
    split; [by etrans|]. intros Hl. specialize (H4 Hl). rewrite Hf; [done|]. rewrite H4, <- H4, H2, H4. lia.
Qed.

Lemma pool_fold_room txs p : (length (pool_pending p) + length txs <= Proposer.max_size p)%nat ->
  NoDup (tx_hash <$> pool_pending p ++ txs) ->
  foldl (fun p tx => (pool_add p tx).1) p txs = mkTxPool (pool_pending p ++ txs) (Proposer.max_size p).
Proof.
  revert p. induction txs as [|tx txs IH]; intros p Hl Hd; [rewrite app_nil_r; by destruct p|].
  cbn [foldl length] in *. rewrite (cons_middle tx (pool_pending p) txs), app_assoc in Hd |- *.
  rewrite pool_add_spec, decide_True; [by rewrite IH; [|cbn; rewrite length_app; cbn; lia|]|].
  split; [lia|]. rewrite !fmap_app in Hd. apply NoDup_app in Hd as (Hd & _ & _).
  apply NoDup_app in Hd as (_ & Hd & _). intros Hin. apply (Hd _ Hin). left.
Qed.
Lemma pool_fold_full txs p : (Proposer.max_size p <= length (pool_pending p))%nat ->
  foldl (fun p tx => (pool_add p tx).1) p txs = p.
Proof.
  intros Hl. induction txs as [|tx txs IH]; [done|]. cbn [foldl]. rewrite pool_add_spec, decide_False; [done|lia].
Qed.
Lemma drain_spec k m : Mempool.pending (Mempool.drain_batch k m).1 = drop k (Mempool.pending m) /\
  (Mempool.drain_batch k m).2 = take k (Mempool.pending m).
Proof.
  unfold Mempool.drain_batch. cbn. destruct (Nat.min_spec (length (Mempool.pending m)) k) as [[? ->]|[? ->]]; [|done].
  by rewrite !drop_ge, !take_ge by lia.
Qed.
Lemma bridge_spec n : nd_bridge n = true -> nd_bridge (bridge_tick n) = true /\
  Mempool.pending (nd_mempool (bridge_tick n)) = drop 256 (Mempool.pending (nd_mempool n)) /\
  nd_pool (bridge_tick n) =
    foldl (fun p tx => (pool_add p tx).1) (nd_pool n) (take 256 (Mempool.pending (nd_mempool n))).
Proof.
  intros Hb. unfold bridge_tick. rewrite Hb. destruct (drain_spec 256 (nd_mempool n)) as [H1 H2].
  destruct (Mempool.drain_batch 256 (nd_mempool n)) as [m txs]. cbn in *. by rewrite H1, H2.
Qed.
Lemma bridge_iter k n : nd_bridge n = true -> let n' := Nat.iter k bridge_tick n in
  Mempool.pending (nd_mempool n') = drop (256 * k) (Mempool.pending (nd_mempool n)) /\
  nd_pool n' = foldl (fun p tx => (pool_add p tx).1) (nd_pool n) (take (256 * k) (Mempool.pending (nd_mempool n))).
Proof.
  cbv zeta. revert n. induction k as [|k IH]; intros n Hb; [done|]. rewrite Nat.iter_succ_r.
  destruct (bridge_spec n Hb) as (Hb' & Hm & Hp). destruct (IH _ Hb') as [-> ->]. rewrite Hm, Hp, drop_drop.
  split; [f_equal; lia|]. rewrite <- foldl_app, take_take_drop. do 2 f_equal. lia.
Qed.
(** C29: the bridge of a validator.  [k] ticks take the first [256 k] waiting
    transactions out of the mempool and offer them in order to the pool of the
    proposer.  When that pool has room for them and no two of them and of the
    pooled ones share a hash, all arrive in the order in which they were
    accepted.  When it is full they are lost: they are in neither of the two,
    although the client was told that they are accepted. *)
Theorem bridge_delivers_or_drops k n : nd_bridge n = true ->
  let ps := Mempool.pending (nd_mempool n) in
  let n' := Nat.iter k bridge_tick n in
  Mempool.pending (nd_mempool n') = drop (256 * k) ps /\
  nd_pool n' = foldl (fun p tx => (pool_add p tx).1) (nd_pool n) (take (256 * k) ps) /\
  ((length (pool_pending (nd_pool n)) + length (take (256 * k) ps) <= Proposer.max_size (nd_pool n))%nat ->
   NoDup (tx_hash <$> pool_pending (nd_pool n) ++ take (256 * k) ps) ->
   pool_pending (nd_pool n') = pool_pending (nd_pool n) ++ take (256 * k) ps) /\
  ((Proposer.max_size (nd_pool n) <= length (pool_pending (nd_pool n)))%nat -> nd_pool n' = nd_pool n).
Proof.
  intros Hb. cbv zeta. destruct (bridge_iter k n Hb) as [Hm Hp]. rewrite Hp. split; [done|]. split; [done|].
  split; [intros Hr Hd; by rewrite pool_fold_room|by apply pool_fold_full].
Qed.

(** ** What the node reports *)
(** A node never reports a peer.  The counter of the RPC server is made
    when the server starts, before the network does, and nothing updates it:
    [net_peerCount] answers zero and [eth_syncing] that the node is not
    syncing, whatever peers have connected.  [status] counts the peers, and
    calls the node synchronised only while there are none. *)
Theorem node_reports_no_peers config n1 es n now m : launched config n1 -> run es n1 = Some n ->
  let ask name := (rpc_request table hex_error now (mkRequest "2.0" json_null name json_null) n).2 in
  (nd_served n = Some m -> ask "net_peerCount" = Some (Ok (Success json_null (json_str (format_u64 0)))) /\
     ask "eth_syncing" = Some (Ok (Success json_null (json_bool false)))) /\
  peers_count (node_status n) = Z.of_nat (Peer.connected_count (nd_peers n)) /\
  (synced (node_status n) = true <-> peers_count (node_status n) = 0).
Proof.
  intros (Hi & _)%launched_idle Hr ask. destruct (run_idle es n1 Hi) as (n0 & E & Hn).
  rewrite Hr in E. injection E as <-. split; [|split; [done|]].
  - intros Hs. pose proof (idle_served n Hn m Hs) as ->. unfold ask, rpc_request. rewrite Hs. done.
  - unfold node_status. cbn [synced peers_count]. rewrite (idle_dag n Hn).
    replace (0 <? total_vertices (stats (empty_dag default_config)))%nat with false by reflexivity.
    rewrite orb_false_r, Nat.eqb_eq. lia.
Qed.

(** ** Starting *)
(** A validator without a genesis file starts, as the only validator of its
    network: the stakes are its own 10^11 and the set its rounds count is a
    copy of them. *)
Theorem validator_starts_alone config key_file generated n0 parse instant :
  validator (consensus config) = true -> node_new consensus_debug config key_file generated = Ok n0 ->
  exists n1 keys, start consensus_debug parse (Ok ()) None instant n0 = (n1, Ok ()) /\
    nd_keys n1 = Some keys /\ nd_bridge n1 = true /\ nd_exec n1 = true /\
    let v := set_commission 500 (new_validator (key_address keys) (public_key keys) 100000000000) in
    validators (pos_validators (nd_pos n1)) = {[ key_address keys := v ]} /\
    total_stake (pos_validators (nd_pos n1)) = 100000000000 /\
    nd_bft n1 = Some (new_bft keys (pos_validators (nd_pos n1))) /\
    nd_served n1 = if http_enabled (rpc config) then Some 0 else None.
Proof.
  intros Hv. unfold node_new. rewrite Hv.
  destruct (match validator_key (consensus config) with Some _ => _ | None => _ end) as [keys'|e| |] eqn:Ek; [|done..].
  assert (Hk : exists keys, keys' = Some keys).
  { destruct (validator_key (consensus config)) as [path|]; [|injection Ek as <-; by eexists].
    destruct (map_err _ (key_file path)) as [bytes|e| |]; [|done..]. cbn in Ek.
    destruct (map_err _ (keys_from_bytes bytes)) as [keys|e| |]; [|done..]. injection Ek as <-. by eexists. }
  destruct Hk as [keys ->]. intros [= <-].
  unfold start, mbind, M_bind, lift, load_state, modify, get_state. cbn [map_err nd_config].
  destruct (http_enabled (rpc config)) eqn:Hh; cbn [start_rpc set_nd_served nd_config nd_peers]; rewrite Hv;
    unfold start_validator; cbn [nd_keys nd_pos];
    (eexists _, keys; split; [reflexivity|]); cbn; rewrite ?insert_empty; try done.
  do 6 (split; [done|]). by rewrite no_connections.
Qed.

(** The key that [generate-key] writes is of no use.  The command saves the
    public key, 33 bytes in its compressed form, where [Node::new] expects the
    32 bytes of the secret: a validator that is configured with the file it was
    given panics before it starts. *)
Theorem generated_key_cannot_validate config path generated other :
  validator (consensus config) = true -> validator_key (consensus config) = Some path ->
  length (public_key generated) = 33%nat ->
  node_new consensus_debug config (fun _ => Ok (generate_key generated)) other = Panic.
Proof.
  intros Hv Hp Hl. unfold node_new. rewrite Hv, Hp. cbn [map_err mbind outcome_bind].
  unfold keys_from_bytes, generate_key. by rewrite Hl.
Qed.
End node.

(** ** The command line *)
Section commands.
Context `{HO : HashOrder} `{CL : CryptoLib} `{RV : RevmLib} `{RL : RlpLib} `{RX : RegexLib}
  `{HX : HexLib} `{JL : JsonLib} `{RP : @RpcParsers JL}
  `{FL : FieldLib} {R1 : @R1csLib FL} {G16 : @Groth16Lib FL R1}.
Context (consensus_debug : Validator.ConsensusError -> string) (fault : IoOp -> option string)
  (toml_from : list Z -> outcome string NodeConfig) (toml_to : NodeConfig -> outcome string (list Z))
  (project_dir : option string) (socket_addr : string -> outcome string string)
  (generated : ValidatorKeys) (now_secs instant : Z) (now_ms : nat -> Z)
  (parse : Genesis.str -> outcome Genesis.str Genesis.GenesisConfig)
  (print : Genesis.GenesisConfig -> outcome Genesis.str Genesis.str)
  (show_status : string -> outcome string ()).
Abbreviation nexus := (main consensus_debug fault toml_from toml_to project_dir socket_addr generated now_secs
  instant now_ms parse print show_status).
Abbreviation configured := (run_config fault toml_from project_dir socket_addr).
Abbreviation running := (run_node consensus_debug fault toml_from project_dir socket_addr generated instant parse).
Definition default_dir : string := data_dir (default_node_config project_dir).

Lemma bind_M_Ok {S E A B} (m : M S E A) (f : A -> M S E B) s t b : (m ≫= f) s = (t, Ok b) ->
  exists s' a, m s = (s', Ok a) /\ f a s' = (t, Ok b).
Proof. unfold mbind, M_bind. destruct (m s) as [s' [a|e| |]]; [|done..]. intros Hf. by exists s', a. Qed.
Lemma attempt_Ok op disk disk' u : attempt fault op disk = (disk', Ok u) -> fault op = None /\ disk' = disk.
Proof. unfold attempt, lift. destruct (fault op); [done|]. by intros [= <- _]. Qed.
Lemma fs_read_Ok path disk disk' bytes : fs_read fault path disk = (disk', Ok bytes) ->
  disk' = disk /\ fault (OpRead path) = None /\ disk_files disk !! path = Some bytes.
Proof.
  unfold fs_read. intros (k & [] & [Hf ->]%attempt_Ok & (k' & d & [= <- <-] & H)%bind_M_Ok)%bind_M_Ok.
  unfold lift in H. injection H as <- H. by destruct (disk_files disk !! path); [injection H as ->|].
Qed.
Lemma fs_write_Ok path bytes disk disk' u : fs_write fault path bytes disk = (disk', Ok u) ->
  fault (OpWrite path) = None /\ disk' = mkDisk (<[path := bytes]> (disk_files disk)) (disk_dirs disk).
Proof. intros (k & [] & [Hf ->]%attempt_Ok & [= <- _])%bind_M_Ok. done. Qed.
Lemma fs_create_Ok path disk disk' u : fs_create_dir_all fault path disk = (disk', Ok u) ->
  fault (OpCreateDir path) = None /\ disk_files disk' = disk_files disk.
Proof. intros (k & [] & [Hf ->]%attempt_Ok & [= <- _])%bind_M_Ok. done. Qed.
Lemma on_err_Ok {S E F A} (f : E -> F) (m : M S E A) s t a : on_err f m s = (t, Ok a) -> m s = (t, Ok a).
Proof. unfold on_err. destruct (m s) as [s' [b|e| |]]; cbn; by intros [= -> ->]. Qed.

(** What the configuration of a run takes from where: the name, the limits,
    the storage and the logging come from the file or the defaults; the chain,
    the role, the key and the addresses come from the command line, also when
    it does not name them and the file does. *)
Lemma run_config_Ok path dir args disk disk' config : configured path dir args disk = (disk', Ok config) ->
  disk' = disk /\ exists base http_addr, socket_addr (run_rpc_addr args) = Ok http_addr /\
    match path with
    | Some p => (config_load fault toml_from p disk).2 = Ok base
    | None => base = default_node_config project_dir
    end /\ config = override_config http_addr dir args base.
Proof.
  unfold run_config. intros (k & base & Hb & (k' & addr & Ha & (k'' & [] & Hv & H)%bind_M_Ok)%bind_M_Ok)%bind_M_Ok.
  unfold lift in Ha, Hv. injection Ha as <- Ha. injection Hv as <-. injection H as <- <-.
  assert (Hk : k = disk /\ match path with
    | Some p => (config_load fault toml_from p disk).2 = Ok base
    | None => base = default_node_config project_dir
    end).
  { destruct path as [p|]; [|by injection Hb as <- <-]. apply on_err_Ok in Hb. rewrite Hb. split; [|done].
    unfold config_load in Hb. apply bind_M_Ok in Hb as (d & bytes & Hr%on_err_Ok & [= <- _]).
    unfold fs_read_to_string in Hr. apply bind_M_Ok in Hr as (d' & b & (<- & _)%fs_read_Ok & [= <- _]). done. }
  destruct Hk as [-> Hbase]. split; [done|]. by exists base, addr.
Qed.

Hypothesis (Hio : forall op, fault op = None).
Lemma attempt_done op : attempt fault op = mret ().
Proof. unfold attempt. by rewrite Hio. Qed.
Lemma fs_read_done path disk : fs_read fault path disk =
  (disk, ok_or "No such file or directory (os error 2)"%string (disk_files disk !! path)).
Proof. unfold fs_read. by rewrite attempt_done. Qed.
Definition content (disk : Disk) (path : string) : outcome string (list Z) := (fs_read_to_string fault path disk).2.
Lemma content_files disk disk' p q : disk_files disk !! p = disk_files disk' !! q -> content disk p = content disk' q.
Proof. intros Hf. unfold content, fs_read_to_string, mbind, M_bind. rewrite !fs_read_done, Hf. by destruct (disk_files disk' !! q). Qed.
Lemma content_none disk p : disk_files disk !! p = None -> forall b, content disk p <> Ok b.
Proof. intros Hf b. unfold content, fs_read_to_string, mbind, M_bind. by rewrite fs_read_done, Hf. Qed.

(** A follower that starts loads the genesis file of its directory, when there
    is one. *)
Lemma follower_starts path dir args disk addr base : run_validator args = false ->
  socket_addr (run_rpc_addr args) = Ok addr -> base = default_node_config project_dir -> path = None ->
  let home := default default_dir dir in
  let fresh := (empty_state, new_pos default_staking_config) in
  let loaded := match disk_files disk !! genesis_path home with
    | Some _ => Genesis.load_genesis (fun e => bytes_of (consensus_debug e)) parse
                  (map_err bytes_of (content disk (genesis_path home))) fresh
    | None => (fresh, Ok Genesis.default_genesis)
    end in
  forall g, loaded.2 = Ok g -> exists n disk2, running path dir args disk = (disk2, Ok n) /\
    (nd_state n, nd_pos n) = loaded.1 /\ data_dir (nd_config n) = home.
Proof.
  intros Hv Ha -> ->. cbv zeta. set (home := default default_dir dir). intros g Hg.
  unfold run_node, run_config, mbind, M_bind, lift, mret, M_ret, get_state. rewrite Ha.
  cbn [map_err config_validate]. unfold node_new. cbn [override_config consensus validator]. rewrite Hv.
  cbn [mbind outcome_bind map_err]. unfold start_on_disk. cbn [nd_config data_dir override_config].
  fold default_dir. fold home. unfold fs_create_dir_all. rewrite attempt_done.
  unfold mbind at 1, M_bind at 1, mret, M_ret, modify. set (disk1 := mkDisk _ _).
  assert (Hf : forall p, disk_files disk1 !! p = disk_files disk !! p) by done.
  unfold read_genesis. cbn [snd]. fold (content disk1 (genesis_path home)).
  rewrite (content_files disk1 disk (genesis_path home) (genesis_path home)) by done.
  rewrite Hf. unfold start, mbind, M_bind, lift, modify, get_state. cbn [map_err].
  destruct (disk_files disk !! genesis_path home) eqn:E; unfold load_state; cbn [nd_state nd_pos].
  - destruct (Genesis.load_genesis _ _ _ _) as [st r] eqn:El. cbn [fst snd] in *. subst r. cbn [map_err mbind outcome_bind].
    destruct (http_enabled _); cbn [nd_config start_rpc set_nd_served set_nd_pos set_nd_state override_config consensus validator];
      rewrite Hv; eexists _, _; (split; [reflexivity|]); (split; [by destruct st|reflexivity]).
  - destruct (http_enabled _); cbn [nd_config start_rpc set_nd_served override_config consensus validator];
      rewrite Hv; eexists _, _; (split; [reflexivity|]); (split; reflexivity).
Qed.

Lemma main_run level path dir args disk disk' n : running path dir args disk = (disk', Ok n) ->
  nexus (mkCli path dir level (Some (Run args))) disk = (disk', Ok (Running n)).
Proof.
  intros Hr. change (nexus _ disk) with ((running path dir args ≫= fun n => mret (Running n)) disk).
  unfold mbind, M_bind. by rewrite Hr.
Qed.

(** C28: An imported genesis is the one the node runs.  After [import-genesis] has
    accepted a file, a follower (no validator, no configuration file, on a disk
    that refuses nothing) that is started with the default data directory
    starts with exactly the accounts and stakes that the file describes; one
    that is started with another directory, where there is no such file, starts
    with an empty ledger.  Importing the file of the default directory itself
    empties it. *)
Theorem imported_genesis_is_run genesis level disk disk1 args addr :
  nexus (mkCli None None level (Some (ImportGenesis genesis))) disk = (disk1, Ok Done) ->
  run_validator args = false -> socket_addr (run_rpc_addr args) = Ok addr ->
  (genesis <> genesis_path default_dir -> exists raw config n disk2,
     content disk genesis = Ok raw /\ parse raw = Ok config /\
     nexus (mkCli None None level (Some (Run args))) disk1 = (disk2, Ok (Running n)) /\
     Genesis.apply_genesis (fun e => bytes_of (consensus_debug e)) config (empty_state, new_pos default_staking_config)
       = ((nd_state n, nd_pos n), Ok ())) /\
  (forall dir, disk_files disk1 !! genesis_path dir = None -> exists n disk2,
     nexus (mkCli None (Some dir) level (Some (Run args))) disk1 = (disk2, Ok (Running n)) /\
     nd_state n = empty_state /\ nd_pos n = new_pos default_staking_config) /\
  (genesis = genesis_path default_dir -> disk_files disk1 !! genesis = Some []).
Proof.
  intros Himp Hv Ha. cbn [main default command] in Himp.
  apply bind_M_Ok in Himp as (k & [] & Himp & [= ->]). unfold import_genesis in Himp.
  apply bind_M_Ok in Himp as (k0 & d0 & [= <- <-] & Himp).
  apply bind_M_Ok in Himp as (k1 & cfg & Hload & Himp). unfold lift in Hload. injection Hload as <- Hload.
  fold (content disk genesis) in Hload. fold default_dir in Himp.
  apply bind_M_Ok in Himp as (k2 & [] & [_ Hk2]%fs_create_Ok & Hcopy).
  unfold fs_copy in Hcopy. apply bind_M_Ok in Hcopy as (k3 & bytes & (-> & _ & Hb)%fs_read_Ok & [_ Hw]%fs_write_Ok).
  rewrite Hk2 in Hb, Hw. set (fresh := (empty_state, new_pos default_staking_config)) in *.
  split; [|split].
  - intros Hne. rewrite bool_decide_eq_false_2 in Hw by done.
    assert (Hthere : disk_files disk1 !! genesis_path default_dir = Some bytes)
      by (rewrite Hw; cbn [disk_files]; by rewrite lookup_insert_eq).
    assert (Hsame : content disk1 (genesis_path default_dir) = content disk genesis)
      by (apply content_files; by rewrite Hb, Hthere).
    destruct (Genesis.load_genesis _ parse (map_err bytes_of (content disk genesis)) fresh) as [st r] eqn:El.
    cbn [snd] in Hload. destruct r as [g|e| |]; [|done..]. injection Hload as ->. unfold fresh in El.
    destruct (follower_starts None None args disk1 addr _ Hv Ha eq_refl eq_refl cfg) as (n & disk2 & Hr & Hst & _).
    { cbn [default]. rewrite Hthere, Hsame, El. done. }
    cbn [default] in Hst. rewrite Hthere, Hsame, El in Hst. cbn [fst] in Hst.
    unfold Genesis.load_genesis in El. destruct (content disk genesis) as [raw|e| |] eqn:Ec; [|done..].
    cbn [map_err mbind outcome_bind] in El. destruct (parse raw) as [config|e| |] eqn:Ep; [|done..]. cbn [map_err] in El.
    destruct (Genesis.apply_genesis _ config _) as [st' r] eqn:Eg. destruct r as [[]|e| |]; [|done..].
    injection El as <- <-. exists raw, config, n, disk2. split; [done|]. split; [done|].
    split; [by apply main_run|].
    unfold fresh. by rewrite Eg, Hst.
  - intros dir Hno. destruct (follower_starts None (Some dir) args disk1 addr _ Hv Ha eq_refl eq_refl Genesis.default_genesis)
      as (n & disk2 & Hr & Hst & _); [change (default default_dir (Some dir)) with dir; by rewrite Hno|].
    change (default default_dir (Some dir)) with dir in Hst. rewrite Hno in Hst. injection Hst as Hs Hp. exists n, disk2.
    split; [by apply main_run|done].
  - intros ->. rewrite bool_decide_eq_true_2 in Hw by done. rewrite Hw. cbn [disk_files]. by rewrite lookup_insert_eq.
Qed.

(** What a run is configured with, and what [init] is good for: after
    [init] a run with the configuration it wrote uses its directory, but the
    chain, the role, the key and the addresses are those of the command line,
    so the chain that [init] was given counts for nothing. *)
Definition toml_roundtrips : Prop := forall config text, toml_to config = Ok text ->
  from_utf8 text = Some text /\ toml_from text = Ok config.
Theorem init_then_run dir chain level disk disk1 args addr : toml_roundtrips ->
  nexus (mkCli None None level (Some (Init dir chain))) disk = (disk1, Ok Done) ->
  socket_addr (run_rpc_addr args) = Ok addr ->
  exists config, configured (Some (join dir "config.toml")) None args disk1 = (disk1, Ok config) /\
    data_dir config = dir /\ cfg_chain_id config = run_chain_id args /\
    validator (consensus config) = run_validator args /\ validator_key (consensus config) = run_validator_key args /\
    http_addr (rpc config) = addr /\ listen_addr (network config) = run_p2p_addr args /\
    bootstrap_nodes (network config) = run_bootstrap args /\
    config = override_config addr (Some dir) args (default_node_config project_dir).
Proof.
  intros Htoml Hinit Ha. cbn [main default command] in Hinit.
  apply bind_M_Ok in Hinit as (k & [] & Hinit & [= ->]). unfold init_data_dir in Hinit.
  apply bind_M_Ok in Hinit as (k1 & [] & _ & Hinit). apply bind_M_Ok in Hinit as (k2 & [] & _ & Hinit).
  apply bind_M_Ok in Hinit as (k3 & [] & _ & Hsave%on_err_Ok). unfold config_save in Hsave.
  apply bind_M_Ok in Hsave as (k4 & text & Ht & [_ Hw]%on_err_Ok%fs_write_Ok). unfold lift in Ht. injection Ht as _ Ht.
  destruct (toml_to _) as [text'|e| |] eqn:Et; [|done..]. injection Ht as ->. destruct (Htoml _ _ Et) as [Hu Hf].
  set (path := join dir "config.toml") in *.
  assert (Hc : config_load fault toml_from path disk1 = (disk1, Ok (mkConfig (cfg_name (default_node_config project_dir)) dir chain
    (network (default_node_config project_dir)) (rpc (default_node_config project_dir)) (consensus (default_node_config project_dir))
    (storage (default_node_config project_dir)) (logging (default_node_config project_dir))))).
  { unfold config_load, fs_read_to_string, on_err, mbind, M_bind. rewrite fs_read_done.
    assert (disk_files disk1 !! path = Some text) as -> by (rewrite Hw; cbn [disk_files]; apply lookup_insert_eq).
    cbn [ok_or]. unfold lift. rewrite Hu. cbn [ok_or map_err]. by rewrite Hf. }
  eexists. split.
  { unfold run_config, on_err, mbind, M_bind, lift. rewrite Hc. cbn [map_err]. rewrite Ha. reflexivity. }
  repeat split.
Qed.

(** [export] writes the genesis of an empty ledger, whatever the node holds:
    no account, no validator, and chain 1337. *)
Theorem export_is_empty output format level disk json :
  print (Genesis.mkGenesis 1337 now_secs (bytes_of "NexusChain") [] []) = Ok json ->
  nexus (mkCli None None level (Some (Export output format))) disk =
    (mkDisk (<[output := json]> (disk_files disk)) (disk_dirs disk), Ok Done).
Proof.
  intros Hp.
  assert (He : @Genesis.export_genesis HO CL empty_state (new_pos default_staking_config) now_secs 1337 (bytes_of "NexusChain")
    = Ok (Genesis.mkGenesis 1337 now_secs (bytes_of "NexusChain") [] [])).
  { unfold Genesis.export_genesis. assert (Hv : active_validators (pos_validators (new_pos default_staking_config)) = []).
    { unfold active_validators. destruct (filter _ _) as [|v l] eqn:E; [done|]. exfalso.
      assert (Hin : v ∈ v :: l) by left. rewrite <- E in Hin.
      apply list_elem_of_filter in Hin as [_ (k & Hk)%elem_of_values]. cbn in Hk. by rewrite lookup_empty in Hk. }
    rewrite Hv. assert (Ha : all_accounts empty_state = []).
    { unfold all_accounts. destruct (entries _) as [|[a x] l] eqn:E; [done|]. exfalso.
      assert (Hin : (a, x) ∈ (a, x) :: l) by left. rewrite <- E in Hin. apply elem_of_entries in Hin. cbn in Hin.
      by rewrite lookup_empty in Hin. }
    by rewrite Ha. }
  change (nexus _ disk) with ((export_data fault now_secs print output format ≫= fun _ => mret Done) disk).
  unfold export_data. rewrite He. unfold mbind, M_bind, lift. cbn [map_err]. rewrite Hp. cbn [map_err].
  unfold on_err, fs_write. by rewrite attempt_done.
Qed.

(** The benchmark of the DAG inserts nothing.  Its DAG has no genesis, so that
    every vertex but the first has no parent and is refused; the first carries
    the hash of a transaction it does not hold.  The rate that is printed counts
    refusals, unless BLAKE3 gives that vertex one digest with the transaction
    and without. *)
Definition first_input (transactions : list Hash) : list Z :=
  vertex_hash_input [] transactions (now_ms 0) (mkValidatorId (replicate 20 1 ++ replicate 12 0)).
Theorem benchmark_inserts_nothing bench_type n :
  run_benchmarks now_ms bench_type n = Some (empty_dag default_config) \/
  blake3 (first_input [mkHash (replicate 32 0)]) = blake3 (first_input []).
Proof.
  unfold run_benchmarks. destruct (_ || _); [|by left].
  assert (Hstep : forall i, let v := Vertex.new (now_ms i) (mkAddress (replicate 20 1)) []
      [mkHash (replicate 32 (Z.of_nat i mod 256))] 0 (Z.of_nat i) in
    (exists e, add_vertex (now_ms i) (empty_dag default_config) v = Some (empty_dag default_config, Err e)) \/
    blake3 (first_input [mkHash (replicate 32 0)]) = blake3 (first_input [])).
  { intros i v. unfold add_vertex. rewrite decide_False by (intros [x Hx]; cbn in Hx; by rewrite lookup_empty in Hx).
    enough ((exists e, verify_structure v = Err e) \/
      blake3 (first_input [mkHash (replicate 32 0)]) = blake3 (first_input [])) as [[e ->]|Hc];
      [left; by eexists|by right|].
    destruct i as [|i]; [|left; unfold verify_structure, v, is_genesis; cbn [v_parents v_height Vertex.new];
      rewrite (proj2 (Z.eqb_neq _ _)) by lia; by eexists].
    destruct (verify_structure v) as [[]|e| |] eqn:Ev; [|left; by exists e|..].
    - right. apply verify_structure_accepts in Ev as (_ & _ & _ & _ & Hh). by injection Hh.
    - exfalso. revert Ev. unfold verify_structure. repeat case_match; done.
    - exfalso. revert Ev. unfold verify_structure. repeat case_match; done. }
  assert (Hall : forall l, dag_benchmark now_ms l (empty_dag default_config) = Some (empty_dag default_config) \/
    blake3 (first_input [mkHash (replicate 32 0)]) = blake3 (first_input [])); [|apply Hall].
  induction l as [|i l IH]; [by left|]. cbn [dag_benchmark].
  assert (Htips : take 4 (get_tips (empty_dag default_config)) = []) by by rewrite empty_tips.
  rewrite Htips. destruct (Hstep i) as [[e ->]|Hc]; [|by right]. exact IH.
Qed.
End commands.

Module Sample.
#[local] Existing Instances canonical_order GenesisProps.Sample.hex_lib GenesisProps.Sample.hex_crypto
  ExecutorProps.Sample.spender RpcProps.Sample.no_rlp RpcProps.Sample.no_regex
  RpcProps.Sample.json_lib RpcProps.Sample.parsers
  f17 CircuitsProps.Sample.toy_r1cs Groth16Props.Sample.toy_groth16.
Abbreviation pay := ExecutorProps.Sample.pay.
Definition quiet {A} : A -> string := fun _ => "".
Abbreviation sample_run := (node_run ∅ quiet quiet).

Definition keys : ValidatorKeys := mkKeys [1] (ExecutorProps.Sample.addr 1).
Definition config (v : bool) : NodeConfig :=
  mkConfig "sample" "data" 1337 default_network default_rpc_config (mkConsensus v None 500 1000 86400)
    default_storage default_logging.
Definition fresh (v : bool) : Node :=
  mkNode (config v) (empty_dag default_config) empty_state (new_pos default_staking_config)
    default_tx_pool (Mempool.new (Z.to_nat 10000)) (Peer.new 50) (if v then Some keys else None)
    None None None [] false false.
Lemma fresh_new v : node_new quiet (config v) (fun _ => Err "") keys = Ok (fresh v).
Proof. by destruct v. Qed.
Definition no_parser : Genesis.str -> outcome Genesis.str Genesis.GenesisConfig := fun _ => Err [].
Definition up (v : bool) : Node := (start quiet no_parser (Ok ()) None 0 (fresh v)).1.
Lemma up_launched v : launched quiet (config v) (up v).
Proof. exists (fun _ => Err ""), keys, (fresh v), no_parser, (Ok ()), None, 0. split; [apply fresh_new|done]. Qed.

(** A payment comes in, is bridged, and waits for a block for ever. *)
Definition busy : list Event := [ENetwork (Sync.NewTransaction pay); EBridge; EProposer 1000 1000; EExecution].
Lemma no_block_is_ever_made_witness : exists n, sample_run busy (up true) = Some n /\
  vertices (nd_dag n) = ∅ /\ nd_state n = nd_state (up true).
Proof.
  destruct (no_block_is_ever_made ∅ quiet quiet quiet (config true) (up true) busy (up_launched true))
    as (n & Hr & Hd & _ & _ & _ & Hs).
  exists n. split; [exact Hr|]. split; [exact Hd|]. apply Hs. clear.
  apply Forall_forall. repeat (apply Forall_cons; split; [intros []|]). apply Forall_nil. exact I.
Defined.

Definition held : Node := network_message (Sync.NewTransaction pay) (up false).
Lemma follower_mempool_only_fills_witness : exists n',
  sample_run busy held = Some n' /\ [pay] `prefix_of` Mempool.pending (nd_mempool n').
Proof.
  destruct (run_idle ∅ quiet quiet busy held) as (n' & Hr & _).
  - apply (step_idle ∅ quiet quiet (ENetwork (Sync.NewTransaction pay)) (up false)); [|reflexivity].
    exact (proj1 (launched_idle quiet (config false) (up false) (up_launched false))).
  - exists n'. split; [exact Hr|].
    exact (proj1 (follower_mempool_only_fills ∅ quiet quiet quiet (config false) (up false)
      [ENetwork (Sync.NewTransaction pay)] held busy n' (up_launched false) eq_refl eq_refl Hr)).
Defined.

Definition waiting : Node := network_message (Sync.NewTransaction pay) (up true).
Definition crowded : Node := set_nd_pool (mkTxPool [pay] 1) waiting.
Lemma waiting_pools : nd_bridge waiting = true /\ pool_pending (nd_pool waiting) = [] /\
  Mempool.pending (nd_mempool waiting) = [pay].
Proof. repeat split; vm_compute; reflexivity. Qed.
Lemma bridge_delivers_or_drops_witness :
  pool_pending (nd_pool (Nat.iter 1 bridge_tick waiting)) = [] ++ [pay] /\
  Mempool.pending (nd_mempool (Nat.iter 1 bridge_tick crowded)) = [] /\
  nd_pool (Nat.iter 1 bridge_tick crowded) = nd_pool crowded.
Proof.
  destruct waiting_pools as (Hb & Hp & Hm).
  destruct (bridge_delivers_or_drops 1 waiting Hb) as (_ & _ & H & _).
  destruct (bridge_delivers_or_drops 1 crowded Hb) as (Hm' & _ & _ & Hp'). cbv zeta in H, Hm', Hp'.
  change (nd_mempool crowded) with (nd_mempool waiting) in Hm'. rewrite Hm in H, Hm'. rewrite Hp in H. split.
  - apply H; [|apply NoDup_singleton]. apply Nat.leb_le. vm_compute. reflexivity.
  - split; [exact Hm'|]. apply Hp'. apply Nat.leb_le. reflexivity.
Defined.

(** Somebody has connected. *)
Definition friend : Peer.PeerInfo := Peer.mkPeer "friend" [] 1 "" false None 0 Peer.Connected 0.
Definition friends : Peer.PeerManager := Peer.mkManager {[ "friend"%string := friend ]} ∅ 50.
Lemma node_reports_no_peers_witness : exists n, sample_run [EPeers friends] (up true) = Some n /\
  peers_count (node_status n) = 1 /\ synced (node_status n) <> true /\
  (rpc_request ∅ quiet 0 (mkRequest "2.0" json_null "net_peerCount" json_null) n).2 =
    Some (Ok (Success json_null (json_str "0x0"))).
Proof.
  assert (Hr : sample_run [EPeers friends] (up true) = Some (set_nd_peers friends (up true))) by reflexivity.
  eexists. split; [exact Hr|].
  destruct (node_reports_no_peers ∅ quiet quiet quiet (config true) (up true) [EPeers friends] _ 0 0
    (up_launched true) Hr) as (H1 & H2 & H3).
  assert (Hc : Peer.connected_count friends = 1%nat) by (vm_compute; reflexivity).
  change (nd_peers (set_nd_peers friends (up true))) with friends in H2. rewrite Hc in H2.
  split; [exact H2|]. split; [|exact (proj1 (H1 eq_refl))].
  intros Hs. apply H3 in Hs. rewrite H2 in Hs. discriminate Hs.
Defined.

Lemma validator_starts_alone_witness : exists n1,
  start quiet no_parser (Ok ()) None 0 (fresh true) = (n1, Ok ()) /\
  total_stake (pos_validators (nd_pos n1)) = 100000000000.
Proof.
  destruct (validator_starts_alone quiet (config true) (fun _ => Err "") keys (fresh true) no_parser 0
    eq_refl (fresh_new true)) as (n1 & k & Hs & _ & _ & _ & _ & Ht & _).
  exists n1. split; [exact Hs|exact Ht].
Defined.

Definition key_config : NodeConfig :=
  mkConfig "sample" "data" 1337 default_network default_rpc_config
    (mkConsensus true (Some "key"%string) 500 1000 86400) default_storage default_logging.
Lemma generated_key_cannot_validate_witness :
  node_new quiet key_config (fun _ => Ok (generate_key (mkKeys (replicate 33 2) (ExecutorProps.Sample.addr 1)))) keys = Panic.
Proof.
  apply (generated_key_cannot_validate quiet key_config "key" (mkKeys (replicate 33 2) (ExecutorProps.Sample.addr 1)) keys);
    reflexivity.
Defined.

(** *** Commands on a disk that refuses nothing *)
#[local] Instance network_dec : EqDecision NetworkConfig.
Proof. solve_decision. Defined.
#[local] Instance rpc_dec : EqDecision RpcConfig.
Proof. solve_decision. Defined.
#[local] Instance consensus_dec : EqDecision ConsensusConfig.
Proof. solve_decision. Defined.
#[local] Instance db_dec : EqDecision DatabaseType.
Proof. solve_decision. Defined.
#[local] Instance storage_dec : EqDecision StorageConfig.
Proof. solve_decision. Defined.
#[local] Instance logging_dec : EqDecision LoggingConfig.
Proof. solve_decision. Defined.
#[local] Instance config_dec : EqDecision NodeConfig.
Proof. solve_decision. Defined.

Definition permit (op : IoOp) : option string := None.
Definition home : string := ".nexus".
(** A printer of one configuration, and its parser *)
Definition test_config : NodeConfig :=
  mkConfig "nexus-node" "net" 7 default_network default_rpc_config default_consensus default_storage default_logging.
Definition one_to (c : NodeConfig) : outcome string (list Z) :=
  if bool_decide (c = test_config) then Ok (bytes_of "test") else Err "unsupported"%string.
Definition one_from (text : list Z) : outcome string NodeConfig := Ok test_config.
Lemma one_roundtrips : toml_roundtrips one_from one_to.
Proof.
  intros c text. unfold one_to. case_bool_decide as Hc; [|done]. intros [= <-]. subst c. split; reflexivity.
Qed.
Definition socket (s : string) : outcome string string := Ok s.
Definition document : Genesis.GenesisConfig := Genesis.mkGenesis 1337 0 (bytes_of "sample")
  [Genesis.mkGenesisAccount (bytes_of "0x0000000000000000000000000000000000000001") (bytes_of "250") None ∅ 0] [].
Definition read_document (text : Genesis.str) : outcome Genesis.str Genesis.GenesisConfig := Ok document.
Definition print_document (c : Genesis.GenesisConfig) : outcome Genesis.str Genesis.str := Ok (bytes_of "document").
Abbreviation sample_nexus := (main quiet permit one_from one_to None socket keys 0 0 (fun _ => 1000) read_document
  print_document (fun _ => Ok ())).
Definition disk0 : Disk := mkDisk {[ "dev.json"%string := bytes_of "{}" ]} ∅.
Definition imported : Disk := (sample_nexus (mkCli None None "info" (Some (ImportGenesis "dev.json"))) disk0).1.
Lemma imported_genesis_is_run_witness : exists n disk2,
  sample_nexus (mkCli None None "info" (Some (Run default_run))) imported = (disk2, Ok (Running n)) /\
  Genesis.apply_genesis (fun e => bytes_of (quiet e)) document (empty_state, new_pos default_staking_config)
    = ((nd_state n, nd_pos n), Ok ()).
Proof.
  destruct (imported_genesis_is_run quiet permit one_from one_to None socket keys 0 0 (fun _ => 1000) read_document
    print_document (fun _ => Ok ()) (fun _ => eq_refl) "dev.json" "info" disk0 imported default_run "127.0.0.1:8545")
    as [Himp _]; [vm_compute; reflexivity|reflexivity|reflexivity|].
  destruct Himp as (raw & c & n & disk2 & _ & Hp & Hr & Hg); [discriminate|].
  injection Hp as <-. exists n, disk2. split; [exact Hr|exact Hg].
Defined.
Definition prepared : Disk := (sample_nexus (mkCli None None "info" (Some (Init "net" 7))) disk0).1.
Lemma init_then_run_witness : exists config,
  run_config permit one_from None socket (Some (join "net" "config.toml")) None default_run prepared = (prepared, Ok config) /\
  data_dir config = "net"%string /\ cfg_chain_id config = 1337.
Proof.
  destruct (init_then_run quiet permit one_from one_to None socket keys 0 0 (fun _ => 1000) read_document
    print_document (fun _ => Ok ()) (fun _ => eq_refl) "net" 7 "info" disk0 prepared default_run "127.0.0.1:8545"
    one_roundtrips) as (c & Hc & Hd & Hi & _); [vm_compute; reflexivity|reflexivity|].
  exists c. split; [exact Hc|]. split; [exact Hd|exact Hi].
Defined.
Lemma export_is_empty_witness :
  disk_files (sample_nexus (mkCli None None "info" (Some (Export "out" "binary"))) imported).1 !! "out"%string
    = Some (bytes_of "document").
Proof.
  rewrite (export_is_empty quiet permit one_from one_to None socket keys 0 0 (fun _ => 1000) read_document
    print_document (fun _ => Ok ()) (fun _ => eq_refl) "out" "binary" "info" imported (bytes_of "document") eq_refl).
  reflexivity.
Defined.
End Sample.
