(* ===== verification/IsoLog.v ===== *)
(** * The audit log and the hybrid engine (crates/nexus-consensus: iso_logger.rs, hybrid_consensus.rs)

    The logger appends JSON entries to a file, each with the hash of the one
    before.  SHA-256 and the derived serializer are a class; the clock and what
    the file system answers are arguments.  The hybrid engine logs a proposal
    and hands it to the BFT engine; the weighted choice is the rand crate's.
    The theorems: what the chain of hashes protects, and what the engine does. *)
From stdpp Require Import base numbers list gmap strings.
From Stdlib Require Import ZArith Lia.
From S2P Require Import Prelude Text Types Crypto Validator Bft BftFacts.
From S2P Require BftProps.
#[local] Open Scope Z_scope.

Record IsoLogEntry := mkEntry {
  seq : Z;
  timestamp : string;
  component : string;
  message : string;
  prev_hash : string;
  hash : string
}.
Definition set_hash (h : string) (e : IsoLogEntry) : IsoLogEntry :=
  mkEntry (seq e) (timestamp e) (component e) (message e) (prev_hash e) h.

Class LogLib := {
  (** [serde_json::to_string] of an entry *)
  entry_json : IsoLogEntry -> list Z;
  (** [{:x}] of a SHA-256 digest *)
  sha256_hex : list Z -> string
}.

Section logger.
Context `{LogLib}.

Definition compute_hash (entry : IsoLogEntry) : string := sha256_hex (entry_json entry).

(** [IsoLogger] and the lines of its file *)
Record IsoLogger := mkLogger { path : string; log_seq : Z; log_prev : string }.
Definition new_logger (path : string) : IsoLogger := mkLogger path 0 "0".

(** [written] tells whether the file could be opened and written. *)
Definition log (now component message : string) (written : bool)
    : M (IsoLogger * list IsoLogEntry) () () := fun '(l, file) =>
  let l := mkLogger (path l) (log_seq l +! 1) (log_prev l) in
  let entry := mkEntry (log_seq l) now component message (log_prev l) "" in
  let hash := compute_hash entry in
  let entry := set_hash hash entry in
  if written then ((mkLogger (path l) (log_seq l) hash, (file ++ [entry])%list), Ok ())
  else ((l, file), Panic).
End logger.

(** ** [HybridConsensus] *)
Class WeightedLib := {
  (** [WeightedIndex::new] and [sample] with the bits of a generator *)
  weighted_index : list Z -> option (Z -> nat)
}.
Record HybridConsensus := mkHybrid {
  hc_bft : BftConsensus;
  hc_epoch : Z;
  hc_stakes : gmap Address Z
}.
(** The global logger behind its mutex, which a panic under the lock poisons *)
Record GlobalLogger := mkGlobal { gl_logger : IsoLogger; gl_file : list IsoLogEntry; poisoned : bool }.

Section hybrid.
Context `{HO : HashOrder} `{CL : CryptoLib} `{LL : LogLib} `{RL : WeightedLib}.
(** [Display] of an address *)
Context (address_text : Address -> string).

Definition new_hybrid (bft : BftConsensus) (stakes : gmap Address Z) : HybridConsensus :=
  mkHybrid bft 0 stakes.

Definition elect_leader (bits : Z) (h : HybridConsensus) : outcome () (option Address) :=
  let addresses := Prelude.keys (hc_stakes h) in
  let weights := values (hc_stakes h) in
  match addresses with
  | [] => Ok None
  | _ =>
      match weighted_index weights with
      | None => Ok None
      | Some sample => address ← unwrap (addresses !! sample bits); Ok (Some address)
      end
  end.

(** [on_proposal]; the errors of the engine are boxed as they are. *)
Definition log_proposal (now : string) (written : bool) (p : Proposal)
    : M (option GlobalLogger) ConsensusError () := fun g =>
  match g with
  | None => (None, Ok ())
  | Some l =>
      if poisoned l then (Some l, Panic)
      else
        let msg := "Proposal from " +:+ address_text (p_proposer p) +:+ " epoch " +:+ show (p_epoch p)
          +:+ " view " +:+ show (p_view p) in
        match log now "HybridConsensus" msg written (gl_logger l, gl_file l) with
        | ((logger, file), Ok _) => (Some (mkGlobal logger file false), Ok ())
        | ((logger, file), _) => (Some (mkGlobal logger file true), Panic)
        end
  end.
Definition hybrid_on_proposal (now : string) (written : bool) (p : Proposal)
    : M (option GlobalLogger * HybridConsensus) ConsensusError () := fun '(g, h) =>
  match log_proposal now written p g with
  | (g, Ok _) =>
      let '(bft, r) := run (on_proposal p) (hc_bft h) in
      ((g, mkHybrid bft (hc_epoch h) (hc_stakes h)), r)
  | (g, Err e) => ((g, h), Err e)
  | (g, Panic) => ((g, h), Panic)
  | (g, Blocked) => ((g, h), Blocked)
  end.

Definition hybrid_advance_epoch (h : HybridConsensus) : HybridConsensus :=
  mkHybrid (hc_bft h) (hc_epoch h +! 1) (hc_stakes h).
End hybrid.

(** ** The chain of hashes *)
Section chain.
Context `{LogLib}.

(** What an auditor expects of a file: each entry holds the hash of the one
    before it and its own. *)
Definition sealed (e : IsoLogEntry) : Prop := hash e = compute_hash (set_hash "" e).
Fixpoint chained (prev : string) (file : list IsoLogEntry) : Prop :=
  match file with
  | [] => True
  | e :: file => prev_hash e = prev /\ sealed e /\ chained (hash e) file
  end.
Definition last_hash (prev : string) (file : list IsoLogEntry) : string :=
  default prev (hash <$> last file).
(** Two entries of the files that differ and have one digest *)
Definition collision (f1 f2 : list IsoLogEntry) : Prop := exists e1 e2, e1 ∈ f1 /\ e2 ∈ f2 /\
  entry_json (set_hash "" e1) <> entry_json (set_hash "" e2) /\
  compute_hash (set_hash "" e1) = compute_hash (set_hash "" e2).
(** serde_json tells entries apart; a digest is printed with 64 digits. *)
Record LogLaws : Prop := {
  json_inj : forall a b, entry_json a = entry_json b -> a = b;
  sha_length : forall l, String.length (sha256_hex l) = 64%nat
}.

Lemma last_hash_cons prev e file : last_hash prev (e :: file) = last_hash (hash e) file.
Proof. unfold last_hash. rewrite last_cons. by destruct (last file). Qed.
Lemma last_hash_snoc prev file e : last_hash prev (file ++ [e]) = hash e.
Proof. unfold last_hash. by rewrite last_snoc. Qed.
Lemma chained_app prev f1 f2 : chained prev (f1 ++ f2) <-> chained prev f1 /\ chained (last_hash prev f1) f2.
Proof.
  revert prev. induction f1 as [|e f1 IH]; intros prev; [cbn; tauto|].
  cbn [chained app]. rewrite IH, last_hash_cons. tauto.
Qed.
Lemma chained_snoc prev file e : chained prev (file ++ [e]) <->
  chained prev file /\ prev_hash e = last_hash prev file /\ sealed e.
Proof. rewrite chained_app. cbn. tauto. Qed.

(** The logger's own view of its file *)
Definition log_ok (l : IsoLogger) (file : list IsoLogEntry) : Prop :=
  chained "0" file /\ log_prev l = last_hash "0" file.
Lemma log_keeps now c m written l file : log_ok l file ->
  let '((l', file'), r) := log now c m written (l, file) in
  log_ok l' file' /\ (r = Ok () <-> written = true) /\
  file' = if written then file ++ [set_hash (log_prev l')
    (mkEntry (log_seq l +! 1) now c m (log_prev l) "")] else file.
Proof.
  intros [Hc Hp]. unfold log. destruct written; cbn; [|split; [done|]; split; [by split|done]]. split; [|done].
  split; [|by rewrite last_hash_snoc]. apply chained_snoc. by rewrite <- Hp.
Qed.

(** A run of the logger: each call with its clock, texts and file *)
Fixpoint log_all (calls : list (string * string * string * bool)) (st : IsoLogger * list IsoLogEntry)
    : IsoLogger * list IsoLogEntry :=
  match calls with
  | [] => st
  | (now, c, m, written) :: calls => log_all calls (log now c m written st).1
  end.
Lemma log_all_ok calls l file : log_ok l file -> log_ok (log_all calls (l, file)).1 (log_all calls (l, file)).2.
Proof.
  revert l file. induction calls as [|[[[now c] m] w] calls IH]; intros l file Hl; [done|].
  cbn [log_all]. pose proof (log_keeps now c m w l file Hl) as Hk.
  destruct (log now c m w (l, file)) as [[l' file'] r]. apply (IH l' file'), Hk.
Qed.

(** Equal last hashes of two chains: read backwards, the entries agree. *)
Lemma chains_agree f1 f2 : LogLaws -> chained "0" f1 -> chained "0" f2 ->
  last_hash "0" f1 = last_hash "0" f2 -> f1 = f2 \/ collision f1 f2.
Proof.
  intros laws. revert f2. induction f1 as [|e1 f1 IH] using rev_ind; intros f2 H1 H2 Hl.
  - destruct f2 as [|e2 f2 _] using rev_ind; [by left|]. exfalso.
    apply chained_snoc in H2 as (_ & _ & Hs). rewrite last_hash_snoc, Hs in Hl.
    pose proof (sha_length laws (entry_json (set_hash "" e2))) as Hn.
    change (last_hash "0" []) with "0"%string in Hl. unfold compute_hash in Hl. rewrite <- Hl in Hn. discriminate Hn.
  - apply chained_snoc in H1 as (H1 & Hp1 & Hs1). rewrite last_hash_snoc in Hl.
    destruct f2 as [|e2 f2 _] using rev_ind.
    + exfalso. rewrite Hs1 in Hl. pose proof (sha_length laws (entry_json (set_hash "" e1))) as Hn.
      change (last_hash "0" []) with "0"%string in Hl. unfold compute_hash in Hl. rewrite Hl in Hn. discriminate Hn.
    + apply chained_snoc in H2 as (H2 & Hp2 & Hs2). rewrite last_hash_snoc in Hl.
      destruct (decide (entry_json (set_hash "" e1) = entry_json (set_hash "" e2))) as [Ej|Ej].
      * apply (json_inj laws) in Ej.
        assert (Ee : e1 = e2) by (clear -Ej Hl; destruct e1, e2; cbn in *; injection Ej; congruence).
        subst e2.
        rewrite Hp1 in Hp2. destruct (IH f2 H1 H2 Hp2) as [->|(e & e' & He & He' & Hc)]; [by left|right].
        exists e, e'. by rewrite !elem_of_app; eauto.
      * right. exists e1, e2. rewrite !elem_of_app, !list_elem_of_singleton.
        split; [by right|]. split; [by right|]. split; [done|]. unfold sealed in *. congruence.
Qed.

(** The audit log is tamper-evident within one run of the logger.  The
    file a new logger writes is a chain, and any other chain that ends with the
    hash the logger remembers is that same file, entry for entry, unless two
    different entries of the two files have the same SHA-256. *)
Theorem audit_log_is_tamper_evident p calls other : LogLaws ->
  let '(l, file) := log_all calls (new_logger p, []) in
  chained "0" file /\
  (chained "0" other -> last_hash "0" other = log_prev l -> other = file \/ collision other file).
Proof.
  intros laws. assert (Hok : log_ok (new_logger p) []) by done.
  pose proof (log_all_ok calls _ _ Hok) as H1.
  destruct (log_all calls (new_logger p, [])) as [l file]. destruct H1 as [Hc Hl].
  split; [done|]. intros Ho Hh. apply chains_agree; [done..|]. by rewrite Hh.
Qed.

(** A restart breaks the chain.  A logger that is made again on the same
    file starts from the hash "0": its first entry does not hold the hash of
    the last one, so that the chain ends there and the entries before can be
    replaced unnoticed. *)
Theorem restart_breaks_the_chain p q calls calls' : LogLaws ->
  let '(l, file) := log_all calls (new_logger p, []) in
  let '(l', file') := log_all calls' (new_logger q, []) in
  (forall now c m, (log now c m true (new_logger q, file)).1.2 = file ++ (log now c m true (new_logger q, [])).1.2) /\
  (file <> [] -> file' <> [] -> ~ chained "0" (file ++ file')).
Proof.
  intros laws. pose proof (log_all_ok calls (new_logger p) []) as H1.
  pose proof (log_all_ok calls' (new_logger q) []) as H2.
  destruct (log_all calls _) as [l file], (log_all calls' _) as [l' file'].
  destruct H1 as [Hc _]; [done|]. destruct H2 as [Hc' _]; [done|]. split; [done|].
  intros Hf Hf' [_ Hch]%chained_app. destruct file' as [|e' file']; [done|].
  destruct file as [|e file _] using rev_ind; [done|]. rewrite last_hash_snoc in Hch.
  apply chained_snoc in Hc as (_ & _ & Hs). destruct Hch as [Hp _], Hc' as [Hp' _]. cbn in Hp, Hp'.
  pose proof (sha_length laws (entry_json (set_hash "" e))) as Hn.
  unfold sealed, compute_hash in Hs. rewrite <- Hs, <- Hp, Hp' in Hn. discriminate Hn.
Qed.
End chain.

(** ** The hybrid engine *)
Section hybrid.
Context `{HO : HashOrder} `{CL : CryptoLib} `{LL : LogLib} `{RL : WeightedLib}.
Context (address_text : Address -> string).

(** The hybrid engine accepts no proposal: after the log entry, if there
    is a logger, the BFT engine refuses the proposal or, when it is valid,
    waits for ever; the engine is unchanged either way.  A log that cannot be
    written stops this proposal and every later one. *)
Theorem hybrid_accepts_no_proposal now written p g h : exists g' r,
  hybrid_on_proposal address_text now written p (g, h) = ((g', h), r) /\ r <> Ok () /\
  (g = None -> g' = None /\ (r = Blocked <-> proposal_valid (hc_bft h) p)) /\
  (forall l, g = Some l -> poisoned l = false -> written = false ->
     r = Panic /\ forall now' w' p' h', exists g'',
       hybrid_on_proposal address_text now' w' p' (g', h') = ((g'', h'), Panic)).
Proof.
  unfold hybrid_on_proposal.
  destruct (run_on_proposal p (hc_bft h)) as (r & Hr & Hv & He).
  assert (Hno : r <> Ok ()).
  { intros ->. destruct He as [e [=]]. done. }
  assert (Eh : mkHybrid (hc_bft h) (hc_epoch h) (hc_stakes h) = h) by by destruct h.
  destruct g as [l|]; cbn [log_proposal].
  - unfold log_proposal. destruct (poisoned l) eqn:Hp.
    + exists (Some l), Panic. split; [done|]. split; [done|]. split; [done|]. intros l0 [= <-]. congruence.
    + unfold log. destruct written.
      * rewrite Hr, Eh. eexists _, r. split; [done|]. split; [done|]. split; [done|]. done.
      * eexists _, Panic. split; [done|]. split; [done|]. split; [done|]. intros l0 _ _ _. split; [done|].
        intros now' w' p' h'. by eexists.
  - rewrite Hr, Eh. exists None, r. split; [done|]. split; [done|]. split; [done|]. done.
Qed.

(** The leader that the hybrid engine elects is a staker, and somebody
    is elected whenever the weighted choice can be made. *)
Theorem elected_leader_has_stake bits h :
  (forall ws f, weighted_index ws = Some f -> exists w, ws !! f bits = Some w /\ 0 < w) ->
  exists r, elect_leader bits h = Ok r /\
  (forall a, r = Some a -> exists w, hc_stakes h !! a = Some w /\ 0 < w) /\
  (r = None -> hc_stakes h = ∅ \/ weighted_index (values (hc_stakes h)) = None).
Proof.
  intros law. unfold elect_leader. destruct (Prelude.keys (hc_stakes h)) as [|a0 l] eqn:Ek.
  - exists None. do 2 (split; [done|]). intros _. left. apply map_eq. intros a. rewrite lookup_empty.
    destruct (hc_stakes h !! a) as [w|] eqn:Ea; [|done]. exfalso.
    assert (Hin : a ∈ Prelude.keys (hc_stakes h)).
    { unfold Prelude.keys. apply list_elem_of_fmap. exists (a, w). split; [done|]. by apply elem_of_entries. }
    rewrite Ek in Hin. by apply elem_of_nil in Hin.
  - destruct (weighted_index (values (hc_stakes h))) as [f|] eqn:Ew; [|exists None; split; [done|]; split; [done|by right]].
    destruct (law _ f Ew) as (w & Hw & Hpos). rewrite <- Ek.
    unfold values, Prelude.keys in *. rewrite list_lookup_fmap in Hw.
    destruct (entries (hc_stakes h) !! f bits) as [[a w']|] eqn:Ee; [|done]. cbn in Hw. injection Hw as <-.
    rewrite list_lookup_fmap, Ee. cbn. exists (Some a). split; [done|]. split; [|done].
    intros b [= <-]. exists w'. split; [|done]. apply elem_of_entries. by eapply list_elem_of_lookup_2.
Qed.
End hybrid.

Module Sample.
#[local] Existing Instances canonical_order toy_crypto.
(** A serializer that tells entries apart, and a weak digest of 64 characters *)
Definition fields (e : IsoLogEntry) : Z * list string :=
  (seq e, [timestamp e; component e; message e; prev_hash e; hash e]).
Fixpoint text64 (n : nat) (l : list Z) : string :=
  match n with O => "" | S n => String (Ascii.ascii_of_nat (65 + Z.to_nat (nth n l 0 mod 16))) (text64 n l) end.
#[local] Instance plain_log : LogLib := {|
  entry_json e := seq e :: Zpos (encode (fields e)) :: bytes_of (message e);
  sha256_hex l := text64 64 l |}.
Lemma text64_length n l : String.length (text64 n l) = n.
Proof. induction n as [|n IH]; [done|]. cbn. by rewrite IH. Qed.
Lemma plain_laws : LogLaws.
Proof.
  split; [|intros l; apply (text64_length 64)]. intros a b [= _ Hf _].
  apply (inj encode) in Hf. destruct a, b. unfold fields in Hf. cbn in Hf. by simplify_eq.
Qed.
Definition two_calls : list (string * string * string * bool) :=
  [("t1", "c", "first", true); ("t2", "c", "lost", false); ("t3", "c", "second", true)]%string.
Lemma audit_log_is_tamper_evident_witness :
  let '(l, file) := log_all two_calls (new_logger "iso.log", []) in
  length file = 2%nat /\ seq <$> file = [1; 3] /\ chained "0" file.
Proof.
  pose proof (audit_log_is_tamper_evident "iso.log" two_calls [] plain_laws) as H.
  destruct (log_all two_calls (new_logger "iso.log", [])) as [l file] eqn:E. destruct H as [Hc _].
  split; [|split; [|exact Hc]]; change file with (l, file).2; rewrite <- E; vm_compute; reflexivity.
Defined.
Lemma restart_breaks_the_chain_witness :
  let '(l, file) := log_all two_calls (new_logger "iso.log", []) in
  file <> [] /\ ~ chained "0" (file ++ file).
Proof.
  pose proof (restart_breaks_the_chain "iso.log" "iso.log" two_calls two_calls plain_laws) as H.
  destruct (log_all two_calls (new_logger "iso.log", [])) as [l file] eqn:E. destruct H as [_ H].
  assert (Hf : file <> []).
  { intros Hf. assert (Hl : length (log_all two_calls (new_logger "iso.log", [])).2 = 0%nat) by by rewrite E, Hf.
    vm_compute in Hl. discriminate. }
  split; [exact Hf|exact (H Hf Hf)].
Defined.

(** A draw that takes the first staker *)
#[local] Instance first_rand : WeightedLib := {|
  weighted_index ws := match ws with w :: _ => if 0 <? w then Some (fun _ => 0%nat) else None | [] => None end |}.
Definition stakes : gmap Address Z := {[ BftProps.Sample.addr 1 := 5 ]}.
Definition hybrid : HybridConsensus := new_hybrid (new_bft BftProps.Sample.keys1 BftProps.Sample.one) stakes.
Lemma elected_leader_has_stake_witness : exists r, elect_leader 0 hybrid = Ok r /\
  forall a, r = Some a -> exists w, stakes !! a = Some w /\ 0 < w.
Proof.
  destruct (elected_leader_has_stake 0 hybrid) as (r & Hr & Ha & _).
  - intros [|w ws] f; [done|]. cbn. destruct (Z.ltb_spec 0 w); [|done]. intros [= <-]. by exists w.
  - exists r. split; [exact Hr|exact Ha].
Defined.
End Sample.
