(* ===== verification/Metrics.v ===== *)
(** * Metrics of the DAG (crates/nexus-dag: metrics.rs)

    The collector's counters and windows, and the analyzer's history.  An
    [Instant] is a number of nanoseconds; the clocks are arguments.  The
    theorems say what the windows hold, and that the percentiles are ordered. *)
From stdpp Require Import base numbers list sorting.
From Stdlib Require Import ZArith Lia.
From Stdlib Require Import Floats.SpecFloat.
From S2P Require Import Prelude Text Float.
#[local] Open Scope Z_scope.

(** ** The collector *)
Record AccumulatedMetrics := mkAcc {
  vertices_processed : Z;
  transactions_processed : Z;
  total_confirmation_latency : Z;
  total_finality_latency : Z;
  confirmation_count : Z;
  finality_count : Z
}.
Definition default_acc : AccumulatedMetrics := mkAcc 0 0 0 0 0 0.
Record MetricsCollector := mkCollector {
  tx_window : list (Z * Z);
  confirmation_latencies : list Z;
  finality_latencies : list Z;
  window_size : nat;
  accumulated : AccumulatedMetrics
}.
Definition new_collector (window_size : nat) : MetricsCollector :=
  mkCollector [] [] [] window_size default_acc.

(** [while front() is older { pop_front() }] *)
Fixpoint pop_older (cutoff : Z) (window : list (Z * Z)) : list (Z * Z) :=
  match window with
  | [] => []
  | (t, c) :: rest => if t <? cutoff then pop_older cutoff rest else window
  end.
(** The clock is read twice. *)
Definition record_vertex (now now' : Z) (tx_count : Z) (m : MetricsCollector) : MetricsCollector :=
  let acc := accumulated m in
  mkCollector (pop_older (now' - 10000000000) (tx_window m ++ [(now, tx_count)]))
    (confirmation_latencies m) (finality_latencies m) (window_size m)
    (mkAcc (vertices_processed acc +! 1) (transactions_processed acc +! tx_count)
       (total_confirmation_latency acc) (total_finality_latency acc)
       (confirmation_count acc) (finality_count acc)).
(** [if len() >= max { pop_front() } push_back(x)] *)
Definition push_bounded {A} (max : nat) (x : A) (l : list A) : list A :=
  ((if (max <=? length l)%nat then tail l else l) ++ [x])%list.
Definition record_confirmation (latency_ms : Z) (m : MetricsCollector) : MetricsCollector :=
  let acc := accumulated m in
  mkCollector (tx_window m) (push_bounded (window_size m) latency_ms (confirmation_latencies m))
    (finality_latencies m) (window_size m)
    (mkAcc (vertices_processed acc) (transactions_processed acc)
       (total_confirmation_latency acc +! latency_ms) (total_finality_latency acc)
       (confirmation_count acc +! 1) (finality_count acc)).
Definition record_finality (latency_ms : Z) (m : MetricsCollector) : MetricsCollector :=
  let acc := accumulated m in
  mkCollector (tx_window m) (confirmation_latencies m)
    (push_bounded (window_size m) latency_ms (finality_latencies m)) (window_size m)
    (mkAcc (vertices_processed acc) (transactions_processed acc)
       (total_confirmation_latency acc) (total_finality_latency acc +! latency_ms)
       (confirmation_count acc) (finality_count acc +! 1)).

Definition current_tps (m : MetricsCollector) : f64 :=
  let window := tx_window m in
  if (length window <? 2)%nat then f_zero
  else
    let total_txs := foldl (fun acc w => acc +! w.2) 0 window in
    match head window, last window with
    | Some (start, _), Some (end_, _) =>
        let duration := as_secs (Z.max (end_ - start) 0) in
        if f_gt0 duration then f_div (f_of total_txs) duration else f_zero
    | _, _ => f_zero
    end.

Record DagMetrics := {
  dm_vertices_processed : Z;
  dm_transactions_processed : Z;
  dm_current_tps : f64;
  avg_confirmation_latency_ms : f64;
  avg_finality_latency_ms : f64;
  tip_count : Z;
  dag_width : f64;
  memory_usage : Z;
  orphan_count : Z
}.
Definition snapshot (tip_count orphan_count : Z) (m : MetricsCollector) : DagMetrics :=
  let acc := accumulated m in
  let avg total count := if 0 <? count then f_div (f_of total) (f_of count) else f_zero in {|
  dm_vertices_processed := vertices_processed acc;
  dm_transactions_processed := transactions_processed acc;
  dm_current_tps := current_tps m;
  avg_confirmation_latency_ms := avg (total_confirmation_latency acc) (confirmation_count acc);
  avg_finality_latency_ms := avg (total_finality_latency acc) (finality_count acc);
  tip_count := tip_count; dag_width := f_zero; memory_usage := 0; orphan_count := orphan_count |}.
Definition reset (m : MetricsCollector) : MetricsCollector :=
  mkCollector [] [] [] (window_size m) default_acc.

(** ** The analyzer *)
Record ThroughputAnalyzer := mkAnalyzer {
  sample_period_secs : Z;
  tps_history : list (Z * f64);
  max_history : nat
}.
Definition new_analyzer (sample_period_secs : Z) (max_history : nat) : ThroughputAnalyzer :=
  mkAnalyzer sample_period_secs [] max_history.
Definition record_sample (timestamp : Z) (tps : f64) (a : ThroughputAnalyzer) : ThroughputAnalyzer :=
  mkAnalyzer (sample_period_secs a) (push_bounded (max_history a) (timestamp, tps) (tps_history a)) (max_history a).
(** [now] in milliseconds *)
Definition average_tps (now window_secs : Z) (a : ThroughputAnalyzer) : f64 :=
  let cutoff := Z.max (now - (window_secs *! 1000)) 0 in
  let relevant := (filter (fun s => cutoff <= s.1) (tps_history a)).*2 in
  match relevant with
  | [] => f_zero
  | _ => f_div (foldl f_add f_zero relevant) (f_of (Z.of_nat (length relevant)))
  end.
Definition peak_tps (a : ThroughputAnalyzer) : f64 := foldl f_max f_zero (tps_history a).*2.

Record TpsPercentiles := mkPercentiles { p50 : f64; p90 : f64; p95 : f64; p99 : f64 }.
Definition default_percentiles : TpsPercentiles := mkPercentiles f_zero f_zero f_zero f_zero.
(** A stable sort by a comparison that panics on a NaN: every element is
    compared at least once when there are two. *)
Fixpoint insert_f (x : f64) (l : list f64) : outcome () (list f64) :=
  match l with
  | [] => Ok [x]
  | y :: l' =>
      c ← unwrap (SFcompare x y);
      match c with
      | Gt => l' ← insert_f x l'; Ok (y :: l')
      | _ => Ok (x :: y :: l')
      end
  end.
Fixpoint sort_f (l : list f64) : outcome () (list f64) :=
  match l with
  | [] => Ok []
  | x :: l => l ← sort_f l; insert_f x l
  end.
Definition tps_percentiles (a : ThroughputAnalyzer) : outcome () TpsPercentiles :=
  match tps_history a with
  | [] => Ok default_percentiles
  | _ =>
      values ← sort_f (tps_history a).*2;
      let len := length values in
      x50 ← unwrap (values !! (len / 2)%nat);
      x90 ← unwrap (values !! (len * 90 / 100)%nat);
      x95 ← unwrap (values !! (len * 95 / 100)%nat);
      x99 ← unwrap (values !! (len * 99 / 100)%nat);
      Ok (mkPercentiles x50 x90 x95 x99)
  end.

(** ** Windows *)

(** The last [n] elements *)
Definition lastn {A} (n : nat) (l : list A) : list A := drop (length l - n) l.
Lemma tail_drop {A} (l : list A) : tail l = drop 1 l.
Proof. by destruct l. Qed.
Lemma push_bounded_lastn {A} max (x : A) l :
  push_bounded max x (lastn (Nat.max max 1) l) = lastn (Nat.max max 1) (l ++ [x]).
Proof.
  unfold push_bounded, lastn. rewrite length_drop, length_app, tail_drop, drop_drop. cbn [length].
  set (k := Nat.max max 1). assert (Hk : (1 <= k /\ (k = max \/ k = 1 /\ max = 0))%nat) by lia. clearbody k.
  destruct (Nat.leb_spec max (length l - (length l - k))) as [Hl|Hl].
  - destruct (decide (length l = 0)%nat) as [E|E].
    + apply nil_length_inv in E as ->. destruct k; [lia|]. by rewrite !drop_nil.
    + rewrite drop_app_le by lia. do 2 f_equal. lia.
  - rewrite drop_app_le by lia. do 2 f_equal. lia.
Qed.

Inductive Recording :=
  | Vertex_done (now now' tx_count : Z)
  | Confirmed_after (latency_ms : Z)
  | Finalized_after (latency_ms : Z).
Definition record (m : MetricsCollector) (e : Recording) : MetricsCollector :=
  match e with
  | Vertex_done now now' c => record_vertex now now' c m
  | Confirmed_after l => record_confirmation l m
  | Finalized_after l => record_finality l m
  end.
Definition recorded (w : nat) (es : list Recording) : MetricsCollector := foldl record (new_collector w) es.
Definition confirmations (es : list Recording) : list Z :=
  omap (fun e => match e with Confirmed_after l => Some l | _ => None end) es.
Definition finalities (es : list Recording) : list Z :=
  omap (fun e => match e with Finalized_after l => Some l | _ => None end) es.
Definition vertex_samples (es : list Recording) : list (Z * Z) :=
  omap (fun e => match e with Vertex_done now _ c => Some (now, c) | _ => None end) es.
Definition total (l : list Z) : Z := foldr Z.add 0 l mod B64.

Lemma total_snoc l x : total (l ++ [x]) = total l +! x.
Proof.
  unfold total, add64. rewrite foldr_app. cbn. replace (foldr Z.add (x + 0) l) with (foldr Z.add 0 l + x).
  - by rewrite Zplus_mod_idemp_l.
  - induction l as [|y l IH]; cbn; lia.
Qed.
Lemma omap_snoc {A B} (f : A -> option B) l x : omap f (l ++ [x]) = omap f l ++ match f x with Some y => [y] | None => [] end.
Proof. rewrite omap_app. cbn. by destruct (f x). Qed.
Lemma count_snoc {A} (l : list A) x : Z.of_nat (length (l ++ [x])) mod B64 = Z.of_nat (length l) mod B64 +! 1.
Proof. unfold add64. rewrite length_app. cbn. rewrite Zplus_mod_idemp_l. f_equal. lia. Qed.
Lemma recorded_snoc w es e : recorded w (es ++ [e]) = record (recorded w es) e.
Proof. unfold recorded. by rewrite foldl_snoc. Qed.

(** The collector counts exactly, modulo 2^64, and its two latency windows
    hold the last [window_size] samples (the last one when the size is 0), in
    the order in which they were recorded, whatever was recorded in between. *)
Theorem collector_exact w es : let m := recorded w es in
  confirmation_latencies m = lastn (Nat.max w 1) (confirmations es) /\
  finality_latencies m = lastn (Nat.max w 1) (finalities es) /\
  accumulated m = {|
    vertices_processed := Z.of_nat (length (vertex_samples es)) mod B64;
    transactions_processed := total (vertex_samples es).*2;
    total_confirmation_latency := total (confirmations es);
    total_finality_latency := total (finalities es);
    confirmation_count := Z.of_nat (length (confirmations es)) mod B64;
    finality_count := Z.of_nat (length (finalities es)) mod B64 |} /\ window_size m = w.
Proof.
  cbv zeta. induction es as [|e es (IH1 & IH2 & IH3 & IH4)] using rev_ind; [done|].
  rewrite recorded_snoc. unfold confirmations, finalities, vertex_samples in *. rewrite !omap_snoc.
  destruct e as [now now' c|l|l]; cbn [record record_vertex record_confirmation record_finality
    confirmation_latencies finality_latencies accumulated window_size]; rewrite ?app_nil_r, IH1, IH2, IH3, IH4; cbn [vertices_processed
    transactions_processed total_confirmation_latency total_finality_latency confirmation_count finality_count];
    rewrite ?fmap_app; cbn [fmap list_fmap snd]; rewrite ?count_snoc, ?total_snoc, ?push_bounded_lastn; done.
Qed.

(** The clock does not go back. *)
Fixpoint forward (since : Z) (es : list Recording) : Prop :=
  match es with
  | [] => True
  | Vertex_done now now' _ :: es => since <= now <= now' /\ forward now' es
  | _ :: es => forward since es
  end.
Lemma pop_older_filter cutoff l : Sorted Z.le l.*1 ->
  pop_older cutoff l = filter (fun s => cutoff <= s.1) l.
Proof.
  intros Hs%(Sorted_StronglySorted _). induction l as [|[t c] l IH]; [done|].
  cbn [fmap list_fmap fst] in Hs. apply StronglySorted_inv in Hs as [Hs Ht].
  cbn [pop_older]. rewrite filter_cons. cbn [fst]. destruct (Z.ltb_spec t cutoff).
  - rewrite decide_False by lia. by apply IH.
  - rewrite decide_True by lia. f_equal. symmetry. apply list_filter_all.
    intros s Hin. rewrite Forall_forall in Ht. specialize (Ht s.1 (list_elem_of_fmap_2 _ _ _ Hin)). lia.
Qed.
(** The last reading of the clock *)
Definition clock (since : Z) (es : list Recording) : Z :=
  foldl (fun k e => match e with Vertex_done _ now' _ => now' | _ => k end) since es.
Lemma forward_snoc since es e : forward since (es ++ [e]) <-> forward since es /\
  match e with Vertex_done now now' _ => clock since es <= now <= now' | _ => True end.
Proof.
  revert since. induction es as [|e' es IH]; intros since; [destruct e; cbn; tauto|].
  cbn [app forward]. destruct e' as [t t' c| |]; cbn [forward]; rewrite IH; [|done..].
  change (clock since (Vertex_done t t' c :: es)) with (clock t' es). tauto.
Qed.
Lemma sorted_snoc l x : Sorted Z.le l -> Forall (fun y => y <= x) l -> Sorted Z.le (l ++ [x]).
Proof.
  intros Hs%(Sorted_StronglySorted _) Hl. apply StronglySorted_Sorted, StronglySorted_app_2; [|done|repeat constructor].
  intros y z Hy ->%list_elem_of_singleton. rewrite Forall_forall in Hl. by apply Hl.
Qed.
Lemma sorted_filter P `{forall x, Decision (P x)} (l : list (Z * Z)) : Sorted Z.le l.*1 -> Sorted Z.le (filter P l).*1.
Proof.
  intros Hs%(Sorted_StronglySorted _). apply StronglySorted_Sorted. induction l as [|s l IH]; [done|].
  cbn [fmap list_fmap] in Hs. apply StronglySorted_inv in Hs as [Hs Hl]. specialize (IH Hs).
  rewrite filter_cons. case_decide; [|done]. cbn [fmap list_fmap]. constructor; [done|].
  rewrite Forall_forall in Hl |- *. intros x (y & -> & [_ Hy]%list_elem_of_filter)%list_elem_of_fmap.
  by apply Hl, list_elem_of_fmap_2.
Qed.
(** Under a clock that does not go back, the throughput window holds
    exactly the vertices of the last ten seconds before the last recording, in
    order: none too old is left and none younger is dropped. *)
Theorem throughput_window_exact w since es : forward since es ->
  let cutoff := clock since es - 10000000000 in
  tx_window (recorded w es) = filter (fun s => cutoff <= s.1) (vertex_samples es) /\
  Sorted Z.le (vertex_samples es).*1 /\ Forall (fun t => t <= clock since es) (vertex_samples es).*1.
Proof.
  cbv zeta. induction es as [|e es IH] using rev_ind; [done|]. rewrite forward_snoc. intros [Hf He].
  destruct (IH Hf) as (IH1 & IH2 & IH3). rewrite recorded_snoc. unfold vertex_samples, clock in *.
  rewrite omap_snoc, foldl_snoc. destruct e as [now now' c|l|l]; cbn [record record_vertex record_confirmation
    record_finality tx_window]; rewrite ?app_nil_r; [|done..].
  set (S := omap _ es) in *. set (k := foldl _ since es) in *. rewrite IH1.
  assert (Hle : Forall (fun y => y <= now) S.*1) by (eapply Forall_impl; [exact IH3|]; cbn; lia).
  split; [|split].
  - rewrite pop_older_filter.
    + rewrite !filter_app, list_filter_filter. f_equal. apply list_filter_iff. intros s. lia.
    + rewrite fmap_app. apply sorted_snoc; [by apply sorted_filter|].
      rewrite Forall_forall in Hle |- *. intros x (y & -> & [_ Hy]%list_elem_of_filter)%list_elem_of_fmap.
      by apply Hle, list_elem_of_fmap_2.
  - rewrite fmap_app. by apply sorted_snoc.
  - rewrite fmap_app. apply Forall_app. split; [eapply Forall_impl; [exact IH3|]; cbn; lia|].
    repeat constructor. cbn. lia.
Qed.

(** ** Percentiles *)

(** The comparison of numbers as the lexicographic order of three integers *)
Definition rank (x : f64) : Z * Z * Z :=
  match x with
  | S754_nan => (3, 0, 0)
  | S754_infinity s => (if s then -2 else 2, 0, 0)
  | S754_zero _ => (0, 0, 0)
  | S754_finite true m e => (-1, - e, - Zpos m)
  | S754_finite false m e => (1, e, Zpos m)
  end.
Definition rank_le (x y : Z * Z * Z) : Prop :=
  let '(a, b, c) := x in let '(a', b', c') := y in a < a' \/ a = a' /\ (b < b' \/ b = b' /\ c <= c').
Definition f_le (x y : f64) : Prop := rank_le (rank x) (rank y).
Definition number (x : f64) : Prop := x <> S754_nan.
Lemma rank_le_total x y : rank_le x y \/ rank_le y x.
Proof. destruct x as [[a b] c], y as [[a' b'] c']. unfold rank_le. lia. Qed.
Lemma rank_le_trans x y z : rank_le x y -> rank_le y z -> rank_le x z.
Proof. destruct x as [[a b] c], y as [[a' b'] c'], z as [[p q] r]. unfold rank_le. lia. Qed.
Lemma compare_rank x y : number x -> number y -> exists c, SFcompare x y = Some c /\
  match c with Gt => f_le y x | Eq => f_le x y /\ f_le y x | Lt => f_le x y end.
Proof.
  unfold number, f_le. destruct x as [[]|[]| |[] m e], y as [[]|[]| |[] m' e']; intros Hx Hy; try done;
    cbn [SFcompare]; eexists; (split; [done|]); try (cbn; lia);
    (destruct (Z.compare_spec e e'); [|cbn; lia..]);
    change (Pos.compare_cont Eq m m') with (Pos.compare m m');
    destruct (Pos.compare_spec m m'); cbn; lia.
Qed.
Lemma f_le_refl x : f_le x x.
Proof. unfold f_le. destruct (rank_le_total (rank x) (rank x)); done. Qed.
Lemma f_le_trans x y z : f_le x y -> f_le y z -> f_le x z.
Proof. apply rank_le_trans. Qed.

Lemma insert_f_spec x l : number x -> Forall number l -> StronglySorted f_le l ->
  exists l', insert_f x l = Ok l' /\ l' ≡ₚ x :: l /\ StronglySorted f_le l'.
Proof.
  intros Hx Hl Hs. induction Hs as [|y l Hs IH Hy]; [exists [x]; repeat constructor; done|].
  apply Forall_cons in Hl as [Hny Hl]. cbn [insert_f].
  destruct (compare_rank x y Hx Hny) as (c & -> & Hc). cbn [unwrap mbind outcome_bind].
  assert (Hle : f_le x y -> StronglySorted f_le (x :: y :: l)).
  { intros Hxy. do 2 constructor; try done.
    eapply Forall_impl; [exact Hy|]. intros z. by apply f_le_trans. }
  destruct c; [exists (x :: y :: l); destruct Hc; auto|exists (x :: y :: l); auto|].
  destruct (IH Hl) as (l' & -> & Hp & Hs'). cbn [mbind outcome_bind]. exists (y :: l'). split; [done|].
  split; [rewrite Hp; apply Permutation_swap|]. constructor; [done|]. rewrite Hp. by constructor.
Qed.
Lemma sort_f_spec l : Forall number l -> exists l', sort_f l = Ok l' /\ l' ≡ₚ l /\ StronglySorted f_le l'.
Proof.
  induction 1 as [|x l Hx Hl (l' & E & Hp & Hs)]; [exists []; repeat constructor|].
  cbn [sort_f]. rewrite E. cbn [mbind outcome_bind].
  destruct (insert_f_spec x l') as (l2 & -> & Hp2 & Hs2); [done|by rewrite Hp|done|].
  exists l2. split; [done|]. split; [by rewrite Hp2, Hp|done].
Qed.
Lemma sort_f_nan l : S754_nan ∈ l -> (2 <= length l)%nat -> sort_f l = Panic.
Proof.
  induction l as [|x l IH]; [by intros ?%elem_of_nil|]. intros Hin Hl. cbn [sort_f length] in *.
  destruct l as [|y l]; [cbn in Hl; lia|]. destruct (decide (S754_nan ∈ y :: l)) as [Hy|Hy].
  - destruct l as [|z l]; [|by rewrite IH by (done || cbn; lia)].
    apply list_elem_of_singleton in Hy as <-. cbn. by destruct x.
  - apply elem_of_cons in Hin as [<-|]; [|done].
    destruct (sort_f_spec (y :: l)) as (l' & -> & Hp & _).
    { apply Forall_forall. intros z Hz ->. done. }
    destruct l' as [|y' l']; [by apply Permutation_nil_cons in Hp|]. done.
Qed.
Lemma sorted_lookup l i j x y : StronglySorted f_le l -> (i <= j)%nat -> l !! i = Some x -> l !! j = Some y -> f_le x y.
Proof.
  intros Hs. revert i j. induction Hs as [|z l Hs IH Hz]; intros i j Hij Hi Hj; [done|].
  destruct i as [|i], j as [|j]; [|..|apply (IH i j); [lia|done..]]; try lia.
  - injection Hi as <-. injection Hj as <-. apply f_le_refl.
  - injection Hi as <-. rewrite Forall_forall in Hz. apply Hz. by eapply list_elem_of_lookup_2.
Qed.
Lemma f_max_spec x y : number x -> number y -> number (f_max x y) /\ f_le x (f_max x y) /\ f_le y (f_max x y).
Proof.
  intros Hx Hy. unfold f_max. destruct (compare_rank x y Hx Hy) as (c & -> & Hle).
  pose proof (f_le_refl x). pose proof (f_le_refl y). destruct c; [destruct Hle|..]; done.
Qed.
Lemma peak_spec l x : number x -> Forall number l -> number (foldl f_max x l) /\
  f_le x (foldl f_max x l) /\ forall y, y ∈ l -> f_le y (foldl f_max x l).
Proof.
  intros Hx Hl. revert x Hx. induction Hl as [|z l Hz Hl IH]; intros x Hx.
  - split; [done|]. split; [apply f_le_refl|]. by intros y ?%elem_of_nil.
  - cbn [foldl]. destruct (f_max_spec x z Hx Hz) as (Hn & H1 & H2).
    destruct (IH _ Hn) as (H3 & H4 & H5). split; [done|]. split; [by eapply f_le_trans|].
    intros y [->|Hy]%elem_of_cons; [by eapply f_le_trans|by apply H5].
Qed.

(** The percentiles are ordered samples.  When no sample is a NaN,
    [tps_percentiles] returns four recorded values that increase from the
    median to the 99th, none above the peak; no index leaves the history,
    whatever its length.  One NaN among two samples or more makes the call
    panic. *)
Theorem percentiles_are_ordered a : tps_history a <> [] ->
  let samples := (tps_history a).*2 in
  (Forall number samples -> exists p, tps_percentiles a = Ok p /\
     (forall x, x ∈ [p50 p; p90 p; p95 p; p99 p] -> x ∈ samples) /\
     f_le (p50 p) (p90 p) /\ f_le (p90 p) (p95 p) /\ f_le (p95 p) (p99 p) /\ f_le (p99 p) (peak_tps a)) /\
  (S754_nan ∈ samples -> (2 <= length samples)%nat -> tps_percentiles a = Panic).
Proof.
  intros Hne. cbv zeta. unfold tps_percentiles, peak_tps.
  assert (Hl : (0 < length (tps_history a).*2)%nat).
  { destruct (tps_history a); [done|]. cbn. lia. }
  destruct (tps_history a) as [|s0 h]; [done|]. set (samples := (s0 :: h).*2) in *. split; intros Hs.
  - destruct (sort_f_spec samples Hs) as (l & -> & Hp & Hsort). cbn [mbind outcome_bind].
    rewrite <- (Permutation_length Hp) in Hl. set (n := length l) in *.
    assert (Hlook : forall k, (k < 100)%nat -> is_Some (l !! (n * k / 100)%nat)).
    { intros k Hk. apply lookup_lt_is_Some. fold n. apply Nat.Div0.div_lt_upper_bound. nia. }
    assert (H50 : (n / 2 = n * 50 / 100)%nat).
    { change 100%nat with (2 * 50)%nat. by rewrite Nat.Div0.div_mul_cancel_r. }
    rewrite H50. destruct (Hlook 50%nat) as [x50 E50]; [lia|]. destruct (Hlook 90%nat) as [x90 E90]; [lia|].
    destruct (Hlook 95%nat) as [x95 E95]; [lia|]. destruct (Hlook 99%nat) as [x99 E99]; [lia|].
    rewrite E50, E90, E95, E99. cbn [unwrap mbind outcome_bind]. eexists. split; [done|].
    assert (Hin : forall x, x ∈ [x50; x90; x95; x99] -> x ∈ samples).
    { intros x Hx. rewrite <- Hp. repeat (apply elem_of_cons in Hx as [->|Hx]; [by eapply list_elem_of_lookup_2|]).
      by apply elem_of_nil in Hx. }
    split; [exact Hin|]. cbn [p50 p90 p95 p99].
    assert (Hord : forall i j x y, (i <= j)%nat -> l !! (n * i / 100)%nat = Some x -> l !! (n * j / 100)%nat = Some y -> f_le x y).
    { intros i j x y Hij. apply sorted_lookup; [done|]. apply Nat.Div0.div_le_mono. nia. }
    split; [by apply (Hord 50%nat 90%nat); [lia|..]|]. split; [by apply (Hord 90%nat 95%nat); [lia|..]|].
    split; [by apply (Hord 95%nat 99%nat); [lia|..]|].
    apply (peak_spec samples f_zero); [done|done|]. apply Hin. do 3 right. left.
  - intros H2. by rewrite sort_f_nan.
Qed.

Module Sample.
Definition history (l : list Z) : ThroughputAnalyzer :=
  foldl (fun a n => record_sample n (f_of n) a) (new_analyzer 1 4) l.
Definition slow : list Recording := [Vertex_done 0 1 3; Confirmed_after 7; Vertex_done 10000000001 10000000002 5].
Lemma throughput_window_exact_witness : tx_window (recorded 4 slow) = [(10000000001, 5)].
Proof.
  assert (Hf : forward 0 slow) by (cbn; lia).
  rewrite (proj1 (throughput_window_exact 4 0 slow Hf)). reflexivity.
Defined.
Lemma percentiles_are_ordered_witness :
  (exists p, tps_percentiles (history [30; 10; 40; 20]) = Ok p /\ f_le (p50 p) (p99 p)) /\
  tps_percentiles (record_sample 5 (f_div f_zero f_zero) (history [1])) = Panic.
Proof.
  split.
  - destruct (percentiles_are_ordered (history [30; 10; 40; 20])) as [H _]; [discriminate|].
    destruct H as (p & Hp & _ & H1 & H2 & H3 & _).
    + vm_compute. repeat constructor; discriminate.
    + exists p. split; [exact Hp|]. eapply f_le_trans; [exact H1|]. eapply f_le_trans; [exact H2|exact H3].
  - destruct (percentiles_are_ordered (record_sample 5 (f_div f_zero f_zero) (history [1]))) as [_ H]; [discriminate|].
    apply H; [right; left|]. apply Nat.leb_le. reflexivity.
Defined.
End Sample.
